(* ===== verification/_CoqProject ===== *)
-Q . S2P
Prelude.v
GoStrings.v
Util.v
GoUrl.v
Gin.v
GoHeap.v
F64.v
GoSort.v
GoChan.v
Packet.v
Tunnel.v
Streams.v
Disaggregator.v
Aggregator.v
AggregatorSteps.v
ModuleConfig.v
AggregatorPool.v
BufPool.v
AggregatorV2.v
AggregatorV2Pool.v
Graph.v
ShortestPath.v
KShortest.v
LiveNet.v
OneWan.v
Carousel.v
CarouselRun.v
Stats.v
EdgeDomain.v
Routing.v
Server.v
Listeners.v
AcceptLoop.v
BackSourcer.v
BackPool.v
AggregatorRoute.v
Proxy.v
ProxyPool.v
Network.v
NetworkDrain.v
ProxyStart.v
ControlPlane.v
ControlStart.v
Telemetry.v
Probing.v
DataPlane.v
Api.v
