(* ===== verification/Prelude.v ===== *)
(** * Arcturus: a verification development

    Arcturus accelerates traffic to origin servers over an overlay of nodes.  It has three programs:

    - the _data proxy_ (src/data-proxy) accepts connections of users on an ingress node, packs their
      requests into tunnel packets that travel over a route of at most four hops, calls the origin on
      the last hop and sends the responses back the same way;
    - the _control plane_ (src/control-plane) keeps a graph of the nodes in etcd and answers requests
      for routes, between nodes (the middle mile) and from a user to a node (the last mile);
    - the _data plane_ (src/data-plane) measures: it probes links, samples the CPU, reads the access
      log of the proxy and reports everything to the control plane.

    ** Files

    Foundations: this file (results of Go functions with panics, [range] over maps, tactics, list
    lemmas), [GoStrings] (strings, strconv, net), [GoHeap] (container/heap), [F64] (float64 as
    [SpecFloat] with 53 bits), [GoSort] (sort.Slice), [GoChan] (steps that can block or panic, a pool of workers
    on a channel, a semaphore), [GoUrl] (net/url), [Gin] (the HTTP framework as an interface, the parts of a URL), [Util] (the
    random log prefixes of util.go).

    Data proxy:
    - [Packet.TunnelPacket]: tunnel-packet.go, the packet format byte by byte;
    - [Tunnel]: [TunnelHandler] is tunnel-handler.go ([HandleQUICPacket]), [StreamReader] the reading
      loop of tunnel-listener.go, [TunnelManager] tunnel-manager.go;
    - [Streams.TunnelListener]: the connections, streams and the semaphore of tunnel-listener.go;
    - [Disaggregator]: [ReqID] is req-id.go, [Disagg] disaggregator.go as a step relation;
    - [Aggregator] (the operations of one worker of aggregator.go), [AggregatorSteps] (its goroutines, one critical
      section at a time) and [AggregatorPool] (all workers with their goroutines and the senders with their channel);
      [AggregatorV2] (what a shard of aggregator_v2.go does differently from such a worker), [AggregatorV2Pool] (its goroutines,
      dispatcher and send workers) and [BufPool] (its pooled buffers);
      [AggregatorRoute]: the headers of what a worker sends;
    - [Server]: tcp-server.go, udp-server.go, routing.go (the handlers of one connection), tcp_rtt_linux.go;
    - [Listeners]: [Listeners] is server-manager.go and handler.go, [RateLimiter] rate-limiter.go;
      [AcceptLoop]: the loops of StartServerRun in tcp-server.go and udp-server.go;
    - [BackSourcer]: [BackSourcer] is the request of backsourcer.go with the two protocols, [ConnPool]
      tcp_pool.go; [BackPool]: the workers of backsourcer.go;
    - [ModuleConfig]: config.go of all three programs;
    - [Proxy]: the composition of server, aggregator, tunnel, back-sourcer and disaggregator along a
      route; [ProxyPool] and [Network]: any number of proxies with all their goroutines, from the aggregators to the stream
      handlers, the disaggregator and the waiting client handlers, connected by packets
      that travel hop by hop; [NetworkDrain]: that such a network can always finish;
    - [ProxyStart]: what main.go makes of a configuration, and the start of the listeners.

    Control plane:
    - [Graph]: routing/graph/update-graph.go;
    - [ShortestPath], [KShortest], [LiveNet], [OneWan], [Carousel], [CarouselRun]: the solvers of
      routing/core-domain;
    - [Stats]: aggregator/edge.go; [EdgeDomain]: the last-mile routers of routing/edge-domain;
    - [Routing]: routing/routing.go;
    - [ControlPlane]: the results of probes (tcpprobe.go, links.go), the reports (api/node.go,
      api/edge.go, aggregator/node.go), etcd (etcd_client.go), the watches of main.go and the requests
      (api/routing.go, api/probing.go);
    - [ControlStart]: [EtcdCluster] (etcd_server.go), [Replica] (the load and the watch of main.go over a history of
      etcd), [ControlStart] (main.go), [SafeMap] (safe-map.go).

    Data plane:
    - [Telemetry]: [Telemetry] (edge-domain/telemetry.go), [Sampler] (collector/cpu.go), [IPInfo]
      (util/ip-lib.go, continent.go);
    - [Probing]: the ticks and rounds of probing/tcpprobe.go and get-task.go;
    - [DataPlane]: [Collectors] and [Reporter] (collector/), [SamplerLife] (the goroutine of cpu.go),
      [IPService] (the address service and its client in the control plane), [LastReporter] (edge-domain/),
      [PlaneStart] (main.go).

    Between the programs:
    - [Api]: the HTTP routers of the three programs ([ControlApi], [PlaneApi], [ProxyApi]) with the handlers behind them,
      and the requests of the programs to each other ([Requests]), from the URL that a client builds to the answer it
      decodes.

    ** How the code is modelled

    A function that can panic returns a value of [go]; an [error] is part of the result.  State that a
    struct or package variables hold is a record that is passed along; objects that several structures
    point to (batches of the aggregator, channels of the disaggregator) live in a store under ids.
    Goroutines are step systems: a function takes a state and an event to a value of [outcome] (the next
    state, blocked, or a panic), and the theorems hold for every sequence of events.
    Integers are [Z], with the wrap-around of 16, 32 and 64 bits written out where the code relies on
    a width; float64 is [SpecFloat] in binary64 without fused operations.  Time is a number of
    nanoseconds and an argument.  The iteration order of a map is the class [RangeMap]: the theorems
    hold for every order.  What the network, the clock, random numbers, etcd and other services return
    is an argument; libraries are classes with what the code relies on: [GoMath] (package math), [SortSlice]
    (sort.Slice), [Rand] and [Chance] (math/rand), [IPv6Parser], [Limiters] (x/time/rate), [Codec] (decoding gives back what was encoded when its
    strings are valid UTF-8), [Remarshal], [ReportJson],
    [InfoJson] and [RouteJson] (encoding/json), [Yaml] (yaml.v3), [Gin] (gin).  An operation that holds a lock is one step; where the code
    gives up a lock in the middle the parts are separate steps (Deliver of the disaggregator, the start of a
    listener, the message, flush and eviction goroutines of both aggregators, whose unlocked reads are steps too, and the
    rebuilds of the last-mile table, which run in goroutines of their own;
    [sections_agree] relates the sections of the first aggregator to its operations when they run undisturbed).  Packets in pooled buffers are values;
    [pool_refines_copies] says why they may be.

    ** What is proved

    - Encoding: [packet_roundtrip], [append_refines_snoc] (the buffer, with its 16-bit lengths, against a list of sub-packets),
      [read_packet_complete], [readProcStat_roundtrip].
    - Requests and responses: [network_accounts] (in every interleaving of a network of proxies, and however often
      sends fail, every accepted request and every answer is in exactly one place, at the right proxy; the only
      panics are an eviction that races with a flush and a delivery to a client that has cleaned up; requests over the same hops
      with different ports may share a packet, so only the hops of a task are those of its request in general) and
      [network_answers_own] (every client gets the answer to its own request, once); [network_completes] (whatever
      has happened, unless a delivery is about to panic, the network can go on until every request is answered); [round_trip] follows one
      request through idle workers along its route; [aggregator_accounts], [aggregator_drains], [v2_order],
      [pool_refines_copies] are the same books, and the possibility to finish, for the aggregators; [back_workers] and [streams_bounded]
      for the back-sourcer and the listener; [no_misdelivery] and [GenShortReqID_unique] say that a response
      reaches its own waiter.
    - The servers: every handler releases what it takes ([handlers_bracketed]), serves every request of
      a keep-alive connection ([keepalive_serves_all]), and panics exactly for certain routes
      ([handler_panics]); [tables_agree], [load_bounded], [pool_accounts] are the invariants of the
      listeners, the load counters and the connection pool; [limiter_refines_client] shows that the
      shared limiter table is one limiter per client; [proxy_starts] that a proxy with different ports starts;
      [open_loop_takes] that an accept loop takes every connection, [log_access_spec] what the access log gets,
      [management_requests] what the management interface does with a URL.
    - Routes: [findShortestPath_correct], [Computing_correct], [live_Computing_correct],
      [randomDFSPaths_correct], [beamSearchSelection_correct], [dfsPathSearch_correct],
      [run_state_accounting] and [flow_ComputingMulti_correct] for the solvers, including that they
      return; [graph_invariant] for the graph they work on; [LastRouting_correct] for
      the last mile.
    - From measurements to routes: [probe_round], [probe_tick_table], [report_cycle], [probe_reaches_graph],
      [DoClusterWeightedAvg_spec], [calculateLastCongestion_spec], [collectCPU_window], [access_log_reaches_table],
      [rebuildAggregate_spec], [control_plane_answers]; [replica_complete] says that a control plane holds what is in
      etcd, [expired_nodes_stay] what the watches make of expired leases.
    - Between the programs: [requests_reach_handlers] (every request is answered by the handler meant for it) and
      [proxy_fetches_routes] (the routes that a proxy gets are the routes of the solver over the current graph).
    - Configuration and start: [ReadYamlConfig_node], [batch_num_of_origin], [cluster_agrees], [control_start],
      [client_location], [key_round_trip].
    - The other theorems of the files describe errors and flaws: [HandleQUICPacket_panic],
      [doOriginRequest_panic], [evict_race_panics], [evict_race_panicsV2], [late_message_lost], [stop_panics], [zero_task_poisons_pool],
      [shared_port_panics], [stopped_loop_spins], [documented_requests_fail], [watch_gap_loses],
      [stop_sampler], [stale_rebuild_wins], [limiter_interval_panics], [joint_negative_values], [GetNodeRT_no_fallback], [findShortestPath_not_shortest], [timed_out_link_is_free], [idle_records_grow],
      [override_order_matters] and others.

    ** Bounds and fuel

    [parse_subs] has one unit of fuel more than there are bytes, [pop_expired] one per heap entry, [up]
    and [down] the length of the heap, [exchange_sort] the length of the slice, [yen_loop] one per path
    that is asked for.  The path search has two units more than the graph has edges ([search_fuel]); that
    this is enough is part of [findShortestPath_correct], and the results of [Computing_correct] and
    [live_Computing_correct] exclude running out of fuel, as does [thetaL_of_cases] where the flow solver calls the path solver.  The depth-first searches of [OneWan] and
    [Carousel] recurse on the hops that the code itself still allows.  [transit], which says where a packet will end
    up, follows it for as many hops as its fuel, 2 for a request and 3 for a response, which is all a route of
    four addresses needs; the network itself moves packets one hop per step.

    ** Not modelled

    The QUIC, TCP, TLS and HTTP libraries, etcd and gopsutil below what their calls return; the goroutine
    scheduler below the steps above; loggers and what is only logged (DumpGraph, getNodeLatency); the pprof server; the
    generation of the TLS certificate.  What is left of the sources besides these is imports, types that a modelled type
    repeats on the other side of a JSON message, copies of a function in another program (findNodeConfig,
    GenerateRandomLetters, GetNodeRT) and constants that nothing uses. *)

From Stdlib Require Import ZArith Lia.
From stdpp Require Import base list gmap strings sorting.

(** ** Go results

    A Go function that can hit a run-time panic (index or slice out of range,
    send on a closed channel) returns a [go] value; errors that the source
    returns as [error] are part of the value. *)

Inductive go (A : Type) : Type :=
| Ret (a : A)
| Panic.
Arguments Ret {A} a.
Arguments Panic {A}.

Definition go_bind {A B} (m : go A) (f : A -> go B) : go B :=
  match m with
  | Ret a => f a
  | Panic => Panic
  end.

Declare Scope go_scope.
Delimit Scope go_scope with go.
Notation "'let!' x ':=' m 'in' k" := (go_bind m (fun x => k))
  (at level 10, x pattern, m at level 100, k at level 200) : go_scope.
Open Scope go_scope.

Lemma go_bind_Ret {A B} (m : go A) (f : A -> go B) b :
  go_bind m f = Ret b <-> exists a, m = Ret a /\ f a = Ret b.
Proof. destruct m; simpl; split; [eauto | by intros (? & [= ->] & ?) | done | by intros (? & [=] & ?)]. Qed.

(** ** Iteration over maps

    [range] visits the entries of a map in an order that the language leaves open; code that ranges
    over a map is modelled for every order. *)

Class RangeMap := {
  range_map : forall {V : Type}, gmap string V -> list (string * V);
  range_map_perm {V : Type} (m : gmap string V) : range_map m ≡ₚ map_to_list m
}.

(** One of the orders, for examples. *)
Definition key_order : RangeMap := {| range_map V m := map_to_list m; range_map_perm V m := Permutation_refl _ |}.

(** ** Automation *)

Create HintDb go_db.
Create Rewrite HintDb go_db.

(** Destruct the innermost scrutinee of a [match] or [if], in the goal or in a hypothesis. *)
Ltac case_scrut :=
  match goal with
  | |- context [match ?x with _ => _ end] => destruct x eqn:?
  | H : context [match ?x with _ => _ end] |- _ => destruct x eqn:?
  end.

(** Turn the boolean comparisons of the source into propositions. *)
Ltac bool_prop :=
  repeat match goal with
  | H : (_ <? _)%Z = true |- _ => apply Z.ltb_lt in H
  | H : (_ <? _)%Z = false |- _ => apply Z.ltb_ge in H
  | H : (_ <=? _)%Z = true |- _ => apply Z.leb_le in H
  | H : (_ <=? _)%Z = false |- _ => apply Z.leb_gt in H
  | H : (_ =? _)%Z = true |- _ => apply Z.eqb_eq in H
  | H : (_ =? _)%Z = false |- _ => apply Z.eqb_neq in H
  | H : (_ <? _)%nat = true |- _ => apply Nat.ltb_lt in H
  | H : (_ <? _)%nat = false |- _ => apply Nat.ltb_ge in H
  | H : (_ <=? _)%nat = true |- _ => apply Nat.leb_le in H
  | H : (_ <=? _)%nat = false |- _ => apply Nat.leb_gt in H
  | H : (_ =? _)%nat = true |- _ => apply Nat.eqb_eq in H
  | H : (_ =? _)%nat = false |- _ => apply Nat.eqb_neq in H
  | H : (_ && _)%bool = true |- _ => apply andb_true_iff in H as [? ?]
  | H : (_ || _)%bool = false |- _ => apply orb_false_iff in H as [? ?]
  | H : negb _ = true |- _ => apply negb_true_iff in H
  | H : negb _ = false |- _ => apply negb_false_iff in H
  | H : String.eqb _ _ = true |- _ => apply String.eqb_eq in H
  | H : String.eqb _ _ = false |- _ => apply String.eqb_neq in H
  | H : bool_decide _ = true |- _ => apply bool_decide_eq_true in H
  | H : bool_decide _ = false |- _ => apply bool_decide_eq_false in H
  end.

(** ** Machine integers

    [uintW] values are integers of [Z] in [0, 2^W); a Go conversion to a narrower
    type is [wrap]. *)

Definition wrap (w z : Z) : Z := (z mod 2 ^ w)%Z.
Abbreviation u8 := (wrap 8).
Abbreviation u16 := (wrap 16).
Abbreviation u32 := (wrap 32).
Abbreviation u64 := (wrap 64).

Definition fits (w z : Z) : Prop := (0 <= z < 2 ^ w)%Z.

#[global] Instance fits_dec w z : Decision (fits w z).
Proof. unfold fits. apply _. Defined.

Lemma wrap_fits w z : (0 <= w)%Z -> fits w (wrap w z).
Proof. intros. unfold fits, wrap. apply Z.mod_pos_bound. lia. Qed.

Lemma wrap_id w z : fits w z -> wrap w z = z.
Proof. unfold fits, wrap. intros. apply Z.mod_small. lia. Qed.

#[export] Hint Resolve wrap_fits : go_db.
#[export] Hint Rewrite wrap_id using done : go_db.

(** ** Big-endian byte strings ([encoding/binary.BigEndian])

    A byte is an integer of [Z] in [0, 256). *)

Abbreviation bytes := (list Z).

Definition put_u16 (v : Z) : bytes := [u8 (Z.shiftr v 8); u8 v].
Definition put_u32 (v : Z) : bytes :=
  [u8 (Z.shiftr v 24); u8 (Z.shiftr v 16); u8 (Z.shiftr v 8); u8 v].

(** [be l] reads a whole list as one big-endian integer; [binary.BigEndian.Uint16] and
    [Uint32] are [be] on two and four bytes. *)
Definition be (l : bytes) : Z := foldl (fun acc b => acc * 256 + b)%Z 0%Z l.

Lemma be_put_u16 v : be (put_u16 v) = u16 v.
Proof.
  unfold be, put_u16, wrap. simpl. rewrite Z.shiftr_div_pow2 by lia.
  change (2 ^ 8)%Z with 256%Z. change (2 ^ 16)%Z with (256 * 256)%Z.
  rewrite Z.rem_mul_r by lia. lia.
Qed.

Lemma be_put_u32 v : be (put_u32 v) = u32 v.
Proof.
  unfold be, put_u32, wrap. simpl. rewrite !Z.shiftr_div_pow2 by lia.
  change (2 ^ 32)%Z with (256 * (256 * (256 * 256)))%Z.
  change (2 ^ 24)%Z with (256 * 256 * 256)%Z.
  change (2 ^ 16)%Z with (256 * 256)%Z. change (2 ^ 8)%Z with 256%Z.
  rewrite !Z.rem_mul_r by lia. rewrite !Z.div_div by lia. lia.
Qed.

Lemma length_put_u16 v : length (put_u16 v) = 2%nat.
Proof. done. Qed.

Lemma length_put_u32 v : length (put_u32 v) = 4%nat.
Proof. done. Qed.

#[export] Hint Rewrite be_put_u16 be_put_u32 length_put_u16 length_put_u32 : go_db.

(** ** Slices

    [sub l i n] is the slice [l[i : i+n]]; [splice l i d] is [copy(l[i:], d)] when the
    destination has room for all of [d]. *)

Definition sub {A} (l : list A) (i n : nat) : list A := take n (drop i l).
Definition splice {A} (l : list A) (i : nat) (d : list A) : list A :=
  take i l ++ d ++ drop (i + length d) l.

Arguments sub : simpl never.
Arguments splice : simpl never.

Section Slices.
Context {A : Type}.
Implicit Types l d : list A.

Lemma length_splice l i d : i + length d <= length l -> length (splice l i d) = length l.
Proof. intros. unfold splice. rewrite !length_app, length_take, length_drop. lia. Qed.

Lemma take_splice l i d : i <= length l -> take i (splice l i d) = take i l.
Proof.
  intros. unfold splice. rewrite take_app_le by (rewrite length_take; lia).
  rewrite take_take. f_equal. lia.
Qed.

Lemma take_splice_le l i d j : i <= length l -> j <= i -> take j (splice l i d) = take j l.
Proof.
  intros. unfold splice. rewrite take_app_le by (rewrite length_take; lia).
  rewrite take_take. f_equal. lia.
Qed.

(** What was written is what is read back: the prefix up to the end of the copy. *)
Lemma take_splice_end l i d :
  i + length d <= length l -> take (i + length d) (splice l i d) = take i l ++ d.
Proof.
  intros. unfold splice.
  rewrite take_app_ge by (rewrite length_take; lia).
  rewrite length_take, Nat.min_l by lia. f_equal.
  rewrite take_app_le by lia. replace (i + length d - i) with (length d) by lia.
  apply take_ge. lia.
Qed.

Lemma drop_splice l i d k :
  i + length d <= length l -> i + length d <= k -> drop k (splice l i d) = drop k l.
Proof.
  intros. unfold splice. rewrite drop_app_ge by (rewrite length_take; lia).
  rewrite drop_app_ge by (rewrite length_take; lia).
  rewrite length_take, Nat.min_l by lia. rewrite drop_drop. f_equal. lia.
Qed.

(** Two adjacent copies are one copy of the concatenation. *)
Lemma splice_splice l i d1 d2 :
  i + length d1 + length d2 <= length l ->
  splice (splice l i d1) (i + length d1) d2 = splice l i (d1 ++ d2).
Proof.
  intros. unfold splice at 1. rewrite take_splice_end, drop_splice by lia.
  unfold splice. by rewrite length_app, <- !app_assoc, Nat.add_assoc.
Qed.

(** The slice that starts at an earlier offset and ends with the copy. *)
Lemma sub_splice_end l i d k :
  k <= i -> i + length d <= length l ->
  sub (splice l i d) k (i + length d - k) = sub l k (i - k) ++ d.
Proof.
  intros. unfold sub. rewrite !take_drop_commute. replace (k + (i + length d - k)) with (i + length d) by lia.
  rewrite take_splice_end by lia. replace (k + (i - k)) with i by lia.
  rewrite drop_app_le by (rewrite length_take; lia). done.
Qed.

Lemma sub_splice_after l i d k n :
  i + length d <= length l -> i + length d <= k -> sub (splice l i d) k n = sub l k n.
Proof. intros. unfold sub. by rewrite drop_splice by lia. Qed.

Lemma length_sub l i n : i + n <= length l -> length (sub l i n) = n.
Proof. intros. unfold sub. rewrite length_take, length_drop. lia. Qed.

Lemma sub_prefix l d i n : i + n <= length d -> sub (d ++ l) i n = sub d i n.
Proof.
  intros. unfold sub. rewrite drop_app_le by lia. rewrite take_app_le; [done|].
  rewrite length_drop. lia.
Qed.
End Slices.

(** ** Folding over the elements of a list *)

(** Replacing one element changes what the elements hold by what that element changes. *)
Lemma bind_insert {A B} (f : A -> list B) (l : list A) i x y :
  l !! i = Some x -> exists rest, mbind f l ≡ₚ f x ++ rest /\ mbind f (<[i := y]> l) ≡ₚ f y ++ rest.
Proof.
  intros Hx. exists (mbind f (take i l) ++ mbind f (drop (S i) l)). pose proof (take_drop_middle l i x Hx) as Hsplit.
  pose proof (lookup_lt_Some _ _ _ Hx). rewrite insert_take_drop by lia. rewrite <- Hsplit at 1.
  rewrite !bind_app. cbn [mbind list_bind]. split; apply Permutation_app_swap_app.
Qed.
