(* ===== verification/GoStrings.v ===== *)
(** * Strings and addresses

    The parts of [strings], [strconv] and [net] that the sources use: [Join], [Split], [Contains],
    [Itoa], [ParseUint], [ParseIP]; with the round trips that the routing code relies on when it
    stores a path as a joined string and splits it again. *)

From Stdlib Require Import ZArith Lia Ascii String.
From stdpp Require Import base list strings pretty.
From S2P Require Import Prelude.

Local Open Scope string_scope.

(** ** [strings.Join] and [strings.Split] *)

Fixpoint Join (l : list string) (sep : string) : string :=
  match l with
  | [] => ""
  | [s] => s
  | s :: rest => s +:+ sep +:+ Join rest sep
  end.

(** [skip] characters of a separator are still to be passed over; [cur] is the field being read. *)
Fixpoint split_go (sep : string) (skip : nat) (cur s : string) : list string :=
  match s with
  | EmptyString => [cur]
  | String c s' =>
      match skip with
      | S k => split_go sep k cur s'
      | O => if String.prefix sep s then cur :: split_go sep (String.length sep - 1) "" s'
             else split_go sep 0 (cur +:+ String c "") s'
      end
  end.

(** For a non-empty separator. *)
Definition Split (s sep : string) : list string := split_go sep 0 "" s.

Definition has_char (c : ascii) (s : string) : bool :=
  existsb (Ascii.eqb c) (list_ascii_of_string s).

(** [strings.Contains] with a one-character pattern. *)
Definition Contains (s : string) (c : ascii) : bool := has_char c s.

Lemma append_assoc s1 s2 s3 : (s1 +:+ s2) +:+ s3 = s1 +:+ (s2 +:+ s3).
Proof. induction s1 as [|c s1 IH]; [done|]. exact (f_equal (String c) IH). Qed.

Lemma append_nil_r s : s +:+ "" = s.
Proof. induction s as [|c s1 IH]; [done|]. exact (f_equal (String c) IH). Qed.

Lemma append_snoc cur c s : (cur +:+ String c "") +:+ s = cur +:+ String c s.
Proof. by rewrite append_assoc. Qed.

(** Separators whose fields are told apart by their last character. *)
Inductive sep_ok : string -> ascii -> Prop :=
| sep_one c : sep_ok (String c "") c
| sep_arrow c d : c <> d -> sep_ok (String c (String d "")) d.

Lemma prefix_one c c' s : String.prefix (String c "") (String c' s) = true -> c' = c.
Proof. simpl. destruct (ascii_dec c c'); [done|done]. Qed.

Lemma split_go_field sep d cur s t :
  sep_ok sep d -> has_char d s = false ->
  split_go sep 0 cur (s +:+ sep +:+ t) = (cur +:+ s) :: split_go sep 0 "" t.
Proof.
  intros Hsep. revert cur. induction s as [|c s IH]; intros cur Hno.
  - rewrite append_nil_r. destruct Hsep as [c|c d Hne]; cbn -[String.prefix]; simpl.
    + change ("" +:+ t) with t. destruct (ascii_dec c c); [|done]. by destruct t.
    + change ("" +:+ t) with t. destruct (ascii_dec c c); [|done].
      destruct (ascii_dec d d); [|done]. by destruct t.
  - unfold has_char in Hno. simpl in Hno. apply orb_false_iff in Hno as [Hc Hno].
    apply Ascii.eqb_neq in Hc.
    assert (Hp : String.prefix sep (String c (s +:+ sep +:+ t)) = false).
    { destruct Hsep as [c'|c' d Hne]; simpl.
      - destruct (ascii_dec c' c); [congruence|done].
      - destruct (ascii_dec c' c) as [->|]; [|done].
        destruct s as [|c2 s2]; simpl.
        + destruct (ascii_dec d c); [congruence|done].
        + unfold has_char in Hno. simpl in Hno. apply orb_false_iff in Hno as [Hc2 _].
          apply Ascii.eqb_neq in Hc2. destruct (ascii_dec d c2); [congruence|done]. }
    change (String c s +:+ sep +:+ t) with (String c (s +:+ sep +:+ t)).
    cbn [split_go]. rewrite Hp, IH by done. by rewrite append_snoc.
Qed.

Lemma split_go_last sep d cur s :
  sep_ok sep d -> has_char d s = false -> split_go sep 0 cur s = [cur +:+ s].
Proof.
  intros Hsep. revert cur. induction s as [|c s IH]; intros cur Hno.
  - simpl. by rewrite append_nil_r.
  - unfold has_char in Hno. simpl in Hno. apply orb_false_iff in Hno as [Hc Hno].
    apply Ascii.eqb_neq in Hc.
    assert (Hp : String.prefix sep (String c s) = false).
    { destruct Hsep as [c'|c' d Hne]; simpl.
      - destruct (ascii_dec c' c); [congruence|done].
      - destruct (ascii_dec c' c) as [->|]; [|done]. destruct s as [|c2 s2]; [done|].
        unfold has_char in Hno. simpl in Hno. apply orb_false_iff in Hno as [Hc2 _].
        apply Ascii.eqb_neq in Hc2. simpl. destruct (ascii_dec d c2); [congruence|done]. }
    cbn [split_go]. rewrite Hp, IH by done. by rewrite append_snoc.
Qed.

(** Splitting a joined list gives the list back when no field has the separator's last character. *)
Lemma Split_Join l sep d :
  sep_ok sep d -> l <> [] -> Forall (fun s => has_char d s = false) l ->
  Split (Join l sep) sep = l.
Proof.
  intros Hsep Hne Hl. unfold Split. induction Hl as [|s l Hs Hl IH]; [done|].
  destruct l as [|s2 l2]; cbn [Join].
  - by apply (split_go_last sep d).
  - rewrite (split_go_field sep d) by done. simpl. f_equal. by apply IH.
Qed.

Lemma arrow_sep : sep_ok "->" ">".
Proof. by constructor. Qed.

(** Joined paths are equal only when the paths are. *)
Lemma Join_arrow_inj l1 l2 :
  l1 <> [] -> l2 <> [] ->
  Forall (fun s => has_char ">" s = false) l1 -> Forall (fun s => has_char ">" s = false) l2 ->
  Join l1 "->" = Join l2 "->" -> l1 = l2.
Proof.
  intros H1 H2 F1 F2 He. rewrite <- (Split_Join l1 "->" ">"), <- (Split_Join l2 "->" ">") by
    (done || apply arrow_sep). by rewrite He.
Qed.

(** ** Decimal numbers *)

Definition digit_val (c : ascii) : option Z :=
  let n := Z.of_nat (nat_of_ascii c) in
  if (48 <=? n)%Z && (n <=? 57)%Z then Some (n - 48)%Z else None.

Fixpoint dec_digits (acc : Z) (s : string) : option Z :=
  match s with
  | EmptyString => Some acc
  | String c s' => d ← digit_val c; dec_digits (acc * 10 + d)%Z s'
  end.

(** [strconv.ParseUint(s, 10, 16)], whose callers ignore the error: 0 on a malformed string, the
    largest value when out of range. *)
Definition ParseUint16 (s : string) : Z :=
  match s with
  | EmptyString => 0%Z
  | _ => match dec_digits 0 s with
         | Some v => if (65535 <? v)%Z then 65535%Z else v
         | None => 0%Z
         end
  end.

Definition Itoa (n : Z) : string := pretty n.

(** [strconv.Atoi]: an optional sign and decimal digits, within 64 bits; [None] is an error. *)
Definition Atoi (s : string) : option Z :=
  let number t := match t with EmptyString => None | _ => dec_digits 0 t end in
  v ← match s with
      | String "-" t => Z.opp <$> number t
      | String "+" t => number t
      | _ => number s
      end;
  if (- 2 ^ 63 <=? v)%Z && (v <? 2 ^ 63)%Z then Some v else None.

(** ** [net.ParseIP]

    The dotted form; a string whose first [.] or [:] is a colon goes to the IPv6 parser, which is an
    interface here (the system stores hops as four bytes). *)

Class IPv6Parser := {
  parseIPv6 : string -> bytes;                            (* nil or 16 bytes *)
  parseIPv6_bytes s : Forall (fits 8) (parseIPv6 s)
}.

(** A parser that accepts nothing: an IPv4-only deployment. *)
Definition no_ipv6 : IPv6Parser := {| parseIPv6 := fun _ => []; parseIPv6_bytes := fun _ => List.Forall_nil _ |}.

Definition ip_field (s : string) : option Z :=
  match s with
  | EmptyString => None
  | String c s' =>
      if Ascii.eqb c "0" && negb (String.eqb s' "") then None  (* leading zero *)
      else v ← dec_digits 0 s; if (255 <? v)%Z then None else Some v
  end.

Definition parseIPv4 (s : string) : bytes :=
  match Split s "." with
  | [a; b; c; d] =>
      match ip_field a, ip_field b, ip_field c, ip_field d with
      | Some x, Some y, Some z, Some w => [x; y; z; w]
      | _, _, _, _ => []
      end
  | _ => []
  end.

Fixpoint first_sep (s : string) : option ascii :=
  match s with
  | EmptyString => None
  | String c s' => if Ascii.eqb c "." || Ascii.eqb c ":" then Some c else first_sep s'
  end.

(** A dotted address is returned in its 16-byte form. *)
Definition v4InV6Prefix : bytes := replicate 10 0%Z ++ [255; 255]%Z.

Definition ParseIP `{IPv6Parser} (s : string) : bytes :=
  match first_sep s with
  | Some c => if Ascii.eqb c "." then
                match parseIPv4 s with [] => [] | ip => v4InV6Prefix ++ ip end
              else parseIPv6 s
  | None => []
  end.

Lemma digit_val_nonneg c d : digit_val c = Some d -> (0 <= d)%Z.
Proof. unfold digit_val. case_match; [|done]. intros [= <-]. bool_prop. lia. Qed.

Lemma dec_digits_nonneg s acc v : (0 <= acc)%Z -> dec_digits acc s = Some v -> (0 <= v)%Z.
Proof.
  revert acc. induction s as [|c s IH]; intros acc Ha; simpl; [by intros [= <-]|].
  destruct (digit_val c) as [d|] eqn:E; [|done]. simpl. apply IH. apply digit_val_nonneg in E. lia.
Qed.

Lemma ip_field_fits s v : ip_field s = Some v -> fits 8 v.
Proof.
  unfold ip_field. destruct s as [|c s']; [done|]. case_match; [done|].
  destruct (dec_digits 0 (String c s')) as [x|] eqn:E; [|done]. cbn [mbind option_bind].
  apply dec_digits_nonneg in E; [|lia].
  destruct (Z.ltb_spec 255 x); [done|]. intros [= <-]. unfold fits. lia.
Qed.

Lemma ParseIP_bytes `{IPv6Parser} s : Forall (fits 8) (ParseIP s).
Proof.
  unfold ParseIP. destruct (first_sep s); [|constructor]. destruct (Ascii.eqb _ _); [|apply parseIPv6_bytes].
  assert (Forall (fits 8) (parseIPv4 s)).
  { unfold parseIPv4. repeat case_match; try constructor; eauto using ip_field_fits.
    repeat constructor; by eapply ip_field_fits. }
  destruct (parseIPv4 s); [constructor|]. apply Forall_app_2; [|done].
  repeat constructor; done.
Qed.

Example parse_ip_ex : parseIPv4 "104.238.177.110" = [104; 238; 177; 110]%Z.
Proof. reflexivity. Qed.

Example parse_ip_port : parseIPv4 "34.20.157.38:8082" = [].
Proof. reflexivity. Qed.

(** ** Characters of concatenations and numerals *)

Lemma has_char_cons c x s : has_char c (String x s) = Ascii.eqb c x || has_char c s.
Proof. done. Qed.

Lemma has_char_app c s1 s2 : has_char c (s1 +:+ s2) = has_char c s1 || has_char c s2.
Proof.
  induction s1 as [|x s1 IH]; [done|]. change (String x s1 +:+ s2) with (String x (s1 +:+ s2)).
  rewrite !has_char_cons, IH. apply orb_assoc.
Qed.

(** A numeral holds digits and perhaps a sign. *)
Lemma pretty_N_go_char c x s :
  (forall n, Ascii.eqb c (pretty_N_char n) = false) -> has_char c s = false -> has_char c (pretty_N_go x s) = false.
Proof.
  intros Hd. revert s. induction (N.lt_wf_0 x) as [x _ IH]; intros s Hs.
  assert (x = 0 ∨ 0 < x)%N as [->|Hx] by lia; [by rewrite pretty_N_go_0|].
  rewrite pretty_N_go_step by done. apply IH; [by apply N.div_lt|]. by rewrite has_char_cons, Hd, Hs.
Qed.

Lemma pretty_Z_char c (z : Z) :
  (forall n, Ascii.eqb c (pretty_N_char n) = false) -> Ascii.eqb c "-" = false -> has_char c (pretty z) = false.
Proof.
  intros Hd Hm. assert (Hn : forall n : N, has_char c (pretty n) = false).
  { intros n. unfold pretty, pretty_N. case_decide; [|by apply pretty_N_go_char]. rewrite has_char_cons.
    by rewrite (Hd 0%N : Ascii.eqb c "0" = false). }
  destruct z as [|p|p].
  - change (pretty 0%Z) with "0". rewrite has_char_cons. by rewrite (Hd 0%N : Ascii.eqb c "0" = false).
  - apply (Hn (Npos p)).
  - change (pretty (Z.neg p)) with ("-" +:+ pretty (Npos p)). rewrite has_char_app, (Hn (Npos p)), has_char_cons, Hm. done.
Qed.

(** ** Reading back what was printed *)

Lemma digit_val_pretty x : (x < 10)%N -> digit_val (pretty_N_char x) = Some (Z.of_N x).
Proof.
  intros Hx. assert (Hc : x ∈ [0; 1; 2; 3; 4; 5; 6; 7; 8; 9]%N).
  { rewrite !elem_of_cons, elem_of_nil. lia. }
  rewrite !elem_of_cons, elem_of_nil in Hc. naive_solver.
Qed.

Lemma dec_digits_pretty_go x s : dec_digits 0 (pretty_N_go x s) = dec_digits (Z.of_N x) s.
Proof.
  revert s. induction (N.lt_wf_0 x) as [x _ IH]; intros s.
  assert (x = 0 \/ 0 < x)%N as [->|Hx] by lia; [by rewrite pretty_N_go_0|].
  rewrite pretty_N_go_step by done. rewrite IH by (by apply N.div_lt). cbn [dec_digits].
  assert (x `mod` 10 < 10)%N by (by apply N.mod_lt). rewrite digit_val_pretty by done. cbn [mbind option_bind].
  f_equal. pose proof (N.div_mod x 10). lia.
Qed.

Lemma dec_digits_pretty (z : Z) : (0 <= z)%Z -> dec_digits 0 (pretty z) = Some z.
Proof.
  intros Hz. assert (Hn : forall n : N, dec_digits 0 (pretty n) = Some (Z.of_N n)).
  { intros n. unfold pretty, pretty_N. case_decide; [by subst|]. by rewrite dec_digits_pretty_go. }
  destruct z as [|q|q]; [done|apply (Hn (Npos q))|lia].
Qed.

Lemma Atoi_Itoa (z : Z) : (0 <= z < 2 ^ 63)%Z -> Atoi (Itoa z) = Some z.
Proof.
  intros Hz. pose proof (dec_digits_pretty z ltac:(lia)) as Hd. unfold Itoa, Atoi.
  assert (Hb : ((- 2 ^ 63 <=? z) && (z <? 2 ^ 63))%Z = true) by (apply andb_true_iff; split; [apply Z.leb_le|apply Z.ltb_lt]; lia).
  assert (Hr : forall m, m = Some z -> (v ← m; if ((- 2 ^ 63 <=? v) && (v <? 2 ^ 63))%Z then Some v else None) = Some z) by (intros m ->; cbn [mbind option_bind]; by rewrite Hb).
  apply Hr. clear Hr Hb. destruct (pretty z) as [|c t] eqn:E.
  - injection Hd as <-. discriminate E.
  - destruct c as [[] [] [] [] [] [] [] []]; try exact Hd; cbn in Hd; discriminate Hd.
Qed.

(** A numeral is not empty and is read as a port. *)
Lemma ParseUint16_pretty (z : Z) : fits 16 z -> ParseUint16 (pretty z) = z.
Proof.
  intros Hz. unfold fits in Hz. pose proof (dec_digits_pretty z ltac:(lia)) as Hd. unfold ParseUint16.
  destruct (pretty z) eqn:E; [simpl in Hd; congruence|]. rewrite Hd. by rewrite (proj2 (Z.ltb_ge 65535 z)) by lia.
Qed.

Lemma ip_field_pretty (z : Z) : fits 8 z -> ip_field (pretty z) = Some z.
Proof.
  intros Hz. assert (Hall : forallb (fun z => bool_decide (ip_field (pretty z) = Some z)) (seqZ 0 256) = true)
    by (vm_compute; reflexivity).
  apply (bool_decide_unpack (ip_field (pretty z) = Some z)), Is_true_true.
  rewrite forallb_forall in Hall. apply Hall, list_elem_of_In, elem_of_seqZ. unfold fits in Hz. lia.
Qed.

Lemma first_sep_dot s t : has_char "." s = false -> has_char ":" s = false -> first_sep (s +:+ "." +:+ t) = Some "."%char.
Proof.
  intros H1 H2. induction s as [|c s IH]; [done|].
  change (String c s +:+ "." +:+ t) with (String c (s +:+ "." +:+ t)).
  rewrite has_char_cons in H1, H2. apply orb_false_iff in H1 as [H1 H1'], H2 as [H2 H2'].
  cbn [first_sep]. rewrite (Ascii.eqb_sym c "."), H1, (Ascii.eqb_sym c ":"), H2. cbn [orb]. by apply IH.
Qed.
