(* ===== verification/Util.v ===== *)
(** * Random log prefixes (util/util.go of the three programs)

    [GenerateRandomLetters] draws the letters of a prefix for the log. *)

From Stdlib Require Import ZArith Lia Ascii String.
From stdpp Require Import base list strings.
From S2P Require Import Prelude GoStrings.

Module Util.
Local Open Scope string_scope.
Local Open Scope Z_scope.

Definition letters : string := "abcdefghijklmnopqrstuvwxyzABCDEFGHIJKLMNOPQRSTUVWXYZ".

(** [rand.Intn], the i-th call after the seeding: a number below its argument, which has to be positive. *)
Class Intn := {
  intn : nat -> Z -> Z;
  intn_bound i n : 0 < n -> 0 <= intn i n < n
}.

Section Letters.
Context `{Intn}.

Fixpoint letter_loop (i length : nat) (result : string) : go string :=
  match length with
  | O => Ret result
  | S length =>
      match String.get (Z.to_nat (intn i (Z.of_nat (String.length letters)))) letters with
      | None => Panic
      | Some c => letter_loop (S i) length (result +:+ String c "")
      end
  end.

Definition GenerateRandomLetters (length : Z) : go string := letter_loop 0 (Z.to_nat length) "".

Definition is_letter (c : ascii) : bool := has_char c letters.

Lemma get_in n s : (n < String.length s)%nat -> exists c, String.get n s = Some c /\ has_char c s = true.
Proof.
  revert n. induction s as [|d s IH]; intros n Hn; [cbn in Hn; lia|]. destruct n as [|n].
  - exists d. by rewrite has_char_cons, Ascii.eqb_refl.
  - cbn [String.length] in Hn. destruct (IH n) as (c & Hc & Hs); [lia|]. exists c. by rewrite has_char_cons, Hs, orb_true_r.
Qed.

Lemma letter_loop_ok i n result :
  exists s, letter_loop i n result = Ret (result +:+ s) /\ String.length s = n /\ forallb is_letter (list_ascii_of_string s) = true.
Proof.
  revert i result. induction n as [|n IH]; intros i result; [exists ""; by rewrite append_nil_r|]. cbn [letter_loop].
  pose proof (intn_bound i (Z.of_nat (String.length letters)) ltac:(cbn; lia)) as Hb.
  destruct (get_in (Z.to_nat (intn i (Z.of_nat (String.length letters)))) letters) as (c & -> & Hc); [lia|].
  destruct (IH (S i) (result +:+ String c "")) as (s & -> & Hl & Hs). exists (String c s). split; [by rewrite append_snoc|]. cbn [String.length]. rewrite Hl. split; [done|].
  cbn [list_ascii_of_string forallb]. by rewrite Hs, andb_true_r.
Qed.

(** A prefix has the length that was asked for, none when that is negative, and consists of letters; drawing
    it never panics. *)
Theorem GenerateRandomLetters_ok length :
  exists s, GenerateRandomLetters length = Ret s /\ Z.of_nat (String.length s) = Z.max 0 length /\ forallb is_letter (list_ascii_of_string s) = true.
Proof.
  destruct (letter_loop_ok 0 (Z.to_nat length) "") as (s & Hs & Hl & Hc). exists s. split; [exact Hs|]. split; [lia|done].
Qed.
End Letters.
End Util.
