(* ===== verification/GoUrl.v ===== *)
(** * Query strings (net/url)

    [url.QueryEscape], [url.QueryUnescape] and [url.ParseQuery] byte by byte, and the round trip that a
    program relies on when it puts an address into a URL and another reads it with [c.Query]. *)

From Stdlib Require Import ZArith Lia Ascii String.
From stdpp Require Import base list strings.
From S2P Require Import Prelude GoStrings.

Module GoUrl.

Local Open Scope string_scope.
Local Open Scope nat_scope.

(** ** [strings.Cut] with a one-character separator *)

Fixpoint Cut (s : string) (sep : ascii) : string * option string :=
  match s with
  | EmptyString => ("", None)
  | String c s' => if Ascii.eqb c sep then ("", Some s')
                   else let '(before, after) := Cut s' sep in (String c before, after)
  end.

Lemma Cut_none s sep : has_char sep s = false -> Cut s sep = (s, None).
Proof.
  induction s as [|c s IH]; [done|]. rewrite has_char_cons. intros [Hc Hs]%orb_false_iff. cbn [Cut]. rewrite (Ascii.eqb_sym c sep), Hc, IH by done. done.
Qed.

Lemma Cut_app s sep t : has_char sep s = false -> Cut (s +:+ String sep t) sep = (s, Some t).
Proof.
  induction s as [|c s IH]; [intros _; change ("" +:+ String sep t) with (String sep t); cbn [Cut]; by rewrite Ascii.eqb_refl|]. rewrite has_char_cons. intros [Hc Hs]%orb_false_iff.
  change (String c s +:+ String sep t) with (String c (s +:+ String sep t)). cbn [Cut]. rewrite (Ascii.eqb_sym c sep), Hc, IH by done. done.
Qed.

(** ** Escaping *)

Definition between (lo hi : ascii) (c : ascii) : bool := (nat_of_ascii lo <=? nat_of_ascii c) && (nat_of_ascii c <=? nat_of_ascii hi).

(** The characters that a query keeps as they are: letters, digits and [-_.~]. *)
Definition unreserved (c : ascii) : bool :=
  between "a" "z" c || between "A" "Z" c || between "0" "9" c ||
  Ascii.eqb c "-" || Ascii.eqb c "_" || Ascii.eqb c "." || Ascii.eqb c "~".

Definition upperhex (n : nat) : ascii := if n <? 10 then ascii_of_nat (48 + n) else ascii_of_nat (55 + n).

Definition escape_char (c : ascii) : string :=
  if unreserved c then String c ""
  else if Ascii.eqb c " " then "+"
  else String "%" (String (upperhex (nat_of_ascii c / 16)) (String (upperhex (nat_of_ascii c mod 16)) "")).

Fixpoint QueryEscape (s : string) : string :=
  match s with
  | EmptyString => ""
  | String c s' => escape_char c +:+ QueryEscape s'
  end.

(** ** Unescaping *)

Definition unhex (c : ascii) : option nat :=
  let n := nat_of_ascii c in
  if between "0" "9" c then Some (n - 48)
  else if between "a" "f" c then Some (n - 87)
  else if between "A" "F" c then Some (n - 55)
  else None.

(** [None] is the error of a [%] that two hexadecimal digits do not follow. *)
Fixpoint QueryUnescape (s : string) : option string :=
  match s with
  | EmptyString => Some ""
  | String c s' =>
      if Ascii.eqb c "%" then
        match s' with
        | String h (String l s'') =>
            match unhex h, unhex l with
            | Some x, Some y => String (ascii_of_nat (16 * x + y)) <$> QueryUnescape s''
            | _, _ => None
            end
        | _ => None
        end
      else String (if Ascii.eqb c "+" then " "%char else c) <$> QueryUnescape s'
  end.

(** Every byte survives, checked for all 256 of them. *)
Definition char_ok (c : ascii) : bool :=
  match escape_char c with
  | String a EmptyString => negb (Ascii.eqb a "%") && Ascii.eqb (if Ascii.eqb a "+" then " "%char else a) c
  | String a (String h (String l EmptyString)) =>
      Ascii.eqb a "%" && match unhex h, unhex l with Some x, Some y => Ascii.eqb (ascii_of_nat (16 * x + y)) c | _, _ => false end
  | _ => false
  end.

Lemma all_ascii (P : ascii -> bool) : forallb (fun n => P (ascii_of_nat n)) (seq 0 256) = true -> forall c, P c = true.
Proof.
  rewrite forallb_forall. intros Hall c. rewrite <- (ascii_nat_embedding c). apply Hall, in_seq. pose proof (nat_ascii_bounded c). lia.
Qed.

Lemma char_ok_all c : char_ok c = true.
Proof. revert c. apply all_ascii. vm_compute. reflexivity. Qed.

Lemma unescape_char c s : QueryUnescape (escape_char c +:+ s) = String c <$> QueryUnescape s.
Proof.
  pose proof (char_ok_all c) as Hc. unfold char_ok in Hc. destruct (escape_char c) as [|a [|h [|l [|]]]] eqn:E; try done; clear E.
  - apply andb_true_iff in Hc as [Ha Hc]. apply negb_true_iff in Ha. apply Ascii.eqb_eq in Hc. change (String a "" +:+ s) with (String a s).
    cbn [QueryUnescape]. by rewrite Ha, Hc.
  - apply andb_true_iff in Hc as [Ha Hc]. change (String a (String h (String l "")) +:+ s) with (String a (String h (String l s))).
    cbn [QueryUnescape]. rewrite Ha. destruct (unhex h) as [x|]; [|done]. destruct (unhex l) as [y|]; [|done]. apply Ascii.eqb_eq in Hc. by rewrite Hc.
Qed.

(** What is escaped is unescaped again, whatever its bytes. *)
Lemma unescape_escape s : QueryUnescape (QueryEscape s) = Some s.
Proof. induction s as [|c s IH]; [done|]. cbn [QueryEscape]. by rewrite unescape_char, IH. Qed.

(** Characters with a meaning in a URL do not occur in an escaped string. *)
Definition delimiter (c : ascii) : bool := Ascii.eqb c "&" || Ascii.eqb c "=" || Ascii.eqb c ";" || Ascii.eqb c "?" || Ascii.eqb c "#".

Lemma escape_char_plain d c : delimiter d = true -> has_char d (escape_char c) = false.
Proof.
  intros Hd. assert (Hin : In d ["&"; "="; ";"; "?"; "#"]%char).
  { unfold delimiter in Hd. rewrite !orb_true_iff, !Ascii.eqb_eq in Hd. cbn. intuition. }
  assert (Hall : forall c, forallb (fun d => negb (has_char d (escape_char c))) ["&"; "="; ";"; "?"; "#"]%char = true) by (apply all_ascii; vm_compute; reflexivity).
  apply negb_true_iff. exact (proj1 (forallb_forall _ _) (Hall c) d Hin).
Qed.

Lemma QueryEscape_plain d s : delimiter d = true -> has_char d (QueryEscape s) = false.
Proof. intros Hd. induction s as [|c s IH]; [done|]. cbn [QueryEscape]. by rewrite has_char_app, escape_char_plain, IH. Qed.

(** ** [url.ParseQuery] *)

(** Pieces with a semicolon or a bad escape are errors and left out. *)
Definition parse_piece (piece : string) : option (string * string) :=
  if String.eqb piece "" then None
  else if has_char ";" piece then None
  else let '(k, v) := Cut piece "=" in
       match QueryUnescape k, QueryUnescape (default "" v) with
       | Some k', Some v' => Some (k', v')
       | _, _ => None
       end.

Definition ParseQuery (query : string) : list (string * string) := omap parse_piece (Split query "&").

(** [c.Query(key)]: the first value, or the empty string. *)
Definition Query (query key : string) : string :=
  default "" (snd <$> List.find (fun kv => String.eqb (fst kv) key) (ParseQuery query)).

Lemma Split_none s c : has_char c s = false -> Split s (String c "") = [s].
Proof.
  intros Hs. pose proof (Split_Join [s] (String c "") c (sep_one c)) as H. cbn [Join] in H. apply H; [done|by repeat constructor].
Qed.

(** A query that is built of pairs: plain keys and escaped values. *)
Definition Encode (l : list (string * string)) : string := Join ((fun kv => fst kv +:+ "=" +:+ QueryEscape (snd kv)) <$> l) "&".

(** Keys without characters that have a meaning in a query. *)
Definition plain_key (key : string) : Prop :=
  key <> "" /\ forall d, (delimiter d || Ascii.eqb d "%" || Ascii.eqb d "+") = true -> has_char d key = false.

Lemma unescape_plain key : (forall d, (delimiter d || Ascii.eqb d "%" || Ascii.eqb d "+") = true -> has_char d key = false) -> QueryUnescape key = Some key.
Proof.
  induction key as [|c key IH]; [done|]. intros Hk.
  assert (Hc : forall d, (delimiter d || Ascii.eqb d "%" || Ascii.eqb d "+") = true -> Ascii.eqb d c = false /\ has_char d key = false).
  { intros d Hd. specialize (Hk d Hd). rewrite has_char_cons in Hk. by apply orb_false_iff in Hk. }
  cbn [QueryUnescape]. rewrite (Ascii.eqb_sym c "%"), (Ascii.eqb_sym c "+"), (proj1 (Hc "%"%char eq_refl)), (proj1 (Hc "+"%char eq_refl)), IH; [done|].
  intros d Hd. by apply Hc.
Qed.

Lemma pair_plain key v d :
  plain_key key -> delimiter d = true -> Ascii.eqb d "=" = false -> has_char d (key +:+ "=" +:+ QueryEscape v) = false.
Proof. intros [_ Hk] Hd He. rewrite !has_char_app, Hk, QueryEscape_plain by (rewrite ?Hd; done). cbn. by rewrite He. Qed.

Lemma parse_piece_pair key v : plain_key key -> parse_piece (key +:+ "=" +:+ QueryEscape v) = Some (key, v).
Proof.
  intros Hk. unfold parse_piece. destruct (String.eqb_spec (key +:+ "=" +:+ QueryEscape v) "") as [He|_]; [by destruct Hk as [? _], key|].
  rewrite pair_plain by done. destruct Hk as [_ Hk]. change ("=" +:+ QueryEscape v) with (String "=" (QueryEscape v)). rewrite Cut_app by (by apply Hk).
  cbn [from_option]. unfold id. by rewrite (unescape_plain _ Hk), unescape_escape.
Qed.

(** A query is read as the pairs it was built of. *)
Lemma ParseQuery_Encode l : l <> [] -> Forall (fun kv => plain_key (fst kv)) l -> ParseQuery (Encode l) = l.
Proof.
  intros Hne Hl. unfold ParseQuery, Encode. rewrite (Split_Join _ "&" "&"); [|constructor|by destruct l|].
  - clear Hne. induction Hl as [|[k v] l Hk Hl IH]; [done|]. rewrite fmap_cons. cbn [omap list_omap fst snd] in *. by rewrite parse_piece_pair, IH.
  - apply Forall_fmap. eapply Forall_impl; [exact Hl|]. intros [k v] Hk. by apply pair_plain.
Qed.

Lemma Query_Encode l key : l <> [] -> Forall (fun kv => plain_key (fst kv)) l ->
  Query (Encode l) key = default "" (snd <$> List.find (fun kv => String.eqb (fst kv) key) l).
Proof. intros. unfold Query. by rewrite ParseQuery_Encode. Qed.

(** The keys of a program are checked by computation. *)
Lemma plain_key_check key :
  (negb (String.eqb key "") && forallb (fun d => negb (has_char d key)) ["&"; "="; ";"; "?"; "#"; "%"; "+"]%char) = true -> plain_key key.
Proof.
  rewrite andb_true_iff, negb_true_iff, String.eqb_neq, forallb_forall. intros [Hne Hall]. split; [done|]. intros d Hd.
  apply negb_true_iff, Hall. unfold delimiter in Hd. rewrite !orb_true_iff, !Ascii.eqb_eq in Hd. cbn. intuition.
Qed.

(** Strings of unreserved characters are their own escapes. *)
Lemma QueryEscape_unreserved s : forallb unreserved (list_ascii_of_string s) = true -> QueryEscape s = s.
Proof.
  induction s as [|c s IH]; [done|]. cbn [list_ascii_of_string forallb]. rewrite andb_true_iff. intros [Hc Hs]. cbn [QueryEscape]. unfold escape_char. by rewrite Hc, IH.
Qed.
End GoUrl.
