(* ===== verification/Gin.v ===== *)
(** * HTTP routes and requests

    - [Gin]: what the programs use of the gin framework, as an interface: routes are registered under a
      method and a path, groups prefix their path, and a request runs the handler of its method and path;
    - [Http]: the URL of a request as net/url takes it apart, for the URLs that the programs build. *)

From Stdlib Require Import ZArith Lia Ascii String.
From stdpp Require Import base list strings.
From S2P Require Import Prelude GoStrings GoUrl.

Module Gin.
Local Open Scope string_scope.

Inductive method := GET | POST | DELETE.

#[export] Instance method_eq_dec : EqDecision method.
Proof. solve_decision. Defined.

(** Paths without parameters, wildcards and empty, [.] and [..] segments. *)
Definition segment_ok (s : string) : bool :=
  negb (String.eqb s "" || String.eqb s "." || String.eqb s ".." || has_char ":" s || has_char "*" s).

Definition static_path (p : string) : bool :=
  match p with
  | String c rest => Ascii.eqb c "/" && forallb segment_ok (Split rest "/")
  | EmptyString => false
  end.

(** The framework: an engine without routes, the registration of a route, the path of a route in a
    group, and the handler that a request runs ([None] when no route matches).  A registration with a static path under which the
    engine has no handler adds this handler and changes no other. *)
Class Gin (H : Type) := {
  engine : Type;
  New : engine;
  Handle : engine -> method -> string -> H -> go engine;
  joinPaths : string -> string -> string;
  dispatch : engine -> method -> string -> option H;
  dispatch_New m p : dispatch New m p = None;
  dispatch_Handle e m p h : static_path p = true -> dispatch e m p = None ->
    exists e', Handle e m p h = Ret e' /\ forall m' p', dispatch e' m' p' = if bool_decide ((m', p') = (m, p)) then Some h else dispatch e m' p';
  joinPaths_root p : static_path p = true -> joinPaths "/" p = p;
  joinPaths_static p q : static_path p = true -> static_path q = true -> joinPaths p q = p +:+ q
}.

Section Routes.
Context {H : Type} `{Gin H}.

(** What an engine answers, as a table. *)
Definition route : Type := method * string * H.

Fixpoint find_route (l : list route) (m : method) (p : string) : option H :=
  match l with
  | [] => None
  | (m', p', h) :: l => if bool_decide ((m, p) = (m', p')) then Some h else find_route l m p
  end.

Definition serves (e : engine) (l : list route) : Prop := forall m p, dispatch e m p = find_route l m p.

Lemma serves_New : serves New [].
Proof. intros m p. apply dispatch_New. Qed.

Lemma serves_Handle e l m p h (k : engine -> go engine) l' :
  serves e l -> static_path p = true -> find_route l m p = None ->
  (forall e', serves e' ((m, p, h) :: l) -> exists e'', k e' = Ret e'' /\ serves e'' l') ->
  exists e'', go_bind (Handle e m p h) k = Ret e'' /\ serves e'' l'.
Proof.
  intros He Hp Hn Hk. destruct (dispatch_Handle e m p h Hp) as (e' & -> & Hd); [by rewrite He|]. apply Hk. intros m' p'. rewrite Hd, He. done.
Qed.

Lemma serves_last e l m p h :
  serves e l -> static_path p = true -> find_route l m p = None -> exists e', Handle e m p h = Ret e' /\ serves e' ((m, p, h) :: l).
Proof.
  intros He Hp Hn. destruct (dispatch_Handle e m p h Hp) as (e' & Heq & Hd); [by rewrite He|]. exists e'. split; [done|]. intros m' p'. by rewrite Hd, He.
Qed.
End Routes.

(** Routes in a list; a second registration panics. *)
Definition list_gin (H : Type) : Gin H.
Proof.
  refine {| engine := list (method * string * H); New := []; joinPaths p q := if String.eqb p "/" then q else p +:+ q; dispatch := find_route;
            Handle e m p h := if find_route e m p then Panic else Ret ((m, p, h) :: e) |}.
  - done.
  - intros e m p h _ ->. eexists. split; [done|]. done.
  - done.
  - intros p q Hp _. destruct (String.eqb_spec p "/") as [->|]; [discriminate Hp|done].
Defined.
End Gin.

Module Http.
Import GoUrl.
Local Open Scope string_scope.
Local Open Scope nat_scope.

(** The characters of an authority: letters, digits and [.:-_]. *)
Definition host_char (c : ascii) : bool :=
  between "a" "z" c || between "A" "Z" c || between "0" "9" c || Ascii.eqb c "." || Ascii.eqb c ":" || Ascii.eqb c "-" || Ascii.eqb c "_".

Fixpoint all_chars (P : ascii -> bool) (s : string) : bool :=
  match s with
  | EmptyString => true
  | String c s' => P c && all_chars P s'
  end.

(** Neither a control byte, which the parser refuses, nor a space, which would break the request line. *)
Definition url_char (c : ascii) : bool := (33 <=? nat_of_ascii c) && negb (nat_of_ascii c =? 127).

Fixpoint drop_prefix (p s : string) : option string :=
  match p, s with
  | EmptyString, _ => Some s
  | String c p', String d s' => if Ascii.eqb c d then drop_prefix p' s' else None
  | _, _ => None
  end.

(** An http URL: the host, the path and the query that are sent; [None] when there is no request to
    make, or the authority is not of the form above. *)
Definition ParseURL (u : string) : option (string * string * string) :=
  if negb (all_chars url_char u) then None
  else let '(u, _) := Cut u "#" in
       match drop_prefix "http://" u with
       | None => None
       | Some rest =>
           let '(rest, query) := Cut rest "?" in
           let '(host, path) := Cut rest "/" in
           if String.eqb host "" || negb (all_chars host_char host) then None
           else Some (host, match path with Some p => String "/" p | None => "/" end, default "" query)
       end.

Lemma all_chars_app P s t : all_chars P (s +:+ t) = all_chars P s && all_chars P t.
Proof. induction s as [|c s IH]; [done|]. change (String c s +:+ t) with (String c (s +:+ t)). cbn [all_chars]. by rewrite IH, andb_assoc. Qed.

Lemma all_chars_has P d s : all_chars P s = true -> P d = false -> has_char d s = false.
Proof.
  intros Hs Hd. induction s as [|c s IH]; [done|]. cbn [all_chars] in Hs. apply andb_true_iff in Hs as [Hc Hs]. rewrite has_char_cons, IH by done.
  destruct (Ascii.eqb_spec d c) as [->|]; [by rewrite Hd in Hc|done].
Qed.

Lemma all_chars_impl P Q s : (forall c, implb (P c) (Q c) = true) -> all_chars P s = true -> all_chars Q s = true.
Proof.
  intros Hpq. induction s as [|c s IH]; [done|]. cbn [all_chars]. rewrite !andb_true_iff. intros [Hc Hs]. split; [|by apply IH].
  specialize (Hpq c). rewrite Hc in Hpq. done.
Qed.

Lemma host_url_char s : all_chars host_char s = true -> all_chars url_char s = true.
Proof. apply all_chars_impl. apply all_ascii. vm_compute. reflexivity. Qed.

Lemma escaped_url_char s : all_chars url_char (QueryEscape s) = true.
Proof.
  induction s as [|c s IH]; [done|]. cbn [QueryEscape]. rewrite all_chars_app, IH, andb_true_r. revert c.
  apply (all_ascii (fun c => all_chars url_char (escape_char c))). vm_compute. reflexivity.
Qed.

(** The URLs that the programs build are taken apart at the same places. *)
Lemma ParseURL_built host path query :
  host <> "" -> all_chars host_char host = true -> all_chars url_char path = true -> all_chars url_char query = true ->
  has_char "?" path = false -> has_char "#" path = false -> has_char "#" query = false ->
  ParseURL ("http://" +:+ host +:+ String "/" path +:+ String "?" query) = Some (host, String "/" path, query).
Proof.
  intros Hne Hh Hp Hq Hp1 Hp2 Hq2. pose proof (host_url_char _ Hh) as Hu. unfold ParseURL.
  assert (Hall : all_chars url_char ("http://" +:+ host +:+ String "/" path +:+ String "?" query) = true).
  { rewrite !all_chars_app. cbn [all_chars]. by rewrite Hu, Hp, Hq. }
  assert (Hhas : forall d, host_char d = false -> has_char d host = false) by (intros d; by apply all_chars_has).
  rewrite Hall. cbn [negb]. rewrite Cut_none by (rewrite !has_char_app, Hhas, !has_char_cons, Hp2, Hq2 by done; done).
  replace (drop_prefix "http://" _) with (Some ((host +:+ String "/" path) +:+ String "?" query)) by (by rewrite append_assoc).
  rewrite Cut_app by (rewrite has_char_app, Hhas, has_char_cons, Hp1 by done; done). rewrite Cut_app by (by apply Hhas).
  rewrite (proj2 (String.eqb_neq _ _) Hne), Hh. done.
Qed.

(** Without a query. *)
Lemma ParseURL_plain host path :
  host <> "" -> all_chars host_char host = true -> all_chars url_char path = true -> has_char "?" path = false -> has_char "#" path = false ->
  ParseURL ("http://" +:+ host +:+ String "/" path) = Some (host, String "/" path, "").
Proof.
  intros Hne Hh Hp Hp1 Hp2. pose proof (host_url_char _ Hh) as Hu. unfold ParseURL.
  assert (Hall : all_chars url_char ("http://" +:+ host +:+ String "/" path) = true) by (rewrite !all_chars_app; cbn [all_chars]; by rewrite Hu, Hp).
  assert (Hhas : forall d, host_char d = false -> has_char d host = false) by (intros d; by apply all_chars_has).
  rewrite Hall. cbn [negb]. rewrite Cut_none by (rewrite !has_char_app, Hhas, !has_char_cons, Hp2 by done; done).
  change (drop_prefix "http://" _) with (Some (host +:+ String "/" path)). cbv iota beta.
  rewrite Cut_none by (rewrite has_char_app, Hhas, has_char_cons, Hp1 by done; done). rewrite Cut_app by (by apply Hhas).
  rewrite (proj2 (String.eqb_neq _ _) Hne), Hh. done.
Qed.
(** A path and parameters. *)
Definition user_url (auth path : string) (params : list (string * string)) : string := "http://" +:+ auth +:+ path +:+ "?" +:+ Encode params.

Lemma Encode_chars l : Forall (fun kv => all_chars url_char (fst kv) = true /\ has_char "#" (fst kv) = false) l ->
  all_chars url_char (Encode l) = true /\ has_char "#" (Encode l) = false.
Proof.
  assert (Hpair : forall kv, all_chars url_char (fst kv) = true /\ has_char "#" (fst kv) = false ->
    all_chars url_char (fst kv +:+ "=" +:+ QueryEscape (snd kv)) = true /\ has_char "#" (fst kv +:+ "=" +:+ QueryEscape (snd kv)) = false).
  { intros [k v] [Hk1 Hk2]. cbn [fst snd] in *. by rewrite !all_chars_app, !has_char_app, Hk1, Hk2, escaped_url_char, QueryEscape_plain. }
  unfold Encode. induction 1 as [|kv l Hk Hl IH]; [done|]. rewrite fmap_cons. destruct (Hpair kv Hk) as [H1' H2']. destruct l as [|kv' l]; [done|].
  rewrite fmap_cons in *. cbn [Join].
  rewrite all_chars_app, has_char_app, H1', H2'. exact IH.
Qed.

Lemma ParseURL_user host rest l :
  host <> "" -> all_chars host_char host = true -> l <> [] -> Forall (fun kv => all_chars url_char (fst kv) = true /\ has_char "#" (fst kv) = false) l ->
  all_chars url_char rest = true -> has_char "?" rest = false -> has_char "#" rest = false ->
  ParseURL (user_url host (String "/" rest) l) = Some (host, String "/" rest, Encode l).
Proof. intros Hne Hh Hl Hk Hr Hr1 Hr2. destruct (Encode_chars l Hk) as [Hc He]. by apply ParseURL_built. Qed.
End Http.
