(* ===== verification/GoHeap.v ===== *)
(** * The binary heap of [container/heap]

    The heap operations that the batch aggregator ([MinHeap]) and the path search
    ([PriorityQueue]) run, over a slice whose elements carry their position in an [index] field
    that [Swap], [Push] and [Pop] maintain.  Proved once here: the operations keep the heap order
    and the index field, preserve the contents, and [Pop] removes a minimum. *)

From Stdlib Require Import ZArith Lia.
From stdpp Require Import base list.
From S2P Require Import Prelude.

Record entry (A : Type) := mkEntry { val : A; index : Z }.
Arguments mkEntry {A} val index.
Arguments val {A} e.
Arguments index {A} e.

Section Heap.
Context {A : Type} (less : A -> A -> bool).
Implicit Types h : list (entry A).

(** [Swap(i, j)]: exchange and renumber. *)
Definition heap_swap h (i j : nat) : list (entry A) :=
  match h !! i, h !! j with
  | Some x, Some y => <[j := mkEntry (val x) (Z.of_nat j)]> (<[i := mkEntry (val y) (Z.of_nat i)]> h)
  | _, _ => h
  end.

(** [Less(i, j)]. *)
Definition less_at h (i j : nat) : bool :=
  match h !! i, h !! j with
  | Some x, Some y => less (val x) (val y)
  | _, _ => false
  end.

Definition parent (j : nat) : nat := (j - 1) / 2.

(** [up(h, j)]; the index strictly decreases, so [j] is enough fuel. *)
Fixpoint up (fuel : nat) h (j : nat) : list (entry A) :=
  match fuel with
  | O => h
  | S fuel =>
      let i := parent j in
      if (i =? j)%nat || negb (less_at h j i) then h
      else up fuel (heap_swap h i j) i
  end.

(** The child [down] picks: the right one when it exists below [n] and is less than the left. *)
Definition least_child h (i n : nat) : nat :=
  let j1 := 2 * i + 1 in
  let j2 := j1 + 1 in
  if (j2 <? n)%nat && less_at h j2 j1 then j2 else j1.

(** [down(h, i, n)] with the final position; the index strictly increases below [n]. *)
Fixpoint down (fuel : nat) h (i n : nat) : list (entry A) * nat :=
  match fuel with
  | O => (h, i)
  | S fuel =>
      let j1 := 2 * i + 1 in
      if (n <=? j1)%nat then (h, i)
      else
        let j := least_child h i n in
        if negb (less_at h j i) then (h, i)
        else down fuel (heap_swap h i j) j n
  end.

(** [heap.Push(h, x)]: the [Push] method appends with [index = n]. *)
Definition heap_Push h (x : A) : list (entry A) :=
  let n := length h in
  up n (h ++ [mkEntry x (Z.of_nat n)]) n.

(** The [Pop] method: take the last element off the slice. *)
Definition take_last h : option (A * list (entry A)) :=
  match last h with
  | Some e => Some (val e, take (length h - 1) h)
  | None => None
  end.

(** [heap.Pop(h)]; [None] is the index panic on an empty slice. *)
Definition heap_Pop h : option (A * list (entry A)) :=
  let n := length h - 1 in
  take_last (fst (down n (heap_swap h 0 n) 0 n)).

(** [heap.Remove(h, i)]. *)
Definition heap_Remove h (i : nat) : option (A * list (entry A)) :=
  let n := length h - 1 in
  if (length h <=? i)%nat then None
  else
    let h1 :=
      if (n =? i)%nat then h
      else
        let '(h', pos) := down n (heap_swap h i n) i n in
        if (i <? pos)%nat then h' else up i h' i in
    take_last h1.

(** ** Contents and index field *)

Definition idx_ok h : Prop := forall i e, h !! i = Some e -> index e = Z.of_nat i.

Abbreviation vals h := (map val h).

Lemma length_heap_swap h i j : length (heap_swap h i j) = length h.
Proof. unfold heap_swap. repeat case_match; by rewrite ?length_insert. Qed.

Lemma lookup_heap_swap h i j k :
  i < length h -> j < length h ->
  val <$> heap_swap h i j !! k =
    if decide (k = j) then val <$> h !! i else if decide (k = i) then val <$> h !! j else val <$> h !! k.
Proof.
  intros Hi Hj. unfold heap_swap.
  destruct (lookup_lt_is_Some_2 h i Hi) as [x Hx]. destruct (lookup_lt_is_Some_2 h j Hj) as [y Hy].
  rewrite Hx, Hy. rewrite list_lookup_insert, length_insert. case_decide as Hd.
  - destruct Hd as [-> ?]. by rewrite decide_True.
  - rewrite decide_False by (intros ->; naive_solver). rewrite list_lookup_insert.
    repeat case_decide; naive_solver.
Qed.

Lemma vals_heap_swap h i j : vals (heap_swap h i j) ≡ₚ vals h.
Proof.
  unfold heap_swap. destruct (h !! i) as [x|] eqn:Ei; [|done]. destruct (h !! j) as [y|] eqn:Ej; [|done].
  change (@map (entry A) A val) with (@fmap list _ (entry A) A val). rewrite !list_fmap_insert. simpl.
  apply Permutation_insert_swap; by rewrite list_lookup_fmap, ?Ei, ?Ej.
Qed.

Lemma idx_ok_swap h i j : idx_ok h -> idx_ok (heap_swap h i j).
Proof.
  intros Hok. unfold heap_swap. destruct (h !! i) as [x|]; [|done]. destruct (h !! j) as [y|]; [|done].
  intros k e. rewrite !list_lookup_insert. repeat case_decide; naive_solver.
Qed.

Lemma length_up f h j : length (up f h j) = length h.
Proof.
  revert h j. induction f as [|f IH]; intros; simpl; [done|]. case_match; [done|].
  by rewrite IH, length_heap_swap.
Qed.

Lemma vals_up f h j : vals (up f h j) ≡ₚ vals h.
Proof.
  revert h j. induction f as [|f IH]; intros; simpl; [done|]. case_match; [done|].
  by rewrite IH, vals_heap_swap.
Qed.

Lemma idx_ok_up f h j : idx_ok h -> idx_ok (up f h j).
Proof.
  revert h j. induction f as [|f IH]; intros; simpl; [done|]. case_match; [done|].
  by apply IH, idx_ok_swap.
Qed.

Lemma length_down f h i n : length (fst (down f h i n)) = length h.
Proof.
  revert h i. induction f as [|f IH]; intros; simpl; [done|]. case_match; [done|].
  case_match; [done|]. by rewrite IH, length_heap_swap.
Qed.

Lemma vals_down f h i n : vals (fst (down f h i n)) ≡ₚ vals h.
Proof.
  revert h i. induction f as [|f IH]; intros; simpl; [done|]. case_match; [done|].
  case_match; [done|]. by rewrite IH, vals_heap_swap.
Qed.

Lemma idx_ok_down f h i n : idx_ok h -> idx_ok (fst (down f h i n)).
Proof.
  revert h i. induction f as [|f IH]; intros; simpl; [done|]. case_match; [done|].
  case_match; [done|]. by apply IH, idx_ok_swap.
Qed.

(** ** Heap order *)

Definition le (x y : A) : Prop := less y x = false.

(** [less] is asymmetric, and a strict weak order on the values that satisfy [P]: all values for
    [deadline.Before], the values other than NaN for [cost <]. *)
Context (P : A -> Prop).
Context (less_asym : forall x y, less x y = true -> less y x = false).
Context (le_trans : forall x y z, P y -> le x y -> le y z -> le x z).

Definition good h : Prop := Forall P (vals h).

Lemma good_perm h g : vals g ≡ₚ vals h -> good h -> good g.
Proof. unfold good. by intros ->. Qed.

Lemma good_swap h i j : good h -> good (heap_swap h i j).
Proof. apply good_perm, vals_heap_swap. Qed.

Definition key h (i : nat) : option A := val <$> h !! i.

Definition le_at h (i j : nat) : Prop :=
  forall x y, key h i = Some x -> key h j = Some y -> le x y.

Definition ordered (n : nat) h : Prop := forall k, 0 < k < n -> le_at h (parent k) k.

Lemma key_swap h i j k :
  i < length h -> j < length h ->
  key (heap_swap h i j) k = if decide (k = j) then key h i else if decide (k = i) then key h j else key h k.
Proof. apply lookup_heap_swap. Qed.

Lemma less_at_true h i j : less_at h i j = true -> le_at h i j /\ i < length h /\ j < length h.
Proof.
  unfold less_at, le_at, key. destruct (h !! i) eqn:Ei; [|done]. destruct (h !! j) eqn:Ej; [|done].
  intros Hl. split; [|eauto using lookup_lt_Some]. intros x y [= <-] [= <-]. by apply less_asym.
Qed.

Lemma less_at_false h i j : less_at h i j = false -> le_at h j i.
Proof.
  unfold less_at, le_at, key. destruct (h !! i) eqn:Ei; destruct (h !! j) eqn:Ej; simpl; naive_solver.
Qed.

Lemma le_at_trans h i j k : good h -> j < length h -> le_at h i j -> le_at h j k -> le_at h i k.
Proof.
  intros Hg Hj Hij Hjk x z Hx Hz. destruct (lookup_lt_is_Some_2 h j Hj) as [e He].
  apply (le_trans x (val e) z); [|apply Hij|apply Hjk]; auto; [|unfold key; by rewrite He..].
  apply (Forall_lookup_1 P (vals h) j); [done|]. change (vals h) with (val <$> h). by rewrite list_lookup_fmap, He.
Qed.

(** [le_at] after a swap, by renaming the two positions. *)
Definition ren (i j k : nat) : nat := if decide (k = j) then i else if decide (k = i) then j else k.

Lemma le_at_swap h i j a b :
  i < length h -> j < length h ->
  le_at (heap_swap h i j) a b <-> le_at h (ren i j a) (ren i j b).
Proof.
  intros Hi Hj. unfold le_at, ren. rewrite !key_swap by done. by repeat case_decide.
Qed.

Lemma parent_lt k : 0 < k -> parent k < k.
Proof. intros. unfold parent. apply Nat.Div0.div_lt_upper_bound; lia. Qed.

Lemma parent_child k i : 0 < k -> parent k = i <-> k = 2 * i + 1 \/ k = 2 * i + 2.
Proof.
  intros Hk. unfold parent. pose proof (Nat.div_mod_eq (k - 1) 2) as Hd.
  pose proof (Nat.mod_upper_bound (k - 1) 2). split; [lia|].
  intros [-> | ->].
  - replace (2 * i + 1 - 1) with (i * 2) by lia. apply Nat.div_mul. lia.
  - replace (2 * i + 2 - 1) with (1 + i * 2) by lia. rewrite Nat.div_add by lia. done.
Qed.

Ltac ren_cases :=
  unfold ren; repeat case_decide; lia.

(** Sifting up repairs one violation, at [j] against its parent. *)
Lemma up_ordered f n h j :
  good h -> j <= f -> j < n -> n <= length h ->
  (forall k, 0 < k < n -> k <> j -> le_at h (parent k) k) ->
  (forall k, 0 < k < n -> parent k = j -> 0 < j -> le_at h (parent j) k) ->
  ordered n (up f h j).
Proof.
  revert h j. induction f as [|f IH]; intros h j Hgd Hf Hjn Hn H1 H2.
  { assert (j = 0) as -> by lia. intros k Hk. apply H1; lia. }
  cbn [up]. destruct (Nat.eqb_spec (parent j) j) as [He|He]; cbn [orb].
  { intros k Hk. apply H1; [done|]. intros ->. pose proof (parent_lt j). lia. }
  destruct (less_at h j (parent j)) eqn:Hl; cbn [negb].
  2:{ intros k Hk. destruct (decide (k = j)) as [->|]; [by apply less_at_false|by apply H1]. }
  assert (0 < j) as Hj0 by (destruct j; [done|lia]). pose proof (parent_lt j Hj0) as Hpj.
  apply less_at_true in Hl as (Hle & _ & _). set (i := parent j) in *.
  apply IH; [by apply good_swap|lia|lia|by rewrite length_heap_swap| |].
  - intros k Hk Hki. rewrite le_at_swap by lia. pose proof (parent_lt k).
    destruct (decide (k = j)) as [->|Hkj].
    { fold i. replace (ren i j i) with j by ren_cases.
      by replace (ren i j j) with i by ren_cases. }
    destruct (decide (parent k = i)) as [Hp|Hp].
    { rewrite Hp. replace (ren i j i) with j by ren_cases. replace (ren i j k) with k by ren_cases.
      apply (le_at_trans _ _ i); [done|lia|done|]. rewrite <- Hp. apply H1; lia. }
    destruct (decide (parent k = j)) as [Hq|Hq].
    { rewrite Hq. replace (ren i j j) with i by ren_cases. replace (ren i j k) with k by ren_cases.
      by apply H2. }
    replace (ren i j (parent k)) with (parent k) by ren_cases.
    replace (ren i j k) with k by ren_cases. apply H1; lia.
  - intros k Hk Hki Hi0. rewrite le_at_swap by lia. pose proof (parent_lt i Hi0).
    replace (ren i j (parent i)) with (parent i) by ren_cases.
    assert (Hpi : le_at h (parent i) i) by (apply H1; lia).
    destruct (decide (k = j)) as [->|Hkj]; [by replace (ren i j j) with i by ren_cases|].
    pose proof (parent_lt k). replace (ren i j k) with k by ren_cases.
    apply (le_at_trans _ _ i); [done|lia|done|]. rewrite <- Hki. apply H1; lia.
Qed.

(** The child that [down] compares with is the least child below [n]. *)
Lemma down_child h i n j :
  2 * i + 1 < n -> n <= length h ->
  j = least_child h i n ->
  j < n /\ i < j /\ parent j = i /\ forall k, 0 < k < n -> parent k = i -> k <> j -> le_at h j k.
Proof.
  intros Hlt Hn ->. unfold least_child. destruct (Nat.ltb_spec (2 * i + 1 + 1) n) as [H2|H2]; cbn [andb].
  - destruct (less_at h (2 * i + 1 + 1) (2 * i + 1)) eqn:Hl.
    + split; [lia|]. split; [lia|]. split; [apply parent_child; lia|].
      intros k Hk Hp Hne. apply parent_child in Hp; [|lia].
      replace k with (2 * i + 1) by lia. by apply less_at_true.
    + split; [lia|]. split; [lia|]. split; [apply parent_child; lia|].
      intros k Hk Hp Hne. apply parent_child in Hp; [|lia].
      replace k with (2 * i + 1 + 1) by lia. by apply less_at_false.
  - split; [lia|]. split; [lia|]. split; [apply parent_child; lia|].
    intros k Hk Hp Hne. apply parent_child in Hp; [|lia]. lia.
Qed.

(** One step of [down] moves the violation from [i] to its least child [j]. *)
Lemma down_step h i n j :
  n <= length h -> j < n -> i < j -> parent j = i ->
  (forall k, 0 < k < n -> parent k = i -> k <> j -> le_at h j k) ->
  less_at h j i = true ->
  (forall k, 0 < k < n -> k <> i -> parent k <> i -> le_at h (parent k) k) ->
  (forall k, 0 < k < n -> parent k = i -> 0 < i -> le_at h (parent i) k) ->
  let h' := heap_swap h i j in
  (forall k, 0 < k < n -> parent k <> j -> le_at h' (parent k) k) /\
  (forall k, 0 < k < n -> parent k = j -> 0 < j -> le_at h' (parent j) k).
Proof.
  intros Hn Hj Hij Hpj Hmin Hl H1 H2 h'. apply less_at_true in Hl as (Hle & _ & _). split.
  - intros k Hk Hkj. unfold h'. rewrite le_at_swap by lia. pose proof (parent_lt k).
    destruct (decide (k = i)) as [->|Hki].
    { replace (ren i j (parent i)) with (parent i) by ren_cases.
      replace (ren i j i) with j by ren_cases. apply H2; lia. }
    destruct (decide (parent k = i)) as [Hp|Hp].
    { rewrite Hp. replace (ren i j i) with j by ren_cases.
      destruct (decide (k = j)) as [->|]; [by replace (ren i j j) with i by ren_cases|].
      replace (ren i j k) with k by ren_cases. by apply Hmin. }
    replace (ren i j (parent k)) with (parent k) by ren_cases.
    assert (k <> j) by (intros ->; lia).
    replace (ren i j k) with k by ren_cases. by apply H1.
  - intros k Hk Hkj Hj0. unfold h'. rewrite le_at_swap by lia. rewrite Hpj.
    replace (ren i j i) with j by ren_cases. pose proof (parent_lt k).
    replace (ren i j k) with k by ren_cases. rewrite <- Hkj. apply H1; lia.
Qed.

(** Sifting down from [i] when only the pairs below [i] can be violated. *)
Lemma down_ordered f n h i :
  good h -> n <= f + i -> n <= length h ->
  (forall k, 0 < k < n -> parent k <> i -> le_at h (parent k) k) ->
  (forall k, 0 < k < n -> parent k = i -> 0 < i -> le_at h (parent i) k) ->
  ordered n (fst (down f h i n)).
Proof.
  revert h i. induction f as [|f IH]; intros h i Hgd Hf Hn H1 H2.
  { intros k Hk. apply H1; [done|]. pose proof (parent_lt k). lia. }
  cbn [down]. destruct (Nat.leb_spec n (2 * i + 1)) as [Hge|Hlt].
  { intros k Hk. apply H1; [done|]. intros Hp. apply parent_child in Hp; lia. }
  remember (least_child h i n) as j eqn:Ej.
  destruct (down_child h i n j Hlt Hn Ej) as (Hj & Hij & Hpj & Hmin).
  destruct (less_at h j i) eqn:Hl; cbn [negb].
  - destruct (down_step h i n j) as [H1' H2']; auto.
    apply IH; [by apply good_swap|lia|by rewrite length_heap_swap|done|done].
  - apply less_at_false in Hl. intros k Hk.
    destruct (decide (parent k = i)) as [Hp|]; [|by apply H1]. cbn [fst].
    destruct (decide (k = j)) as [->|]; [by rewrite Hpj|].
    rewrite Hp. apply (le_at_trans _ _ j); [done|lia|done|by apply Hmin].
Qed.

(** [down] from a position that may also be wrong against its parent ([Remove]). *)
Lemma down_weak f n h i :
  good h -> n <= S f + i -> n <= length h -> i < n ->
  (forall k, 0 < k < n -> k <> i -> parent k <> i -> le_at h (parent k) k) ->
  (forall k, 0 < k < n -> parent k = i -> 0 < i -> le_at h (parent i) k) ->
  let '(h', pos) := down (S f) h i n in
  i <= pos /\ (i < pos -> ordered n h') /\
  (pos <= i -> h' = h /\ forall k, 0 < k < n -> k <> i -> le_at h (parent k) k).
Proof.
  intros Hgd Hf Hn Hin H1 H2. destruct (down (S f) h i n) as [h' pos] eqn:Ed. revert Ed. cbn [down].
  destruct (Nat.leb_spec n (2 * i + 1)) as [Hge|Hlt].
  { intros [= <- <-]. split; [lia|]. split; [lia|]. intros _. split; [done|]. intros k Hk Hki.
    apply H1; [done..|]. intros Hp. apply parent_child in Hp; lia. }
  remember (least_child h i n) as j eqn:Ej.
  destruct (down_child h i n j Hlt Hn Ej) as (Hj & Hij & Hpj & Hmin).
  destruct (less_at h j i) eqn:Hl; cbn [negb].
  - intros Ed. destruct (down_step h i n j) as [H1' H2']; auto.
    assert (Hpos : j <= pos).
    { revert Ed. generalize (heap_swap h i j) as g. clear -f. revert j.
      induction f as [|f IH]; intros j g; [by intros [= _ <-]|]. cbn [down].
      case_match; [by intros [= _ <-]|]. case_match; [by intros [= _ <-]|].
      intros Ed. apply IH in Ed. revert Ed. unfold least_child. case_match; lia. }
    split; [lia|]. split; [|lia]. intros _.
    change h' with (fst (h', pos)). rewrite <- Ed.
    apply down_ordered; [by apply good_swap|lia|by rewrite length_heap_swap|done|done].
  - intros [= <- <-]. apply less_at_false in Hl. split; [lia|]. split; [lia|]. intros _.
    split; [done|]. intros k Hk Hki.
    destruct (decide (parent k = i)) as [Hp|]; [|by apply H1].
    destruct (decide (k = j)) as [->|]; [by rewrite Hpj|].
    rewrite Hp. apply (le_at_trans _ _ j); [done|lia|done|by apply Hmin].
Qed.

Lemma ordered_min n h k : good h -> n <= length h -> ordered n h -> k < n -> le_at h 0 k \/ k = 0.
Proof.
  intros Hgd Hn Ho. induction (lt_wf k) as [k _ IH]. intros Hk.
  destruct (decide (k = 0)) as [|Hk0]; [by right|]. left.
  pose proof (parent_lt k). destruct (IH (parent k)) as [Hp|Hp]; [lia|lia| |].
  - apply (le_at_trans _ _ (parent k)); [done|lia|done|]. apply Ho. lia.
  - rewrite <- Hp at 1. apply Ho. lia.
Qed.

(** ** Positions that the two loops do not touch *)

Lemma key_down_ge f h i n k :
  i < n -> n <= length h -> n <= k -> key (fst (down f h i n)) k = key h k.
Proof.
  revert h i. induction f as [|f IH]; intros h i Hi Hn Hk; [done|]. cbn [down].
  destruct (Nat.leb_spec n (2 * i + 1)); [done|]. case_match; [done|].
  assert (Hlc : i < least_child h i n < n)
    by (unfold least_child; destruct (Nat.ltb_spec (2 * i + 1 + 1) n); cbn [andb]; [case_match|]; lia).
  rewrite IH by (rewrite ?length_heap_swap; lia). rewrite key_swap by lia.
  by rewrite !decide_False by lia.
Qed.

Lemma key_up_gt f h j k : j < length h -> j < k -> key (up f h j) k = key h k.
Proof.
  revert h j. induction f as [|f IH]; intros h j Hj Hk; [done|]. cbn [up].
  destruct (Nat.eqb_spec (parent j) j) as [|He]; [done|]. cbn [orb]. case_match; [done|].
  assert (0 < j) as Hj0 by (destruct j; [done|lia]). pose proof (parent_lt j Hj0).
  rewrite IH by (rewrite ?length_heap_swap; lia). rewrite key_swap by lia.
  by rewrite !decide_False by lia.
Qed.

Lemma take_last_spec h n x :
  length h = S n -> key h n = Some x ->
  take_last h = Some (x, take n h) /\ vals h ≡ₚ x :: vals (take n h).
Proof.
  intros Hl Hk. unfold key in Hk. destruct (h !! n) as [e|] eqn:He; [|done]. injection Hk as <-.
  assert (h = take n h ++ [e]) as Hh.
  { rewrite <- (take_drop n h) at 1. f_equal. erewrite drop_S by done.
    by rewrite drop_ge by lia. }
  unfold take_last. rewrite Hl. replace (S n - 1) with n by lia. split.
  - rewrite Hh at 1. by rewrite last_snoc.
  - rewrite Hh at 1. rewrite map_app. simpl. apply Permutation_app_comm.
Qed.

Lemma ordered_take n m h : n <= m -> ordered m h -> ordered n (take n h).
Proof.
  intros Hnm Ho k Hk x y. unfold key. pose proof (parent_lt k).
  rewrite !lookup_take_lt by lia. apply Ho. lia.
Qed.

Lemma idx_ok_take n h : idx_ok h -> idx_ok (take n h).
Proof. intros Hok i e Hl. apply lookup_take_Some in Hl as [Hl _]. by apply Hok. Qed.

(** ** Specifications of the three operations *)

Record heap_ok h : Prop := { ok_order : ordered (length h) h; ok_idx : idx_ok h; ok_good : good h }.

Lemma heap_ok_nil : heap_ok [].
Proof. constructor; [intros k; simpl; lia|done|constructor]. Qed.

Lemma heap_Push_spec h x :
  heap_ok h -> P x -> heap_ok (heap_Push h x) /\ vals (heap_Push h x) ≡ₚ x :: vals h.
Proof.
  intros [Ho Hi Hgd] Hx. unfold heap_Push. set (g := h ++ _).
  assert (Hg : length g = S (length h)) by (unfold g; rewrite length_app; simpl; lia).
  assert (Hvg : vals g ≡ₚ x :: vals h) by (unfold g; rewrite map_app; simpl; apply Permutation_app_comm).
  assert (Hgg : good g) by (unfold good; rewrite Hvg; by constructor).
  split; [constructor|].
  - rewrite length_up, Hg. apply up_ordered; [done|lia|lia|lia| |].
    + intros k Hk Hne a b. pose proof (parent_lt k). unfold key, g.
      rewrite !lookup_app_l by lia. apply Ho. lia.
    + intros k Hk Hp. pose proof (parent_lt k). lia.
  - apply idx_ok_up. intros i e. unfold g. rewrite lookup_app_Some.
    intros [?|[Hge He]]; [by apply Hi|]. apply list_lookup_singleton_Some in He as [? <-].
    simpl. lia.
  - apply (good_perm g); [apply vals_up|done].
  - by rewrite vals_up.
Qed.

Lemma heap_Remove_spec h i :
  heap_ok h -> i < length h ->
  exists x h', heap_Remove h i = Some (x, h') /\ key h i = Some x /\
    vals h ≡ₚ x :: vals h' /\ heap_ok h'.
Proof.
  intros [Ho Hi Hgd] Hlt. unfold heap_Remove. rewrite (proj2 (Nat.leb_gt _ _)) by lia.
  set (n := length h - 1). destruct (lookup_lt_is_Some_2 h i Hlt) as [e He].
  assert (Hkey : key h i = Some (val e)) by (unfold key; by rewrite He).
  exists (val e).
  (* the array before its last element is taken off *)
  enough (exists g, (if (n =? i)%nat then h else let '(h', pos) := down n (heap_swap h i n) i n in
                      if (i <? pos)%nat then h' else up i h' i) = g /\
            length g = S n /\ key g n = Some (val e) /\ vals g ≡ₚ vals h /\ ordered n g /\ idx_ok g)
    as (g & -> & Hlg & Hkg & Hvg & Hog & Hig).
  { destruct (take_last_spec g n (val e) Hlg Hkg) as [Ht Hv].
    exists (take n g). rewrite Ht. split; [done|]. split; [done|].
    split; [by rewrite <- Hv|]. constructor; [|by apply idx_ok_take|].
    - rewrite length_take, Hlg, Nat.min_l by lia. by apply (ordered_take n n).
    - apply (good_perm _ g) in Hgd; [|done]. unfold good in *. rewrite Hv in Hgd. by apply Forall_cons in Hgd as [_ ?]. }
  destruct (Nat.eqb_spec n i) as [Hni|Hni].
  { exists h. split; [done|]. split; [lia|]. split; [by rewrite Hni|]. split; [done|].
    split; [|done]. intros k Hk. apply Ho. lia. }
  set (g0 := heap_swap h i n).
  assert (Hl0 : length g0 = S n) by (unfold g0; rewrite length_heap_swap; lia).
  assert (Hk0 : key g0 n = Some (val e)).
  { unfold g0. rewrite key_swap by lia. by rewrite decide_True. }
  assert (H1 : forall k, 0 < k < n -> k <> i -> parent k <> i -> le_at g0 (parent k) k).
  { intros k Hk Hki Hp. unfold g0. rewrite le_at_swap by lia. pose proof (parent_lt k).
    replace (ren i n (parent k)) with (parent k) by ren_cases.
    replace (ren i n k) with k by ren_cases. apply Ho. lia. }
  assert (H2 : forall k, 0 < k < n -> parent k = i -> 0 < i -> le_at g0 (parent i) k).
  { intros k Hk Hp Hi0. unfold g0. rewrite le_at_swap by lia. pose proof (parent_lt k).
    pose proof (parent_lt i Hi0). replace (ren i n (parent i)) with (parent i) by ren_cases.
    replace (ren i n k) with k by ren_cases.
    apply (le_at_trans _ _ i); [done|lia|apply Ho; lia|]. rewrite <- Hp. apply Ho. lia. }
  destruct n as [|f] eqn:En; [lia|].
  assert (Hg0 : good g0) by (by apply good_swap).
  pose proof (down_weak f (S f) g0 i Hg0 ltac:(lia) ltac:(lia) ltac:(lia) H1 H2) as Hd.
  pose proof (length_down (S f) g0 i (S f)) as Hld.
  pose proof (vals_down (S f) g0 i (S f)) as Hvd.
  pose proof (idx_ok_down (S f) g0 i (S f) (idx_ok_swap _ _ _ Hi)) as Hid.
  pose proof (key_down_ge (S f) g0 i (S f) (S f) ltac:(lia) ltac:(lia) ltac:(lia)) as Hkd.
  assert (Hv0 : vals g0 ≡ₚ vals h) by apply vals_heap_swap.
  destruct (down (S f) g0 i (S f)) as [h' pos]. cbn [fst] in *.
  destruct Hd as (Hge & Hmoved & Hstay). eexists. split; [done|].
  destruct (Nat.ltb_spec i pos) as [Hm|Hm].
  - split; [lia|]. split; [by rewrite Hkd|]. split; [by rewrite Hvd|]. split; [by apply Hmoved|done].
  - destruct (Hstay Hm) as [-> Hrest]. rewrite length_up, vals_up.
    split; [lia|]. split; [by rewrite key_up_gt by lia|]. split; [done|].
    split; [|by apply idx_ok_up, idx_ok_swap].
    apply up_ordered; [done|lia|lia|lia|done|]. intros k Hk Hp Hi0. by apply H2.
Qed.

Lemma heap_Pop_spec h :
  heap_ok h -> h <> [] ->
  exists x h', heap_Pop h = Some (x, h') /\ key h 0 = Some x /\
    vals h ≡ₚ x :: vals h' /\ heap_ok h' /\ Forall (le x) (vals h').
Proof.
  intros Hok Hne. assert (Hl : 0 < length h) by (destruct h; [done|simpl; lia]).
  pose proof Hok as [Ho Hi Hgd]. unfold heap_Pop. set (n := length h - 1).
  destruct (lookup_lt_is_Some_2 h 0 Hl) as [e He].
  assert (Hkey : key h 0 = Some (val e)) by (unfold key; by rewrite He).
  set (g := fst (down n (heap_swap h 0 n) 0 n)).
  assert (Hlg : length g = S n) by (unfold g; rewrite length_down, length_heap_swap; lia).
  assert (Hvg : vals g ≡ₚ vals h) by (unfold g; by rewrite vals_down, vals_heap_swap).
  assert (Hkg : key g n = Some (val e)).
  { unfold g. destruct (decide (n = 0)) as [Hn0|].
    - rewrite Hn0. simpl. rewrite key_swap by lia. by rewrite decide_True.
    - rewrite key_down_ge by (rewrite ?length_heap_swap; lia). rewrite key_swap by lia.
      by rewrite decide_True. }
  assert (Hog : ordered n g).
  { unfold g. apply down_ordered; [by apply good_swap|lia|rewrite length_heap_swap; lia| |lia].
    intros k Hk Hp. rewrite le_at_swap by lia. pose proof (parent_lt k).
    replace (ren 0 n (parent k)) with (parent k) by ren_cases.
    replace (ren 0 n k) with k by ren_cases. apply Ho. lia. }
  destruct (take_last_spec g n (val e) Hlg Hkg) as [Ht Hv].
  exists (val e), (take n g). split; [done|]. split; [done|].
  assert (Hperm : vals h ≡ₚ val e :: vals (take n g)) by (by rewrite <- Hv).
  split; [done|]. split.
  { constructor; [|apply idx_ok_take, idx_ok_down, idx_ok_swap, Hi|].
    - rewrite length_take, Hlg, Nat.min_l by lia. by apply (ordered_take n n).
    - unfold good in *. rewrite Hperm in Hgd. by apply Forall_cons in Hgd as [_ ?]. }
  apply Forall_forall. intros y Hy.
  assert (y ∈ vals h) as Hy' by (rewrite Hperm; by right).
  apply list_elem_of_fmap in Hy' as (e' & -> & He'). apply list_elem_of_lookup in He' as [k Hk].
  destruct (ordered_min (length h) h k) as [Hm| ->]; [done|lia|done|by eapply lookup_lt_Some| |].
  - apply Hm; [done|]. unfold key. by rewrite Hk.
  - rewrite He in Hk. injection Hk as <-. unfold le. destruct (less (val e) (val e)) eqn:E; [|done].
    by rewrite (less_asym _ _ E) in E.
Qed.
End Heap.
