(* ===== verification/F64.v ===== *)
(** * Go's float64

    IEEE 754 binary64 numbers as the [spec_float] of the Standard Library at precision 53 and maximal
    exponent 1024: the operations are executable and round to nearest even as the hardware does.  The
    lemmas are what path costs need: [<] is a strict weak order on the numbers that are not NaN, and
    adding a non-negative number never makes a non-negative number smaller, whatever the rounding. *)

From Stdlib Require Import ZArith Lia SpecFloat.
From stdpp Require Import base list.
From S2P Require Import Prelude.

Abbreviation float64 := spec_float.

Definition fadd : float64 -> float64 -> float64 := SFadd 53 1024.
Definition fsub : float64 -> float64 -> float64 := SFsub 53 1024.
Definition fmul : float64 -> float64 -> float64 := SFmul 53 1024.
Definition fdiv : float64 -> float64 -> float64 := SFdiv 53 1024.
Definition flt : float64 -> float64 -> bool := SFltb.
Definition fle : float64 -> float64 -> bool := SFleb.
Definition feq : float64 -> float64 -> bool := SFeqb.

(** [float64(n)] for an integer, and the literal [n / d] (both exactly representable, so that the
    quotient is the nearest number to the decimal literal). *)
Definition of_Z (n : Z) : float64 := binary_normalize 53 1024 n 0 false.
Definition lit (n d : Z) : float64 := fdiv (of_Z n) (of_Z d).

Definition fzero : float64 := S754_zero false.
Definition fone : float64 := of_Z 1.
Definition finf : float64 := S754_infinity false.
Definition fnan : float64 := S754_nan.

#[global] Instance float64_eq_dec : EqDecision float64.
Proof. solve_decision. Defined.

Definition is_nan (x : float64) : bool := match x with S754_nan => true | _ => false end.

(** A float64 that the hardware can hold. *)
Definition valid (x : float64) : Prop := valid_binary 53 1024 x = true.

(** Not NaN, and zero or without sign. *)
Definition nonneg (x : float64) : Prop :=
  match x with
  | S754_zero _ => True
  | S754_infinity s | S754_finite s _ _ => s = false
  | S754_nan => False
  end.

Definition weight_ok (x : float64) : Prop := valid x /\ nonneg x.

#[global] Instance valid_dec x : Decision (valid x).
Proof. unfold valid. apply _. Defined.

#[global] Instance nonneg_dec x : Decision (nonneg x).
Proof. destruct x; simpl; apply _. Defined.

#[global] Instance weight_ok_dec x : Decision (weight_ok x).
Proof. unfold weight_ok. apply _. Defined.

Local Open Scope Z_scope.

(** ** Order *)

(** The order of the numbers as that of triples of integers. *)
Definition rank (x : float64) : Z * Z * Z :=
  match x with
  | S754_nan => (0, 0, 0)
  | S754_zero _ => (0, 0, 0)
  | S754_infinity s => if s then (-2, 0, 0) else (2, 0, 0)
  | S754_finite s m e => if s then (-1, - e, - Zpos m) else (1, e, Zpos m)
  end.

Definition lex (a b : Z * Z * Z) : Prop :=
  let '(a1, a2, a3) := a in let '(b1, b2, b3) := b in
  a1 < b1 \/ a1 = b1 /\ (a2 < b2 \/ a2 = b2 /\ a3 < b3).

Lemma flt_rank x y : flt x y = true <-> is_nan x = false /\ is_nan y = false /\ lex (rank x) (rank y).
Proof.
  unfold flt, SFltb, SFcompare.
  assert (Hp : forall m n, Pos.compare_cont Eq m n = (Zpos m ?= Zpos n)) by done.
  destruct x as [[]|[]| |[] mx ex], y as [[]|[]| |[] my ey]; cbn [is_nan rank lex];
    rewrite ?Hp; try (split; [intros; discriminate|]; intros (?&?&?); exfalso; (discriminate || lia));
    try (split; [intros _; split_and!; try done; lia|done]).
  - destruct (Z.compare_spec ex ey); [destruct (Z.compare_spec (Zpos mx) (Zpos my))| |]; cbn [CompOpp];
      split; try done; try (intros _; split_and!; try done; lia); intros (_ & _ & ?); exfalso; lia.
  - destruct (Z.compare_spec ex ey); [destruct (Z.compare_spec (Zpos mx) (Zpos my))| |]; cbn [CompOpp];
      split; try done; try (intros _; split_and!; try done; lia); intros (_ & _ & ?); exfalso; lia.
Qed.

Lemma lex_asym a b : lex a b -> ~ lex b a.
Proof. destruct a as [[]], b as [[]]; simpl; lia. Qed.

Lemma lex_cotrans a b c : lex a c -> lex a b \/ lex b c.
Proof. destruct a as [[]], b as [[]], c as [[]]; simpl; lia. Qed.

Lemma flt_asym x y : flt x y = true -> flt y x = false.
Proof.
  intros (_ & _ & H)%flt_rank. destruct (flt y x) eqn:E; [|done].
  apply flt_rank in E as (_ & _ & E). by apply lex_asym in H.
Qed.

Lemma flt_irrefl x : flt x x = false.
Proof. destruct (flt x x) eqn:E; [|done]. by rewrite (flt_asym _ _ E) in E. Qed.

(** [flt y x = false] is [x <= y] for numbers; it is transitive through a middle that is not NaN. *)
Lemma fge_trans x y z : is_nan y = false -> flt y x = false -> flt z y = false -> flt z x = false.
Proof.
  intros Hy Hyx Hzy. destruct (flt z x) eqn:E; [|done]. apply flt_rank in E as (Hz & Hx & E).
  destruct (lex_cotrans _ (rank y) _ E) as [H|H].
  - rewrite (proj2 (flt_rank z y)) in Hzy by done. done.
  - rewrite (proj2 (flt_rank y x)) in Hyx by done. done.
Qed.

Lemma flt_trans x y z : flt x y = true -> flt y z = true -> flt x z = true.
Proof.
  rewrite !flt_rank. intros (Hx & Hy & H1) (_ & Hz & H2). split_and!; try done.
  destruct (rank x) as [[]], (rank y) as [[]], (rank z) as [[]]; simpl in *; lia.
Qed.

(** [x <= y < z] and [x < y <= z]. *)
Lemma fle_lt_trans x y z : is_nan x = false -> flt y x = false -> flt y z = true -> flt x z = true.
Proof.
  intros Hx H1 H2. pose proof (proj1 (flt_rank y z) H2) as (Hy & Hz & H2').
  apply flt_rank. split_and!; try done. destruct (lex_cotrans _ (rank x) _ H2') as [H|H]; [|done].
  rewrite (proj2 (flt_rank y x)) in H1 by done. done.
Qed.

Lemma flt_le_trans x y z : is_nan z = false -> flt x y = true -> flt z y = false -> flt x z = true.
Proof.
  intros Hz H2 H1. pose proof (proj1 (flt_rank x y) H2) as (Hx & Hy & H2').
  apply flt_rank. split_and!; try done. destruct (lex_cotrans _ (rank z) _ H2') as [H|H]; [done|].
  rewrite (proj2 (flt_rank z y)) in H1 by done. done.
Qed.

(** [x <= y] excludes [y < x]. *)
Lemma fle_not_flt x y : fle x y = true -> flt y x = false.
Proof.
  intros Hle. destruct (flt y x) eqn:E; [|done]. apply flt_rank in E as (_ & _ & E). exfalso.
  unfold fle, SFleb, SFcompare in Hle.
  assert (Hp : forall m n, Pos.compare_cont Eq m n = (Zpos m ?= Zpos n)) by done.
  destruct x as [[]|[]| |[] mx ex], y as [[]|[]| |[] my ey]; cbn [rank lex] in E; rewrite ?Hp in Hle; try (done || lia);
    destruct (Z.compare_spec ex ey); try (destruct (Z.compare_spec (Zpos mx) (Zpos my))); cbn [CompOpp] in Hle; try done; lia.
Qed.

Lemma nonneg_not_nan x : nonneg x -> is_nan x = false.
Proof. by destruct x. Qed.

Lemma nonneg_ge_zero x : nonneg x -> flt x fzero = false.
Proof. destruct x as [[]|[]| |[] m e]; cbn; congruence. Qed.

(** ** Rounding *)

Abbreviation fexp64 := (fexp 53 1024).

Lemma fexp64_eq e : fexp64 e = Z.max (e - 53) (-1074).
Proof. done. Qed.

Lemma digits2_bounds m : 2 ^ (Zpos (digits2_pos m) - 1) <= Zpos m < 2 ^ Zpos (digits2_pos m).
Proof.
  induction m as [p IH|p IH|]; cbn [digits2_pos]; [| |lia];
    rewrite Pos2Z.inj_succ; replace (Z.succ (Zpos (digits2_pos p)) - 1) with (Z.succ (Zpos (digits2_pos p) - 1)) by lia;
    rewrite !Z.pow_succ_r by lia; lia.
Qed.

Lemma Zdigits2_bounds M : 0 < M -> 0 < Zdigits2 M /\ 2 ^ (Zdigits2 M - 1) <= M < 2 ^ Zdigits2 M.
Proof. destruct M as [|m|m]; try lia. intros _. split; [done|]. apply digits2_bounds. Qed.

Lemma Zdigits2_unique M d : 0 < d -> 2 ^ (d - 1) <= M < 2 ^ d -> Zdigits2 M = d.
Proof.
  intros Hd HM. assert (0 < M) by (pose proof (Z.pow_pos_nonneg 2 (d - 1)); lia).
  destruct (Zdigits2_bounds M) as (Hp & Hl & Hu); [done|].
  assert (Zdigits2 M - 1 < d) by (apply (Z.pow_lt_mono_r_iff 2); lia).
  assert (d - 1 < Zdigits2 M) by (apply (Z.pow_lt_mono_r_iff 2); lia). lia.
Qed.

Lemma Zdigits2_mono a b : 0 < a -> a <= b -> Zdigits2 a <= Zdigits2 b.
Proof.
  intros Ha Hab. destruct (Zdigits2_bounds a) as (? & Hl & _); [done|].
  destruct (Zdigits2_bounds b) as (? & _ & Hu); [lia|].
  assert (Zdigits2 a - 1 < Zdigits2 b) by (apply (Z.pow_lt_mono_r_iff 2); lia). lia.
Qed.

(** Shifting [k] bits out leaves the quotient. *)
Lemma iter_shr_m p mrs : 0 <= shr_m mrs -> shr_m (SpecFloat.iter_pos shr_1 p mrs) = shr_m mrs / 2 ^ Zpos p.
Proof.
  assert (H1 : forall r, 0 <= shr_m r -> shr_m (shr_1 r) = shr_m r / 2).
  { intros [[|[q|q|]|q] r s] Hm; cbn [shr_m shr_1] in *; try lia; try done;
      rewrite ?(Pos2Z.inj_xI q), ?(Pos2Z.inj_xO q); Z.to_euclidean_division_equations; lia. }
  assert (H0 : forall r, 0 <= shr_m r -> 0 <= shr_m (shr_1 r)) by (intros; rewrite H1 by done; apply Z.div_pos; lia).
  assert (Hn : forall q r, (forall x, 0 <= shr_m x -> shr_m (SpecFloat.iter_pos shr_1 q x) = shr_m x / 2 ^ Zpos q) ->
    0 <= shr_m r -> 0 <= shr_m (SpecFloat.iter_pos shr_1 q r)) by (intros q r Hq Hr; rewrite Hq by done; apply Z.div_pos; lia).
  revert mrs. induction p as [p IH|p IH|]; intros mrs Hm; cbn [SpecFloat.iter_pos]; [| |by apply H1].
  - rewrite IH by auto. rewrite IH, H1 by auto.
    rewrite !Z.div_div by lia. f_equal. rewrite (Pos2Z.inj_xI p), Z.pow_add_r, Z.pow_mul_r by lia. 
    rewrite Z.pow_1_r. replace (2 ^ 2) with (2 * 2) by lia. rewrite Z.pow_mul_l. lia.
  - rewrite IH by auto. rewrite IH by done.
    rewrite Z.div_div by lia. f_equal. rewrite (Pos2Z.inj_xO p), Z.pow_mul_r by lia.
    replace (2 ^ 2) with (2 * 2) by lia. rewrite Z.pow_mul_l. lia.
Qed.

(** One normalisation of a positive mantissa: the exponent becomes [fexp], the mantissa is cut. *)
Lemma shr_fexp_spec M e l :
  0 <= M -> e <= fexp64 (Zdigits2 M + e) ->
  let '(r, e') := shr_fexp 53 1024 M e l in
  e' = fexp64 (Zdigits2 M + e) /\ shr_m r = M / 2 ^ (e' - e).
Proof.
  intros HM He. unfold shr_fexp, shr. set (d := fexp64 _ - e).
  assert (Hl : shr_m (shr_record_of_loc M l) = M) by (by destruct l as [|[]]).
  destruct d as [|p|p] eqn:Ed; unfold d in Ed.
  - rewrite Hl. split; [lia|]. replace (e - e) with 0 by lia. by rewrite Z.div_1_r.
  - rewrite iter_shr_m, Hl by (rewrite Hl; lia). split; [lia|]. do 2 f_equal. lia.
  - lia.
Qed.

Lemma round_ge m l : m <= round_nearest_even m l <= m + 1.
Proof. unfold round_nearest_even. repeat case_match; lia. Qed.

(** Cutting the mantissa moves its digits to the exponent. *)
Lemma Zdigits2_div M k : 0 <= k -> 0 < M / 2 ^ k -> Zdigits2 (M / 2 ^ k) = Zdigits2 M - k.
Proof.
  intros Hk Hpos. assert (HM : 0 < M).
  { destruct (Z_lt_le_dec 0 M); [done|]. assert (M / 2 ^ k <= 0 / 2 ^ k) by (apply Z.div_le_mono; lia).
    rewrite Z.div_0_l in *; lia. }
  destruct (Zdigits2_bounds M HM) as (Hd & Hl & Hu).
  assert (Hkd : k < Zdigits2 M).
  { apply (Z.pow_lt_mono_r_iff 2); [lia|lia|]. assert (2 ^ k <= M); [|lia].
    destruct (Z_lt_le_dec M (2 ^ k)); [|done]. rewrite Z.div_small in Hpos; lia. }
  apply Zdigits2_unique; [lia|]. split.
  - apply Z.div_le_lower_bound; [lia|]. rewrite <- Z.pow_add_r by lia.
    replace (k + (Zdigits2 M - k - 1)) with (Zdigits2 M - 1) by lia. lia.
  - apply Z.div_lt_upper_bound; [lia|]. rewrite <- Z.pow_add_r by lia.
    replace (k + (Zdigits2 M - k)) with (Zdigits2 M) by lia. lia.
Qed.

(** The sign of a number; NaN has none. *)
Definition has_sign (s : bool) (x : float64) : Prop :=
  match x with S754_zero s' | S754_infinity s' | S754_finite s' _ _ => s' = s | S754_nan => False end.

(** Rounding gives a valid number with the given sign. *)
Lemma round_aux_valid sx M e l :
  0 <= M -> e <= fexp64 (Zdigits2 M + e) ->
  valid (binary_round_aux 53 1024 sx M e l) /\ has_sign sx (binary_round_aux 53 1024 sx M e l).
Proof.
  intros HM He. unfold binary_round_aux. pose proof (shr_fexp_spec M e l HM He) as H1.
  destruct (shr_fexp 53 1024 M e l) as [r1 e1]. destruct H1 as [He1 Hm1].
  set (m2 := round_nearest_even _ _). pose proof (round_ge (shr_m r1) (loc_of_shr_record r1)) as Hm2. fold m2 in Hm2.
  assert (Hm1n : 0 <= shr_m r1) by (rewrite Hm1; apply Z.div_pos; lia).
  assert (He1' : e1 <= fexp64 (Zdigits2 m2 + e1)).
  { destruct (Z.eq_dec (shr_m r1) 0) as [Hz|Hz].
    - destruct (Z.eq_dec M 0) as [->|]; [assert (0 <= Zdigits2 m2) by (destruct m2; cbn; lia); rewrite fexp64_eq in *; cbn in *; lia|].
      destruct (Zdigits2_bounds M ltac:(lia)) as (_ & Hl & _).
      assert (Zdigits2 M - 1 < e1 - e); [|rewrite fexp64_eq in *; lia].
      apply (Z.pow_lt_mono_r_iff 2); [lia|lia|]. rewrite Hm1 in Hz. apply Z.div_small_iff in Hz; lia.
    - assert (Zdigits2 (shr_m r1) = Zdigits2 M - (e1 - e)) by (rewrite Hm1; apply Zdigits2_div; lia).
      assert (Zdigits2 (shr_m r1) <= Zdigits2 m2) by (apply Zdigits2_mono; lia). rewrite fexp64_eq in *. lia. }
  pose proof (shr_fexp_spec m2 e1 loc_Exact ltac:(lia) He1') as H2.
  destruct (shr_fexp 53 1024 m2 e1 loc_Exact) as [r2 e2]. destruct H2 as [He2 Hm3].
  assert (0 <= shr_m r2) by (rewrite Hm3; apply Z.div_pos; lia).
  destruct (shr_m r2) as [|m3|m3] eqn:Em3; [done| |lia]. destruct (Z.leb_spec e2 (1024 - 53)); [|done].
  assert (Hd3 : Zpos (digits2_pos m3) = Zdigits2 m2 - (e2 - e1)).
  { change (Zpos (digits2_pos m3)) with (Zdigits2 (Zpos m3)). rewrite Hm3. apply Zdigits2_div; [lia|]. by rewrite <- Hm3. }
  split; [|done]. unfold valid, valid_binary, bounded, canonical_mantissa. rewrite Hd3.
  apply andb_true_intro. split; [apply Z.eqb_eq|by apply Z.leb_le].
  replace (Zdigits2 m2 - (e2 - e1) + e2) with (Zdigits2 m2 + e1) by lia. by symmetry.
Qed.

(** Rounding a positive value that is at least the valid number [mx * 2^ex] gives no smaller number. *)
Lemma round_aux_ge M e mx ex :
  e <= fexp64 (Zdigits2 M + e) -> e <= ex -> Zpos mx * 2 ^ (ex - e) <= M -> bounded 53 1024 mx ex = true ->
  flt (binary_round_aux 53 1024 false M e loc_Exact) (S754_finite false mx ex) = false.
Proof.
  intros He Hex HM Hb. unfold bounded, canonical_mantissa in Hb. bool_prop.
  assert (HMpos : 0 < M) by (pose proof (Z.pow_pos_nonneg 2 (ex - e)); nia).
  unfold binary_round_aux.
  pose proof (shr_fexp_spec M e loc_Exact ltac:(lia) He) as H1.
  destruct (shr_fexp 53 1024 M e loc_Exact) as [r1 e1]. destruct H1 as [He1 Hm1].
  set (m2 := round_nearest_even _ _). pose proof (round_ge (shr_m r1) (loc_of_shr_record r1)) as Hm2. fold m2 in Hm2.
  (* the exponent does not go below that of the number *)
  destruct (Zdigits2_bounds M HMpos) as (HdM & HlM & HuM). pose proof (digits2_bounds mx) as [Hlx _].
  assert (Hdig : Zpos (digits2_pos mx) + ex <= Zdigits2 M + e).
  { assert (Zpos (digits2_pos mx) - 1 + (ex - e) < Zdigits2 M); [|lia].
    apply (Z.pow_lt_mono_r_iff 2); [lia|lia|]. rewrite Z.pow_add_r by lia. nia. }
  assert (Hexe : ex <= e1) by (rewrite fexp64_eq in *; lia).
  assert (Hm1pos : 0 < shr_m r1).
  { rewrite Hm1. apply Z.div_str_pos. split; [lia|].
    destruct (Z.eq_dec ex e1) as [->|]; [pose proof (Z.pow_pos_nonneg 2 (e1 - e)); nia|]. transitivity (2 ^ (Zdigits2 M - 1)); [|done].
    apply Z.pow_le_mono_r; [lia|]. rewrite fexp64_eq in *. lia. }
  assert (Hd1 : Zdigits2 (shr_m r1) = Zdigits2 M - (e1 - e)) by (rewrite Hm1; apply Zdigits2_div; lia).
  assert (Hd2 : Zdigits2 (shr_m r1) <= Zdigits2 m2) by (apply Zdigits2_mono; lia).
  assert (He1' : e1 <= fexp64 (Zdigits2 m2 + e1)) by (rewrite fexp64_eq in *; lia).
  pose proof (shr_fexp_spec m2 e1 loc_Exact ltac:(lia) He1') as H2.
  destruct (shr_fexp 53 1024 m2 e1 loc_Exact) as [r2 e2]. destruct H2 as [He2 Hm3].
  assert (Hm3pos : 0 < shr_m r2).
  { rewrite Hm3. apply Z.div_str_pos. split; [lia|].
    destruct (Zdigits2_bounds m2) as (? & Hl2 & _); [lia|].
    transitivity (2 ^ (Zdigits2 m2 - 1)); [|done]. apply Z.pow_le_mono_r; [lia|]. rewrite fexp64_eq in *. lia. }
  destruct (shr_m r2) as [|m3|m3] eqn:Em3; [lia| |lia].
  destruct (Z.leb_spec e2 (1024 - 53)); [|done]. destruct (flt _ _) eqn:Hlt; [|done]. exfalso.
  apply flt_rank in Hlt as (_ & _ & [|[_ [Hlt|[Heq Hlt]]]]); [lia|lia|].
  assert (e1 = e2) as Hee by lia. rewrite Hm3, Hee, Z.sub_diag, Z.div_1_r in Hlt.
  assert (Zpos mx <= shr_m r1); [|lia]. rewrite Hm1. apply Z.div_le_lower_bound; [lia|].
  replace (e1 - e) with (ex - e) by lia. lia.
Qed.

(** ** Addition of non-negative numbers *)

Lemma iter_xO m d : Zpos (Pos.iter xO m d) = Zpos m * 2 ^ Zpos d.
Proof.
  revert d. apply Pos.peano_ind; [cbn; lia|]. intros d IH.
  rewrite Pos.iter_succ, Pos2Z.inj_xO, IH, Pos2Z.inj_succ, Z.pow_succ_r by lia. lia.
Qed.

Lemma shl_align_spec m e e' :
  e' <= e -> Zpos (fst (shl_align m e e')) = Zpos m * 2 ^ (e - e').
Proof.
  intros He. unfold shl_align. destruct (e' - e) as [|p|p] eqn:E; cbn [fst]; [|lia|].
  - replace (e - e') with 0 by lia. lia.
  - rewrite iter_xO. do 2 f_equal. lia.
Qed.

Lemma binary_round_ge M e mx ex :
  e <= ex -> Zpos mx * 2 ^ (ex - e) <= Zpos M -> bounded 53 1024 mx ex = true ->
  weight_ok (binary_round 53 1024 false M e) /\ flt (binary_round 53 1024 false M e) (S754_finite false mx ex) = false.
Proof.
  intros He HM Hb. unfold binary_round.
  set (e0 := fexp64 (Zpos (digits2_pos M) + e)).
  assert (Hal : exists M' e', shl_align M e e0 = (M', e') /\ e' <= e /\ Zpos M' = Zpos M * 2 ^ (e - e') /\
                  Zdigits2 (Zpos M') + e' = Zdigits2 (Zpos M) + e /\ e' <= e0).
  { unfold shl_align. destruct (e0 - e) as [|p|p] eqn:E.
    - exists M, e. split_and!; try done; [|lia]. replace (e - e) with 0 by lia. lia.
    - exists M, e. split_and!; try done; [|lia]. replace (e - e) with 0 by lia. lia.
    - exists (Pos.iter xO M p), e0. assert (HZ : Zpos (Pos.iter xO M p) = Zpos M * 2 ^ (e - e0))
        by (rewrite iter_xO; do 2 f_equal; lia).
      split_and!; try done; [lia|]. rewrite HZ.
      destruct (Zdigits2_bounds (Zpos M)) as (? & ? & ?); [lia|].
      rewrite (Zdigits2_unique _ (Zdigits2 (Zpos M) + (e - e0))); [lia|lia|].
      replace (Zdigits2 (Zpos M) + (e - e0) - 1) with (Zdigits2 (Zpos M) - 1 + (e - e0)) by lia.
      rewrite !Z.pow_add_r by lia. nia. }
  destruct Hal as (M' & e' & -> & Hle & HM' & Hdig & He').
  assert (Hexp : e' <= fexp64 (Zdigits2 (Zpos M') + e')) by (by rewrite Hdig).
  destruct (round_aux_valid false (Zpos M') e' loc_Exact) as [Hv Hs]; [lia|done|].
  split; [by split; [|destruct (binary_round_aux _ _ _ _ _ _)]|]. apply round_aux_ge; [done|lia| |done].
  rewrite HM'. replace (ex - e') with ((ex - e) + (e - e')) by lia. rewrite Z.pow_add_r by lia. nia.
Qed.

(** The sum of two non-negative numbers is a number, non-negative, and at least each of them. *)
Lemma fadd_ok x y :
  weight_ok x -> weight_ok y -> weight_ok (fadd x y) /\ flt (fadd x y) x = false /\ flt (fadd x y) y = false.
Proof.
  intros [Hvx Hnx] [Hvy Hny]. unfold weight_ok.
  destruct x as [sx|sx| |sx mx ex], y as [sy|sy| |sy my ey]; cbn in Hnx, Hny; subst; try done;
    try (by destruct sx, sy); try (split; [done|]; split; [|apply flt_irrefl || done]; done);
    try (split; [done|]; split; apply flt_irrefl || done).
  unfold fadd, SFadd. cbv zeta. cbn [cond_Zopp]. set (ez := Z.min ex ey).
  pose proof (shl_align_spec mx ex ez ltac:(lia)) as Hx. pose proof (shl_align_spec my ey ez ltac:(lia)) as Hy.
  set (M := (fst (shl_align mx ex ez) + fst (shl_align my ey ez))%positive).
  change (Zpos (fst (shl_align mx ex ez)) + Zpos (fst (shl_align my ey ez))) with (Zpos M). cbn [binary_normalize].
  destruct (binary_round_ge M ez mx ex) as [Hw H1]; [lia|unfold M; lia|done|].
  destruct (binary_round_ge M ez my ey) as [_ H2]; [lia|unfold M; lia|done|]. done.
Qed.

(** ** Products and quotients *)

Lemma bounded_spec m e :
  bounded 53 1024 m e = true -> e = fexp64 (Zpos (digits2_pos m) + e) /\ e <= 971.
Proof. unfold bounded, canonical_mantissa. intros. bool_prop. lia. Qed.

Lemma nonneg_sign x : has_sign false x -> nonneg x.
Proof. by destruct x. Qed.

(** A product of non-negative numbers is one, unless it is [0 * Inf]. *)
Lemma fmul_ok x y :
  weight_ok x -> weight_ok y -> x <> finf -> y <> finf -> weight_ok (fmul x y).
Proof.
  intros [Hvx Hnx] [Hvy Hny] Hix Hiy.
  destruct x as [sx|sx| |sx mx ex], y as [sy|sy| |sy my ey]; cbn in Hnx, Hny; subst; try done.
  unfold fmul. cbn [SFmul xorb].
  pose proof (bounded_spec _ _ Hvx) as [Hx _]. pose proof (bounded_spec _ _ Hvy) as [Hy _].
  pose proof (digits2_bounds mx) as [Hlx _]. pose proof (digits2_bounds my) as [Hly _].
  assert (Hd : Zpos (digits2_pos mx) + Zpos (digits2_pos my) - 1 <= Zdigits2 (Zpos (mx * my))).
  { destruct (Zdigits2_bounds (Zpos (mx * my))) as (? & _ & Hu); [lia|].
    assert (Zpos (digits2_pos mx) - 1 + (Zpos (digits2_pos my) - 1) < Zdigits2 (Zpos (mx * my))); [|lia].
    apply (Z.pow_lt_mono_r_iff 2); [lia|lia|]. rewrite Z.pow_add_r by lia.
    apply (Z.le_lt_trans _ (Zpos mx * Zpos my)); [|by rewrite <- Pos2Z.inj_mul]. apply Z.mul_le_mono_nonneg; lia. }
  destruct (round_aux_valid false (Zpos (mx * my)) (ex + ey) loc_Exact) as [Hv Hs]; [lia| |].
  - rewrite fexp64_eq in *. lia.
  - split; [done|by apply nonneg_sign].
Qed.

(** Multiplication by the solver's [alpha], which is 1. *)
Lemma fmul_one_ok w : weight_ok w -> weight_ok (fmul w fone).
Proof.
  intros Hw. destruct (decide (w = finf)) as [->|]; [done|]. by apply fmul_ok.
Qed.

(** A quotient of a non-negative number by a positive finite one. *)
Lemma fdiv_ok x my ey :
  weight_ok x -> bounded 53 1024 my ey = true -> weight_ok (fdiv x (S754_finite false my ey)).
Proof.
  intros [Hvx Hnx] Hvy. destruct x as [sx|sx| |sx mx ex]; cbn in Hnx; subst; try done.
  unfold fdiv. cbn [SFdiv xorb]. unfold SFdiv_core_binary.
  set (e' := Z.min _ _). set (s := ex - ey - e'). assert (Hs : 0 <= s) by lia.
  assert (He' : e' <= fexp64 (Zpos (digits2_pos mx) + ex - (Zpos (digits2_pos my) + ey))) by apply Z.le_min_l.
  clearbody e'.
  assert (Hm : match s with Z0 => Zpos mx | Zpos _ => Z.shiftl (Zpos mx) s | Zneg _ => 0 end = Zpos mx * 2 ^ s).
  { destruct s eqn:E; [lia|by rewrite Z.shiftl_mul_pow2|lia]. }
  rewrite Hm. pose proof (Z_div_mod (Zpos mx * 2 ^ s) (Zpos my) ltac:(lia)) as Hdm.
  destruct (Z.div_eucl _ _) as [q r]. destruct Hdm as [Hq Hr].
  pose proof (digits2_bounds mx) as [Hlx _]. pose proof (digits2_bounds my) as [_ Huy].
  assert (Hq0 : 0 <= q) by nia.
  assert (Hdq : Zpos (digits2_pos mx) + s - Zpos (digits2_pos my) <= Zdigits2 q).
  { destruct (Z_lt_le_dec (Zpos (digits2_pos mx) - 1 + s) (Zpos (digits2_pos my))) as [Hlt|Hge].
    { assert (0 <= Zdigits2 q) by (destruct q; cbn; lia). lia. }
    assert (Hql : 2 ^ (Zpos (digits2_pos mx) - 1 + s - Zpos (digits2_pos my)) <= q).
    { apply Z.lt_succ_r, (Z.mul_lt_mono_pos_r (Zpos my)); [lia|].
      apply Z.le_lt_trans with (2 ^ (Zpos (digits2_pos mx) - 1 + s - Zpos (digits2_pos my)) * 2 ^ Zpos (digits2_pos my)); [nia|].
      rewrite <- Z.pow_add_r by lia.
      replace (Zpos (digits2_pos mx) - 1 + s - Zpos (digits2_pos my) + Zpos (digits2_pos my))
        with (Zpos (digits2_pos mx) - 1 + s) by lia. rewrite Z.pow_add_r by lia. nia. }
    destruct (Zdigits2_bounds q) as (_ & _ & Hu); [pose proof (Z.pow_pos_nonneg 2 (Zpos (digits2_pos mx) - 1 + s - Zpos (digits2_pos my))); lia|].
    assert (Zpos (digits2_pos mx) - 1 + s - Zpos (digits2_pos my) < Zdigits2 q); [|lia].
    apply (Z.pow_lt_mono_r_iff 2); [lia| |lia]. assert (0 <= Zdigits2 q) by (destruct q; cbn; lia). lia. }
  destruct (round_aux_valid false q e' (new_location (Zpos my) r)) as [Hv Hsg]; [done| |].
  - rewrite fexp64_eq in *. lia.
  - split; [done|by apply nonneg_sign].
Qed.

Lemma weight_ok_zero : weight_ok fzero.
Proof. done. Qed.

#[export] Hint Resolve weight_ok_zero fmul_one_ok nonneg_not_nan flt_irrefl : go_db.

(** ** Results that are not NaN, results that are finite *)

Lemma round_aux_sign sx M e l : 0 <= M -> has_sign sx (binary_round_aux 53 1024 sx M e l).
Proof.
  intros HM. unfold binary_round_aux.
  assert (Hsh : forall m e l, 0 <= m -> 0 <= shr_m (fst (shr_fexp 53 1024 m e l))).
  { clear. intros m e l Hm. unfold shr_fexp, shr.
    assert (Hr : shr_m (shr_record_of_loc m l) = m) by (by destruct l as [|[]]).
    destruct (_ - e); cbn [fst]; rewrite ?Hr; try done. rewrite iter_shr_m; rewrite Hr; [|done]. apply Z.div_pos; lia. }
  pose proof (Hsh M e l HM) as H1. destruct (shr_fexp 53 1024 M e l) as [r1 e1]. cbn [fst] in H1.
  pose proof (round_ge (shr_m r1) (loc_of_shr_record r1)) as Hm.
  pose proof (Hsh (round_nearest_even (shr_m r1) (loc_of_shr_record r1)) e1 loc_Exact ltac:(lia)) as H2.
  destruct (shr_fexp 53 1024 _ e1 loc_Exact) as [r2 e2]. cbn [fst] in H2.
  destruct (shr_m r2); [done|by case_match|lia].
Qed.

Lemma round_aux_not_nan sx M e l : 0 <= M -> is_nan (binary_round_aux 53 1024 sx M e l) = false.
Proof. intros HM. pose proof (round_aux_sign sx M e l HM). by destruct (binary_round_aux _ _ _ _ _ _). Qed.

Lemma fdiv_sign sx mx ex sy my ey :
  has_sign (xorb sx sy) (fdiv (S754_finite sx mx ex) (S754_finite sy my ey)).
Proof.
  unfold fdiv. cbn [SFdiv]. unfold SFdiv_core_binary. set (m' := match _ with Z0 => _ | _ => _ end).
  assert (0 <= m') by (unfold m'; case_match; [done|apply Z.shiftl_nonneg; lia|done]).
  pose proof (Z_div_mod m' (Zpos my) ltac:(lia)) as Hd. destruct (Z.div_eucl m' (Zpos my)) as [q r].
  apply round_aux_sign. nia.
Qed.

Lemma normalize_not_nan M e z : is_nan (binary_normalize 53 1024 M e z) = false.
Proof.
  destruct M as [|m|m]; [done| |]; cbn [binary_normalize]; unfold binary_round;
    destruct (shl_align _ _ _); apply round_aux_not_nan; lia.
Qed.

Definition is_finite (x : float64) : bool := match x with S754_zero _ | S754_finite _ _ _ => true | _ => false end.

Lemma fsub_not_nan x y : is_finite x = true -> is_finite y = true -> is_nan (fsub x y) = false.
Proof.
  destruct x as [[]|?| |? ? ?], y as [[]|?| |? ? ?]; try done. intros _ _. apply normalize_not_nan.
Qed.

Lemma fmul_not_nan s m e x : is_nan x = false -> is_nan (fmul (S754_finite s m e) x) = false.
Proof. destruct x as [?|?| |? ? ?]; try done. intros _. unfold fmul. cbn [SFmul]. apply round_aux_not_nan. lia. Qed.

Lemma Zdigits2_succ m : 0 <= m -> Zdigits2 (m + 1) <= Zdigits2 m + 1.
Proof.
  intros Hm. destruct (Z.eq_dec m 0) as [->|]; [done|].
  destruct (Zdigits2_bounds m) as (Hd & _ & Hu); [lia|]. destruct (Zdigits2_bounds (m + 1)) as (_ & Hl & _); [lia|].
  assert (Zdigits2 (m + 1) - 1 < Zdigits2 m + 1); [|lia].
  apply (Z.pow_lt_mono_r_iff 2); [lia|lia|]. rewrite Z.pow_add_r by lia. lia.
Qed.

(** A value well below the largest number does not round to infinity. *)
Lemma round_aux_finite sx M e l :
  0 < M -> e <= fexp64 (Zdigits2 M + e) -> Zdigits2 M + e <= 1000 ->
  is_finite (binary_round_aux 53 1024 sx M e l) = true.
Proof.
  intros HM He Hb. unfold binary_round_aux. pose proof (shr_fexp_spec M e l ltac:(lia) He) as H1.
  destruct (shr_fexp 53 1024 M e l) as [r1 e1]. destruct H1 as [He1 Hm1].
  set (m2 := round_nearest_even _ _). pose proof (round_ge (shr_m r1) (loc_of_shr_record r1)) as Hm2. fold m2 in Hm2.
  assert (Hm1n : 0 <= shr_m r1) by (rewrite Hm1; apply Z.div_pos; lia).
  assert (Hd2 : Zdigits2 m2 <= Zdigits2 (shr_m r1) + 1).
  { assert (m2 = shr_m r1 \/ m2 = shr_m r1 + 1) as [->| ->] by lia; [lia|by apply Zdigits2_succ]. }
  assert (Hd1 : Zdigits2 (shr_m r1) + e1 <= Z.max (Zdigits2 M + e) (-1074)).
  { destruct (Z.eq_dec (shr_m r1) 0) as [Hz|Hz].
    - rewrite Hz. cbn [Zdigits2]. destruct (Zdigits2_bounds M HM) as (_ & Hl & _).
      assert (Zdigits2 M - 1 < e1 - e); [|rewrite fexp64_eq in *; lia].
      apply (Z.pow_lt_mono_r_iff 2); [lia|lia|]. rewrite Hm1 in Hz. apply Z.div_small_iff in Hz; lia.
    - rewrite Hm1, Zdigits2_div by (rewrite <- ?Hm1; lia). lia. }
  assert (He2 : exists r2 e2, shr_fexp 53 1024 m2 e1 loc_Exact = (r2, e2) /\ e2 <= 971 /\ 0 <= shr_m r2).
  { unfold shr_fexp, shr. destruct (fexp64 (Zdigits2 m2 + e1) - e1) as [|p|p] eqn:E.
    - eexists _, _. split; [done|]. cbn [shr_record_of_loc shr_m]. rewrite fexp64_eq in *. lia.
    - eexists _, _. split; [done|]. rewrite iter_shr_m by (cbn; lia). cbn [shr_record_of_loc shr_m].
      split; [rewrite fexp64_eq in *; lia|apply Z.div_pos; lia].
    - eexists _, _. split; [done|]. cbn [shr_record_of_loc shr_m]. rewrite fexp64_eq in *. lia. }
  destruct He2 as (r2 & e2 & -> & Hle & Hn). destruct (shr_m r2); [done| |lia].
  by rewrite (proj2 (Z.leb_le _ _)) by lia.
Qed.

(** The reciprocal of a number that is at least 1 is finite. *)
Lemma recip_finite y : weight_ok y -> flt y fone = false -> is_finite (fdiv fone y) = true.
Proof.
  intros [Hv Hn] Hge. destruct y as [s|s| |s my ey]; cbn in Hn; subst; try done.
  change fone with (S754_finite false 4503599627370496 (-52)). 
  assert (Hey : -52 <= ey).
  { destruct (Z_lt_le_dec ey (-52)); [|done].
    rewrite (proj2 (flt_rank (S754_finite false my ey) fone)) in Hge; [done|].
    split; [done|]. split; [done|]. change (rank fone) with (1, -52, 4503599627370496). cbn [lex rank]. lia. }
  unfold fdiv. cbn [SFdiv xorb]. unfold SFdiv_core_binary.
  set (e' := Z.min _ _). set (s := -52 - ey - e'). assert (Hs : 0 <= s) by lia.
  assert (He' : e' = Z.min (fexp64 (53 + -52 - (Zpos (digits2_pos my) + ey))) (-52 - ey)) by done. clearbody e'.
  assert (Hm : match s with Z0 => 4503599627370496 | Zpos _ => Z.shiftl 4503599627370496 s | Zneg _ => 0 end = 2 ^ (52 + s)).
  { rewrite Z.pow_add_r by lia. destruct s eqn:E; [lia|by rewrite Z.shiftl_mul_pow2|lia]. }
  rewrite Hm. pose proof (Z_div_mod (2 ^ (52 + s)) (Zpos my) ltac:(lia)) as Hdm.
  destruct (Z.div_eucl _ _) as [q r]. destruct Hdm as [Hq Hr].
  pose proof (digits2_bounds my) as [Hly Huy].
  assert (Hq0 : 0 <= q) by nia.
  assert (Hqu : q <= 2 ^ (52 + s)) by nia.
  destruct (Z.eq_dec q 0) as [->|Hqn].
  { (* the quotient underflows: rounding a zero mantissa *)
    pose proof (bounded_spec _ _ Hv) as [Hc Hc2]. exfalso.
    assert (2 ^ (52 + s) < 2 ^ Zpos (digits2_pos my)) by lia.
    assert (52 + s < Zpos (digits2_pos my)) by (apply (Z.pow_lt_mono_r_iff 2); lia).
    rewrite fexp64_eq in *. lia. }
  assert (Hdq : Zdigits2 q <= 53 + s).
  { destruct (Zdigits2_bounds q) as (? & Hl & _); [lia|]. assert (Zdigits2 q - 1 < 53 + s); [|lia].
    apply (Z.pow_lt_mono_r_iff 2); [lia|lia|]. replace (53 + s) with (1 + (52 + s)) by lia.
    rewrite Z.pow_add_r by lia. pose proof (Z.pow_pos_nonneg 2 (52 + s)). lia. }
  assert (Hdql : 53 + s - Zpos (digits2_pos my) <= Zdigits2 q).
  { destruct (Zdigits2_bounds q) as (? & _ & Hu); [lia|].
    assert (52 + s < Zdigits2 q + Zpos (digits2_pos my)); [|lia].
    apply (Z.pow_lt_mono_r_iff 2); [lia|lia|]. rewrite Hq, Z.pow_add_r by lia. nia. }
  apply round_aux_finite; [lia| |lia]. rewrite fexp64_eq in *. lia.
Qed.

Definition exp_ge (e : Z) (x : float64) : Prop := match x with S754_finite _ _ e' => e <= e' | _ => True end.

(** Rounding a positive value that is far from the smallest numbers does not give zero, and no smaller
    exponent. *)
Lemma round_aux_pos M e l :
  0 < M -> e <= fexp64 (Zdigits2 M + e) -> -1000 <= Zdigits2 M + e ->
  flt fzero (binary_round_aux 53 1024 false M e l) = true /\ exp_ge e (binary_round_aux 53 1024 false M e l).
Proof.
  intros HM He Hb. unfold binary_round_aux. pose proof (shr_fexp_spec M e l ltac:(lia) He) as H1.
  destruct (shr_fexp 53 1024 M e l) as [r1 e1]. destruct H1 as [He1 Hm1].
  set (m2 := round_nearest_even _ _). pose proof (round_ge (shr_m r1) (loc_of_shr_record r1)) as Hm2. fold m2 in Hm2.
  destruct (Zdigits2_bounds M HM) as (HdM & HlM & HuM).
  assert (Hm1pos : 0 < shr_m r1).
  { rewrite Hm1. apply Z.div_str_pos. split; [lia|]. transitivity (2 ^ (Zdigits2 M - 1)); [|done].
    apply Z.pow_le_mono_r; [lia|]. rewrite fexp64_eq in *. lia. }
  assert (Hd1 : Zdigits2 (shr_m r1) = Zdigits2 M - (e1 - e)) by (rewrite Hm1; apply Zdigits2_div; lia).
  assert (Hd2 : Zdigits2 (shr_m r1) <= Zdigits2 m2) by (apply Zdigits2_mono; lia).
  assert (He1' : e1 <= fexp64 (Zdigits2 m2 + e1)) by (rewrite fexp64_eq in *; lia).
  pose proof (shr_fexp_spec m2 e1 loc_Exact ltac:(lia) He1') as H2.
  destruct (shr_fexp 53 1024 m2 e1 loc_Exact) as [r2 e2]. destruct H2 as [He2 Hm3].
  assert (Hm3pos : 0 < shr_m r2).
  { rewrite Hm3. apply Z.div_str_pos. split; [lia|]. destruct (Zdigits2_bounds m2) as (? & Hl2 & _); [lia|].
    transitivity (2 ^ (Zdigits2 m2 - 1)); [|done]. apply Z.pow_le_mono_r; [lia|]. rewrite fexp64_eq in *. lia. }
  destruct (shr_m r2) as [|m3|m3]; [lia| |lia]. destruct (e2 <=? 1024 - 53); (split; [done|cbn; lia]).
Qed.

(** A thousandth of a number that is at least 1 is positive. *)
Lemma thousandth_pos x : valid x -> flt fzero x = true -> exp_ge (-52) x -> flt fzero (fdiv x (of_Z 1000)) = true.
Proof.
  intros Hv Hp Hex. destruct x as [s|[]| |[] mx ex]; try done. cbn [exp_ge] in Hex.
  pose proof (bounded_spec _ _ Hv) as [Hc _]. rewrite fexp64_eq in Hc. assert (Hd : Zpos (digits2_pos mx) = 53) by lia.
  change (of_Z 1000) with (S754_finite false 8796093022208000 (-43)). unfold fdiv. cbn [SFdiv xorb]. unfold SFdiv_core_binary.
  replace (Z.min _ _) with (ex - 10).
  2: { change (Zdigits2 (Zpos mx)) with (Zpos (digits2_pos mx)). rewrite Hd. change (Zdigits2 8796093022208000) with 53. rewrite fexp64_eq. lia. }
  replace (ex - -43 - (ex - 10)) with 53 by lia. cbv iota. rewrite Z.shiftl_mul_pow2 by lia.
  pose proof (Z_div_mod (Zpos mx * 2 ^ 53) 8796093022208000 ltac:(lia)) as Hdm. destruct (Z.div_eucl _ _) as [q r]. destruct Hdm as [Hq Hr].
  pose proof (digits2_bounds mx) as [Hl _]. rewrite Hd in Hl.
  assert (Hql : 2 ^ 52 <= q)
    by (change (2 ^ 53) with 9007199254740992 in *; change (2 ^ (53 - 1)) with 4503599627370496 in Hl; change (2 ^ 52) with 4503599627370496; lia).
  assert (Hdq : 53 <= Zdigits2 q) by (change 53 with (Zdigits2 (2 ^ 52)); apply Zdigits2_mono; lia).
  apply round_aux_pos; [lia|rewrite fexp64_eq; lia|lia].
Qed.

(** A positive integer as a number. *)
Lemma of_Z_pos n : 1 <= n -> valid (of_Z n) /\ flt fzero (of_Z n) = true /\ exp_ge (-52) (of_Z n).
Proof.
  intros Hn. destruct n as [|p|p]; [lia| |lia]. unfold of_Z. cbn [binary_normalize]. unfold binary_round.
  set (e0 := fexp64 (Zpos (digits2_pos p) + 0)). pose proof (Zdigits2_bounds (Zpos p) ltac:(lia)) as (Hd & Hl & Hu). cbn [Zdigits2] in Hd, Hl, Hu.
  assert (He0 : -52 <= e0) by (unfold e0; rewrite fexp64_eq; lia).
  assert (Hal : exists M' e', shl_align p 0 e0 = (M', e') /\ -52 <= e' /\ Zdigits2 (Zpos M') + e' = Zpos (digits2_pos p) /\ e' <= e0).
  { unfold shl_align. destruct (e0 - 0) as [|q|q] eqn:E.
    - exists p, 0. cbn [Zdigits2]. split_and!; try done; lia.
    - exists p, 0. cbn [Zdigits2]. split_and!; try done; lia.
    - exists (Pos.iter xO p q), e0. assert (HZ : Zpos (Pos.iter xO p q) = Zpos p * 2 ^ (- e0)) by (rewrite iter_xO; do 2 f_equal; lia).
      split_and!; try done. rewrite HZ, (Zdigits2_unique _ (Zpos (digits2_pos p) - e0)); [lia|lia|].
      replace (Zpos (digits2_pos p) - e0 - 1) with (Zpos (digits2_pos p) - 1 + - e0) by lia.
      replace (Zpos (digits2_pos p) - e0) with (Zpos (digits2_pos p) + - e0) by lia. rewrite !Z.pow_add_r by lia. nia. }
  destruct Hal as (M' & e' & -> & He' & Hdig & Hle). assert (Hexp : e' <= fexp64 (Zdigits2 (Zpos M') + e')) by (unfold e0 in Hle; rewrite Hdig; rewrite Z.add_0_r in Hle; done).
  destruct (round_aux_pos (Zpos M') e' loc_Exact) as [Hp He]; [lia|done|lia|]. split_and!; [|done|].
  - apply round_aux_valid; [lia|done].
  - destruct (binary_round_aux 53 1024 false (Zpos M') e' loc_Exact); cbn in *; try done. lia.
Qed.

(** [int(x)] truncates towards zero; the result of a conversion that does not fit is left to the
    implementation by the language and is not relied on. *)
Definition to_int (x : float64) : Z :=
  match x with
  | S754_finite s m e => cond_Zopp s (if 0 <=? e then Zpos m * 2 ^ e else Zpos m / 2 ^ (- e))
  | _ => 0
  end.

Lemma of_Z_sign n : 0 <= n -> has_sign false (of_Z n).
Proof.
  intros Hn. unfold of_Z. destruct n as [|m|m]; [done| |lia]. cbn [binary_normalize]. unfold binary_round.
  destruct (shl_align _ _ _). apply round_aux_sign. lia.
Qed.

Lemma to_int_nonneg x : nonneg x -> 0 <= to_int x.
Proof.
  destruct x as [?|?| |s m e]; cbn; try done; try lia. intros ->. cbn [cond_Zopp].
  destruct (Z.leb_spec 0 e); [apply Z.mul_nonneg_nonneg; lia|apply Z.div_pos; lia].
Qed.

(** [int(c * float64(n))] is not negative. *)
Lemma to_int_scaled m e n : 0 <= n -> 0 <= to_int (fmul (S754_finite false m e) (of_Z n)).
Proof.
  intros Hn. pose proof (of_Z_sign n Hn) as Hs. destruct (of_Z n) as [s|s| |s m' e']; cbn in Hs; subst; try done.
  apply to_int_nonneg, nonneg_sign. unfold fmul. cbn [SFmul xorb]. apply round_aux_sign. lia.
Qed.
