(* ===== verification/GoSort.v ===== *)
(** * Sorting

    The exchange sort that the routing code writes out by hand
    ([for i { for j := i+1 { if less(l[j], l[i]) { swap } } }]), and what [sort.Slice] promises. *)

From Stdlib Require Import Lia.
From stdpp Require Import base list sorting.
From S2P Require Import Prelude.

Section ExchangeSort.
Context {A : Type} (less : A -> A -> bool).

(** The inner loop for one [i]: [x] is the element at [i], [l] what follows it. *)
Fixpoint exchange_pass (x : A) (l : list A) : A * list A :=
  match l with
  | [] => (x, [])
  | y :: l' =>
      if less y x then let '(m, r) := exchange_pass y l' in (m, x :: r)
      else let '(m, r) := exchange_pass x l' in (m, y :: r)
  end.

(** The outer loop; [length l] iterations are enough. *)
Fixpoint exchange_loop (fuel : nat) (l : list A) : list A :=
  match fuel, l with
  | S fuel, x :: l' => let '(m, r) := exchange_pass x l' in m :: exchange_loop fuel r
  | _, _ => l
  end.

Definition exchange_sort (l : list A) : list A := exchange_loop (length l) l.

Lemma exchange_pass_perm x l : let '(m, r) := exchange_pass x l in m :: r ≡ₚ x :: l.
Proof.
  revert x. induction l as [|y l IH]; intros x; [by simpl|]. cbn [exchange_pass].
  destruct (less y x).
  - specialize (IH y). destruct (exchange_pass y l) as [m r].
    rewrite (Permutation_swap x m r), IH. done.
  - specialize (IH x). destruct (exchange_pass x l) as [m r].
    rewrite (Permutation_swap y m r), IH. apply Permutation_swap.
Qed.

Lemma exchange_loop_perm n l : exchange_loop n l ≡ₚ l.
Proof.
  revert l. induction n as [|n IH]; intros [|x l]; try done. cbn [exchange_loop].
  pose proof (exchange_pass_perm x l) as Hp. destruct (exchange_pass x l) as [m r]. by rewrite IH.
Qed.

Lemma exchange_sort_perm l : exchange_sort l ≡ₚ l.
Proof. apply exchange_loop_perm. Qed.

Lemma exchange_sort_length l : length (exchange_sort l) = length l.
Proof. apply Permutation_length, exchange_sort_perm. Qed.

(** Order: [le_of x y] is [not (y < x)]. *)
Definition le_of (x y : A) : Prop := less y x = false.

Context (P : A -> Prop).
Context (less_asym : forall x y, less x y = true -> less y x = false).
Context (le_trans : forall x y z, P y -> le_of x y -> le_of y z -> le_of x z).

Lemma exchange_pass_min x l :
  P x -> Forall P l -> let '(m, r) := exchange_pass x l in le_of m x /\ Forall (le_of m) r /\ P m.
Proof.
  intros Hx Hl. revert x Hx. induction Hl as [|y l Hy Hl IH]; intros x Hx; cbn [exchange_pass].
  { split; [|done]. unfold le_of. destruct (less x x) eqn:E; [|done]. by rewrite (less_asym _ _ E) in E. }
  destruct (less y x) eqn:E.
  - specialize (IH y Hy). destruct (exchange_pass y l) as [m r]. destruct IH as (Hm & Hr & HP).
    assert (le_of m x) by (by apply (le_trans m y x), less_asym). by repeat constructor.
  - specialize (IH x Hx). destruct (exchange_pass x l) as [m r]. destruct IH as (Hm & Hr & HP).
    assert (le_of m y) by (by apply (le_trans m x y)). by repeat constructor.
Qed.

Lemma exchange_loop_sorted n l : length l <= n -> Forall P l -> StronglySorted le_of (exchange_loop n l).
Proof.
  revert l. induction n as [|n IH]; intros [|x l] Hn Hl; try (by constructor); [simpl in Hn; lia|].
  cbn [exchange_loop]. apply Forall_cons in Hl as [Hx Hl].
  pose proof (exchange_pass_perm x l) as Hp. pose proof (exchange_pass_min x l Hx Hl) as Hm.
  destruct (exchange_pass x l) as [m r]. destruct Hm as (_ & Hr & HPm).
  assert (Hlen : length (m :: r) = length (x :: l)) by (by rewrite Hp).
  assert (HPr : Forall P (m :: r)) by (rewrite Hp; by constructor).
  constructor; [apply IH; [simpl in *; lia|by apply Forall_cons in HPr as [_ ?]]|].
  by rewrite exchange_loop_perm.
Qed.

Lemma exchange_sort_sorted l : Forall P l -> StronglySorted le_of (exchange_sort l).
Proof. by apply exchange_loop_sorted. Qed.
End ExchangeSort.

(** [sort.Slice(l, less)]: some permutation of [l] that is sorted; ties may come in any order. *)
Class SortSlice (A : Type) (less : A -> A -> bool) (P : A -> Prop) := {
  sort_slice : list A -> list A;
  sort_slice_perm l : sort_slice l ≡ₚ l;
  sort_slice_sorted l : Forall P l -> StronglySorted (le_of less) (sort_slice l)
}.
