(* ===== verification/GoChan.v ===== *)
(** * Channels, worker goroutines and semaphores

    The concurrency pattern that the programs use again and again: goroutines that take tasks from a
    channel until it is closed and drained ([for task := range ch]), a producer that closes the channel,
    a [sync.WaitGroup] that waits for the goroutines; and a buffered channel of empty structs as a
    counting semaphore.  One step is one channel operation or the end of one task. *)

From Stdlib Require Import ZArith Lia.
From stdpp Require Import base list list_tactics.
From S2P Require Import Prelude.

(** What an operation does now: it happens, it has to wait, or it panics. *)
Inductive outcome (S : Type) := Next (s : S) | Blocked | Panics.
Arguments Next {S} s.
Arguments Blocked {S}.
Arguments Panics {S}.

Definition obind {A B} (m : outcome A) (f : A -> outcome B) : outcome B :=
  match m with Next a => f a | Blocked => Blocked | Panics => Panics end.

Notation "'let?' x ':=' m 'in' k" := (obind m (fun x => k))
  (at level 10, x pattern, m at level 100, k at level 200) : go_scope.

Lemma obind_Next {A B} (m : outcome A) (f : A -> outcome B) b : obind m f = Next b <-> exists a, m = Next a /\ f a = Next b.
Proof. destruct m; simpl; split; [eauto|by intros (? & [= ->] & ?)|done|by intros (? & [=] & ?)|done|by intros (? & [=] & ?)]. Qed.

Module WorkerPool.

Section Pool.
Context {A : Type} `{EqDecision A}.

(** [size] goroutines that read a channel with a buffer of [cap]. *)
Record pool := mkPool {
  size : nat;
  cap : Z;
  queue : list A;        (* in the channel *)
  running : list A;      (* taken and not finished *)
  finished : list A;     (* in the order in which they were finished *)
  closed : bool
}.

Inductive op := Send (x : A) | Recv | Done (x : A) | CloseChan.

Definition start (size : nat) (cap : Z) : pool := mkPool size cap [] [] [] false.

Fixpoint remove_first (x : A) (l : list A) : option (list A) :=
  match l with
  | [] => None
  | y :: l => if decide (y = x) then Some l else cons y <$> remove_first x l
  end.

(** A send on an unbuffered channel is taken by a goroutine that is not busy. *)
Definition fire (p : pool) (o : op) : outcome pool :=
  match o with
  | Send x =>
      if closed p then Panics
      else if (Z.of_nat (length (queue p)) <? cap p)%Z then
        Next (mkPool (size p) (cap p) (queue p ++ [x]) (running p) (finished p) false)
      else if (cap p =? 0)%Z && (length (running p) <? size p)%nat then
        Next (mkPool (size p) (cap p) (queue p) (running p ++ [x]) (finished p) false)
      else Blocked
  | Recv =>
      match queue p with
      | x :: q => if (length (running p) <? size p)%nat then Next (mkPool (size p) (cap p) q (running p ++ [x]) (finished p) (closed p)) else Blocked
      | [] => Blocked
      end
  | Done x =>
      match remove_first x (running p) with
      | Some r => Next (mkPool (size p) (cap p) (queue p) r (finished p ++ [x]) (closed p))
      | None => Blocked
      end
  | CloseChan => if closed p then Panics else Next (mkPool (size p) (cap p) (queue p) (running p) (finished p) true)
  end.

(** The operations happen one after the other. *)
Fixpoint fires (p : pool) (os : list op) : outcome pool :=
  match os with
  | [] => Next p
  | o :: os => match fire p o with Next p' => fires p' os | Blocked => Blocked | Panics => Panics end
  end.

(** Every goroutine has returned: [wg.Wait()] returns. *)
Definition drained (p : pool) : Prop := closed p = true /\ queue p = [] /\ running p = [].

Definition sent (os : list op) : list A := omap (fun o => match o with Send x => Some x | _ => None end) os.

(** ** Accounting *)

Lemma remove_first_Perm x l r : remove_first x l = Some r -> l ≡ₚ x :: r.
Proof.
  revert r. induction l as [|y l IH]; intros r; cbn [remove_first]; [done|]. destruct (decide (y = x)) as [->|]; [by intros [= ->]|].
  intros (r' & Hr & ->)%fmap_Some. rewrite (IH r' Hr). apply perm_swap.
Qed.

Lemma remove_first_elem x l : x ∈ l -> is_Some (remove_first x l).
Proof.
  induction l as [|y l IH]; intros Hin; [by apply not_elem_of_nil in Hin|]. cbn [remove_first]. destruct (decide (y = x)); [done|].
  apply elem_of_cons in Hin as [->|Hin]; [done|]. destruct (IH Hin) as [r ->]. done.
Qed.

(** Where a task is changes, and nothing else. *)
Lemma fire_tasks p o p' :
  fire p o = Next p' -> queue p' ++ running p' ++ finished p' ≡ₚ (queue p ++ running p ++ finished p) ++ sent [o].
Proof.
  intros Hf. destruct o as [x| |x|]; cbn [fire] in Hf.
  - destruct (closed p); [done|]. case_match; [|case_match; [|done]]; injection Hf as <-; cbn; solve_Permutation.
  - destruct (queue p) as [|x q]; [done|]. case_match; [|done]. injection Hf as <-. cbn. solve_Permutation.
  - destruct (remove_first x (running p)) as [r|] eqn:Er; [|done]. injection Hf as <-. apply remove_first_Perm in Er. cbn. rewrite Er. solve_Permutation.
  - destruct (closed p); [done|]. injection Hf as <-. cbn. by rewrite app_nil_r.
Qed.

(** The tasks are accounted for, the buffer and the goroutines are never exceeded. *)
Record accounts (l : list A) (p : pool) : Prop := {
  ac_tasks : queue p ++ running p ++ finished p ≡ₚ l;
  ac_queue : (Z.of_nat (length (queue p)) <= cap p)%Z;
  ac_running : (length (running p) <= size p)%nat
}.

Lemma fire_accounts l p o p' :
  accounts l p -> fire p o = Next p' -> accounts (l ++ sent [o]) p' /\ size p' = size p /\ cap p' = cap p.
Proof.
  intros [Ht Hq Hr] Hf. pose proof (fire_tasks p o p' Hf) as Hp. rewrite Ht in Hp. destruct o as [x| |x|]; cbn [fire] in Hf.
  - destruct (closed p); [done|]. destruct (Z.ltb_spec (Z.of_nat (length (queue p))) (cap p)).
    { injection Hf as <-. split; [|done]. constructor; [done|cbn; rewrite length_app; simpl; lia|done]. }
    destruct (cap p =? 0)%Z; [|done]. destruct (Nat.ltb_spec (length (running p)) (size p)); [|done]. injection Hf as <-.
    split; [|done]. constructor; [done|done|cbn; rewrite length_app; simpl; lia].
  - destruct (queue p) as [|x q]; [done|]. destruct (Nat.ltb_spec (length (running p)) (size p)); [|done]. injection Hf as <-.
    split; [|done]. simpl in Hq. constructor; [done|cbn; lia|cbn; rewrite length_app; simpl; lia].
  - destruct (remove_first x (running p)) as [r|] eqn:Er; [|done]. injection Hf as <-. apply remove_first_Perm, Permutation_length in Er.
    split; [|done]. simpl in Er. constructor; [done|done|cbn; lia].
  - destruct (closed p); [done|]. injection Hf as <-. split; [|done]. by constructor.
Qed.

Lemma fires_accounts l p os p' :
  accounts l p -> fires p os = Next p' -> accounts (l ++ sent os) p' /\ size p' = size p /\ cap p' = cap p.
Proof.
  revert l p. induction os as [|o os IH]; intros l p Ha; cbn [fires]; [intros [= <-]; by rewrite app_nil_r|].
  destruct (fire p o) as [p1| |] eqn:Ef; [|done..]. intros Hf. destruct (fire_accounts l p o p1 Ha Ef) as (Ha1 & Hs1 & Hc1).
  destruct (IH _ _ Ha1 Hf) as (Ha2 & Hs2 & Hc2). split; [|split; congruence].
  replace (l ++ sent (o :: os)) with ((l ++ sent [o]) ++ sent os); [done|]. rewrite <- app_assoc. f_equal. unfold sent. cbn. by destruct o.
Qed.

Lemma accounts_start n c : (0 <= c)%Z -> accounts [] (start n c).
Proof. intros Hc. constructor; cbn; [done|lia|lia]. Qed.

(** ** Progress *)

(** Channel operations that are still to come. *)
Definition work_left (p : pool) : nat := 2 * length (queue p) + length (running p).

Lemma fire_work p o p' : fire p o = Next p' -> (o = Recv \/ exists x, o = Done x) -> S (work_left p') = work_left p.
Proof.
  unfold work_left. intros Hf [->|[x ->]]; cbn [fire] in Hf.
  - destruct (queue p) as [|x q]; [done|]. destruct (_ <? _)%nat; [|done]. injection Hf as <-. cbn. rewrite length_app. simpl. lia.
  - destruct (remove_first x (running p)) as [r|] eqn:Er; [|done]. injection Hf as <-. apply remove_first_Perm, Permutation_length in Er.
    cbn. simpl in Er. lia.
Qed.

(** A pool with a goroutine and something to do is never stuck. *)
Lemma fire_progress p : (0 < size p)%nat -> (0 < work_left p)%nat -> exists o p', (o = Recv \/ exists x, o = Done x) /\ fire p o = Next p'.
Proof.
  intros Hs Hw. destruct (running p) as [|x r] eqn:Er.
  - unfold work_left in Hw. rewrite Er in Hw. destruct (queue p) as [|x q] eqn:Eq; [simpl in Hw; lia|].
    exists Recv. cbn [fire]. rewrite Eq, Er. cbn [length]. rewrite (proj2 (Nat.ltb_lt 0 (size p)) Hs). eauto.
  - exists (Done x). cbn [fire]. rewrite Er. cbn [remove_first]. rewrite decide_True by done. eauto.
Qed.

Lemma fires_app p os1 os2 : fires p (os1 ++ os2) = match fires p os1 with Next p' => fires p' os2 | Blocked => Blocked | Panics => Panics end.
Proof. revert p. induction os1 as [|o os1 IH]; intros p; [done|]. cbn [app fires]. by destruct (fire p o). Qed.

Definition is_work (o : op) : bool := match o with Recv | Done _ => true | _ => false end.

(** Whatever the goroutines have done so far, they can finish. *)
Lemma can_drain p :
  (0 < size p)%nat -> exists os p', Forall (fun o => is_work o = true) os /\ fires p os = Next p' /\ queue p' = [] /\ running p' = [] /\ closed p' = closed p.
Proof.
  remember (work_left p) as n eqn:Hn. revert p Hn. induction n as [|n IH]; intros p Hn Hs.
  - exists [], p. unfold work_left in Hn. destruct (queue p), (running p); simpl in Hn; try lia. by repeat constructor.
  - destruct (fire_progress p Hs) as (o & p1 & Ho & Hf); [lia|]. pose proof (fire_work _ _ _ Hf Ho) as Hw.
    assert (Hsz : size p1 = size p /\ closed p1 = closed p).
    { destruct Ho as [->|[x ->]]; cbn [fire] in Hf; repeat case_match; try done; by injection Hf as <-. }
    destruct Hsz as [Hsz Hcl]. destruct (IH p1) as (os & p' & Hos & Hfs & Hq & Hr & Hc); [lia|lia|].
    exists (o :: os), p'. cbn [fires]. rewrite Hf. split_and!; [|done|done|done|congruence]. constructor; [|done]. by destruct Ho as [->|[x ->]].
Qed.
End Pool.
Arguments op : clear implicits.
Arguments pool : clear implicits.
End WorkerPool.

(** ** Counting semaphores *)

Module Semaphore.

Section Sem.
Context {T : Type} `{EqDecision T}.

(** [make(chan struct{}, limit)]: the threads that hold a slot. *)
Record sem := mkSem { limit : nat; holders : list T }.

Inductive sop := Acquire (t : T) | Release (t : T).

(** [sem <- struct{}{}] waits while the buffer is full; [<-sem] takes a slot back. *)
Definition sem_op (s : sem) (o : sop) : outcome sem :=
  match o with
  | Acquire t => if (length (holders s) <? limit s)%nat then Next (mkSem (limit s) (t :: holders s)) else Blocked
  | Release t => match WorkerPool.remove_first t (holders s) with Some l => Next (mkSem (limit s) l) | None => Blocked end
  end.

Fixpoint sem_run (s : sem) (os : list sop) : outcome sem :=
  match os with
  | [] => Next s
  | o :: os => match sem_op s o with Next s' => sem_run s' os | Blocked => Blocked | Panics => Panics end
  end.

Lemma sem_bounded s os s' : (length (holders s) <= limit s)%nat -> sem_run s os = Next s' -> (length (holders s') <= limit s')%nat /\ limit s' = limit s.
Proof.
  revert s. induction os as [|o os IH]; intros s Hb; cbn [sem_run]; [by intros [= <-]|].
  destruct (sem_op s o) as [s1| |] eqn:Eo; [|done..]. intros Hr.
  assert (H1 : (length (holders s1) <= limit s1)%nat /\ limit s1 = limit s).
  { destruct o as [t|t]; cbn [sem_op] in Eo.
    - destruct (Nat.ltb_spec (length (holders s)) (limit s)); [|done]. injection Eo as <-. simpl. lia.
    - destruct (WorkerPool.remove_first t (holders s)) as [l|] eqn:El; [|done]. injection Eo as <-.
      apply WorkerPool.remove_first_Perm, Permutation_length in El. simpl in *. lia. }
  destruct H1 as [H1 H2]. destruct (IH s1 H1 Hr). split; congruence || lia.
Qed.
End Sem.
End Semaphore.
