(* ===== verification/Packet.v ===== *)
(** * The tunnel packet (data-proxy/tunnel-packet/tunnel-packet.go)

    The packet with its fixed 24-byte header, the append of user messages, header
    serialisation and the two parsers.  The abstraction of a packet under construction is
    the list of sub-packets it carries ([Rep]); appending refines [snoc] on that list, and
    parsing the serialised bytes gives the list back. *)

From Stdlib Require Import ZArith Lia.
From stdpp Require Import base list gmap strings.
From S2P Require Import Prelude.

Module TunnelPacket.

Local Open Scope Z_scope.

(** ** Data *)

Definition HeaderSize : Z := 24.
Definition MaxHops : Z := 4.

Record Packet := mkPacket {
  Buf : bytes;
  BuffSize : Z;
  HopPos : Z;
  HopIP : list Z;   (* [4]uint32 *)
  PayloadLen : Z;
  Port : Z;
  Protocol : Z;
  Wp : Z
}.

Record SubPacket := mkSub { UserID : Z; Data : bytes }.

Inductive parse_error := ErrInvalidHeader | RawTooShort | InvalidPayloadLength.

#[global] Instance Packet_eq_dec : EqDecision Packet.
Proof. solve_decision. Defined.

#[global] Instance SubPacket_eq_dec : EqDecision SubPacket.
Proof. solve_decision. Defined.

(** ** Construction and setters *)

(** [make([]byte, n)] panics on a negative size. *)
Definition NewPacket (buffSizes : Z) : go Packet :=
  if buffSizes <? 0 then Panic
  else Ret (mkPacket (replicate (Z.to_nat buffSizes) 0) buffSizes 0 [0;0;0;0] 0 0 0 HeaderSize).

(** [net.IP.To4]: four bytes as they are, the last four of a v4-in-v6 address, else nil. *)
Definition To4 (ip : bytes) : bytes :=
  if (length ip =? 4)%nat then ip
  else if (length ip =? 16)%nat &&
          bool_decide (take 10 ip = replicate 10 0) && bool_decide (sub ip 10 2 = [255; 255])
  then drop 12 ip
  else [].

Definition SetHopIP (p : Packet) (hopIdx : Z) (ip : bytes) : Packet :=
  if (hopIdx <? 0) || (MaxHops <=? hopIdx) then p
  else match To4 ip with
       | [] => p
       | ip4 => mkPacket (Buf p) (BuffSize p) (HopPos p) (<[Z.to_nat hopIdx := be ip4]> (HopIP p))
                         (PayloadLen p) (Port p) (Protocol p) (Wp p)
       end.

Definition SetHopPos (p : Packet) (pos : Z) : Packet :=
  if (0 <=? pos) && (pos <? MaxHops)
  then mkPacket (Buf p) (BuffSize p) pos (HopIP p) (PayloadLen p) (Port p) (Protocol p) (Wp p)
  else p.

Definition AdvanceHop (p : Packet) : go Packet :=
  if HopPos p <? MaxHops - 1 then
    match Buf p with
    | [] => Panic
    | _ :: rest => Ret (mkPacket ((HopPos p + 1) :: rest) (BuffSize p) (HopPos p + 1) (HopIP p)
                                 (PayloadLen p) (Port p) (Protocol p) (Wp p))
    end
  else Ret p.

(** In place on the received bytes. *)
Definition AdvanceRawHop (pkt : bytes) : bytes :=
  match pkt with
  | b0 :: rest =>
      if (HeaderSize <=? Z.of_nat (length pkt)) && (b0 <? MaxHops - 1) then (b0 + 1) :: rest else pkt
  | [] => pkt
  end.

Definition SetPort (p : Packet) (port : Z) : Packet :=
  mkPacket (Buf p) (BuffSize p) (HopPos p) (HopIP p) (PayloadLen p) port (Protocol p) (Wp p).

Definition SetProtocol (p : Packet) (protocol : string) : Packet :=
  mkPacket (Buf p) (BuffSize p) (HopPos p) (HopIP p) (PayloadLen p) (Port p)
           (if String.eqb protocol "tcp" then 6 else 17) (Wp p).

(** ** Appending a user packet *)

(** [binary.BigEndian.PutUintN(buf[off:], v)] and [copy(buf[off:], d)]: the first panics when the
    bytes do not fit, the second copies what fits. *)
Definition put_at (buf : bytes) (off : Z) (d : bytes) : go bytes :=
  if (0 <=? off) && (off + Z.of_nat (length d) <=? Z.of_nat (length buf))
  then Ret (splice buf (Z.to_nat off) d) else Panic.

Definition copy_at (buf : bytes) (off : Z) (d : bytes) : go bytes :=
  if (0 <=? off) && (off <=? Z.of_nat (length buf))
  then Ret (splice buf (Z.to_nat off) (take (length buf - Z.to_nat off) d)) else Panic.

Definition AppendUserPacket (p : Packet) (userID : Z) (data : bytes) : go (Packet * bool) :=
  let subSize := 4 + 2 + Z.of_nat (length data) in
  if BuffSize p <? Wp p + subSize then Ret (p, false)
  else
    let! buf1 := put_at (Buf p) (Wp p) (put_u32 userID) in
    let! buf2 := put_at buf1 (Wp p + 4) (put_u16 (u16 (Z.of_nat (length data)))) in
    let! buf3 := copy_at buf2 (Wp p + 4 + 2) data in
    let wp := Wp p + 4 + 2 + Z.of_nat (length data) in
    Ret (mkPacket buf3 (BuffSize p) (HopPos p) (HopIP p) (u16 (wp - HeaderSize))
                  (Port p) (Protocol p) wp, true).

(** ** Serialising the header *)

Definition head_bytes (p : Packet) : bytes :=
  [HopPos p] ++ mbind put_u32 (HopIP p) ++ put_u16 (PayloadLen p) ++ put_u16 (Port p) ++ [Protocol p].

(** [p.Buf[:HeaderSize]] panics on a short buffer; bytes 22 and 23 are left as they are. *)
Definition SerializeHead (p : Packet) : go Packet :=
  if Z.of_nat (length (Buf p)) <? HeaderSize then Panic
  else Ret (mkPacket (splice (Buf p) 0 (head_bytes p)) (BuffSize p) (HopPos p) (HopIP p)
                     (PayloadLen p) (Port p) (Protocol p) (Wp p)).

Definition TotalBytes (p : Packet) : Z := HeaderSize + PayloadLen p.

(** ** Parsing *)

Definition header_of (b : bytes) (buf : bytes) (buffSize wp : Z) : Packet :=
  mkPacket buf buffSize (be (sub b 0 1))
    [be (sub b 1 4); be (sub b 5 4); be (sub b 9 4); be (sub b 13 4)]
    (be (sub b 17 2)) (be (sub b 19 2)) (be (sub b 21 1)) wp.

Definition ParseHeader (raw : bytes) : parse_error + Packet :=
  if Z.of_nat (length raw) <? HeaderSize then inl ErrInvalidHeader
  else let b := take 24 raw in inr (header_of b b 0 0).

(** The loop of [Parse] over a [bytes.Reader]: [binary.Read] needs all its bytes, while
    [r.Read(data)] fails only at the end of the payload and otherwise leaves the tail of [data]
    zero when fewer than [subLen] bytes are left. *)
Fixpoint parse_subs (fuel : nat) (r : bytes) : list SubPacket :=
  match fuel with
  | O => []
  | S fuel =>
      if (length r <? 4)%nat then [] else
      let userID := be (take 4 r) in
      let r1 := drop 4 r in
      if (length r1 <? 2)%nat then [] else
      let subLen := be (take 2 r1) in
      let r2 := drop 2 r1 in
      if (length r2 =? 0)%nat then [] else
      let n := Z.to_nat subLen in
      let data := take n r2 ++ replicate (n - length r2) 0 in
      mkSub userID data :: parse_subs fuel (drop n r2)
  end.

Definition Parse (raw : bytes) (bufferSize : Z) : go (parse_error + (Packet * list SubPacket)) :=
  if Z.of_nat (length raw) <? HeaderSize then Ret (inl RawTooShort)
  else
    let! p0 := NewPacket bufferSize in
    let! buf := copy_at (Buf p0) 0 raw in
    if bufferSize <? HeaderSize then Panic
    else
      let p := header_of (take 24 buf) buf bufferSize HeaderSize in
      let payloadEnd := HeaderSize + PayloadLen p in
      if (Z.of_nat (length raw) <? payloadEnd) || (bufferSize <? payloadEnd)
      then Ret (inl InvalidPayloadLength)
      else let payload := sub buf 24 (Z.to_nat (PayloadLen p)) in
           Ret (inr (p, parse_subs (S (length payload)) payload)).

(** ** The abstraction *)

Definition encode_sub (s : SubPacket) : bytes :=
  put_u32 (UserID s) ++ put_u16 (Z.of_nat (length (Data s))) ++ Data s.

Definition sub_size (s : SubPacket) : Z := 4 + 2 + Z.of_nat (length (Data s)).

Fixpoint payload_size (subs : list SubPacket) : Z :=
  match subs with
  | [] => 0
  | s :: rest => sub_size s + payload_size rest
  end.

(** A sub-packet the wire format can carry: a 32-bit id and 1 to 65535 data bytes. *)
Definition valid_sub (s : SubPacket) : Prop :=
  fits 32 (UserID s) /\ (0 < length (Data s))%nat /\ fits 16 (Z.of_nat (length (Data s))).

#[global] Instance valid_sub_dec s : Decision (valid_sub s).
Proof. unfold valid_sub. apply _. Defined.

Record wf (p : Packet) : Prop := {
  wf_buf : Z.of_nat (length (Buf p)) = BuffSize p;
  wf_lo : HeaderSize <= Wp p;
  wf_hi : Wp p <= BuffSize p;
  wf_small : BuffSize p < HeaderSize + 2 ^ 16;
  wf_hops : length (HopIP p) = 4%nat;
  wf_hop32 : Forall (fits 32) (HopIP p);
  wf_pos : fits 8 (HopPos p);
  wf_port : fits 16 (Port p);
  wf_proto : fits 8 (Protocol p)
}.

(** [Rep p subs]: the write area of [p] holds exactly [subs]. *)
Definition Rep (p : Packet) (subs : list SubPacket) : Prop :=
  wf p /\ Wp p = HeaderSize + payload_size subs /\
  sub (Buf p) 24 (Z.to_nat (payload_size subs)) = mbind encode_sub subs.

Fixpoint append_all (p : Packet) (subs : list SubPacket) : go (Packet * bool) :=
  match subs with
  | [] => Ret (p, true)
  | s :: rest =>
      let! (p', ok) := AppendUserPacket p (UserID s) (Data s) in
      if ok : bool then append_all p' rest else Ret (p', false)
  end.

Definition same_header (p q : Packet) : Prop :=
  HopPos p = HopPos q /\ HopIP p = HopIP q /\ Port p = Port q /\ Protocol p = Protocol q.

(** ** Lemmas *)

Ltac psimpl := cbn [Buf BuffSize HopPos HopIP PayloadLen Port Protocol Wp UserID Data].

(** Linear arithmetic over the lengths of spliced buffers. *)
Ltac lens :=
  repeat (rewrite ?length_splice, ?length_replicate, ?length_put_u16, ?length_put_u32); lia.

Lemma length_encode_sub s : Z.of_nat (length (encode_sub s)) = sub_size s.
Proof. unfold encode_sub, sub_size. rewrite !length_app, length_put_u16, length_put_u32. lia. Qed.

Lemma payload_size_nonneg subs : 0 <= payload_size subs.
Proof. induction subs; simpl; unfold sub_size in *; lia. Qed.

Lemma payload_size_app l1 l2 : payload_size (l1 ++ l2) = payload_size l1 + payload_size l2.
Proof. induction l1; simpl; lia. Qed.

Lemma length_encode subs : Z.of_nat (length (mbind encode_sub subs)) = payload_size subs.
Proof.
  induction subs as [|s l IH]; [done|]. cbn [payload_size].
  change (mbind encode_sub (s :: l)) with (encode_sub s ++ mbind encode_sub l).
  rewrite length_app, Nat2Z.inj_add, length_encode_sub, IH. done.
Qed.

#[local] Hint Resolve payload_size_nonneg : go_db.

Lemma put_at_ok buf off d :
  0 <= off -> off + Z.of_nat (length d) <= Z.of_nat (length buf) ->
  put_at buf off d = Ret (splice buf (Z.to_nat off) d).
Proof. intros. unfold put_at. rewrite (proj2 (Z.leb_le 0 off)), (proj2 (Z.leb_le _ _)) by lia. done. Qed.

Lemma copy_at_ok buf off d :
  0 <= off -> off + Z.of_nat (length d) <= Z.of_nat (length buf) ->
  copy_at buf off d = Ret (splice buf (Z.to_nat off) d).
Proof.
  intros. unfold copy_at. rewrite (proj2 (Z.leb_le 0 off)), (proj2 (Z.leb_le off _)) by lia.
  simpl. by rewrite take_ge by lia.
Qed.

(** An append that fits writes the encoding of the sub-packet at the write pointer. *)
(** The length field takes the length modulo 2^16. *)
Lemma put_u16_wrap n : put_u16 (u16 n) = put_u16 n.
Proof.
  unfold put_u16, wrap. rewrite !Z.shiftr_div_pow2 by lia.
  assert (H1 : (n mod 2 ^ 16 / 2 ^ 8) mod 2 ^ 8 = (n / 2 ^ 8) mod 2 ^ 8).
  { change (2 ^ 16) with (2 ^ 8 * 2 ^ 8). rewrite Z.rem_mul_r by lia. rewrite (Z.mul_comm (2 ^ 8) (_ mod _)), Z.div_add by lia.
    rewrite (Z.div_small (n mod 2 ^ 8)) by (apply Z.mod_pos_bound; lia). rewrite Z.add_0_l. apply Z.mod_mod. lia. }
  assert (H2 : (n mod 2 ^ 16) mod 2 ^ 8 = n mod 2 ^ 8).
  { change (2 ^ 16) with (2 ^ 8 * 2 ^ 8). rewrite Z.rem_mul_r by lia. rewrite (Z.mul_comm (2 ^ 8) (_ mod _)), Z.mod_add by lia. by rewrite Z.mod_mod. }
  by rewrite H1, H2.
Qed.

Lemma AppendUserPacket_ok p uid data :
  Z.of_nat (length (Buf p)) = BuffSize p -> 0 <= Wp p ->
  Wp p + sub_size (mkSub uid data) <= BuffSize p ->
  AppendUserPacket p uid data =
    let wp := Wp p + sub_size (mkSub uid data) in
    Ret (mkPacket (splice (Buf p) (Z.to_nat (Wp p)) (encode_sub (mkSub uid data))) (BuffSize p)
           (HopPos p) (HopIP p) (u16 (wp - HeaderSize)) (Port p) (Protocol p) wp, true).
Proof.
  unfold sub_size. cbn [Data]. intros Hb Hw Hfit. unfold AppendUserPacket, encode_sub. cbn [Data UserID].
  rewrite (proj2 (Z.ltb_ge _ _)) by lia. rewrite put_u16_wrap.
  rewrite put_at_ok by (rewrite ?length_put_u32; lia). cbn [go_bind].
  rewrite put_at_ok by (rewrite ?length_splice; simpl; lia). cbn [go_bind].
  set (n := Z.to_nat (Wp p)).
  replace (Z.to_nat (Wp p + 4)) with (n + length (put_u32 uid))%nat by (simpl; lia).
  rewrite splice_splice by (simpl; lia).
  rewrite copy_at_ok by (rewrite ?length_splice; simpl; lia). cbn [go_bind].
  replace (Z.to_nat (Wp p + 4 + 2)) with
    (n + length (put_u32 uid ++ put_u16 (Z.of_nat (length data))))%nat by (simpl; lia).
  rewrite splice_splice by (simpl; lia). rewrite <- app_assoc.
  by replace (Wp p + (4 + 2 + Z.of_nat (length data)))
    with (Wp p + 4 + 2 + Z.of_nat (length data)) by lia.
Qed.

Lemma AppendUserPacket_full p uid data :
  BuffSize p < Wp p + sub_size (mkSub uid data) -> AppendUserPacket p uid data = Ret (p, false).
Proof. unfold sub_size. cbn [Data]. intros. unfold AppendUserPacket. by rewrite (proj2 (Z.ltb_lt _ _)) by lia. Qed.

(** The append refines [snoc]: on a packet that holds [subs] it returns [true] exactly when the
    encoding fits and then holds [subs ++ [s]]. *)
Lemma Rep_append p subs s :
  Rep p subs -> fits 16 (Z.of_nat (length (Data s))) ->
  Wp p + sub_size s <= BuffSize p ->
  exists p', AppendUserPacket p (UserID s) (Data s) = Ret (p', true) /\
    Rep p' (subs ++ [s]) /\ same_header p p' /\ BuffSize p' = BuffSize p /\
    PayloadLen p' = payload_size (subs ++ [s]).
Proof.
  intros [Hwf [Hwp Hbuf]] Hd Hfit. destruct Hwf. destruct s as [uid data]. cbn [UserID Data] in *.
  rewrite AppendUserPacket_ok by (unfold HeaderSize in *; (done || lia)).
  eexists. split; [done|].
  pose proof (payload_size_nonneg subs) as Hnn. pose proof (length_encode_sub (mkSub uid data)) as Hl.
  assert (0 <= sub_size (mkSub uid data)) by (unfold sub_size; lia).
  assert (Hps : payload_size (subs ++ [mkSub uid data]) = payload_size subs + sub_size (mkSub uid data))
    by (rewrite payload_size_app; simpl; lia).
  unfold HeaderSize in *.
  split; [|split; [by repeat split|split; [done|]]];
    [|simpl; unfold HeaderSize; rewrite wrap_id; [lia|unfold fits; lia]].
  split; [|split].
  - constructor; simpl; unfold HeaderSize; try lia; try done. rewrite length_splice; lia.
  - simpl. unfold HeaderSize. lia.
  - simpl. rewrite Hps, bind_app. simpl. rewrite app_nil_r, <- Hbuf.
    replace (Z.to_nat (payload_size subs + sub_size (mkSub uid data))) with
      (Z.to_nat (Wp p) + length (encode_sub (mkSub uid data)) - 24)%nat by lia.
    rewrite sub_splice_end by lia. do 2 f_equal. lia.
Qed.

(** One iteration of the parser on one well-formed encoding. *)
Lemma parse_subs_step s rest fuel :
  valid_sub s -> parse_subs (S fuel) (encode_sub s ++ rest) = s :: parse_subs fuel rest.
Proof.
  destruct s as [uid data]. intros (Hu & Hn & Hd). cbn [UserID Data] in *.
  unfold encode_sub. cbn [UserID Data]. rewrite <- !app_assoc.
  cbn [parse_subs].
  rewrite (proj2 (Nat.ltb_ge _ _)) by (rewrite !length_app; simpl; lia).
  rewrite (drop_app_length' (put_u32 uid) _ 4 eq_refl), (take_app_length' (put_u32 uid) _ 4 eq_refl).
  rewrite (proj2 (Nat.ltb_ge _ _)) by (rewrite !length_app; simpl; lia).
  rewrite (drop_app_length' (put_u16 _) _ 2 eq_refl), (take_app_length' (put_u16 _) _ 2 eq_refl).
  rewrite (proj2 (Nat.eqb_neq _ _)) by (rewrite !length_app; lia).
  rewrite be_put_u32, be_put_u16, !wrap_id, Nat2Z.id by done.
  rewrite take_app_length, drop_app_length, length_app.
  replace (length data - (length data + length rest))%nat with 0%nat by lia.
  cbn [replicate]. by rewrite app_nil_r.
Qed.

Lemma parse_subs_encode subs fuel :
  Forall valid_sub subs -> (length (mbind encode_sub subs) < fuel)%nat ->
  parse_subs fuel (mbind encode_sub subs) = subs.
Proof.
  intros Hv. revert fuel. induction Hv as [|s l Hs Hl IH]; intros fuel Hf.
  - destruct fuel; [inversion Hf|done].
  - change (mbind encode_sub (s :: l)) with (encode_sub s ++ mbind encode_sub l) in *.
    rewrite length_app in Hf. destruct fuel as [|fuel]; [lia|].
    rewrite parse_subs_step by done. rewrite IH; [done|].
    pose proof (length_encode_sub s). unfold sub_size in *. lia.
Qed.

(** What the header bytes say: every field is read back from the serialised header. *)
Lemma header_of_head p pad buf bs w :
  wf p -> fits 16 (PayloadLen p) ->
  header_of (head_bytes p ++ pad) buf bs w =
    mkPacket buf bs (HopPos p) (HopIP p) (PayloadLen p) (Port p) (Protocol p) w.
Proof.
  intros [_ _ _ _ Hh H32 Hp8 Hpt Hpr] Hpl. unfold header_of, head_bytes.
  destruct (HopIP p) as [|i0 [|i1 [|i2 [|i3 [|]]]]]; try discriminate Hh.
  apply Forall_cons in H32 as [H0 H32]. apply Forall_cons in H32 as [H1 H32].
  apply Forall_cons in H32 as [H2 H32]. apply Forall_cons in H32 as [H3 _].
  change (mbind put_u32 [i0; i1; i2; i3]) with
    (put_u32 i0 ++ put_u32 i1 ++ put_u32 i2 ++ put_u32 i3).
  f_equal.
  - change (sub _ 1 4) with (put_u32 i0). change (sub _ 5 4) with (put_u32 i1).
    change (sub _ 9 4) with (put_u32 i2). change (sub _ 13 4) with (put_u32 i3).
    by rewrite !be_put_u32, !wrap_id by done.
  - change (sub _ 17 2) with (put_u16 (PayloadLen p)). by rewrite be_put_u16, wrap_id.
  - change (sub _ 19 2) with (put_u16 (Port p)). by rewrite be_put_u16, wrap_id.
Qed.

Lemma length_head_bytes p : length (HopIP p) = 4%nat -> length (head_bytes p) = 22%nat.
Proof.
  intros Hh. unfold head_bytes.
  destruct (HopIP p) as [|i0 [|i1 [|i2 [|i3 [|]]]]]; try discriminate Hh. done.
Qed.

(** Serialising keeps the represented sub-packets and the header fields. *)
Lemma SerializeHead_ok p subs :
  Rep p subs ->
  exists p', SerializeHead p = Ret p' /\ Rep p' subs /\ same_header p p' /\
    BuffSize p' = BuffSize p /\ PayloadLen p' = PayloadLen p /\
    exists pad, length pad = 2%nat /\
      take 24 (Buf p') = head_bytes p ++ pad.
Proof.
  intros [Hwf [Hwp Hbuf]]. pose proof Hwf as [Hb Hlo Hhi Hsm Hh _ _ _ _].
  pose proof (length_head_bytes p Hh) as Hlen. pose proof (payload_size_nonneg subs).
  unfold HeaderSize in *. unfold SerializeHead, HeaderSize.
  rewrite (proj2 (Z.ltb_ge _ _)) by lia. eexists. split; [done|].
  split; [|split; [by repeat split|split; [done|split; [done|]]]].
  - split; [|split]; [|done|].
    + destruct Hwf. constructor; psimpl; try done. by rewrite length_splice by lia.
    + psimpl. rewrite <- Hbuf. apply sub_splice_after; lia.
  - exists (sub (Buf p) 22 2). split; [apply length_sub; lia|]. psimpl.
    unfold splice. rewrite take_0, app_nil_l. rewrite take_app_ge, Hlen by lia. done.
Qed.

Lemma append_all_Rep subs p done_ :
  Rep p done_ -> Forall valid_sub subs -> Wp p + payload_size subs <= BuffSize p ->
  subs <> [] ->
  exists p', append_all p subs = Ret (p', true) /\ Rep p' (done_ ++ subs) /\ same_header p p' /\
    BuffSize p' = BuffSize p /\ PayloadLen p' = payload_size (done_ ++ subs).
Proof.
  intros HR Hv. revert p done_ HR.
  induction Hv as [|s l Hs Hl IH]; intros p done_ HR Hfit Hne; [done|].
  cbn [payload_size] in Hfit. pose proof (payload_size_nonneg l).
  destruct (Rep_append p done_ s HR) as (p1 & Happ & HR1 & Hh1 & Hb1 & Hpl1);
    [apply Hs|lia|]. cbn [append_all]. rewrite Happ. cbn [go_bind].
  destruct l as [|s2 l2].
  - exists p1. split; [done|]. by split_and!.
  - destruct (IH p1 (done_ ++ [s]) HR1) as (p2 & Ha2 & HR2 & Hh2 & Hb2 & Hpl2); [|done|].
    { destruct HR as (_ & Hw & _). destruct HR1 as (_ & Hw1 & _).
      rewrite payload_size_app in Hw1. cbn [payload_size] in *. lia. }
    exists p2. rewrite <- app_assoc in HR2, Hpl2. split; [done|]. split; [done|].
    split; [|split; [congruence|done]].
    unfold same_header in *. intuition congruence.
Qed.

(** [Parse] of a packet that represents [subs], cut at [TotalBytes]. *)
Lemma Parse_Rep p subs n :
  Rep p subs -> Forall valid_sub subs -> PayloadLen p = payload_size subs ->
  (exists pad, length pad = 2%nat /\ take 24 (Buf p) = head_bytes p ++ pad) ->
  n = TotalBytes p ->
  exists q, Parse (take (Z.to_nat n) (Buf p)) n = Ret (inr (q, subs)) /\ same_header p q.
Proof.
  intros (Hwf & Hwp & Hbuf) Hv Hpl (pad & Hpad & Hhd) ->.
  pose proof Hwf as [Hb Hlo Hhi Hsm Hh _ _ _ _]. pose proof (payload_size_nonneg subs) as Hnn.
  unfold TotalBytes, HeaderSize in *. set (tb := Z.to_nat (24 + PayloadLen p)).
  assert (Hltb : length (take tb (Buf p)) = tb) by (rewrite length_take; lia).
  unfold Parse, HeaderSize. rewrite (proj2 (Z.ltb_ge _ _)) by lia.
  unfold NewPacket. rewrite (proj2 (Z.ltb_ge _ _)) by lia. cbn [go_bind Buf].
  rewrite copy_at_ok by (rewrite ?length_replicate; lia). cbn [go_bind].
  rewrite (proj2 (Z.ltb_ge _ _)) by lia.
  assert (Hcopy : splice (replicate (Z.to_nat (24 + PayloadLen p)) 0) (Z.to_nat 0) (take tb (Buf p))
                  = take tb (Buf p)).
  { unfold splice. rewrite take_0, drop_ge by (rewrite length_replicate; lia). apply app_nil_r. }
  rewrite Hcopy, take_take, Nat.min_l, Hhd, header_of_head by (lia || done || (unfold fits; lia)).
  cbn [PayloadLen]. rewrite Hltb.
  rewrite (proj2 (Z.ltb_ge (Z.of_nat tb) _)), (proj2 (Z.ltb_ge (24 + PayloadLen p) _)) by lia.
  cbn [orb].
  assert (Hpay : sub (take tb (Buf p)) 24 (Z.to_nat (PayloadLen p)) = mbind encode_sub subs).
  { rewrite <- Hbuf, Hpl. unfold sub. rewrite !take_drop_commute, take_take. do 2 f_equal. lia. }
  rewrite Hpay, parse_subs_encode by (done || lia).
  eexists. split; [done|by repeat split].
Qed.

(** ** Properties *)

Lemma NewPacket_Rep n :
  24 <= n < 24 + 2 ^ 16 -> exists p, NewPacket n = Ret p /\ Rep p [] /\ BuffSize p = n /\ Wp p = 24.
Proof.
  intros. unfold NewPacket. rewrite (proj2 (Z.ltb_ge _ _)) by lia. eexists.
  split; [done|]. split; [|done]. split; [|split]; [|done|].
  - constructor; psimpl; unfold HeaderSize, fits; try lia; try done.
    + rewrite length_replicate. lia.
    + repeat constructor; lia.
  - psimpl. unfold sub. by rewrite take_0.
Qed.

Lemma Rep_SetHopIP p subs i ip : Rep p subs -> Forall (fits 8) ip -> Rep (SetHopIP p i ip) subs.
Proof.
  intros (Hwf & Hwp & Hb) Hip. unfold SetHopIP.
  destruct ((i <? 0) || (MaxHops <=? i)); [done|].
  assert (H4 : Forall (fits 8) (To4 ip) /\ (To4 ip = [] \/ length (To4 ip) = 4%nat)).
  { unfold To4. repeat case_match; bool_prop; (split; [|auto]); try done.
    - by apply Forall_drop.
    - right. rewrite length_drop. lia. }
  destruct (To4 ip) as [|b l] eqn:E; [done|]. destruct H4 as [H8 [|Hl]]; [done|].
  split; [|split]; [|done|done]. destruct Hwf. constructor; psimpl; try done.
  - by rewrite length_insert.
  - apply Forall_insert; [done|].
    destruct l as [|b1 [|b2 [|b3 [|]]]]; try discriminate Hl.
    repeat (apply Forall_cons in H8 as [? H8]). unfold be, fits in *. simpl. lia.
Qed.

Lemma Rep_SetPort p subs port : Rep p subs -> fits 16 port -> Rep (SetPort p port) subs.
Proof. intros (Hwf & Hwp & Hb) ?. split; [|done]. destruct Hwf. by constructor. Qed.

Lemma Rep_SetProtocol p subs pr : Rep p subs -> Rep (SetProtocol p pr) subs.
Proof.
  intros (Hwf & Hwp & Hb). split; [|done]. destruct Hwf. constructor; try done.
  cbn [Protocol SetProtocol]. destruct (String.eqb pr "tcp"); unfold fits; lia.
Qed.

Lemma Rep_SetHopPos p subs pos : Rep p subs -> Rep (SetHopPos p pos) subs.
Proof.
  intros (Hwf & Hwp & Hb). unfold SetHopPos.
  destruct ((0 <=? pos) && (pos <? MaxHops)) eqn:?; [|done].
  bool_prop. split; [|done]. destruct Hwf. constructor; try done.
  psimpl. unfold fits, MaxHops in *. lia.
Qed.

#[export] Hint Resolve Rep_SetHopIP Rep_SetPort Rep_SetProtocol Rep_SetHopPos : go_db.

Lemma parse_subs_fuel f1 f2 r :
  (length r < f1)%nat -> (length r < f2)%nat -> parse_subs f1 r = parse_subs f2 r.
Proof.
  revert f2 r. induction f1 as [|f1 IH]; intros [|f2] r H1 H2; try lia. cbn [parse_subs].
  do 3 (case_match; [done|]). f_equal. bool_prop.
  rewrite !length_drop in *. apply IH; rewrite !length_drop; lia.
Qed.

Lemma SerializeHead_TotalBytes p p' : SerializeHead p = Ret p' -> TotalBytes p' = TotalBytes p.
Proof. unfold SerializeHead. case_scrut; intros [=]; by subst. Qed.

(** C1. Round trip: appending any non-empty list of valid user messages to an empty packet with
    room for them and a buffer of less than 2^16 + 24 bytes, so that all lengths fit 16 bits, serialising the header and parsing the first [TotalBytes] bytes gives back
    exactly those messages, in order, with the header fields unchanged. *)
Theorem packet_roundtrip p subs :
  Rep p [] -> Forall valid_sub subs -> subs <> [] ->
  HeaderSize + payload_size subs <= BuffSize p ->
  exists p1 p2 q,
    append_all p subs = Ret (p1, true) /\ SerializeHead p1 = Ret p2 /\
    TotalBytes p2 = HeaderSize + payload_size subs /\
    Parse (take (Z.to_nat (TotalBytes p2)) (Buf p2)) (TotalBytes p2) = Ret (inr (q, subs)) /\
    same_header p q.
Proof.
  intros HR Hv Hne Hfit. pose proof HR as (_ & Hwp & _). cbn [payload_size] in Hwp.
  destruct (append_all_Rep subs p [] HR Hv) as (p1 & Ha & HR1 & Hh1 & Hb1 & Hpl1); [lia|done|].
  destruct (SerializeHead_ok p1 subs HR1) as (p2 & Hs & HR2 & Hh2 & Hb2 & Hpl2 & pad & Hpad & Hhd).
  destruct (Parse_Rep p2 subs (TotalBytes p2) HR2 Hv) as (q & Hq & Hh3).
  - rewrite Hpl2, Hpl1. done.
  - exists pad. split; [done|]. rewrite Hhd. unfold head_bytes.
    destruct Hh2 as (-> & -> & -> & ->). by rewrite Hpl2.
  - done.
  - exists p1, p2, q. do 2 (split; [done|]).
    split; [unfold TotalBytes; rewrite Hpl2, Hpl1; done|]. split; [done|].
    unfold same_header in *. intuition congruence.
Qed.

(** C37. [AppendUserPacket] on a packet whose buffer has its size and whose write pointer is behind the header, for data of any length: it refuses exactly the
    data that does not fit between the write pointer and the buffer size and then leaves the packet as it is; otherwise it writes the id, the
    length modulo 2^16 and the data at the write pointer and leaves the rest of the buffer and the header as they are, and [PayloadLen] becomes what is written
    behind the header modulo 2^16.  When the packet held a list of sub-packets in a buffer of less than 2^16 + 24 bytes and the length of the
    data fits 16 bits, it then holds that list and the new sub-packet, and [PayloadLen] is their size. *)
Theorem append_refines_snoc p s :
  Z.of_nat (length (Buf p)) = BuffSize p -> HeaderSize <= Wp p ->
  if decide (Wp p + sub_size s <= BuffSize p)
  then exists p', AppendUserPacket p (UserID s) (Data s) = Ret (p', true) /\ same_header p p' /\ BuffSize p' = BuffSize p /\ Wp p' = Wp p + sub_size s /\
         Buf p' = take (Z.to_nat (Wp p)) (Buf p) ++
                  (put_u32 (UserID s) ++ put_u16 (Z.of_nat (length (Data s)) mod 2 ^ 16) ++ Data s) ++ drop (Z.to_nat (Wp p')) (Buf p) /\
         PayloadLen p' = (Wp p' - HeaderSize) mod 2 ^ 16 /\
         (forall subs, Rep p subs -> fits 16 (Z.of_nat (length (Data s))) -> Rep p' (subs ++ [s]) /\ PayloadLen p' = payload_size (subs ++ [s]))
  else AppendUserPacket p (UserID s) (Data s) = Ret (p, false).
Proof.
  intros Hb Hw. case_decide as Hfit; [|destruct s as [u d]; cbn [UserID Data] in *; apply AppendUserPacket_full; lia].
  pose proof (AppendUserPacket_ok p (UserID s) (Data s) Hb) as Ha. destruct s as [u d]. cbn [UserID Data] in *.
  specialize (Ha ltac:(unfold HeaderSize in *; lia) Hfit). cbn zeta in Ha. eexists. split; [exact Ha|]. psimpl.
  split; [done|]. split; [done|]. split; [done|]. split; [|split; [done|]].
  - unfold splice. f_equal. change (Z.of_nat (length d) mod 2 ^ 16) with (u16 (Z.of_nat (length d))). rewrite put_u16_wrap. unfold encode_sub. cbn [UserID Data]. do 2 f_equal.
    pose proof (length_encode_sub (mkSub u d)) as Hl. unfold encode_sub in Hl. cbn [UserID Data] in Hl. unfold HeaderSize in Hw. lia.
  - intros subs HR Hd. destruct (Rep_append p subs (mkSub u d) HR Hd Hfit) as (p' & Ha' & HR' & _ & _ & Hp'). cbn [UserID Data] in Ha'. rewrite Ha in Ha'.
    injection Ha' as <-. done.
Qed.

(** [Parse] on bytes received from the tunnel, with the buffer size the handler passes
    ([len(pkt)]), never panics: it returns an error exactly when the header is incomplete or the
    announced payload is longer than what was received. *)
Lemma Parse_no_panic raw :
  exists r, Parse raw (Z.of_nat (length raw)) = Ret r /\
    (r = inl RawTooShort <-> (length raw < 24)%nat) /\
    (r = inl InvalidPayloadLength <->
       (24 <= length raw)%nat /\ Z.of_nat (length raw) < 24 + be (sub raw 17 2)).
Proof.
  unfold Parse, HeaderSize. destruct (Z.ltb_spec (Z.of_nat (length raw)) 24).
  { eexists. split; [done|]. split; split; try done; intros; lia || done. }
  unfold NewPacket. rewrite (proj2 (Z.ltb_ge _ 0)) by lia. cbn [go_bind].
  rewrite copy_at_ok by (psimpl; rewrite ?length_replicate; lia). cbn [go_bind].
  set (buf := splice _ _ _).
  assert (Hbuf : buf = raw).
  { unfold buf, splice. psimpl. rewrite take_0, drop_ge by (rewrite length_replicate; lia).
    apply app_nil_r. }
  rewrite Hbuf. set (p := header_of _ _ _ _).
  assert (Hpl : PayloadLen p = be (sub raw 17 2)).
  { unfold p, header_of. psimpl. unfold sub. rewrite !take_drop_commute, take_take.
    do 3 f_equal. }
  rewrite Hpl. destruct (Z.ltb_spec (Z.of_nat (length raw)) (24 + be (sub raw 17 2))).
  - eexists. split; [done|]. split; split; try done; intros; lia.
  - eexists. split; [done|].
    split; split; try done; intros; lia.
Qed.

(** A forwarding node changes one byte: [AdvanceRawHop] keeps the length and every byte but the
    hop position, which it increases by one while it is below the last hop. *)
Theorem AdvanceRawHop_spec pkt h :
  ParseHeader pkt = inr h ->
  length (AdvanceRawHop pkt) = length pkt /\ drop 1 (AdvanceRawHop pkt) = drop 1 pkt /\
  (forall h', ParseHeader (AdvanceRawHop pkt) = inr h' ->
     HopPos h' = (if HopPos h <? MaxHops - 1 then HopPos h + 1 else HopPos h) /\
     HopIP h' = HopIP h /\ PayloadLen h' = PayloadLen h /\ Port h' = Port h /\
     Protocol h' = Protocol h).
Proof.
  unfold ParseHeader. destruct (Z.ltb_spec (Z.of_nat (length pkt)) HeaderSize) as [|Hlen]; [done|].
  intros [= <-]. destruct pkt as [|b0 rest]; [unfold HeaderSize in Hlen; simpl in Hlen; lia|].
  unfold AdvanceRawHop. rewrite (proj2 (Z.leb_le _ _)) by lia. cbn [andb].
  assert (HP : forall b, HopPos (header_of (take 24 (b :: rest)) (take 24 (b :: rest)) 0 0) = b) by done.
  rewrite HP.
  destruct (b0 <? MaxHops - 1); (split; [done|]); (split; [done|]); intros h';
    (destruct (Z.ltb_spec (Z.of_nat (length ((b0 + 1) :: rest))) HeaderSize); [done|]) ||
    (destruct (Z.ltb_spec (Z.of_nat (length (b0 :: rest))) HeaderSize); [done|]);
    intros [= <-]; by rewrite ?HP.
Qed.

(** A sub-packet whose announced length runs past the end of the payload is not rejected: the
    parser returns it with the missing bytes zero. *)
Theorem Parse_pads_truncated_sub uid n data fuel :
  fits 32 uid -> fits 16 (Z.of_nat n) -> (0 < length data < n)%nat ->
  parse_subs (S fuel) (put_u32 uid ++ put_u16 (Z.of_nat n) ++ data) =
    [mkSub uid (data ++ replicate (n - length data) 0)].
Proof.
  intros Hu Hn Hlt. cbn [parse_subs].
  rewrite (proj2 (Nat.ltb_ge _ _)) by (rewrite !length_app; simpl; lia).
  rewrite (drop_app_length' (put_u32 uid) _ 4 eq_refl), (take_app_length' (put_u32 uid) _ 4 eq_refl).
  rewrite (proj2 (Nat.ltb_ge _ _)) by (rewrite !length_app; simpl; lia).
  rewrite (drop_app_length' (put_u16 _) _ 2 eq_refl), (take_app_length' (put_u16 _) _ 2 eq_refl).
  rewrite (proj2 (Nat.eqb_neq _ _)) by lia.
  rewrite be_put_u32, be_put_u16, !wrap_id, Nat2Z.id by done.
  rewrite take_ge, drop_ge by lia. by destruct fuel.
Qed.

(** Width of the length fields: a message of [n] bytes put alone in a buffer sized for it (as the
    direct-send path does) is accepted, but [TotalBytes], which decides how much is sent, is
    [24 + (6 + n) mod 2^16]: from 65530 bytes on the packet that is sent is shorter than what was
    written. *)
Theorem append_length_wraps uid data :
  exists p p', NewPacket (HeaderSize + 4 + 2 + Z.of_nat (length data)) = Ret p /\
    AppendUserPacket p uid data = Ret (p', true) /\
    Wp p' = HeaderSize + 6 + Z.of_nat (length data) /\
    TotalBytes p' = HeaderSize + (6 + Z.of_nat (length data)) mod 2 ^ 16.
Proof.
  unfold NewPacket, HeaderSize. rewrite (proj2 (Z.ltb_ge _ _)) by lia. do 2 eexists.
  split; [done|]. unfold AppendUserPacket, HeaderSize. psimpl.
  rewrite (proj2 (Z.ltb_ge _ _)) by lia.
  rewrite put_at_ok by lens. cbn [go_bind].
  rewrite put_at_ok by lens. cbn [go_bind].
  rewrite copy_at_ok by lens. cbn [go_bind].
  split; [done|]. unfold TotalBytes, HeaderSize, wrap. psimpl. split; [lia|]. do 2 f_equal. lia.
Qed.

(** ** Concrete instances *)

Definition sample_packet : Packet :=
  SetHopPos (SetProtocol (SetPort (SetHopIP
    (mkPacket (replicate 64 0) 64 0 [0;0;0;0] 0 0 0 HeaderSize) 0 [10; 0; 0; 1]) 8080) "tcp") 1.

Definition sample_subs : list SubPacket := [mkSub 7 [104; 105; 10]; mkSub 8 [111; 107; 10]].

Lemma sample_Rep : Rep sample_packet [].
Proof.
  destruct (NewPacket_Rep 64) as (p & Hp & HR & _ & _); [lia|]. injection Hp as Hp.
  apply Rep_SetHopPos, Rep_SetProtocol, Rep_SetPort; [|unfold fits; lia].
  apply Rep_SetHopIP; [by rewrite <- Hp in HR|]. repeat constructor; lia.
Qed.

Lemma sample_valid : Forall valid_sub sample_subs.
Proof. repeat constructor; simpl; lia. Qed.

Lemma packet_roundtrip_witness :
  Rep sample_packet [] /\ exists p1 p2 q,
    append_all sample_packet sample_subs = Ret (p1, true) /\ SerializeHead p1 = Ret p2 /\
    TotalBytes p2 = HeaderSize + payload_size sample_subs /\
    Parse (take (Z.to_nat (TotalBytes p2)) (Buf p2)) (TotalBytes p2) = Ret (inr (q, sample_subs)) /\
    same_header sample_packet q.
Proof.
  split; [apply sample_Rep|].
  apply packet_roundtrip; [apply sample_Rep|apply sample_valid|done|vm_compute; done].
Defined.

Lemma append_refines_snoc_witness :
  exists p', AppendUserPacket sample_packet 7 [104; 105; 10] = Ret (p', true) /\ Rep p' ([] ++ [mkSub 7 [104; 105; 10]]) /\ PayloadLen p' = 9.
Proof.
  pose proof (append_refines_snoc sample_packet (mkSub 7 [104; 105; 10]) ltac:(vm_compute; done) ltac:(vm_compute; done)) as H.
  rewrite decide_True in H by (vm_compute; done). destruct H as (p' & Ha & _ & _ & _ & _ & _ & HR).
  destruct (HR [] sample_Rep ltac:(vm_compute; split; done)) as [HR' Hp]. exists p'. split; [exact Ha|]. split; [exact HR'|exact Hp].
Defined.

Lemma AdvanceRawHop_spec_witness :
  let pkt := 1 :: replicate 23 0 in
  exists h, ParseHeader pkt = inr h /\ drop 1 (AdvanceRawHop pkt) = drop 1 pkt /\
    forall h', ParseHeader (AdvanceRawHop pkt) = inr h' -> HopPos h' = 2.
Proof.
  eexists. split; [reflexivity|].
  destruct (AdvanceRawHop_spec (1 :: replicate 23 0) _ eq_refl) as (_ & Hd & Hh).
  split; [exact Hd|]. intros h' E. destruct (Hh h' E) as [-> _]. reflexivity.
Defined.

Lemma Parse_pads_truncated_sub_witness :
  parse_subs 9 (put_u32 7 ++ put_u16 5 ++ [1; 2]) = [mkSub 7 [1; 2; 0; 0; 0]].
Proof.
  exact (Parse_pads_truncated_sub 7 5 [1; 2] 8 ltac:(vm_compute; split; done)
           ltac:(vm_compute; split; done) ltac:(simpl; lia)).
Defined.

End TunnelPacket.
