(* ===== verification/Tunnel.v ===== *)
(** * The QUIC tunnel (data-proxy/tunnel-handler.go, tunnel-manager/)

    - [TunnelHandler]: what a proxy does with a packet received from a tunnel
      ([HandleQUICPacket]) and how a packet travels from proxy to proxy;
    - [TunnelManager]: the cache of QUIC connections and [SendPacket] over it;
    - [StreamReader]: the framing of one unidirectional stream ([handleConn]). *)

From Stdlib Require Import ZArith Lia.
From stdpp Require Import base list gmap strings pretty.
From S2P Require Import Prelude Packet.
Import TunnelPacket.

Module TunnelHandler.

Local Open Scope Z_scope.

(** ** util.Uint32ToIP, net.IP.String, net.JoinHostPort *)

Definition Uint32ToIP (ipUint32 : Z) : bytes := put_u32 ipUint32.

Definition ip_string (ip : bytes) : string :=
  match ip with
  | [a; b; c; d] => pretty a +:+ "." +:+ pretty b +:+ "." +:+ pretty c +:+ "." +:+ pretty d
  | _ => "<nil>"
  end.

Definition JoinHostPort (host port : string) : string := host +:+ ":" +:+ port.

(** ** Effects of the handler *)

Record BackSourceTask := mkTask {
  t_HopIP : list Z;
  t_Port : Z;
  t_UserID : Z;
  t_OriginAddr : string;
  t_ReqData : bytes
}.

Inductive effect :=
| Submit (protocal : string) (task : BackSourceTask)   (* backsourcer.BackSourcerMap[protocal].Submit *)
| Send (nextIP : Z) (pkt : bytes)                       (* manager.TunnelMgr.SendPacket *)
| Deliver (userID : Z) (data : bytes).                  (* disaggregator.GlobalDisagg.Deliver *)

(** Indexing the array [HopIP] panics out of range; the index [header.HopPos+1] is a byte. *)
Definition hop_at (h : Packet) (i : Z) : go Z :=
  match HopIP h !! Z.to_nat i with
  | Some ip => Ret ip
  | None => Panic
  end.

Definition HandleQUICPacket (pkt : bytes) : go (list effect) :=
  if Z.of_nat (length pkt) <? HeaderSize then Ret []
  else match ParseHeader pkt with
  | inl _ => Ret []
  | inr header =>
    if negb (Port header =? 0) then
      let protocal := if Protocol header =? 17 then "udp" else "tcp" in
      let! isLastHop :=
        (if HopPos header + 2 <? MaxHops then
           let! ip := hop_at header (u8 (HopPos header + 2)) in
           Ret ((HopPos header =? 2) || (ip =? 0))
         else Ret (HopPos header =? 2)) in
      if isLastHop : bool then
        let! parsed := Parse pkt (Z.of_nat (length pkt)) in
        match parsed with
        | inl _ | inr (_, []) => Ret []
        | inr (_, subs) =>
            let! originIP := hop_at header (HopPos header + 1) in
            if originIP =? 0 then Ret []
            else
              let originAddr := JoinHostPort (ip_string (Uint32ToIP originIP)) (pretty (Port header)) in
              Ret (map (fun s => Submit protocal
                     (mkTask (HopIP header) (Port header) (UserID s) originAddr (Data s))) subs)
        end
      else
        let! nextIP := hop_at header (u8 (HopPos header + 1)) in
        Ret [Send nextIP (AdvanceRawHop pkt)]
    else
      let! isLastHop :=
        (if HopPos header + 1 <? MaxHops then
           let! ip := hop_at header (u8 (HopPos header + 1)) in
           Ret ((HopPos header =? 3) || (ip =? 0))
         else Ret (HopPos header =? 3)) in
      if isLastHop : bool then
        let! parsed := Parse pkt (Z.of_nat (length pkt)) in
        match parsed with
        | inl _ | inr (_, []) => Ret []
        | inr (_, subs) => Ret (map (fun s => Deliver (UserID s) (Data s)) subs)
        end
      else
        let! nextIP := hop_at header (u8 (HopPos header + 1)) in
        Ret [Send nextIP (AdvanceRawHop pkt)]
  end.

(** ** Travelling through the overlay

    [transit n node pkt]: the packet arrives at [node]; while the handler forwards it, it arrives at
    the address it was sent to.  The result is the node that consumed the packet and what it did;
    [None] when the packet is still on its way after [n] hops. *)
Fixpoint transit (fuel : nat) (node : Z) (pkt : bytes) : go (option (Z * list effect)) :=
  match fuel with
  | O => Ret None
  | S fuel =>
      let! effs := HandleQUICPacket pkt in
      match effs with
      | [Send next pkt'] => transit fuel next pkt'
      | _ => Ret (Some (node, effs))
      end
  end.

(** [carries raw pos hops port proto subs]: the bytes on the wire hold this header and payload. *)
Definition carries (raw : bytes) (pos : Z) (hops : list Z) (port proto : Z) (subs : list SubPacket) : Prop :=
  exists q, Parse raw (Z.of_nat (length raw)) = Ret (inr (q, subs)) /\
    HopPos q = pos /\ HopIP q = hops /\ Port q = port /\ Protocol q = proto.

(** ** Lemmas *)

Lemma header_of_take raw :
  (24 <= length raw)%nat ->
  forall buf bs w, header_of (take 24 raw) buf bs w = header_of raw buf bs w.
Proof.
  intros Hl buf bs w. unfold header_of, sub. rewrite !take_drop_commute, !take_take. done.
Qed.

(** [Parse] with the handler's buffer size, as one equation. *)
Lemma Parse_self raw :
  (24 <= length raw)%nat ->
  Parse raw (Z.of_nat (length raw)) =
    let p := header_of raw raw (Z.of_nat (length raw)) 24 in
    if Z.of_nat (length raw) <? 24 + PayloadLen p then Ret (inl InvalidPayloadLength)
    else let payload := sub raw 24 (Z.to_nat (PayloadLen p)) in
         Ret (inr (p, parse_subs (S (length payload)) payload)).
Proof.
  intros Hl. unfold Parse, HeaderSize. rewrite (proj2 (Z.ltb_ge _ 24)) by lia.
  unfold NewPacket. rewrite (proj2 (Z.ltb_ge _ 0)) by lia. cbn [go_bind].
  rewrite copy_at_ok by (cbn [Buf]; rewrite ?length_replicate; lia). cbn [go_bind Buf].
  assert (Hbuf : splice (replicate (Z.to_nat (Z.of_nat (length raw))) 0) (Z.to_nat 0) raw = raw).
  { unfold splice. rewrite take_0, drop_ge by (rewrite length_replicate; lia). apply app_nil_r. }
  rewrite Hbuf, header_of_take by done. rewrite orb_diag. done.
Qed.

Lemma carries_length raw pos hops port proto subs :
  carries raw pos hops port proto subs -> (24 <= length raw)%nat.
Proof.
  intros (q & Hp & _). unfold Parse, HeaderSize in Hp.
  destruct (Z.ltb_spec (Z.of_nat (length raw)) 24); [done|lia].
Qed.

Lemma carries_header raw pos hops port proto subs :
  carries raw pos hops port proto subs ->
  exists h, ParseHeader raw = inr h /\ HopPos h = pos /\ HopIP h = hops /\ Port h = port /\ Protocol h = proto.
Proof.
  intros Hc. pose proof (carries_length _ _ _ _ _ _ Hc) as Hl. destruct Hc as (q & Hp & Hq).
  rewrite Parse_self in Hp by done. cbv zeta in Hp.
  destruct (Z.ltb_spec (Z.of_nat (length raw)) (24 + PayloadLen (header_of raw raw (Z.of_nat (length raw)) 24)));
    [done|].
  injection Hp as <- _. unfold ParseHeader, HeaderSize. rewrite (proj2 (Z.ltb_ge _ 24)) by lia.
  eexists. split; [done|]. rewrite header_of_take by done. exact Hq.
Qed.

(** Advancing the hop position keeps the rest of the packet. *)
Lemma carries_advance raw pos hops port proto subs :
  carries raw pos hops port proto subs -> pos < 3 ->
  carries (AdvanceRawHop raw) (pos + 1) hops port proto subs.
Proof.
  intros Hc Hpos. pose proof (carries_length _ _ _ _ _ _ Hc) as Hl.
  destruct Hc as (q & Hp & Hq). destruct raw as [|b0 rest]; [simpl in Hl; lia|].
  assert (Hb : b0 = pos).
  { rewrite Parse_self in Hp by done. cbv zeta in Hp. case_match; [done|].
    injection Hp as <- _. by destruct Hq as (<- & _). }
  unfold AdvanceRawHop, HeaderSize, MaxHops.
  rewrite (proj2 (Z.leb_le _ _)), (proj2 (Z.ltb_lt b0 _)) by lia. cbn [andb].
  unfold carries. rewrite Parse_self in Hp |- * by done. cbv zeta in Hp |- *.
  change (PayloadLen (header_of ((b0 + 1) :: rest) ((b0 + 1) :: rest) (Z.of_nat (length ((b0 + 1) :: rest))) 24))
    with (PayloadLen (header_of (b0 :: rest) (b0 :: rest) (Z.of_nat (length (b0 :: rest))) 24)).
  change (Z.of_nat (length ((b0 + 1) :: rest))) with (Z.of_nat (length (b0 :: rest))).
  case_match; [done|]. injection Hp as <- <-.
  change (sub ((b0 + 1) :: rest) 24) with (sub (b0 :: rest) 24).
  eexists. split; [done|]. destruct Hq as (_ & Hips & Hport & Hproto).
  split; [by subst|]. done.
Qed.

Lemma hop_at_lookup h i :
  length (HopIP h) = 4%nat -> 0 <= i < 4 -> hop_at h i = Ret (HopIP h !!! Z.to_nat i).
Proof.
  intros Hl Hi. unfold hop_at. rewrite list_lookup_lookup_total_lt by lia. done.
Qed.

(** Forwarding from a hop position that is not below the last hop: the byte [HopPos+1] wraps at 255. *)
Lemma forward_panic h f P :
  length (HopIP h) = 4%nat -> 3 <= HopPos h < 256 -> (P <-> HopPos h <= 254) ->
  (let! nextIP := hop_at h (u8 (HopPos h + 1)) in Ret (f nextIP : list effect)) = Panic <-> P.
Proof.
  intros Hl Hp ->. unfold hop_at, wrap. change (2 ^ 8) with 256.
  destruct (Z.eq_dec (HopPos h) 255) as [->|].
  - change (Z.to_nat ((255 + 1) mod 256)) with 0%nat.
    destruct (HopIP h); [discriminate Hl|]. simpl. split; [done|lia].
  - rewrite Z.mod_small by lia. rewrite lookup_ge_None_2 by lia. split; [lia|done].
Qed.

(** A body whose every branch returns does not panic. *)
Ltac no_panic :=
  split; [intros Hx; exfalso; revert Hx; cbn [go_bind]; repeat case_match; done | lia].

Ltac hop_side := (done || (rewrite ?wrap_id; unfold fits; lia)).

(** The handler on a complete packet, by the fields it looks at. *)
Lemma Handle_carries raw pos hops port proto subs :
  carries raw pos hops port proto subs -> length hops = 4%nat -> 0 <= pos <= 3 ->
  (port = 0 \/ pos <= 2) ->
  exists h, ParseHeader raw = inr h /\
  HandleQUICPacket raw =
    if port =? 0 then
      if (pos =? 3) || (hops !!! Z.to_nat (pos + 1) =? 0)
      then Ret (map (fun s => Deliver (UserID s) (Data s)) subs)
      else Ret [Send (hops !!! Z.to_nat (pos + 1)) (AdvanceRawHop raw)]
    else
      if (pos =? 2) || (hops !!! Z.to_nat (pos + 2) =? 0)
      then let originIP := hops !!! Z.to_nat (pos + 1) in
           if originIP =? 0 then Ret []
           else Ret (map (fun s => Submit (if proto =? 17 then "udp" else "tcp")
                  (mkTask hops port (UserID s)
                     (JoinHostPort (ip_string (Uint32ToIP originIP)) (pretty port)) (Data s))) subs)
      else Ret [Send (hops !!! Z.to_nat (pos + 1)) (AdvanceRawHop raw)].
Proof.
  intros Hc Hlen Hpos Hpp. pose proof (carries_length _ _ _ _ _ _ Hc) as Hl.
  destruct (carries_header _ _ _ _ _ _ Hc) as (h & Hh & Hhp & Hhi & Hhport & Hhproto).
  exists h. split; [done|]. destruct Hc as (q & Hp & _).
  unfold HandleQUICPacket. rewrite (proj2 (Z.ltb_ge _ _)) by (unfold HeaderSize; lia).
  rewrite Hh, Hhport, Hhp, Hhproto, Hp. cbv zeta. rewrite <- Hhi in Hlen.
  destruct (Z.eqb_spec port 0) as [->|Hport]; cbn [negb].
  - destruct (Z.ltb_spec (pos + 1) MaxHops) as [Hlt|Hge]; unfold MaxHops in *.
    + rewrite !hop_at_lookup, Hhi, wrap_id by hop_side. cbn [go_bind]. destruct subs; repeat case_match; done.
    + assert (pos = 3) as -> by lia. by destruct subs.
  - destruct (Z.ltb_spec (pos + 2) MaxHops) as [Hlt|Hge]; unfold MaxHops in *.
    + rewrite !hop_at_lookup, Hhi, !wrap_id by hop_side. cbn [go_bind]. destruct subs; repeat case_match; done.
    + assert (pos = 2) as -> by lia. cbn [go_bind Z.eqb Pos.eqb orb].
      rewrite !hop_at_lookup, Hhi by hop_side. cbn [go_bind]. destruct subs; repeat case_match; done.
Qed.

Definition pad4 (path : list Z) : list Z := take 4 (path ++ replicate 4 0).

(** Read one entry of a padded path. *)
Ltac eval_hops :=
  repeat match goal with
  | |- context [pad4 ?l !!! ?i] =>
      cbv zeta;
      let v := eval lazy in (pad4 l !!! i) in change (pad4 l !!! i) with v
  end;
  repeat match goal with
  | H : ?x <> 0 |- context [?x =? 0] => rewrite (proj2 (Z.eqb_neq x 0) H)
  end;
  cbn [orb Z.eqb Pos.eqb].

(** ** Properties *)

(** A request travels its path: a packet for a path of three or four non-zero addresses that
    leaves the ingress with hop position 1 is consumed by the last proxy of the path (the last but
    one address), which submits every user message, in order, to the origin (the last address) on
    the packet's port. *)
Theorem request_reaches_origin raw ingress p1 path origin port proto subs :
  let full := ingress :: p1 :: path ++ [origin] in
  (length path <= 1)%nat -> Forall (fun ip => ip <> 0) full -> port <> 0 ->
  carries raw 1 (pad4 full) port proto subs ->
  transit 2 p1 raw =
    Ret (Some (List.last (p1 :: path) 0,
      map (fun s => Submit (if proto =? 17 then "udp" else "tcp")
        (mkTask (pad4 full) port (UserID s)
           (JoinHostPort (ip_string (Uint32ToIP origin)) (pretty port)) (Data s))) subs)).
Proof.
  intros full Hlen Hnz Hport Hc.
  destruct path as [|p2 [|]]; [| |simpl in Hlen; lia]; cbn in full; subst full;
    repeat (apply Forall_cons in Hnz as [? Hnz]).
  - destruct (Handle_carries _ _ _ _ _ _ Hc) as (h & _ & He); [done|lia|lia|].
    cbn [transit]. rewrite He. eval_hops. cbn [go_bind]. by destruct subs as [|? [|]].
  - destruct (Handle_carries _ _ _ _ _ _ Hc) as (h & _ & He); [done|lia|lia|].
    cbn [transit]. rewrite He. eval_hops. cbn [go_bind].
    apply carries_advance in Hc; [|lia].
    destruct (Handle_carries _ _ _ _ _ _ Hc) as (h2 & _ & He2); [done|lia|lia|].
    rewrite He2. eval_hops. cbn [go_bind]. by destruct subs as [|? [|]].
Qed.

(** A response travels back: a packet with port 0 for a return path of two to four non-zero
    addresses that leaves the egress with hop position 1 is consumed by the last address of the
    path, which delivers every user message, in order, to the request that waits for it. *)
Theorem response_reaches_ingress raw egress p1 path proto subs :
  let full := egress :: p1 :: path in
  (length path <= 2)%nat -> Forall (fun ip => ip <> 0) full ->
  carries raw 1 (pad4 full) 0 proto subs ->
  transit 3 p1 raw =
    Ret (Some (List.last (p1 :: path) 0, map (fun s => Deliver (UserID s) (Data s)) subs)).
Proof.
  intros full Hlen Hnz Hc.
  destruct path as [|p2 [|p3 [|]]]; [| | |simpl in Hlen; lia]; cbn in full; subst full;
    repeat (apply Forall_cons in Hnz as [? Hnz]);
    repeat (
      let h := fresh "h" in let He := fresh "He" in
      destruct (Handle_carries _ _ _ _ _ _ Hc) as (h & _ & He); [done|lia|lia|];
      try (apply carries_advance in Hc; [|lia]);
      try change (1 + 1) with 2 in Hc; try change (2 + 1) with 3 in Hc;
      cbn [transit]; rewrite He; clear He; eval_hops; cbn [go_bind]; try (by destruct subs as [|? [|]])).
Qed.

(** Which received packets crash the handler: with all bytes in range, [HandleQUICPacket] panics
    exactly on a complete header whose hop position points outside the hop array, 3 to 254 for a
    request (port not 0) and 4 to 254 for a response. *)
Theorem HandleQUICPacket_panic pkt :
  Forall (fits 8) pkt ->
  (HandleQUICPacket pkt = Panic <->
   exists h, ParseHeader pkt = inr h /\
     ((Port h <> 0 /\ 3 <= HopPos h <= 254) \/ (Port h = 0 /\ 4 <= HopPos h <= 254))).
Proof.
  intros Hb. unfold HandleQUICPacket, ParseHeader.
  destruct (Z.ltb_spec (Z.of_nat (length pkt)) HeaderSize) as [|Hl].
  { split; [done|]. by intros (h & [=] & _). }
  set (header := header_of _ _ _ _).
  assert (Hlen : length (HopIP header) = 4%nat) by done.
  assert (Hpos : 0 <= HopPos header < 256).
  { destruct pkt as [|b rest]; [unfold HeaderSize in Hl; simpl in Hl; lia|].
    apply Forall_cons in Hb as [Hb _]. exact Hb. }
  assert (Hex : forall P : Packet -> Prop, (exists h, inr header = inr h :> parse_error + Packet /\ P h) <-> P header).
  { intros P. split; [by intros (h & [= <-] & ?)|eauto]. }
  rewrite Hex. clear Hex Hb.
  destruct (Parse_no_panic pkt) as (r & Hr & _). rewrite Hr. cbn [go_bind]. unfold MaxHops.
  destruct (Z.eqb_spec (Port header) 0) as [Hp|Hp]; cbn [negb].
  - destruct (Z.ltb_spec (HopPos header + 1) 4).
    { rewrite !hop_at_lookup by hop_side. no_panic. }
    destruct (Z.eqb_spec (HopPos header) 3); cbn [go_bind]; [no_panic|].
    apply forward_panic; [done|lia|lia].
  - destruct (Z.ltb_spec (HopPos header + 2) 4).
    { rewrite !hop_at_lookup by hop_side. no_panic. }
    destruct (Z.eqb_spec (HopPos header) 2); cbn [go_bind].
    { rewrite !hop_at_lookup by hop_side. no_panic. }
    apply forward_panic; [done|lia|lia].
Qed.

(** ** Concrete packets *)

(** The bytes of a packet with hop position 1 and one message. *)
Definition sample_raw (hops : list Z) (port proto : Z) : bytes :=
  [1] ++ mbind put_u32 hops ++ put_u16 9 ++ put_u16 port ++ [proto; 0; 0] ++ encode_sub (mkSub 7 [104; 105; 10]).

Lemma sample_raw_carries hops port proto :
  pad4 hops = hops -> length hops = 4%nat -> Forall (fits 32) hops -> fits 16 port ->
  carries (sample_raw hops port proto) 1 hops port proto [mkSub 7 [104; 105; 10]].
Proof.
  intros _ Hl H32 Hp. destruct hops as [|i0 [|i1 [|i2 [|i3 [|]]]]]; try discriminate Hl.
  do 4 (apply Forall_cons in H32 as [? H32]).
  assert (Hb : be (put_u16 port) = port) by (by rewrite be_put_u16, wrap_id).
  assert (Hi : forall i, fits 32 i -> be (put_u32 i) = i) by (intros; by rewrite be_put_u32, wrap_id).
  unfold carries. rewrite Parse_self by (simpl; lia). cbv zeta.
  eexists. split; [reflexivity|]. cbn [HopPos HopIP Port Protocol header_of].
  split; [done|]. split; [|by split].
  change (sub _ 1 4) with (put_u32 i0). change (sub _ 5 4) with (put_u32 i1).
  change (sub _ 9 4) with (put_u32 i2). change (sub _ 13 4) with (put_u32 i3). by rewrite !Hi.
Qed.

Lemma request_reaches_origin_witness :
  transit 2 2 (sample_raw [1; 2; 3; 4] 8080 6) =
    Ret (Some (3, [Submit "tcp" (mkTask [1; 2; 3; 4] 8080 7 "0.0.0.4:8080" [104; 105; 10])])).
Proof.
  apply (request_reaches_origin (sample_raw [1; 2; 3; 4] 8080 6) 1 2 [3] 4 8080 6 [mkSub 7 [104; 105; 10]]).
  - simpl; lia.
  - repeat constructor; lia.
  - lia.
  - apply sample_raw_carries; [reflexivity|reflexivity|repeat constructor; lia|vm_compute; done].
Defined.

Lemma response_reaches_ingress_witness :
  transit 3 2 (sample_raw [1; 2; 3; 0] 0 17) = Ret (Some (3, [Deliver 7 [104; 105; 10]])).
Proof.
  apply (response_reaches_ingress (sample_raw [1; 2; 3; 0] 0 17) 1 2 [3] 17 [mkSub 7 [104; 105; 10]]).
  - simpl; lia.
  - repeat constructor; lia.
  - apply (sample_raw_carries [1; 2; 3; 0]); [reflexivity|reflexivity|repeat constructor; lia|vm_compute; done].
Defined.

(** A header with port 80 and hop position 3. *)
Definition crash_packet : bytes := [3] ++ replicate 18 0 ++ [0; 80; 6; 0; 0].

Lemma HandleQUICPacket_panic_witness : HandleQUICPacket crash_packet = Panic.
Proof.
  apply (HandleQUICPacket_panic crash_packet).
  - repeat constructor; lia.
  - eexists. split; [reflexivity|]. left. vm_compute. split; [done|]. split; done.
Defined.

End TunnelHandler.

Module StreamReader.

Local Open Scope Z_scope.

(** What a stream offers: the bytes before it ends and whether it ended with a clean EOF (a reset
    stream ends with another error). *)
Record stream := mkStream { avail : bytes; clean : bool }.

(** The goroutine of [handleConn]: [Some buf] is the call [handler(remote, buf, l)]. [io.ReadFull]
    of the payload reports [io.EOF] when nothing could be read, [io.ErrUnexpectedEOF] (which the
    code ignores) when a part could. *)
Definition read_packet (s : stream) : option bytes :=
  if (length (avail s) <? 24)%nat then None
  else
    let headerBuf := take 24 (avail s) in
    let payloadLen := be (sub headerBuf 17 2) in
    let totalLen := (24 + Z.to_nat payloadLen)%nat in
    let rest := drop 24 (avail s) in
    if (Z.to_nat payloadLen <=? length rest)%nat then Some (take totalLen (avail s))
    else if clean s && (0 <? length rest)%nat
         then Some (avail s ++ replicate (totalLen - length (avail s)) 0)
         else None.

(** Framing: the handler receives exactly the bytes of a packet that was written whole, whatever
    follows it on the stream. *)
Theorem read_packet_complete raw extra c :
  (24 <= length raw)%nat -> Z.of_nat (length raw) = 24 + be (sub raw 17 2) ->
  read_packet (mkStream (raw ++ extra) c) = Some raw.
Proof.
  intros Hl Htot. unfold read_packet. cbn [avail clean].
  rewrite (proj2 (Nat.ltb_ge _ _)) by (rewrite length_app; lia).
  rewrite take_app_le by lia.
  assert (Hpl : sub (take 24 raw) 17 2 = sub raw 17 2).
  { unfold sub. by rewrite !take_drop_commute, take_take. }
  rewrite Hpl, (proj2 (Nat.leb_le _ _)) by (rewrite length_drop, length_app; lia).
  replace (24 + Z.to_nat (be (sub raw 17 2)))%nat with (length raw) by lia.
  by rewrite take_app_length.
Qed.

(** The handler is always called with a buffer of exactly the announced length, so that [Parse]
    never fails on it; when the stream ends cleanly inside the payload the missing bytes are zero. *)
Theorem read_packet_length s buf :
  Forall (fits 8) (avail s) -> read_packet s = Some buf ->
  Z.of_nat (length buf) = 24 + be (sub buf 17 2) /\
  (exists p subs, Parse buf (Z.of_nat (length buf)) = Ret (inr (p, subs))) /\
  buf = take (length buf) (avail s) ++ replicate (length buf - length (avail s)) 0.
Proof.
  intros Hb. unfold read_packet. destruct (Nat.ltb_spec (length (avail s)) 24); [done|].
  assert (Hpl : sub (take 24 (avail s)) 17 2 = sub (avail s) 17 2).
  { unfold sub. by rewrite !take_drop_commute, take_take. }
  rewrite Hpl. set (n := be (sub (avail s) 17 2)).
  assert (Hn : 0 <= n).
  { unfold n, be. assert (Hs : Forall (fits 8) (sub (avail s) 17 2))
      by (apply Forall_take, Forall_drop, Hb).
    assert (Hge : forall l a, Forall (fits 8) l -> 0 <= a -> 0 <= foldl (fun acc b => acc * 256 + b) a l).
    { induction l as [|x l IH]; intros a Hl Ha; [done|]. apply Forall_cons in Hl as [Hx Hl].
      simpl. apply IH; [done|]. unfold fits in Hx. lia. }
    by apply Hge. }
  rewrite length_drop. intros Hr.
  assert (Hbuf : (24 <= length buf)%nat /\ Z.of_nat (length buf) = 24 + n /\
      sub buf 17 2 = sub (avail s) 17 2 /\
      buf = take (length buf) (avail s) ++ replicate (length buf - length (avail s)) 0).
  { destruct (Nat.leb_spec (Z.to_nat n) (length (avail s) - 24)).
    - apply (inj Some) in Hr. subst buf. rewrite length_take, Nat.min_l by lia.
      split; [lia|]. split; [lia|]. split.
      + unfold sub. by rewrite !take_drop_commute, take_take, Nat.min_l by lia.
      + replace (24 + Z.to_nat n - length (avail s))%nat with 0%nat by lia.
        symmetry. apply app_nil_r.
    - case_match; [|done]. apply (inj Some) in Hr. subst buf. rewrite length_app, length_replicate.
      split; [lia|]. split; [lia|]. split; [apply sub_prefix; lia|].
      rewrite take_ge by lia. do 2 f_equal. lia. }
  destruct Hbuf as (H24 & Hlen & Hsub & Heq). rewrite Hsub. split; [done|]. split; [|done].
  rewrite TunnelHandler.Parse_self by done. cbv zeta.
  assert (HP : PayloadLen (header_of buf buf (Z.of_nat (length buf)) 24) = n) by (cbn; by rewrite Hsub).
  rewrite HP, (proj2 (Z.ltb_ge _ _)) by lia. eauto.
Qed.

Lemma read_packet_complete_witness :
  read_packet (mkStream (TunnelHandler.sample_raw [1; 2; 3; 4] 8080 6 ++ [9; 9]) true) =
    Some (TunnelHandler.sample_raw [1; 2; 3; 4] 8080 6).
Proof. apply read_packet_complete; [simpl; lia|reflexivity]. Defined.

(** A packet cut after 30 of its 33 bytes. *)
Definition cut_stream : stream := mkStream (take 30 (TunnelHandler.sample_raw [1; 2; 3; 4] 8080 6)) true.

Lemma read_packet_length_witness :
  exists buf, read_packet cut_stream = Some buf /\ Z.of_nat (length buf) = 24 + be (sub buf 17 2).
Proof.
  eexists. split; [reflexivity|].
  refine (proj1 (read_packet_length cut_stream _ _ eq_refl)).
  apply Forall_forall. intros x Hx. vm_compute in Hx. unfold fits. set_solver by lia.
Defined.

End StreamReader.

Module TunnelManager.

(** The cache of tunnels: address -> QUIC connection.  The QUIC library is outside the sources: what
    a call to it returns is a parameter of the operation. *)
Section Manager.
Context {conn : Type}.

Record quic_env := mkEnv {
  dial : option conn;    (* ResolveUDPAddr, ListenUDP and quic.Dial *)
  open_ok : conn -> bool;  (* conn.OpenUniStreamSync *)
  write_ok : conn -> bool  (* stream.Write *)
}.

Inductive send_error := RemoteNil | DialFailed | OpenFailed | WriteFailed.

Definition QUIC_PORT : string := "4433".

Definition addr_of (remoteIP : bytes) : string :=
  TunnelHandler.JoinHostPort (TunnelHandler.ip_string remoteIP) QUIC_PORT.

Definition GetOrCreateTunnel (e : quic_env) (m : gmap string conn) (remoteIP : bytes) :
    gmap string conn * option conn :=
  let addr := addr_of remoteIP in
  match m !! addr with
  | Some c => (m, Some c)
  | None =>
      match dial e with
      | None => (m, None)
      | Some c => (<[addr := c]> m, Some c)
      end
  end.

Definition CloseTunnel (m : gmap string conn) (remoteIP : bytes) : gmap string conn * list conn :=
  let addr := addr_of remoteIP in
  match m !! addr with
  | Some c => (delete addr m, [c])
  | None => (m, [])
  end.

(** The result also lists what was written on which connection. *)
Definition SendPacket (e : quic_env) (m : gmap string conn) (remoteIP data : bytes) :
    gmap string conn * option send_error * list (conn * bytes) :=
  match remoteIP with
  | [] => (m, Some RemoteNil, [])
  | _ =>
      let '(m1, oc) := GetOrCreateTunnel e m remoteIP in
      match oc with
      | None => (m1, Some DialFailed, [])
      | Some c =>
          if open_ok e c then
            if write_ok e c then (m1, None, [(c, data)])
            else (fst (CloseTunnel m1 remoteIP), Some WriteFailed, [])
          else (fst (CloseTunnel m1 remoteIP), Some OpenFailed, [])
      end
  end.

Lemma Close_lookup (m : gmap string conn) ip a :
  fst (CloseTunnel m ip) !! a = if decide (a = addr_of ip) then None else m !! a.
Proof.
  unfold CloseTunnel. destruct (m !! addr_of ip) eqn:E; simpl; case_decide; subst;
    rewrite ?lookup_delete_eq, ?lookup_delete_ne by congruence; done.
Qed.

(** Tunnel cache: a send succeeds on the cached connection, or on a freshly dialled one that it
    caches; after a failed dial, open or write the address has no cached tunnel, so that the next
    send dials again; tunnels to other addresses are never touched. *)
Theorem SendPacket_cache (e : quic_env) (m : gmap string conn) ip data m' err sent :
  ip <> [] -> SendPacket e m ip data = (m', err, sent) ->
  (forall a, a <> addr_of ip -> m' !! a = m !! a) /\
  match err with
  | None => exists c, m' !! addr_of ip = Some c /\ sent = [(c, data)] /\
              (m !! addr_of ip = Some c \/ m !! addr_of ip = None /\ dial e = Some c)
  | Some _ => m' !! addr_of ip = None /\ sent = []
  end.
Proof.
  intros Hne. unfold SendPacket, GetOrCreateTunnel. destruct ip as [|b ip]; [done|].
  destruct (m !! addr_of (b :: ip)) as [c|] eqn:E; [|destruct (dial e) as [c|] eqn:D];
    repeat case_match; intros ?; simplify_eq;
    (split; [intros a Ha; rewrite ?Close_lookup, ?decide_False, ?lookup_insert_ne by done; done|]);
    rewrite ?Close_lookup, ?decide_True, ?lookup_insert_eq by done; eauto 10.
Qed.
End Manager.

(** A broken cached connection 1 to the address. *)
Definition sample_env : @quic_env nat := mkEnv (Some 5%nat) (fun _ => true) (fun c => bool_decide (c <> 1%nat)).
Definition sample_cache : gmap string nat := {[ addr_of [10; 0; 0; 2] := 1%nat ]}%Z.

Lemma SendPacket_cache_witness :
  exists m', SendPacket sample_env sample_cache [10; 0; 0; 2]%Z [1%Z] = (m', Some WriteFailed, []) /\
    m' !! addr_of [10; 0; 0; 2]%Z = None.
Proof.
  eexists. split; [reflexivity|].
  refine (proj1 (proj2 (SendPacket_cache sample_env sample_cache [10; 0; 0; 2]%Z [1%Z] _ (Some WriteFailed) [] _ eq_refl))).
  discriminate.
Defined.

End TunnelManager.
