(* ===== verification/Streams.v ===== *)
(** * The streams of the tunnel listener (data-proxy/tunnel-manager/tunnel-listener.go)

    [NewTunnelStreamSem], [ListenAndServeQUIC] and [handleConn]: the connections of all peers share
    one semaphore for the streams they read; reading one stream is [StreamReader.read_packet]. *)

From Stdlib Require Import ZArith Lia.
From stdpp Require Import base list list_tactics.
From S2P Require Import Prelude GoStrings GoChan Packet Tunnel.
Import TunnelPacket StreamReader.

Module TunnelListener.

Local Open Scope Z_scope.

#[global] Instance stream_eq_dec : EqDecision stream.
Proof. solve_decision. Defined.

(** [streamSem]: the configured limit, or 100. *)
Definition NewTunnelStreamSem (TunnelConcurrentLimit : Z) : nat := Z.to_nat (if TunnelConcurrentLimit <=? 0 then 100 else TunnelConcurrentLimit).

(** The goroutine of a connection: waiting for a stream, waiting for a slot with a stream in hand, or
    back after an error of [AcceptUniStream]. *)
Inductive conn := Accepting | Holding (s : stream) | Ended.

Record listener := mkListener {
  limit : nat;
  conns : list conn;
  reading : list stream;      (* goroutines with a slot of streamSem *)
  finished : list stream      (* goroutines that have returned, in order *)
}.

Definition ListenAndServeQUIC (TunnelConcurrentLimit : Z) : listener := mkListener (NewTunnelStreamSem TunnelConcurrentLimit) [] [] [].

Inductive levent :=
| NewConn
| AcceptUniStream (i : nat) (s : stream)
| AcceptFails (i : nat)
| AcquireSlot (i : nat)
| StreamDone (s : stream).

Definition set_conn (l : listener) (i : nat) (c : conn) : listener := mkListener (limit l) (<[i := c]> (conns l)) (reading l) (finished l).

Definition listen_step (l : listener) (e : levent) : outcome listener :=
  match e with
  | NewConn => Next (mkListener (limit l) (conns l ++ [Accepting]) (reading l) (finished l))
  | AcceptUniStream i s => match conns l !! i with Some Accepting => Next (set_conn l i (Holding s)) | _ => Blocked end
  | AcceptFails i => match conns l !! i with Some Accepting => Next (set_conn l i Ended) | _ => Blocked end
  | AcquireSlot i =>
      match conns l !! i with
      | Some (Holding s) =>
          if (length (reading l) <? limit l)%nat then Next (mkListener (limit l) (<[i := Accepting]> (conns l)) (reading l ++ [s]) (finished l))
          else Blocked
      | _ => Blocked
      end
  | StreamDone s =>
      match WorkerPool.remove_first s (reading l) with
      | Some rest => Next (mkListener (limit l) (conns l) rest (finished l ++ [s]))
      | None => Blocked
      end
  end.

Fixpoint listen_run (l : listener) (es : list levent) : outcome listener :=
  match es with
  | [] => Next l
  | e :: es => let? l' := listen_step l e in listen_run l' es
  end.

(** The packets that the handler was called with. *)
Definition handled (l : listener) : list bytes := omap read_packet (finished l).

(** ** Proofs *)

Definition held (c : conn) : list stream := match c with Holding s => [s] | _ => [] end.

Definition accepted (es : list levent) : list stream := omap (fun e => match e with AcceptUniStream _ s => Some s | _ => None end) es.

Record listener_ok (ss : list stream) (l : listener) : Prop := {
  lk_streams : mbind held (conns l) ++ reading l ++ finished l ≡ₚ ss;
  lk_limit : (length (reading l) <= limit l)%nat
}.

Lemma listen_step_ok ss l e l' : listener_ok ss l -> listen_step l e = Next l' -> listener_ok (ss ++ accepted [e]) l' /\ limit l' = limit l.
Proof.
  intros [Hs Hl] Hst. destruct e as [|i s|i|i|s]; cbn [listen_step] in Hst.
  - injection Hst as <-. split; [|done]. constructor; [|done]. cbn. rewrite bind_app. cbn. by rewrite !app_nil_r.
  - destruct (conns l !! i) as [[| |]|] eqn:E; try done. injection Hst as <-. split; [|done]. constructor; [|done]. cbn.
    destruct (bind_insert held (conns l) i _ (Holding s) E) as (rest & Hr & ->). rewrite Hr in Hs. rewrite <- Hs. cbn. solve_Permutation.
  - destruct (conns l !! i) as [[| |]|] eqn:E; try done. injection Hst as <-. split; [|done]. constructor; [|done]. cbn.
    destruct (bind_insert held (conns l) i _ Ended E) as (rest & Hr & ->). rewrite Hr in Hs. by rewrite <- Hs, app_nil_r.
  - destruct (conns l !! i) as [[|s|]|] eqn:E; try done. destruct (Nat.ltb_spec (length (reading l)) (limit l)); [|done]. injection Hst as <-. split; [|done].
    constructor; [|cbn; rewrite length_app; simpl; lia]. cbn. destruct (bind_insert held (conns l) i _ Accepting E) as (rest & Hr & ->). rewrite Hr in Hs.
    rewrite <- Hs. cbn. solve_Permutation.
  - destruct (WorkerPool.remove_first s (reading l)) as [rest|] eqn:E; [|done]. injection Hst as <-. split; [|done]. apply WorkerPool.remove_first_Perm in E.
    pose proof (Permutation_length E) as Hlen. simpl in Hlen. constructor; [|cbn; lia]. cbn. rewrite <- Hs, E. solve_Permutation.
Qed.

Lemma listen_run_ok ss l es l' : listener_ok ss l -> listen_run l es = Next l' -> listener_ok (ss ++ accepted es) l' /\ limit l' = limit l.
Proof.
  revert ss l. induction es as [|e es IH]; intros ss l Hl; cbn [listen_run]; [intros [= <-]; by rewrite app_nil_r|].
  intros (l1 & Hs & Hr)%obind_Next. destruct (listen_step_ok ss l e l1 Hl Hs) as [Hl1 He1]. destruct (IH _ _ Hl1 Hr) as [Hl2 He2]. split; [|congruence].
  rewrite <- app_assoc in Hl2. replace (accepted (e :: es)) with (accepted [e] ++ accepted es); [done|]. unfold accepted. cbn. by destruct e.
Qed.

(** ** Properties *)

(** C26. Streams of the tunnel listener: whatever connections and streams there are, never more streams
    are read at a time than the limit (100 by default), every accepted stream is exactly one of waiting, being read,
    or finished, and as long
    as some stream is not finished the listener can go on without accepting anything new. *)
Theorem streams_bounded n es l :
  listen_run (ListenAndServeQUIC n) es = Next l ->
  (length (reading l) <= NewTunnelStreamSem n)%nat /\ mbind held (conns l) ++ reading l ++ finished l ≡ₚ accepted es /\
  (length (finished l) < length (accepted es) ->
   exists e l', match e with AcquireSlot _ | StreamDone _ => True | _ => False end /\ listen_step l e = Next l')%nat.
Proof.
  intros Hr. assert (H0 : listener_ok [] (ListenAndServeQUIC n)) by (constructor; cbn; [done|lia]).
  destruct (listen_run_ok [] _ es l H0 Hr) as [[Hs Hl] Hlim]. cbn in Hlim, Hs. rewrite Hlim in Hl.
  split_and!; [done|done|]. intros Hlt. destruct (reading l) as [|s r] eqn:Er.
  - assert (Hh : exists i s, conns l !! i = Some (Holding s)).
    { apply Permutation_length in Hs. rewrite !length_app in Hs. simpl in Hs. destruct (mbind held (conns l)) as [|s rest] eqn:Em; [simpl in Hs; lia|].
      assert (Hin : s ∈ mbind held (conns l)) by (rewrite Em; left). apply list_elem_of_bind in Hin as (c & Hc & Hin). apply list_elem_of_lookup in Hin as [i Hi].
      exists i, s. destruct c; cbn in Hc; [by apply not_elem_of_nil in Hc| |by apply not_elem_of_nil in Hc]. apply list_elem_of_singleton in Hc as ->. done. }
    destruct Hh as (i & s & Hi). exists (AcquireSlot i). cbn [listen_step]. rewrite Hi, Er, Hlim. cbn [length].
    assert (Hpos : (0 < NewTunnelStreamSem n)%nat) by (unfold NewTunnelStreamSem; destruct (Z.leb_spec n 0); lia).
    rewrite (proj2 (Nat.ltb_lt _ _) Hpos). eauto.
  - exists (StreamDone s). cbn [listen_step]. rewrite Er. cbn [WorkerPool.remove_first]. rewrite decide_True by done. eauto.
Qed.

Lemma streams_bounded_witness :
  let s := mkStream (replicate 24 0) true in
  match listen_run (ListenAndServeQUIC 1) [NewConn; NewConn; AcceptUniStream 0 s; AcceptUniStream 1 s; AcquireSlot 1; StreamDone s] with
  | Next l => (length (reading l) <= 1)%nat /\ handled l = [replicate 24 0]
  | _ => False
  end.
Proof.
  intros s. destruct (listen_run (ListenAndServeQUIC 1) [NewConn; NewConn; AcceptUniStream 0 s; AcceptUniStream 1 s; AcquireSlot 1; StreamDone s]) as [l| |] eqn:E;
    [|vm_compute in E; discriminate E|vm_compute in E; discriminate E].
  destruct (streams_bounded 1 _ l E) as (Hb & _). split; [exact Hb|]. vm_compute in E. injection E as <-. vm_compute. reflexivity.
Defined.
End TunnelListener.
