(* ===== verification/Disaggregator.v ===== *)
(** * Request ids and the disaggregator (data-proxy/util/req-id.go, disaggregator/disaggregator.go)

    A request handler registers a channel under its request id, waits on it and finally runs the
    cleanup; the tunnel handler delivers responses by id.  [Deliver] is two steps, the locked lookup
    and the send after the lock is released, so the component is a step relation over the
    interleavings of handlers and deliverers. *)

From Stdlib Require Import ZArith Lia.
From stdpp Require Import base list gmap relations list_tactics.
From S2P Require Import Prelude GoChan.

Module ReqID.

Local Open Scope Z_scope.

(** [GenShortReqID]: [seq] is the counter before the atomic increment, [ip] the parsed client
    address after [To4] (nil when it is not IPv4).  Returns the new counter and the id. *)
Definition GenShortReqID (reqSeq : Z) (ip : bytes) : Z * Z :=
  let seq := u64 (reqSeq + 1) in
  let ipSegment := match ip !! 3%nat with Some b => u32 b | None => 0 end in
  let id := Z.lor (u32 (Z.shiftl ipSegment 24)) (Z.land (u32 seq) 16777215) in
  (seq, id).

Lemma land_low24 x : Z.land x 16777215 = x mod 2 ^ 24.
Proof. change 16777215 with (Z.ones 24). by rewrite Z.land_ones by lia. Qed.

(** The id as arithmetic: the address byte above the low 24 bits of the sequence number. *)
Lemma id_arith seq b :
  fits 64 seq -> fits 8 b ->
  Z.lor (u32 (Z.shiftl (u32 b) 24)) (Z.land (u32 seq) 16777215) = b * 2 ^ 24 + seq mod 2 ^ 24.
Proof.
  intros Hs Hb. rewrite land_low24. unfold wrap, fits in *.
  rewrite (Z.mod_small b) by lia. rewrite Z.shiftl_mul_pow2 by lia.
  rewrite (Z.mod_small (b * 2 ^ 24)) by lia.
  change (2 ^ 32) with (2 ^ 24 * 256). rewrite Z.rem_mul_r by lia.
  rewrite (Z.mul_comm (2 ^ 24)), Z.mod_add, Z.mod_mod by lia.
  rewrite <- Z.shiftl_mul_pow2 by lia. symmetry. apply Z.add_nocarry_lor.
  apply Z.bits_inj'. intros n Hn. rewrite Z.land_spec, Z.bits_0, Z.shiftl_spec by lia.
  destruct (Z_lt_dec n 24).
  - by rewrite Z.testbit_neg_r by lia.
  - rewrite (Z.mod_pow2_bits_high seq 24 n) by lia. by rewrite andb_false_r.
Qed.

Definition id_of (ip : bytes) (seq : Z) : Z := snd (GenShortReqID (seq - 1) ip).

(** Ids of one client address repeat only after 2^24 requests. *)
Lemma id_of_unique ip seq1 seq2 :
  Forall (fits 8) ip -> length ip = 4%nat -> fits 64 seq1 -> fits 64 seq2 ->
  Z.abs (seq1 - seq2) < 2 ^ 24 ->
  fits 32 (id_of ip seq1) /\ (id_of ip seq1 = id_of ip seq2 -> seq1 = seq2).
Proof.
  intros Hip Hl H1 H2 Hd. destruct ip as [|b0 [|b1 [|b2 [|b3 [|]]]]]; try discriminate Hl.
  do 4 (apply Forall_cons in Hip as [? Hip]).
  assert (Hid : forall s, fits 64 s -> id_of [b0; b1; b2; b3] s = b3 * 2 ^ 24 + s mod 2 ^ 24).
  { intros s Hs. unfold id_of, GenShortReqID. cbn [snd lookup list_lookup].
    replace (s - 1 + 1) with s by lia. rewrite (wrap_id 64) by done. by apply id_arith. }
  rewrite !Hid by done. unfold fits in *. split.
  - pose proof (Z.mod_pos_bound seq1 (2 ^ 24)). lia.
  - intros Heq. assert (seq1 mod 2 ^ 24 = seq2 mod 2 ^ 24) as Hm by lia.
    pose proof (Z.div_mod seq1 (2 ^ 24)). pose proof (Z.div_mod seq2 (2 ^ 24)). lia.
Qed.

(** C22. Request ids of one IPv4 client address do not repeat within 2^24 consecutive requests, and every
    id is a 32-bit value. *)
Theorem GenShortReqID_unique ip seq1 seq2 :
  Forall (fits 8) ip -> length ip = 4%nat -> fits 64 seq1 -> fits 64 seq2 ->
  Z.abs (seq1 - seq2) < 2 ^ 24 ->
  fits 32 (id_of ip seq1) /\ (id_of ip seq1 = id_of ip seq2 -> seq1 = seq2).
Proof. apply id_of_unique. Qed.

Lemma GenShortReqID_unique_witness :
  id_of [192; 168; 0; 9] 5 <> id_of [192; 168; 0; 9] 16777220.
Proof.
  intros He. pose proof (proj2 (GenShortReqID_unique [192; 168; 0; 9] 5 16777220
    ltac:(repeat constructor; lia) eq_refl ltac:(vm_compute; done) ltac:(vm_compute; done) ltac:(vm_compute; done)) He) as Hs.
  discriminate Hs.
Defined.

End ReqID.

Module Disagg.

(** A channel of capacity one; [content] records whose response it holds, for the invariant. *)
Record chan := mkChan { content : option (Z * bytes); closed : bool }.

Record state := mkState {
  waiters : gmap Z nat;            (* d.waiters: id -> channel *)
  chans : gmap nat chan;           (* the channels made so far *)
  live : list (Z * nat);           (* handlers that registered and have not cleaned up *)
  inflight : list (nat * (Z * bytes)); (* deliverers between the lookup and the send *)
  received : list (Z * (Z * bytes)); (* what handlers received: handler id, (response id, data) *)
  crashed : bool                   (* a send on a closed channel *)
}.

Definition init : state := mkState ∅ ∅ [] [] [] false.

(** [Register]: a new channel replaces whatever the id had. *)
Definition Register (s : state) (userID : Z) (ch : nat) : state :=
  mkState (<[userID := ch]> (waiters s)) (<[ch := mkChan None false]> (chans s))
          ((userID, ch) :: live s) (inflight s) (received s) (crashed s).

(** The returned cleanup function, run by the handler that owns [(userID, ch)]. *)
Definition cleanup (s : state) (userID : Z) (ch : nat) (live' : list (Z * nat)) : state :=
  mkState (delete userID (waiters s))
          (alter (fun c => mkChan (content c) true) ch (chans s))
          live' (inflight s) (received s) (crashed s).

(** [Deliver], first half: the lookup under the read lock. *)
Definition Deliver_lookup (s : state) (userID : Z) (data : bytes) : state :=
  match waiters s !! userID with
  | Some ch => mkState (waiters s) (chans s) (live s) ((ch, (userID, data)) :: inflight s)
                       (received s) (crashed s)
  | None => s
  end.

(** [Deliver], second half: [ch <- data].  [None] when the channel is full and the sender blocks. *)
Definition Deliver_send (s : state) (ch : nat) (m : Z * bytes) (rest : list (nat * (Z * bytes))) :
    option state :=
  match chans s !! ch with
  | Some c =>
      if closed c then Some (mkState (waiters s) (chans s) (live s) rest (received s) true)
      else match content c with
           | Some _ => None
           | None => Some (mkState (waiters s) (<[ch := mkChan (Some m) false]> (chans s))
                                   (live s) rest (received s) (crashed s))
           end
  | None => None
  end.

(** The handler's receive [<-waitCh]. *)
Definition Recv (s : state) (userID : Z) (ch : nat) : option state :=
  match chans s !! ch with
  | Some c =>
      match content c with
      | Some m => Some (mkState (waiters s) (<[ch := mkChan None (closed c)]> (chans s))
                                (live s) (inflight s) ((userID, m) :: received s) (crashed s))
      | None => None
      end
  | None => None
  end.

Inductive step : state -> state -> Prop :=
| step_register s userID ch :
    chans s !! ch = None -> step s (Register s userID ch)
| step_cleanup s userID ch live' :
    live s ≡ₚ (userID, ch) :: live' -> step s (cleanup s userID ch live')
| step_lookup s userID data : step s (Deliver_lookup s userID data)
| step_send s s' ch m rest :
    inflight s ≡ₚ (ch, m) :: rest -> Deliver_send s ch m rest = Some s' -> step s s'
| step_recv s s' userID ch :
    (userID, ch) ∈ live s -> Recv s userID ch = Some s' -> step s s'.

Definition reachable (s : state) : Prop := rtc step init s.

(** ** Invariant *)

Record inv (s : state) : Prop := {
  inv_waiters : forall id ch, waiters s !! id = Some ch ->
    (id, ch) ∈ live s /\ exists c, chans s !! ch = Some c /\ closed c = false;
  inv_live_fun : forall id1 id2 ch, (id1, ch) ∈ live s -> (id2, ch) ∈ live s -> id1 = id2;
  inv_live_open : forall id ch, (id, ch) ∈ live s ->
    exists c, chans s !! ch = Some c /\ closed c = false;
  inv_live_nodup : NoDup (live s);
  inv_inflight : forall ch id d, (ch, (id, d)) ∈ inflight s ->
    is_Some (chans s !! ch) /\ forall id', (id', ch) ∈ live s -> id' = id;
  inv_content : forall ch c id d, chans s !! ch = Some c -> content c = Some (id, d) ->
    forall id', (id', ch) ∈ live s -> id' = id;
  inv_received : forall h id d, (h, (id, d)) ∈ received s -> h = id
}.

Lemma inv_init : inv init.
Proof. constructor; simpl; try set_solver. constructor. Qed.

Lemma inv_register s id ch : inv s -> chans s !! ch = None -> inv (Register s id ch).
Proof.
  intros [Hw Hf Ho Hn Hi Hc Hr] Hfresh.
  assert (Hnl : forall id', (id', ch) ∉ live s).
  { intros id' Hin. destruct (Ho _ _ Hin) as (c & Hc' & _). congruence. }
  constructor; simpl.
  - intros id' ch' Hl. rewrite lookup_insert in Hl. case_decide; simplify_eq.
    + split; [set_solver|]. rewrite lookup_insert_eq. eauto.
    + destruct (Hw _ _ Hl) as [Hin Hop]. split; [set_solver|].
      rewrite lookup_insert_ne; [done|]. intros ->. by apply Hnl in Hin.
  - intros id1 id2 ch' H1 H2. set_solver.
  - intros id' ch' Hin. rewrite lookup_insert. case_decide; [eauto|]. set_solver.
  - constructor; [apply Hnl|done].
  - intros ch' id' d Hin. destruct (Hi _ _ _ Hin) as [Hsome Hown].
    assert (ch' <> ch) by (intros ->; destruct Hsome; congruence).
    split; [by rewrite lookup_insert_ne|]. set_solver.
  - intros ch' c id' d Hl Hcont. rewrite lookup_insert in Hl. case_decide; [by simplify_eq|].
    intros id'' Hin. apply (Hc _ _ _ _ Hl Hcont). set_solver.
  - done.
Qed.

Lemma inv_cleanup s id ch live' :
  inv s -> live s ≡ₚ (id, ch) :: live' -> inv (cleanup s id ch live').
Proof.
  intros [Hw Hf Ho Hn Hi Hc Hr] Hp.
  assert (Hsub : forall p, p ∈ live' -> p ∈ live s) by (intros p ?; rewrite Hp; set_solver).
  assert (Hin0 : (id, ch) ∈ live s) by (rewrite Hp; set_solver).
  assert (Hnd : NoDup ((id, ch) :: live')) by (by rewrite <- Hp).
  assert (Hne : forall id', (id', ch) ∉ live').
  { intros id' Hin. rewrite (Hf id' id ch) in Hin by auto. by apply NoDup_cons in Hnd as [? _]. }
  constructor; simpl.
  - intros id' ch' Hl. apply lookup_delete_Some in Hl as [Hneq Hl].
    destruct (Hw _ _ Hl) as [Hin (c & Hlc & Hcl)].
    assert ((id', ch') ∈ live') as Hin'.
    { rewrite Hp in Hin. apply elem_of_cons in Hin as [?|?]; [by simplify_eq|done]. }
    split; [done|]. exists c. rewrite lookup_alter_ne; [done|]. intros ->. by apply Hne in Hin'.
  - eauto.
  - intros id' ch' Hin. rewrite lookup_alter_ne; [by eauto|]. intros ->. by apply Hne in Hin.
  - by apply NoDup_cons in Hnd as [_ ?].
  - intros ch' id' d Hin. destruct (Hi _ _ _ Hin) as [Hsome Hown]. split; [|eauto].
    rewrite lookup_alter. case_decide; subst; [by rewrite fmap_is_Some|done].
  - intros ch' c id' d Hl Hcont id'' Hin. rewrite lookup_alter_ne in Hl.
    + eauto.
    + intros ->. by apply Hne in Hin.
  - done.
Qed.

Lemma inv_lookup s id d : inv s -> inv (Deliver_lookup s id d).
Proof.
  intros Hs. unfold Deliver_lookup. destruct (waiters s !! id) as [ch|] eqn:E; [|done].
  destruct Hs as [Hw Hf Ho Hn Hi Hc Hr]. destruct (Hw _ _ E) as (Hin & c & Hl & _).
  constructor; simpl; try done.
  intros ch' id' d' [?|Hin']%elem_of_cons; [simplify_eq|by eauto].
  split; [eauto|]. intros id'' Hin''. by apply (Hf id'' id ch).
Qed.

Lemma inv_send s s' ch m rest :
  inv s -> inflight s ≡ₚ (ch, m) :: rest -> Deliver_send s ch m rest = Some s' -> inv s'.
Proof.
  intros [Hw Hf Ho Hn Hi Hc Hr] Hp. unfold Deliver_send.
  assert (Hsub : forall p, p ∈ rest -> p ∈ inflight s) by (intros p ?; rewrite Hp; set_solver).
  assert (Hin0 : (ch, m) ∈ inflight s) by (rewrite Hp; set_solver).
  destruct (chans s !! ch) as [c|] eqn:E; [|done].
  destruct (closed c) eqn:Ecl.
  { intros [= <-]. constructor; simpl; try done. eauto. }
  destruct (content c) eqn:Ect; [done|]. intros [= <-].
  constructor; simpl; try done.
  - intros id ch' Hl. destruct (Hw _ _ Hl) as [? ?]. split; [done|].
    rewrite lookup_insert. case_decide; eauto.
  - intros id ch' Hl. rewrite lookup_insert. case_decide; eauto.
  - intros ch' id d Hin. destruct (Hi ch' id d (Hsub _ Hin)) as [? ?]. split; [|done].
    rewrite lookup_insert. case_decide; eauto.
  - intros ch' c' id d Hl Hcont. rewrite lookup_insert in Hl. case_decide; simplify_eq; [|eauto].
    intros id' Hin. simpl in Hcont. simplify_eq. by apply (Hi _ _ _ Hin0).
Qed.

Lemma inv_recv s s' id ch : inv s -> (id, ch) ∈ live s -> Recv s id ch = Some s' -> inv s'.
Proof.
  intros [Hw Hf Ho Hn Hi Hc Hr] Hlive. unfold Recv.
  destruct (chans s !! ch) as [c|] eqn:E; [|done].
  destruct (content c) as [[id' d]|] eqn:Ect; [|done]. intros [= <-].
  constructor; simpl; try done.
  - intros id2 ch' Hl. destruct (Hw _ _ Hl) as [? (c' & ? & ?)]. split; [done|].
    rewrite lookup_insert. case_decide; simplify_eq; eauto.
  - intros id2 ch' Hl. destruct (Ho _ _ Hl) as (c' & ? & ?).
    rewrite lookup_insert. case_decide; simplify_eq; eauto.
  - intros ch' id2 d2 Hin. destruct (Hi _ _ _ Hin) as [? ?]. split; [|done].
    rewrite lookup_insert. case_decide; eauto.
  - intros ch' c' id2 d2 Hl Hcont. rewrite lookup_insert in Hl.
    case_decide; simplify_eq; eauto.
  - intros h id2 d2 [?|?]%elem_of_cons; [simplify_eq|by eauto]. by apply (Hc _ _ _ _ E Ect).
Qed.

Lemma inv_step s s' : inv s -> step s s' -> inv s'.
Proof.
  intros Hs. destruct 1; eauto using inv_register, inv_cleanup, inv_lookup, inv_send, inv_recv.
Qed.

Lemma inv_reachable s : reachable s -> inv s.
Proof.
  unfold reachable. revert s. apply (rtc_ind_r inv init); [apply inv_init|].
  intros. by eapply inv_step.
Qed.

(** A channel that is open has a handler that waits on it. *)
Lemma open_live s ch c : reachable s -> chans s !! ch = Some c -> closed c = false -> exists id, (id, ch) ∈ live s.
Proof.
  intros Hr. revert ch c. unfold reachable in Hr. revert s Hr.
  apply (rtc_ind_r (fun s => forall ch c, chans s !! ch = Some c -> closed c = false -> exists id, (id, ch) ∈ live s) init); [done|].
  intros s s' _ Hs IH ch c. destruct Hs as [s id k Hk|s id k l Hl|s id d|s s' k m r Hp Hd|s s' id k Hl Hd]; cbn.
  - rewrite lookup_insert. case_decide; [intros; subst; exists id; left|]. intros Hc Ho. destruct (IH _ _ Hc Ho) as [i Hi]. exists i. by right.
  - rewrite lookup_alter. case_decide as Hck; [subst; destruct (chans s !! ch) as [c0|]; [|done]; by intros [= <-]|].
    intros Hc Ho. destruct (IH _ _ Hc Ho) as [i Hi]. exists i. rewrite Hl in Hi. apply elem_of_cons in Hi as [[= -> ->]|]; done.
  - unfold Deliver_lookup. case_match; apply IH.
  - unfold Deliver_send in Hd. repeat case_match; try done; injection Hd as <-; cbn; [apply IH|].
    rewrite lookup_insert. case_decide; [subst|by apply IH]. intros _ _. by eapply IH.
  - unfold Recv in Hd. repeat case_match; try done; injection Hd as <-; cbn. rewrite lookup_insert.
    case_decide; [subst; intros _ _; by exists id|by apply IH].
Qed.

(** ** What becomes of the deliveries *)

(** What is in the channels. *)
Definition contents (s : state) : list (Z * bytes) := omap content (map_to_list (chans s)).*2.

(** The responses that were taken up by a delivery: about to be sent, in a channel, or received. *)
Definition taken (s : state) : list (Z * bytes) := (inflight s).*2 ++ contents s ++ (received s).*2.

Lemma contents_at s ch c : chans s !! ch = Some c -> exists rest, contents s ≡ₚ option_list (content c) ++ rest /\
  forall c' w l i r b, contents (mkState w (<[ch := c']> (chans s)) l i r b) ≡ₚ option_list (content c') ++ rest.
Proof.
  intros Hc. exists (omap content (map_to_list (delete ch (chans s))).*2). unfold contents. cbn [chans]. split.
  - rewrite <- (map_to_list_delete (chans s) ch c Hc). cbn. by destruct (content c).
  - intros c' w l i r b. rewrite <- insert_delete_eq, map_to_list_insert by apply lookup_delete_eq. cbn. by destruct (content c').
Qed.

Lemma taken_lookup s id d : taken (Deliver_lookup s id d) ≡ₚ taken s ++ (if waiters s !! id then [(id, d)] else []).
Proof.
  unfold Deliver_lookup. destruct (waiters s !! id); [|by rewrite app_nil_r]. unfold taken, contents. cbn [inflight chans received fmap list_fmap snd].
  solve_Permutation.
Qed.

Lemma taken_send s ch m rest s' : inflight s ≡ₚ (ch, m) :: rest -> Deliver_send s ch m rest = Some s' -> crashed s' = false -> taken s' ≡ₚ taken s.
Proof.
  intros Hp Hd Hn. unfold Deliver_send in Hd. destruct (chans s !! ch) as [c|] eqn:Hc; [|done]. destruct (closed c); [by injection Hd as <-|].
  destruct (content c) eqn:Ec; [done|]. injection Hd as <-. destruct (contents_at s ch c Hc) as (r & H1 & H2).
  unfold taken. cbn [inflight received]. rewrite H2, H1, Hp, Ec. cbn. solve_Permutation.
Qed.

Lemma taken_recv s id ch s' : Recv s id ch = Some s' -> taken s' ≡ₚ taken s.
Proof.
  unfold Recv. destruct (chans s !! ch) as [c|] eqn:Hc; [|done]. destruct (content c) as [m|] eqn:Ec; [|done]. intros [= <-].
  destruct (contents_at s ch c Hc) as (r & H1 & H2). unfold taken. cbn [inflight received]. rewrite H2, H1, Ec. cbn. solve_Permutation.
Qed.

Lemma taken_register s id ch : chans s !! ch = None -> taken (Register s id ch) ≡ₚ taken s.
Proof. intros Hc. unfold taken, contents, Register. cbn [inflight chans received]. by rewrite map_to_list_insert. Qed.

Lemma taken_cleanup s id ch l : taken (cleanup s id ch l) ≡ₚ taken s.
Proof.
  destruct (chans s !! ch) as [c|] eqn:Hc.
  - destruct (contents_at s ch c Hc) as (r & H1 & H2). unfold taken. cbn [cleanup inflight received].
    assert (Ha : alter (fun c => mkChan (content c) true) ch (chans s) = <[ch := mkChan (content c) true]> (chans s)).
    { apply map_eq. intros i. rewrite lookup_alter, lookup_insert. case_decide; [subst; by rewrite Hc|done]. }
    unfold cleanup. rewrite Ha, H2, H1. done.
  - unfold taken, contents, cleanup. cbn [inflight chans received].
    assert (Ha : alter (fun c => mkChan (content c) true) ch (chans s) = chans s).
    { apply map_eq. intros i. rewrite lookup_alter. case_decide; [subst; by rewrite Hc|done]. }
    by rewrite Ha.
Qed.

(** ** The handlers of clients *)

(** What the handler of a client does with the disaggregator: it registers, on a channel that is new;
    it receives; it runs the cleanup, at any time. *)
Inductive cevent := CRegister (id : Z) (ch : nat) | CReceive (id : Z) (ch : nat) | CCleanup (id : Z) (ch : nat).

Definition client_step (s : state) (e : cevent) : outcome state :=
  match e with
  | CRegister id ch => match chans s !! ch with None => Next (Register s id ch) | Some _ => Blocked end
  | CReceive id ch =>
      if bool_decide ((id, ch) ∈ live s) then match Recv s id ch with Some s' => Next s' | None => Blocked end else Blocked
  | CCleanup id ch =>
      match WorkerPool.remove_first (id, ch) (live s) with Some live' => Next (cleanup s id ch live') | None => Blocked end
  end.

Lemma client_step_spec s e s' :
  client_step s e = Next s' -> step s s' /\ crashed s' = crashed s /\ inflight s' = inflight s /\ taken s' ≡ₚ taken s.
Proof.
  destruct e as [id ch|id ch|id ch]; cbn [client_step].
  - destruct (chans s !! ch) eqn:Hc; [done|]. intros [= <-]. split_and!; [by constructor|done|done|by apply taken_register].
  - case_bool_decide as Hl; [|done]. destruct (Recv s id ch) as [s1|] eqn:Hr; [|done]. intros [= <-].
    split; [by eapply step_recv|]. split; [|split; [|by eapply taken_recv]]; unfold Recv in Hr; repeat case_match; try done; by injection Hr as <-.
  - destruct (WorkerPool.remove_first (id, ch) (live s)) as [l|] eqn:Hr; [|done]. intros [= <-]. apply WorkerPool.remove_first_Perm in Hr.
    split_and!; [by constructor|done|done|apply taken_cleanup].
Qed.

(** ** The two halves of [Deliver] as steps of the tunnel handler *)

Definition chan_closed (s : state) (ch : nat) : bool := match chans s !! ch with Some c => closed c | None => false end.

(** [ch <- data]: it waits while the channel is full, and panics when the channel is closed. *)
Definition send_step (s : state) (ch : nat) (m : Z * bytes) : outcome state :=
  match WorkerPool.remove_first (ch, m) (inflight s) with
  | None => Blocked
  | Some rest =>
      match Deliver_send s ch m rest with
      | None => Blocked
      | Some s' => if crashed s' then Panics else Next s'
      end
  end.

Lemma send_step_panics s ch m :
  reachable s -> crashed s = false -> (ch, m) ∈ inflight s -> send_step s ch m = Panics <-> chan_closed s ch = true.
Proof.
  intros Hr Hn Hin. unfold send_step, chan_closed. destruct (WorkerPool.remove_first_elem _ _ Hin) as [rest ->].
  destruct m as [id d]. destruct (inv_inflight _ (inv_reachable _ Hr) _ _ _ Hin) as [[c Hc] _]. unfold Deliver_send. rewrite Hc.
  destruct (closed c); [done|]. destruct (content c); [done|]. cbn. by rewrite Hn.
Qed.

Lemma send_step_Next s ch m s' :
  send_step s ch m = Next s' -> step s s' /\ crashed s' = false /\ inflight s ≡ₚ (ch, m) :: inflight s' /\ taken s' ≡ₚ taken s.
Proof.
  unfold send_step. destruct (WorkerPool.remove_first (ch, m) (inflight s)) as [rest|] eqn:Hr; [|done]. apply WorkerPool.remove_first_Perm in Hr.
  destruct (Deliver_send s ch m rest) as [s1|] eqn:Hd; [|done]. destruct (crashed s1) eqn:Hc; [done|]. intros [= <-].
  split_and!; [by eapply step_send|done| |by eapply taken_send]. unfold Deliver_send in Hd. repeat case_match; try done; by injection Hd as <-.
Qed.

(** ** Properties *)

(** C21. In every interleaving of registrations, deliveries, receives and cleanups, a handler only
    ever receives responses delivered for its own request id. *)
Theorem no_misdelivery s h id d : reachable s -> (h, (id, d)) ∈ received s -> h = id.
Proof. intros Hr. apply (inv_received _ (inv_reachable _ Hr)). Qed.

(** In every interleaving, a channel the disaggregator offers to a new delivery is open and
    belongs to a handler that is still waiting. *)
Theorem waiters_open s id ch :
  reachable s -> waiters s !! id = Some ch ->
  (id, ch) ∈ live s /\ exists c, chans s !! ch = Some c /\ closed c = false.
Proof. intros Hr. apply (inv_waiters _ (inv_reachable _ Hr)). Qed.

(** The lookup and the send of [Deliver] are not one atomic step: when the waiting handler cleans
    up between them, the delivery sends on a closed channel and the process panics. *)
Theorem deliver_race_panics :
  exists s, reachable s /\ crashed s = true /\ received s = [].
Proof.
  set (id := 7%Z). set (d := [104%Z]).
  set (s1 := Register init id 0). set (s2 := Deliver_lookup s1 id d).
  set (s3 := cleanup s2 id 0 []).
  assert (H2 : s2 = mkState (waiters s1) (chans s1) (live s1) [(0, (id, d))] [] false).
  { unfold s2, Deliver_lookup, s1. simpl. by rewrite lookup_insert_eq. }
  exists (mkState (waiters s3) (chans s3) (live s3) [] (received s3) true).
  split; [|by unfold s3; rewrite H2].
  unfold reachable. eapply rtc_l; [by apply (step_register _ id 0)|].
  eapply rtc_l; [apply (step_lookup _ id d)|]. fold s1 s2.
  eapply rtc_l; [apply (step_cleanup s2 id 0 []); by rewrite H2|]. fold s3.
  eapply rtc_l; [|apply rtc_refl].
  apply (step_send s3 _ 0 (id, d) []); [unfold s3; by rewrite H2|].
  unfold Deliver_send. assert (chans s3 !! 0%nat = Some (mkChan None true)) as ->; [|done].
  unfold s3. rewrite H2. simpl. rewrite lookup_alter, decide_True, lookup_insert_eq by done. done.
Qed.

(** Two overlapping requests with one id: the second registration takes over the id, and the
    cleanup of the first removes the second one's entry, so a response for it is dropped. *)
Theorem reregistered_waiter_lost s id ch1 ch2 d live' :
  ch1 <> ch2 ->
  let s2 := Register (Register s id ch1) id ch2 in
  let s3 := cleanup s2 id ch1 live' in
  waiters s3 !! id = None /\ Deliver_lookup s3 id d = s3 /\
  exists c, chans s3 !! ch2 = Some c /\ closed c = false.
Proof.
  intros Hne s2 s3. assert (Hn : waiters s3 !! id = None) by apply lookup_delete_eq.
  split; [done|]. split; [unfold Deliver_lookup; by rewrite Hn|].
  exists (mkChan None false). split; [|done]. unfold s3, s2. simpl.
  by rewrite lookup_alter_ne, lookup_insert_eq by done.
Qed.

(** Two handlers wait, one of them receives its response. *)
Definition sample_state : state :=
  default init (Recv (default init (Deliver_send
    (Deliver_lookup (Register (Register init 7 0) 8 1) 8 [104%Z]) 1 (8, [104])%Z [])) 8 1).

Lemma sample_reachable : reachable sample_state.
Proof.
  unfold reachable. eapply rtc_l; [by apply (step_register _ 7 0)|].
  eapply rtc_l; [by apply (step_register _ 8 1)|].
  eapply rtc_l; [apply (step_lookup _ 8 [104%Z])|].
  eapply rtc_l; [apply (step_send _ (default init (Deliver_send
    (Deliver_lookup (Register (Register init 7 0) 8 1) 8 [104%Z]) 1 (8, [104])%Z [])) 1 (8, [104])%Z []); reflexivity|].
  eapply rtc_l; [apply (step_recv _ sample_state 8 1); [left|reflexivity]|]. apply rtc_refl.
Qed.

Lemma no_misdelivery_witness : (8, (8, [104]))%Z ∈ received sample_state /\ 8%Z = 8%Z.
Proof.
  assert (Hr : (8, (8, [104]))%Z ∈ received sample_state) by left.
  split; [exact Hr|]. exact (no_misdelivery sample_state 8 8 [104%Z] sample_reachable Hr).
Defined.

Lemma waiters_open_witness :
  waiters sample_state !! 7%Z = Some 0%nat /\ (7%Z, 0%nat) ∈ live sample_state.
Proof.
  split; [reflexivity|]. exact (proj1 (waiters_open sample_state 7 0 sample_reachable eq_refl)).
Defined.

Lemma reregistered_waiter_lost_witness :
  waiters (cleanup (Register (Register init 7 0) 7 1) 7 0 [(7%Z, 1%nat)]) !! 7%Z = None.
Proof. exact (proj1 (reregistered_waiter_lost init 7 0 1 [104%Z] [(7%Z, 1%nat)] ltac:(discriminate))). Defined.

End Disagg.
