(* ===== verification/Aggregator.v ===== *)
(** * The batch aggregator (data-proxy/aggregator/aggregator.go)

    One worker of the aggregator: user messages are appended to per-route batches, a batch is put on
    a deadline heap when it receives its first message, the timer flushes the expired batches and a
    slow timer evicts the batches of idle routes.  Batches are shared objects (the route table, the
    heap items and the local variables point to them), so they live in a store and the other
    structures hold their ids.

    Time is in nanoseconds.  Here every operation runs to its end; [AggregatorSteps] has the same
    operations one critical section at a time, interleaved with the other goroutines of the worker. *)

From Stdlib Require Import ZArith Lia.
From stdpp Require Import base list gmap strings.
From S2P Require Import Prelude GoStrings Packet Tunnel GoHeap.
Import TunnelPacket.

Module Aggregator.

Local Open Scope Z_scope.

(** ** Data *)

Definition millisecond : Z := 1000000.
Definition batchMaxAge : Z := 60 * 1000 * millisecond.

(** The fields of [config.Config_] and [config.BatchNumMap] that the worker reads. *)
Record Config := mkConfig {
  BufferSize : Z;
  BatchTimeoutMs : Z;
  BatchNumMap : gmap Z Z
}.

Record aggregatorMsg := mkMsg {
  m_emerge : bool;
  m_routingKey : string;
  m_protocol : string;
  m_port : Z;
  m_hops : list string;     (* routingInfo.Hops *)
  m_nextHop : bytes;        (* net.IP *)
  m_userID : Z;
  m_data : bytes
}.

Record HeapItem := mkItem { it_batch : nat; it_deadline : Z }.

#[global] Instance HeapItem_eq_dec : EqDecision HeapItem.
Proof. solve_decision. Defined.

Record Batch := mkBatch {
  b_BuffSize : Z;
  b_RoutingKey : string;
  b_NextHop : bytes;
  b_pkt : Packet;
  b_heapItem : option HeapItem;
  b_createTime : Z
}.

Definition any (_ : HeapItem) : Prop := True.

(** [h[i].deadline.Before(h[j].deadline)]. *)
Definition Less (x y : HeapItem) : bool := it_deadline x <? it_deadline y.

Record worker := mkWorker {
  store : gmap nat Batch;                (* the batches that exist *)
  next : nat;                            (* next unused id of the store *)
  batches : gmap string (list nat);      (* w.batches *)
  heap : list (entry HeapItem)           (* w.heap *)
}.

Definition new_worker : worker := mkWorker ∅ 0 ∅ [].

Record sendInfo := mkSend { s_p : bytes; s_routingKey : string; s_next : bytes }.

Section Worker.
Context `{IPv6Parser}.

(** [util.HopIPToNet]. *)
Definition HopIPToNet (ipStr : string) : bytes := To4 (ParseIP ipStr).

Fixpoint set_hops (p : Packet) (i : Z) (hops : list string) : Packet :=
  match hops with
  | [] => p
  | h :: rest => set_hops (SetHopIP p i (HopIPToNet h)) (i + 1) rest
  end.

(** A packet made for a message: hops, port, protocol, hop position 1. *)
Definition msg_packet (buffSize : Z) (msg : aggregatorMsg) : go Packet :=
  let! p := NewPacket buffSize in
  Ret (SetHopPos (SetProtocol (SetPort (set_hops p 0 (m_hops msg)) (m_port msg)) (m_protocol msg)) 1).

Definition new_batch (buffSize now : Z) (msg : aggregatorMsg) : go Batch :=
  let! p := msg_packet buffSize msg in
  Ret (mkBatch buffSize (m_routingKey msg) (m_nextHop msg) p None now).

(** [pkt.Buf[:pkt.TotalBytes()]], a slice that panics beyond the capacity. *)
Definition wire (p : Packet) : go bytes :=
  if TotalBytes p <=? Z.of_nat (length (Buf p)) then Ret (take (Z.to_nat (TotalBytes p)) (Buf p))
  else Panic.

(** [flush]: hands a non-empty buffer to a sender goroutine. *)
Definition flush (buf : bytes) (routingKey : string) (nextHop : bytes) : list sendInfo :=
  match buf with
  | [] => []
  | _ => [mkSend buf routingKey nextHop]
  end.

(** The direct path of [handleMsg]. *)
Definition send_direct (buffSize : Z) (msg : aggregatorMsg) : go (list sendInfo) :=
  let! p := msg_packet buffSize msg in
  let! (p1, ok) := AppendUserPacket p (m_userID msg) (m_data msg) in
  if ok : bool then
    let! p2 := SerializeHead p1 in
    let! buf := wire p2 in
    Ret (flush buf (m_routingKey msg) (m_nextHop msg))
  else Ret [].

(** The batch of a list that serves a user. *)
Definition pick (bList : list nat) (userID : Z) : option nat :=
  bList !! Z.to_nat (userID mod Z.of_nat (length bList)).

Fixpoint add_batches (n : nat) (buffSize now : Z) (msg : aggregatorMsg) (w : worker) : go (worker * list nat) :=
  match n with
  | O => Ret (w, [])
  | S n =>
      let! b := new_batch buffSize now msg in
      let w1 := mkWorker (<[next w := b]> (store w)) (S (next w)) (batches w) (heap w) in
      let! (w2, ids) := add_batches n buffSize now msg w1 in
      Ret (w2, next w :: ids)
  end.

Definition batch_num (cfg : Config) (port : Z) : nat :=
  match BatchNumMap cfg !! port with
  | Some num => if num <=? 0 then 1%nat else Z.to_nat num
  | None => 1%nat
  end.

(** First half of the batching path: find the batch of the user, making the route's batches when
    there is none.  When the route is in the table with no batch the batches just made are
    unreachable and the message is an error ([None]). *)
Definition find_batch (cfg : Config) (now : Z) (w : worker) (msg : aggregatorMsg) :
    go (worker * option nat) :=
  match pick (default [] (batches w !! m_routingKey msg)) (m_userID msg) with
  | Some id => Ret (w, Some id)
  | None =>
      match batches w !! m_routingKey msg with
      | Some _ => Ret (w, None)
      | None =>
          let! (w1, ids) := add_batches (batch_num cfg (m_port msg)) (BufferSize cfg) now msg w in
          let w2 := mkWorker (store w1) (next w1) (<[m_routingKey msg := ids]> (batches w1)) (heap w1) in
          Ret (w2, pick ids (m_userID msg))
      end
  end.

(** Put a batch on the heap when it has no heap item. *)
Definition schedule (w : worker) (id : nat) (b : Batch) (deadline : Z) : worker :=
  match b_heapItem b with
  | Some _ => mkWorker (<[id := b]> (store w)) (next w) (batches w) (heap w)
  | None =>
      let item := mkItem id deadline in
      mkWorker (<[id := mkBatch (b_BuffSize b) (b_RoutingKey b) (b_NextHop b) (b_pkt b) (Some item)
                         (b_createTime b)]> (store w))
               (next w) (batches w) (heap_Push Less (heap w) item)
  end.

Definition set_pkt (b : Batch) (p : Packet) : Batch :=
  mkBatch (b_BuffSize b) (b_RoutingKey b) (b_NextHop b) p (b_heapItem b) (b_createTime b).

(** Second half: append to the batch, or to a new batch of the route when it does not take the
    message; the result of the second append is ignored by the code. *)
Definition append_msg (cfg : Config) (now : Z) (w : worker) (id : nat) (b : Batch) (msg : aggregatorMsg) :
    go worker :=
  let deadline := now + BatchTimeoutMs cfg * millisecond in
  let stale := bool_decide (b_heapItem b = None) && (HeaderSize <? Wp (b_pkt b)) in
  let! (p, ok) := (if stale then Ret (b_pkt b, false)
                   else AppendUserPacket (b_pkt b) (m_userID msg) (m_data msg)) in
  if ok : bool then Ret (schedule w id (set_pkt b p) deadline)
  else
    let! b_ := new_batch (BufferSize cfg) now msg in
    let id_ := next w in
    let w1 := mkWorker (<[id_ := b_]> (store w)) (S (next w))
                (<[m_routingKey msg := default [] (batches w !! m_routingKey msg) ++ [id_]]> (batches w))
                (heap w) in
    let! (p_, _) := AppendUserPacket (b_pkt b_) (m_userID msg) (m_data msg) in
    Ret (schedule w1 id_ (set_pkt b_ p_) deadline).

Definition is_direct (cfg : Config) (msg : aggregatorMsg) : bool :=
  (Z.of_nat (length (m_data msg)) <? 128) || (BatchTimeoutMs cfg * millisecond <=? 20 * millisecond).

Definition handleMsg (cfg : Config) (now : Z) (w : worker) (msg : aggregatorMsg) :
    go (worker * list sendInfo) :=
  let small := is_direct cfg msg in
  let buffSize := if small then HeaderSize + 4 + 2 + Z.of_nat (length (m_data msg)) else BufferSize cfg in
  if small || m_emerge msg then
    let! out := send_direct buffSize msg in Ret (w, out)
  else
    let! (w1, oid) := find_batch cfg now w msg in
    match oid with
    | None => Ret (w1, [])
    | Some id =>
        match store w1 !! id with
        | None => Panic
        | Some b => let! w2 := append_msg cfg now w1 id b msg in Ret (w2, [])
        end
    end.

(** ** The flush timer *)

(** The locked loop: take the expired items off the heap. *)
Fixpoint pop_expired (fuel : nat) (now : Z) (h : list (entry HeapItem)) : list HeapItem * list (entry HeapItem) :=
  match fuel with
  | O => ([], h)
  | S fuel =>
      match h with
      | [] => ([], h)
      | e :: _ =>
          if now <? it_deadline (val e) then ([], h)
          else match heap_Pop Less h with
               | Some (x, h') => let '(xs, h'') := pop_expired fuel now h' in (x :: xs, h'')
               | None => ([], h)
               end
      end
  end.

Definition flush_item (now : Z) (st : gmap nat Batch) (item : HeapItem) : go (gmap nat Batch * list sendInfo) :=
  match st !! it_batch item with
  | None => Panic
  | Some b =>
      let! p := SerializeHead (b_pkt b) in
      let! buf := wire p in
      let p' := mkPacket (Buf p) (BuffSize p) (HopPos p) (HopIP p) (PayloadLen p) (Port p) (Protocol p) HeaderSize in
      Ret (<[it_batch item := mkBatch (b_BuffSize b) (b_RoutingKey b) (b_NextHop b) p' None now]> st,
           flush buf (b_RoutingKey b) (b_NextHop b))
  end.

Fixpoint flush_items (now : Z) (st : gmap nat Batch) (items : list HeapItem) : go (gmap nat Batch * list sendInfo) :=
  match items with
  | [] => Ret (st, [])
  | it :: rest =>
      let! (st1, out1) := flush_item now st it in
      let! (st2, out2) := flush_items now st1 rest in
      Ret (st2, out1 ++ out2)
  end.

Definition checkTimeout (now : Z) (w : worker) : go (worker * list sendInfo) :=
  let '(expired, h) := pop_expired (length (heap w)) now (heap w) in
  let! (st, out) := flush_items now (store w) expired in
  Ret (mkWorker st (next w) (batches w) h, out).

(** ** Eviction *)

(** [b.heapItem.index]: the index field of the batch's item, -1 once it was popped. *)
Definition item_index (h : list (entry HeapItem)) (it : HeapItem) : Z :=
  match List.find (fun e => bool_decide (val e = it)) h with
  | Some e => index e
  | None => -1
  end.

(** [heap.Remove(&w.heap, b.heapItem.index)]; index -1 panics in [Swap] (or in [Pop] when the heap
    is empty). *)
Definition remove_item (h : list (entry HeapItem)) (it : HeapItem) : go (list (entry HeapItem)) :=
  let i := item_index h it in
  if i <? 0 then Panic
  else match heap_Remove Less h (Z.to_nat i) with
       | Some (_, h') => Ret h'
       | None => Panic
       end.

Fixpoint remove_items (st : gmap nat Batch) (ids : list nat) (h : list (entry HeapItem)) : go (list (entry HeapItem)) :=
  match ids with
  | [] => Ret h
  | id :: rest =>
      match st !! id with
      | Some b => match b_heapItem b with
                  | Some it => let! h' := remove_item h it in remove_items st rest h'
                  | None => remove_items st rest h
                  end
      | None => Panic
      end
  end.

Definition is_stale (now : Z) (st : gmap nat Batch) (id : nat) : bool :=
  match st !! id with
  | Some b => batchMaxAge <? now - b_createTime b
  | None => false
  end.

(** One route of the snapshot: one stale batch removes all batches of the route. *)
Definition evict_key (now : Z) (w : worker) (k : string) : go worker :=
  match batches w !! k with
  | None => Ret w
  | Some v =>
      if existsb (is_stale now (store w)) v then
        let! h := remove_items (store w) v (heap w) in
        Ret (mkWorker (foldr delete (store w) v) (next w) (delete k (batches w)) h)
      else Ret w
  end.

(** [keys] is the iteration order of the snapshot of [w.batches]. *)
Fixpoint evictStaleBatches (now : Z) (w : worker) (keys : list string) : go worker :=
  match keys with
  | [] => Ret w
  | k :: rest => let! w1 := evict_key now w k in evictStaleBatches now w1 rest
  end.
(** ** Abstraction: what a worker owes *)

Ltac bsimpl := cbn [b_BuffSize b_RoutingKey b_NextHop b_pkt b_heapItem b_createTime
                    store next batches heap it_batch it_deadline set_pkt].

(** The messages a packet under construction holds. *)
Definition pending (p : Packet) : list SubPacket :=
  let payload := sub (Buf p) 24 (Z.to_nat (Wp p - 24)) in parse_subs (S (length payload)) payload.

Definition tagged (k : string) (subs : list SubPacket) : list (string * SubPacket) := pair k <$> subs.

Definition batch_pending (b : Batch) : list (string * SubPacket) := tagged (b_RoutingKey b) (pending (b_pkt b)).

(** Every message accepted and not sent yet, with the route it was accepted for. *)
Definition all_pending (st : gmap nat Batch) : list (string * SubPacket) :=
  mbind (fun '(_, b) => batch_pending b) (map_to_list st).

(** What the receiver of a packet reads. *)
Definition carried (s : sendInfo) : list (string * SubPacket) :=
  match Parse (s_p s) (Z.of_nat (length (s_p s))) with
  | Ret (inr (_, subs)) => tagged (s_routingKey s) subs
  | _ => []
  end.

Definition msg_sub (msg : aggregatorMsg) : SubPacket := mkSub (m_userID msg) (m_data msg).

Record batch_ok (size : Z) (b : Batch) : Prop := {
  bo_rep : Rep (b_pkt b) (pending (b_pkt b));
  bo_valid : Forall valid_sub (pending (b_pkt b));
  bo_size : BuffSize (b_pkt b) = size;
  bo_idle : b_heapItem b = None -> pending (b_pkt b) = [];
  bo_len : b_heapItem b <> None -> PayloadLen (b_pkt b) = payload_size (pending (b_pkt b))
}.

(** The invariant of a worker: a batch holds messages only while it is scheduled, and the heap
    holds exactly the items of the scheduled batches. *)
Record winv (size : Z) (w : worker) : Prop := {
  w_batch id b : store w !! id = Some b -> batch_ok size b;
  w_next id : (next w <= id)%nat -> store w !! id = None;
  w_heap : heap_ok Less any (heap w);
  w_item id b it : store w !! id = Some b -> b_heapItem b = Some it -> it_batch it = id /\ it ∈ map val (heap w);
  w_sched it : it ∈ map val (heap w) -> exists b, store w !! it_batch it = Some b /\ b_heapItem b = Some it;
  w_nodup : NoDup (map val (heap w));
  w_route k ids id : batches w !! k = Some ids -> id ∈ ids ->
    exists b, store w !! id = Some b /\ b_RoutingKey b = k;
  w_route_nodup k ids : batches w !! k = Some ids -> NoDup ids;
  w_route_ne k ids : batches w !! k = Some ids -> ids <> []
}.

Lemma winv_new size : winv size new_worker.
Proof.
  constructor; cbn; intros; try done; try (by apply heap_ok_nil).
  - set_solver.
  - constructor.
Qed.

(** [deadline.Before] is a strict weak order. *)
Lemma heap_Less_asym x y : Less x y = true -> Less y x = false.
Proof. unfold Less. intros. bool_prop. apply Z.ltb_ge. lia. Qed.

Lemma Less_le x y : le Less x y <-> it_deadline x <= it_deadline y.
Proof. unfold le, Less. apply Z.ltb_ge. Qed.

Lemma heap_Less_trans x y z : any y -> le Less x y -> le Less y z -> le Less x z.
Proof. rewrite !Less_le. intros _. lia. Qed.

Lemma Push_item h it :
  heap_ok Less any h -> heap_ok Less any (heap_Push Less h it) /\ map val (heap_Push Less h it) ≡ₚ it :: map val h.
Proof. intros Hok. by apply (heap_Push_spec Less any heap_Less_asym heap_Less_trans). Qed.

(** *** Packets *)

Lemma pending_Rep p subs : Rep p subs -> Forall valid_sub subs -> pending p = subs.
Proof.
  intros (Hwf & Hwp & Hb) Hv. unfold pending, HeaderSize in *. rewrite Hwp.
  replace (24 + payload_size subs - 24) with (payload_size subs) by lia.
  rewrite Hb. apply parse_subs_encode; [done|lia].
Qed.

Lemma HopIPToNet_bytes h : Forall (fits 8) (HopIPToNet h).
Proof.
  unfold HopIPToNet, To4. pose proof (ParseIP_bytes h). repeat case_match; auto using Forall_drop.
Qed.

Lemma Rep_set_hops hops p i subs : Rep p subs -> Rep (set_hops p i hops) subs.
Proof.
  revert p i. induction hops as [|h hops IH]; intros p i HR; [done|].
  apply IH, Rep_SetHopIP; [done|apply HopIPToNet_bytes].
Qed.

Lemma set_hops_same hops p i :
  BuffSize (set_hops p i hops) = BuffSize p /\ PayloadLen (set_hops p i hops) = PayloadLen p /\
  Wp (set_hops p i hops) = Wp p.
Proof.
  revert p i. induction hops as [|h hops IH]; intros p i; [done|]. cbn [set_hops].
  destruct (IH (SetHopIP p i (HopIPToNet h)) (i + 1)) as (-> & -> & ->).
  unfold SetHopIP. repeat case_match; done.
Qed.

Lemma msg_packet_Rep size msg :
  24 <= size < 24 + 2 ^ 16 -> fits 16 (m_port msg) ->
  exists p, msg_packet size msg = Ret p /\ Rep p [] /\ BuffSize p = size /\ PayloadLen p = 0.
Proof.
  intros Hs Hp. unfold msg_packet.
  destruct (NewPacket_Rep size Hs) as (p & Hn & HR & Hb & _). rewrite Hn. cbn [go_bind].
  eexists. split; [done|]. split; [|split].
  - eauto using Rep_set_hops with go_db.
  - cbn. by destruct (set_hops_same (m_hops msg) p 0) as (-> & _).
  - cbn. destruct (set_hops_same (m_hops msg) p 0) as (_ & -> & _).
    unfold NewPacket in Hn. case_match; [done|]. by injection Hn as <-.
Qed.

Lemma new_batch_ok size now msg :
  24 <= size < 24 + 2 ^ 16 -> fits 16 (m_port msg) ->
  exists b, new_batch size now msg = Ret b /\ batch_ok size b /\ b_heapItem b = None /\
    b_RoutingKey b = m_routingKey msg /\ PayloadLen (b_pkt b) = 0 /\ batch_pending b = [].
Proof.
  intros Hs Hp. destruct (msg_packet_Rep size msg Hs Hp) as (p & Hm & HR & Hb & Hl).
  unfold new_batch. rewrite Hm. cbn [go_bind]. eexists. split; [done|].
  assert (Hpd : pending p = []) by (by apply pending_Rep).
  split; [constructor; bsimpl; rewrite ?Hpd; done|]. unfold batch_pending. bsimpl. by rewrite Hpd.
Qed.

Lemma wire_Rep p subs :
  Rep p subs -> Forall valid_sub subs -> PayloadLen p = payload_size subs ->
  exists p' buf, SerializeHead p = Ret p' /\ wire p' = Ret buf /\ buf <> [] /\
    Rep p' subs /\ BuffSize p' = BuffSize p /\
    exists q, Parse buf (Z.of_nat (length buf)) = Ret (inr (q, subs)) /\ same_header p q.
Proof.
  intros HR Hv Hpl.
  destruct (SerializeHead_ok p subs HR) as (p2 & Hs & HR2 & Hh2 & Hb2 & Hpl2 & pad & Hpad & Hhd).
  pose proof HR2 as (Hwf2 & Hwp2 & _). destruct Hwf2 as [Hbuf _ Hhi _ _ _ _ _ _].
  pose proof (payload_size_nonneg subs). unfold HeaderSize in *.
  assert (Htb : TotalBytes p2 = 24 + payload_size subs) by (unfold TotalBytes, HeaderSize; lia).
  exists p2, (take (Z.to_nat (TotalBytes p2)) (Buf p2)). split; [done|].
  assert (Hlen : Z.of_nat (length (take (Z.to_nat (TotalBytes p2)) (Buf p2))) = TotalBytes p2)
    by (rewrite length_take; lia).
  split; [unfold wire; by rewrite (proj2 (Z.leb_le _ _)) by lia|].
  split; [intros He; rewrite He in Hlen; simpl in Hlen; lia|]. split; [done|]. split; [done|].
  destruct (Parse_Rep p2 subs (TotalBytes p2) HR2 Hv) as (q & Hq & Hh3).
  - by rewrite Hpl2.
  - exists pad. split; [done|]. rewrite Hhd. unfold head_bytes.
    destruct Hh2 as (-> & -> & -> & ->). by rewrite Hpl2.
  - done.
  - exists q. rewrite Hlen. split; [done|]. unfold same_header in *. intuition congruence.
Qed.

(** *** The pending messages of a store *)

Lemma all_pending_delete st id b :
  st !! id = Some b -> all_pending st ≡ₚ batch_pending b ++ all_pending (delete id st).
Proof. intros Hb. unfold all_pending. by rewrite <- (map_to_list_delete _ _ _ Hb). Qed.

Lemma all_pending_insert st id b :
  all_pending (<[id := b]> st) ≡ₚ batch_pending b ++ all_pending (delete id st).
Proof. rewrite (all_pending_delete _ id b) by by rewrite lookup_insert_eq. by rewrite delete_insert_eq. Qed.

Lemma all_pending_fresh st id b :
  st !! id = None -> batch_pending b = [] -> all_pending (<[id := b]> st) ≡ₚ all_pending st.
Proof. intros Hn Hb. rewrite all_pending_insert, Hb. by rewrite delete_id. Qed.
(** *** Elementary steps of the worker *)

Lemma winv_add size w b :
  winv size w -> batch_ok size b -> b_heapItem b = None ->
  winv size (mkWorker (<[next w := b]> (store w)) (S (next w)) (batches w) (heap w)).
Proof.
  intros Hw Hb Hi. pose proof (w_next _ _ Hw (next w) (le_n _)) as Hnew.
  constructor; bsimpl; try apply Hw.
  - intros id b'. rewrite lookup_insert_Some. intros [[_ <-]|[_ ?]]; [done|]. by eapply Hw.
  - intros id Hid. rewrite lookup_insert_ne by lia. apply Hw. lia.
  - intros id b' it. rewrite lookup_insert_Some. intros [[_ <-]|[_ ?]]; [congruence|]. by eapply Hw.
  - intros it Hit. destruct (w_sched _ _ Hw it Hit) as (b' & Hl & ?). exists b'. split; [|done].
    rewrite lookup_insert_ne; congruence.
  - intros k ids id Hk Hid. destruct (w_route _ _ Hw k ids id Hk Hid) as (b' & Hl & ?). exists b'. split; [|done].
    rewrite lookup_insert_ne; congruence.
Qed.

Lemma winv_route size w k ids :
  winv size w -> NoDup ids -> ids <> [] ->
  (forall id, id ∈ ids -> exists b, store w !! id = Some b /\ b_RoutingKey b = k) ->
  winv size (mkWorker (store w) (next w) (<[k := ids]> (batches w)) (heap w)).
Proof.
  intros Hw Hnd Hne Hin. constructor; bsimpl; try apply Hw;
    [intros k' ids' id|intros k' ids'..]; rewrite lookup_insert_Some; intros [[<- <-]|[_ ?]]; auto; by eapply Hw.
Qed.

(** A fresh batch is added at the end of the list of its route. *)
Lemma winv_extend size w b k ids :
  winv size w -> batch_ok size b -> b_heapItem b = None -> b_RoutingKey b = k -> batches w !! k = Some ids ->
  winv size (mkWorker (<[next w := b]> (store w)) (S (next w)) (<[k := ids ++ [next w]]> (batches w)) (heap w)).
Proof.
  intros Hw Hok Hi Hk Hids. pose proof (w_next _ _ Hw (next w) (le_n _)) as Hnew.
  pose proof (winv_route size (mkWorker (<[next w := b]> (store w)) (S (next w)) (batches w) (heap w))
                k (ids ++ [next w])) as Hr. cbn [store next batches heap] in Hr. apply Hr; clear Hr.
  - by apply winv_add.
  - apply NoDup_app. split; [by eapply w_route_nodup|].
    split; [|apply NoDup_singleton]. intros x Hx Hn. apply list_elem_of_singleton in Hn as ->.
    destruct (w_route _ _ Hw _ _ _ Hids Hx) as (? & ? & _). congruence.
  - by destruct ids.
  - bsimpl. intros x [Hx|Hx%list_elem_of_singleton]%elem_of_app.
    + destruct (w_route _ _ Hw _ _ _ Hids Hx) as (b1 & ? & ?). exists b1.
      rewrite lookup_insert_ne; [done|congruence].
    + subst. exists b. by rewrite lookup_insert_eq.
Qed.

(** A batch of the store is replaced by one with the same route and heap item, and scheduled. *)
Lemma winv_schedule size w id b0 b deadline :
  winv size w -> store w !! id = Some b0 -> b_heapItem b = b_heapItem b0 -> b_RoutingKey b = b_RoutingKey b0 ->
  Rep (b_pkt b) (pending (b_pkt b)) -> Forall valid_sub (pending (b_pkt b)) -> BuffSize (b_pkt b) = size ->
  PayloadLen (b_pkt b) = payload_size (pending (b_pkt b)) ->
  winv size (schedule w id b deadline) /\
  all_pending (store (schedule w id b deadline)) ≡ₚ batch_pending b ++ all_pending (delete id (store w)).
Proof.
  intros Hw H0 Hi Hk HR Hv Hs Hl. split; [|unfold schedule; destruct (b_heapItem b); bsimpl; rewrite all_pending_insert; done].
  assert (Hroute : forall b', b_RoutingKey b' = b_RoutingKey b0 -> forall k ids id', batches w !! k = Some ids -> id' ∈ ids ->
    exists b, <[id := b']> (store w) !! id' = Some b /\ b_RoutingKey b = k).
  { intros b' Hb' k ids id' Hk' Hid. destruct (w_route _ _ Hw k ids id' Hk' Hid) as (b1 & Hl1 & <-).
    destruct (decide (id' = id)) as [->|]; [|exists b1; by rewrite lookup_insert_ne].
    exists b'. rewrite lookup_insert_eq. split; congruence. }
  assert (Hnext : forall b', forall id', (next w <= id')%nat -> <[id := b']> (store w) !! id' = None).
  { intros b' id' Hid. rewrite lookup_insert_ne; [by apply Hw|]. intros ->. rewrite (w_next _ _ Hw id' Hid) in H0. done. }
  unfold schedule. destruct (b_heapItem b) as [it|] eqn:Eit; constructor; bsimpl; eauto; try apply Hw.
  - intros id' b'. rewrite lookup_insert_Some. intros [[<- <-]|[_ ?]]; [|by eapply Hw]. constructor; congruence.
  - intros id' b' it'. rewrite lookup_insert_Some. intros [[<- <-]|[_ ?]]; [|by eapply Hw].
    intros Hit. apply (w_item _ _ Hw id b0); congruence.
  - intros it' Hit. destruct (w_sched _ _ Hw it' Hit) as (b' & Hl' & Hb').
    destruct (decide (it_batch it' = id)) as [<-|]; [|exists b'; by rewrite lookup_insert_ne].
    exists b. rewrite lookup_insert_eq. split; congruence.
  - intros id' b'. rewrite lookup_insert_Some. intros [[<- <-]|[_ ?]]; [|by eapply Hw]. by constructor.
  - apply Push_item, Hw.
  - intros id' b' it'. destruct (Push_item _ (mkItem id deadline) (w_heap _ _ Hw)) as [_ Hp].
    rewrite lookup_insert_Some, Hp. intros [[<- <-]|[? ?]]; bsimpl.
    + intros [= <-]. split; [done|left].
    + intros Hit. destruct (w_item _ _ Hw id' b' it') as [? ?]; [done..|]. split; [done|by right].
  - intros it'. destruct (Push_item _ (mkItem id deadline) (w_heap _ _ Hw)) as [_ Hp].
    rewrite Hp, elem_of_cons. intros [->|Hit]; bsimpl; [rewrite lookup_insert_eq; eauto|].
    destruct (w_sched _ _ Hw it' Hit) as (b' & Hl' & Hb'). exists b'. rewrite lookup_insert_ne; [done|congruence].
  - destruct (Push_item _ (mkItem id deadline) (w_heap _ _ Hw)) as [_ Hp].
    rewrite Hp. apply NoDup_cons. split; [|apply Hw]. intros Hit.
    destruct (w_sched _ _ Hw _ Hit) as (b' & Hl' & Hb'). cbn in Hl'. congruence.
Qed.
(** *** handleMsg *)

Section Handle.
Context (cfg : Config) (Hsize : 24 <= BufferSize cfg < 24 + 2 ^ 16).
Context (msg : aggregatorMsg) (Hport : fits 16 (m_port msg)) (Hmsg : valid_sub (msg_sub msg)).

Lemma add_batches_spec now n w :
  winv (BufferSize cfg) w ->
  exists w' ids, add_batches n (BufferSize cfg) now msg w = Ret (w', ids) /\ winv (BufferSize cfg) w' /\
    length ids = n /\ NoDup ids /\
    (forall id, id ∈ ids -> (next w <= id)%nat /\ exists b, store w' !! id = Some b /\ b_RoutingKey b = m_routingKey msg) /\
    batches w' = batches w /\ all_pending (store w') ≡ₚ all_pending (store w) /\
    (forall id b, store w !! id = Some b -> store w' !! id = Some b).
Proof.
  revert w. induction n as [|n IH]; intros w Hw.
  { exists w, []. split_and!; try done; [constructor|set_solver]. }
  cbn [add_batches].
  destruct (new_batch_ok _ now msg Hsize Hport) as (b & Hb & Hok & Hi & Hk & _ & Hp). rewrite Hb. cbn [go_bind].
  destruct (IH _ (winv_add _ w b Hw Hok Hi)) as (w' & ids & Ha & Hw' & Hl & Hnd & Hin & Hbs & Hap & Hst).
  rewrite Ha. cbn [go_bind]. exists w', (next w :: ids). cbn [next store batches] in *.
  pose proof (w_next _ _ Hw (next w) (le_n _)) as Hnew. split_and!; try done.
  - simpl. lia.
  - apply NoDup_cons. split; [|done]. intros Hc. destruct (Hin _ Hc). lia.
  - intros id [->|Hid]%elem_of_cons.
    + split; [done|]. exists b. split; [|done]. apply Hst, lookup_insert_eq.
    + destruct (Hin _ Hid) as [? ?]. split; [lia|done].
  - rewrite Hap. by apply all_pending_fresh.
  - intros id b' Hl'. apply Hst. rewrite lookup_insert_ne; congruence.
Qed.

Lemma pick_Some ids uid : ids <> [] -> exists id, pick ids uid = Some id /\ id ∈ ids.
Proof.
  intros Hne. unfold pick. assert (0 < length ids)%nat by (destruct ids; simpl; [done|lia]).
  destruct (lookup_lt_is_Some_2 ids (Z.to_nat (uid mod Z.of_nat (length ids)))) as [id Hid].
  - pose proof (Z.mod_pos_bound uid (Z.of_nat (length ids))). lia.
  - exists id. split; [done|]. by eapply list_elem_of_lookup_2.
Qed.

Lemma batch_num_pos port : (0 < batch_num cfg port)%nat.
Proof. unfold batch_num. repeat case_match; bool_prop; lia. Qed.

Lemma find_batch_spec now w :
  winv (BufferSize cfg) w ->
  exists w' id b, find_batch cfg now w msg = Ret (w', Some id) /\ winv (BufferSize cfg) w' /\
    store w' !! id = Some b /\ b_RoutingKey b = m_routingKey msg /\
    is_Some (batches w' !! m_routingKey msg) /\ all_pending (store w') ≡ₚ all_pending (store w).
Proof.
  intros Hw. unfold find_batch. destruct (batches w !! m_routingKey msg) as [ids|] eqn:Hk; cbn [default].
  - destruct (pick_Some ids (m_userID msg) (w_route_ne _ _ Hw _ _ Hk)) as (id & Hp & Hin). simpl. rewrite Hp.
    destruct (w_route _ _ Hw _ _ _ Hk Hin) as (b & Hb & Hr). exists w, id, b. rewrite Hk. by split_and!.
  - simpl. destruct (add_batches_spec now (batch_num cfg (m_port msg)) w Hw)
      as (w' & ids & Ha & Hw' & Hl & Hnd & Hin & Hbs & Hap & Hst).
    rewrite Ha. cbn [go_bind].
    assert (Hne : ids <> []) by (pose proof (batch_num_pos (m_port msg)); destruct ids; simpl in *; [lia|done]).
    destruct (pick_Some ids (m_userID msg) Hne) as (id & Hp & Hi). rewrite Hp.
    destruct (Hin id Hi) as (_ & b & Hb & Hr). eexists _, id, b. split; [done|]. bsimpl.
    split; [|by rewrite lookup_insert_eq; split_and!].
    apply winv_route; [done..|]. intros id' Hid'. by apply Hin.
Qed.

(** Appending to a batch of the store and scheduling it. *)
Lemma append_to_batch w id b deadline :
  winv (BufferSize cfg) w -> store w !! id = Some b -> b_RoutingKey b = m_routingKey msg ->
  Wp (b_pkt b) + sub_size (msg_sub msg) <= BufferSize cfg ->
  exists p, AppendUserPacket (b_pkt b) (m_userID msg) (m_data msg) = Ret (p, true) /\
    let w' := schedule w id (set_pkt b p) deadline in
    winv (BufferSize cfg) w' /\
    all_pending (store w') ≡ₚ (m_routingKey msg, msg_sub msg) :: all_pending (store w).
Proof.
  intros Hw Hb Hk Hfit. destruct (w_batch _ _ Hw id b Hb) as [HR Hv Hs _ _].
  destruct (Rep_append _ _ (msg_sub msg) HR) as (p & Ha & HR' & _ & Hs' & Hl); [apply Hmsg|lia|].
  exists p. split; [done|].
  assert (Hp : pending p = pending (b_pkt b) ++ [msg_sub msg])
    by (apply pending_Rep; [done|apply Forall_app_2; auto]).
  destruct (winv_schedule (BufferSize cfg) w id b (set_pkt b p) deadline) as [Hw' Hap]; bsimpl;
    rewrite ?Hp; try done; [by apply Forall_app_2; auto|congruence|].
  split; [done|]. rewrite Hap, (all_pending_delete _ _ _ Hb).
  unfold batch_pending, tagged. bsimpl. rewrite Hp, Hk, fmap_app. simpl.
  rewrite <- app_assoc. simpl. by rewrite <- Permutation_middle.
Qed.

Lemma append_msg_spec now w id b :
  winv (BufferSize cfg) w -> store w !! id = Some b -> b_RoutingKey b = m_routingKey msg ->
  is_Some (batches w !! m_routingKey msg) ->
  exists w', append_msg cfg now w id b msg = Ret w' /\ winv (BufferSize cfg) w' /\
    all_pending (store w') ≡ₚ
      (if decide (24 + sub_size (msg_sub msg) <= BufferSize cfg) then [(m_routingKey msg, msg_sub msg)] else [])
      ++ all_pending (store w).
Proof.
  intros Hw Hb Hk [ids Hids]. unfold append_msg. set (dl := now + _).
  pose proof (w_batch _ _ Hw id b Hb) as [HR Hv Hs Hidle _]. pose proof HR as (_ & Hwp & _).
  unfold HeaderSize in Hwp. pose proof (payload_size_nonneg (pending (b_pkt b))) as Hnn.
  assert (Hst : bool_decide (b_heapItem b = None) && (HeaderSize <? Wp (b_pkt b)) = false).
  { case_bool_decide as Hi; [|done]. rewrite (Hidle Hi) in Hwp. cbn in Hwp. rewrite Hwp. done. }
  rewrite Hst. destruct (decide (Wp (b_pkt b) + sub_size (msg_sub msg) <= BufferSize cfg)) as [Hfit|Hfull].
  - destruct (append_to_batch w id b dl) as (p & -> & Hw' & Hap); [done..|]. cbn [go_bind].
    eexists. split; [done|]. split; [done|]. rewrite decide_True by lia. done.
  - rewrite AppendUserPacket_full by (unfold msg_sub in *; lia). cbn [go_bind].
    destruct (new_batch_ok _ now msg Hsize Hport) as (b' & Hb' & Hok & Hi & Hk' & Hl & Hp). rewrite Hb'. cbn [go_bind].
    pose proof (w_next _ _ Hw (next w) (le_n _)) as Hnew.
    set (w1 := mkWorker _ _ _ _).
    assert (Hw1 : winv (BufferSize cfg) w1).
    { unfold w1. rewrite Hids. by apply winv_extend. }
    assert (Hb1 : store w1 !! next w = Some b') by apply lookup_insert_eq.
    assert (Hap1 : all_pending (store w1) ≡ₚ all_pending (store w)) by (by apply all_pending_fresh).
    destruct Hok as [HR' Hv' Hs' Hidle' _]. specialize (Hidle' Hi).
    assert (Wp (b_pkt b') = 24) by (rewrite Hidle' in HR'; by destruct HR' as (_ & ? & _)).
    case_decide as Hd.
    + destruct (append_to_batch w1 (next w) b' dl) as (p & -> & Hw' & Hap); [done..|lia|]. cbn [go_bind].
      eexists. split; [done|]. split; [done|]. rewrite Hap, Hap1. done.
    + rewrite AppendUserPacket_full by (unfold msg_sub in *; lia). cbn [go_bind].
      eexists. split; [done|].
      destruct (winv_schedule (BufferSize cfg) w1 (next w) b' (set_pkt b' (b_pkt b')) dl) as [Hw' Hap];
        bsimpl; try done; [by rewrite Hidle'|].
      split; [done|]. rewrite Hap, <- Hap1. by rewrite (all_pending_delete _ _ _ Hb1).
Qed.

(** The direct path: one packet with this message alone, or nothing when it does not fit. *)
Lemma send_direct_spec size :
  24 <= size < 24 + 2 ^ 16 ->
  exists out, send_direct size msg = Ret out /\
    mbind carried out =
      if decide (24 + sub_size (msg_sub msg) <= size) then [(m_routingKey msg, msg_sub msg)] else [].
Proof.
  intros Hs. unfold send_direct.
  destruct (msg_packet_Rep size msg Hs Hport) as (p & -> & HR & Hb & _). cbn [go_bind].
  pose proof HR as (_ & Hwp & _). unfold HeaderSize in Hwp. cbn in Hwp. case_decide as Hd.
  - destruct (Rep_append p [] (msg_sub msg) HR) as (p1 & Ha & HR1 & _ & _ & Hl1); [apply Hmsg|lia|].
    cbn [UserID Data msg_sub] in Ha. rewrite Ha. cbn [go_bind].
    destruct (wire_Rep p1 [msg_sub msg] HR1) as (p2 & buf & -> & Hwire & Hne & _ & _ & q & Hq & _); [by constructor|done|].
    cbn [go_bind]. rewrite Hwire. cbn [go_bind]. eexists. split; [done|]. unfold flush.
    destruct buf as [|x buf]; [done|]. cbn [mbind list_bind]. unfold carried. cbn [s_p s_routingKey].
    rewrite Hq. done.
  - rewrite AppendUserPacket_full by (unfold msg_sub in *; lia). cbn [go_bind]. by exists [].
Qed.
End Handle.
(** *** checkTimeout *)

Lemma pop_expired_spec now fuel h :
  heap_ok Less any h -> (length h <= fuel)%nat ->
  let '(xs, h') := pop_expired fuel now h in
  heap_ok Less any h' /\ map val h ≡ₚ xs ++ map val h' /\
  Forall (fun it => it_deadline it <= now) xs /\ Forall (fun it => now < it_deadline it) (map val h').
Proof.
  revert h. induction fuel as [|fuel IH]; intros h Hok Hl.
  { destruct h; [|simpl in Hl; lia]. simpl. split_and!; done || constructor. }
  cbn [pop_expired]. destruct h as [|e h0] eqn:Eh; [split_and!; done || constructor|]. rewrite <- Eh in *.
  destruct (heap_Pop_spec Less any heap_Less_asym heap_Less_trans h Hok) as (x & h' & -> & Hk & Hp & Hok' & Hmin); [by subst|].
  unfold key in Hk. rewrite Eh in Hk. cbn in Hk. injection Hk as <-.
  destruct (Z.ltb_spec now (it_deadline (val e))) as [Hlt|Hge].
  - split_and!; [done|done|constructor|]. rewrite Hp. constructor; [done|].
    eapply Forall_impl; [apply Hmin|]. intros y Hy%Less_le. lia.
  - assert (length h = S (length h')) by (apply Permutation_length in Hp; simpl in Hp; by rewrite !length_map in Hp).
    specialize (IH h' Hok' ltac:(lia)). destruct (pop_expired fuel now h') as [xs h''].
    destruct IH as (? & Hp' & ? & ?). split_and!; try done; [|by constructor].
    rewrite Hp, Hp'. done.
Qed.

Lemma flush_item_spec size now st it b :
  st !! it_batch it = Some b -> batch_ok size b -> b_heapItem b <> None ->
  exists b' out, flush_item now st it = Ret (<[it_batch it := b']> st, out) /\ batch_ok size b' /\
    b_heapItem b' = None /\ b_RoutingKey b' = b_RoutingKey b /\ b_createTime b' = now /\ batch_pending b' = [] /\
    mbind carried out = batch_pending b /\ map s_next out = [b_NextHop b].
Proof.
  intros Hb [HR Hv Hs _ Hl] Hi. unfold flush_item. rewrite Hb.
  destruct (wire_Rep _ _ HR Hv (Hl Hi)) as (p & buf & -> & Hw & Hne & HR' & Hb' & q & Hq & _).
  cbn [go_bind]. rewrite Hw. cbn [go_bind]. eexists _, _. split; [done|]. bsimpl.
  set (p' := mkPacket _ _ _ _ _ _ _ _).
  assert (Hp' : Rep p' []).
  { destruct HR' as (Hwf & Hwp & _). pose proof (payload_size_nonneg (pending (b_pkt b))).
    split; [|split]; [|done|by unfold sub; rewrite take_0].
    destruct Hwf. constructor; unfold p'; psimpl; try done. unfold HeaderSize in *. lia. }
  assert (Hpend : pending p' = []) by (by apply pending_Rep).
  split; [constructor; bsimpl; rewrite ?Hpend; try done; unfold p'; psimpl; congruence|].
  do 3 (split; [done|]). unfold batch_pending. bsimpl. rewrite Hpend. split; [done|].
  destruct buf as [|x buf]; [done|]. split; [|done].
  cbn [flush mbind list_bind]. unfold carried. cbn [s_p s_routingKey]. rewrite Hq. apply app_nil_r.
Qed.

(** The second half of [checkTimeout]: every item's batch is sent whole and is left idle. *)
Lemma flush_items_spec size now items st :
  NoDup (map it_batch items) ->
  (forall it, it ∈ items -> exists b, st !! it_batch it = Some b /\ batch_ok size b /\ b_heapItem b = Some it) ->
  exists st' out, flush_items now st items = Ret (st', out) /\
    mbind carried out ++ all_pending st' ≡ₚ all_pending st /\
    (forall id, id ∉ map it_batch items -> st' !! id = st !! id) /\
    (forall it, it ∈ items -> exists b b', st !! it_batch it = Some b /\ st' !! it_batch it = Some b' /\
       batch_ok size b' /\ b_heapItem b' = None /\ b_RoutingKey b' = b_RoutingKey b /\ batch_pending b' = []).
Proof.
  revert st. induction items as [|it items IH]; intros st Hnd Hin.
  { exists st, []. split_and!; try done. set_solver. }
  cbn [map] in Hnd. apply NoDup_cons in Hnd as [Hni Hnd].
  destruct (Hin it) as (b & Hb & Hok & Hi); [left|].
  destruct (flush_item_spec size now st it b Hb Hok) as (b' & out & Hf & Hok' & Hi' & Hk' & _ & Hp' & Hc & _);
    [by rewrite Hi|].
  assert (Hother : forall it', it' ∈ items -> it_batch it' <> it_batch it).
  { intros it' Hit He. apply Hni. rewrite <- He. by apply list_elem_of_fmap_2. }
  destruct (IH (<[it_batch it := b']> st) Hnd) as (st' & out' & Hf' & Hcons & Hframe & Hfl).
  { intros it' Hit. destruct (Hin it') as (b1 & ? & ?); [by right|]. exists b1.
    rewrite lookup_insert_ne; [done|]. intros He. by eapply Hother. }
  cbn [flush_items]. rewrite Hf. cbn [go_bind]. rewrite Hf'. cbn [go_bind].
  exists st', (out ++ out'). split; [done|]. split; [|split].
  - rewrite bind_app, <- app_assoc, Hcons, all_pending_insert, Hp', Hc, app_nil_l. by rewrite <- all_pending_delete.
  - intros id Hid. cbn [map] in Hid. apply not_elem_of_cons in Hid as [? ?].
    rewrite Hframe by done. by rewrite lookup_insert_ne.
  - intros it' [->|Hit]%elem_of_cons.
    + exists b, b'. rewrite Hframe by done. rewrite lookup_insert_eq. by split_and!.
    + destruct (Hfl it' Hit) as (b1 & b2 & Hb1 & ?). exists b1, b2. split; [|done].
      rewrite lookup_insert_ne in Hb1; [done|]. intros He. by eapply Hother.
Qed.

(** The items taken off the heap belong to different batches. *)
Lemma expired_batches size w xs h' :
  winv size w -> map val (heap w) ≡ₚ xs ++ map val h' -> NoDup (map it_batch (xs ++ map val h')).
Proof.
  intros Hw Hp. assert (Hnd : NoDup (xs ++ map val h')) by (rewrite <- Hp; apply Hw).
  apply NoDup_fmap_2_strong; [|done]. intros x y Hx Hy He. rewrite <- Hp in Hx, Hy.
  destruct (w_sched _ _ Hw x Hx) as (b & Hb & Hi). destruct (w_sched _ _ Hw y Hy) as (b2 & Hb2 & Hi2).
  rewrite He in Hb. congruence.
Qed.
(** *** Runs of a worker

    Messages and timer ticks in the order in which the worker executes them. *)

Inductive event := Msg (now : Z) (msg : aggregatorMsg) | Tick (now : Z).

Definition step (cfg : Config) (w : worker) (e : event) : go (worker * list sendInfo) :=
  match e with
  | Msg now msg => handleMsg cfg now w msg
  | Tick now => checkTimeout now w
  end.

Fixpoint run (cfg : Config) (w : worker) (evs : list event) : go (worker * list sendInfo) :=
  match evs with
  | [] => Ret (w, [])
  | e :: rest =>
      let! (w1, out1) := step cfg w e in
      let! (w2, out2) := run cfg w1 rest in
      Ret (w2, out1 ++ out2)
  end.

(** The messages a batching worker does not drop. *)
Definition accepts (cfg : Config) (msg : aggregatorMsg) : bool :=
  is_direct cfg msg || (24 + sub_size (msg_sub msg) <=? BufferSize cfg).

Definition accepted (cfg : Config) (e : event) : list (string * SubPacket) :=
  match e with
  | Msg _ msg => if accepts cfg msg then [(m_routingKey msg, msg_sub msg)] else []
  | Tick _ => []
  end.

(** A message the system can produce: a 16-bit port and a payload whose size fits the 16-bit
    length field of the packet. *)
Definition msg_ok (msg : aggregatorMsg) : Prop :=
  fits 16 (m_port msg) /\ valid_sub (msg_sub msg) /\ sub_size (msg_sub msg) < 2 ^ 16.

Definition event_ok (e : event) : Prop := match e with Msg _ msg => msg_ok msg | Tick _ => True end.

Definition cfg_ok (cfg : Config) : Prop := 24 <= BufferSize cfg < 24 + 2 ^ 16.

Lemma handleMsg_spec cfg now w msg :
  cfg_ok cfg -> msg_ok msg -> winv (BufferSize cfg) w ->
  exists w' out, handleMsg cfg now w msg = Ret (w', out) /\ winv (BufferSize cfg) w' /\
    mbind carried out ++ all_pending (store w') ≡ₚ accepted cfg (Msg now msg) ++ all_pending (store w).
Proof.
  intros Hc (Hp & Hv & Hs) Hw. unfold handleMsg, accepted, accepts.
  destruct (is_direct cfg msg) eqn:Ed; cbn [orb].
  - destruct (send_direct_spec msg Hp Hv (24 + sub_size (msg_sub msg))) as (out & Hd & Hcar);
      [unfold sub_size in *; lia|].
    replace (HeaderSize + 4 + 2 + Z.of_nat (length (m_data msg))) with (24 + sub_size (msg_sub msg))
      by (unfold sub_size, HeaderSize; cbn; lia).
    rewrite Hd. cbn [go_bind]. exists w, out. rewrite Hcar, decide_True by lia. done.
  - destruct (m_emerge msg).
    + destruct (send_direct_spec msg Hp Hv _ Hc) as (out & Hd & Hcar). rewrite Hd. cbn [go_bind].
      exists w, out. rewrite Hcar. split; [done|]. split; [done|].
      case_decide; destruct (Z.leb_spec (24 + sub_size (msg_sub msg)) (BufferSize cfg)); done || lia.
    + destruct (find_batch_spec cfg Hc msg Hp Hv now w Hw) as (w1 & id & b & -> & Hw1 & Hb & Hk & Hr & Hap).
      cbn [go_bind]. rewrite Hb.
      destruct (append_msg_spec cfg Hc msg Hp Hv now w1 id b Hw1 Hb Hk Hr) as (w2 & -> & Hw2 & Hap2).
      cbn [go_bind]. exists w2, []. split; [done|]. split; [done|]. cbn [mbind list_bind]. rewrite app_nil_l, Hap2, Hap.
      case_decide; destruct (Z.leb_spec (24 + sub_size (msg_sub msg)) (BufferSize cfg)); done || lia.
Qed.

Lemma checkTimeout_spec size now w :
  winv size w ->
  exists w' out, checkTimeout now w = Ret (w', out) /\ winv size w' /\
    mbind carried out ++ all_pending (store w') ≡ₚ all_pending (store w) /\
    (forall it, it ∈ map val (heap w') <-> it ∈ map val (heap w) /\ now < it_deadline it).
Proof.
  intros Hw. unfold checkTimeout.
  pose proof (pop_expired_spec now (length (heap w)) (heap w) (w_heap _ _ Hw) (le_n _)) as Hpop.
  destruct (pop_expired _ now (heap w)) as [xs h]. destruct Hpop as (Hok & Hp & Hexp & Hrest).
  pose proof (expired_batches size w xs h Hw Hp) as Hnd. rewrite map_app in Hnd.
  apply NoDup_app in Hnd as (Hnx & Hdis & Hnh).
  assert (Hsched : forall it, it ∈ xs \/ it ∈ map val h -> exists b, store w !! it_batch it = Some b /\ b_heapItem b = Some it).
  { intros it Hit. apply (w_sched _ _ Hw). rewrite Hp. by apply elem_of_app. }
  destruct (flush_items_spec size now xs (store w) Hnx) as (st & out & -> & Hcons & Hframe & Hfl).
  { intros it Hit. destruct (Hsched it) as (b & Hb & Hi); [by left|]. exists b. split_and!; try done. by eapply Hw. }
  cbn [go_bind]. eexists _, out. split; [done|]. bsimpl. split; [|split; [done|]].
  - assert (Hcase : forall id, (exists it, it ∈ xs /\ it_batch it = id) \/ st !! id = store w !! id).
    { intros id. destruct (decide (id ∈ map it_batch xs)) as [(it & -> & Hit)%list_elem_of_fmap|]; eauto. }
    constructor; bsimpl; try done.
    + intros id b Hb. destruct (Hcase id) as [(it & Hit & <-)|He]; [|rewrite He in Hb; by eapply Hw].
      destruct (Hfl it Hit) as (b1 & b2 & _ & Hb2 & ? & _). congruence.
    + intros id Hid. destruct (Hcase id) as [(it & Hit & <-)| ->]; [|by apply Hw].
      destruct (Hsched it) as (b & Hb & _); [by left|]. rewrite (w_next _ _ Hw _ Hid) in Hb. done.
    + intros id b it Hb Hi. destruct (Hcase id) as [(it' & Hit & <-)|He].
      * destruct (Hfl it' Hit) as (b1 & b2 & _ & Hb2 & _ & ? & _). congruence.
      * rewrite He in Hb. destruct (w_item _ _ Hw id b it Hb Hi) as [<- Hin]. split; [done|].
        rewrite Hp, elem_of_app in Hin. destruct Hin as [Hin|]; [|done].
        destruct (Hfl it Hin) as (b1 & b2 & _ & Hb2 & _ & ? & _). congruence.
    + intros it Hit. destruct (Hsched it) as (b & Hb & Hi); [by right|]. exists b. split; [|done].
      rewrite Hframe; [done|]. intros Hin. eapply Hdis; [done|]. by apply list_elem_of_fmap_2.
    + by eapply NoDup_fmap_1.
    + intros k ids id Hk Hid. destruct (w_route _ _ Hw k ids id Hk Hid) as (b & Hb & <-).
      destruct (Hcase id) as [(it' & Hit & <-)| ->]; [|by exists b].
      destruct (Hfl it' Hit) as (b1 & b2 & Hb1 & Hb2 & _ & _ & ? & _). exists b2. split; [done|]. congruence.
    + apply Hw.
    + apply Hw.
  - intros it. rewrite Hp, elem_of_app. rewrite Forall_forall in Hexp, Hrest. split.
    + intros Hit. split; [by right|]. by apply Hrest.
    + intros [[Hit|Hit] Hlt]; [|done]. apply Hexp in Hit. lia.
Qed.

Lemma step_spec cfg w e :
  cfg_ok cfg -> event_ok e -> winv (BufferSize cfg) w ->
  exists w' out, step cfg w e = Ret (w', out) /\ winv (BufferSize cfg) w' /\
    mbind carried out ++ all_pending (store w') ≡ₚ accepted cfg e ++ all_pending (store w).
Proof.
  intros Hc He Hw. destruct e as [now msg|now]; [by apply handleMsg_spec|].
  destruct (checkTimeout_spec _ now w Hw) as (w' & out & ? & ? & ? & _). by exists w', out.
Qed.

Lemma run_spec cfg w evs :
  cfg_ok cfg -> Forall event_ok evs -> winv (BufferSize cfg) w ->
  exists w' out, run cfg w evs = Ret (w', out) /\ winv (BufferSize cfg) w' /\
    mbind carried out ++ all_pending (store w') ≡ₚ mbind (accepted cfg) evs ++ all_pending (store w).
Proof.
  intros Hc He. revert w. induction He as [|e evs He Hes IH]; intros w Hw; [by exists w, []|].
  destruct (step_spec cfg w e Hc He Hw) as (w1 & out1 & Hs & Hw1 & Hp1).
  destruct (IH w1 Hw1) as (w2 & out2 & Hr & Hw2 & Hp2).
  exists w2, (out1 ++ out2). cbn [run]. rewrite Hs. cbn [go_bind]. rewrite Hr. cbn [go_bind].
  split; [done|]. split; [done|]. rewrite bind_app, <- app_assoc, Hp2.
  rewrite Permutation_app_swap_app, Hp1, Permutation_app_swap_app. cbn [mbind list_bind]. by rewrite <- app_assoc.
Qed.
Lemma run_snoc cfg w evs w1 out1 e w2 out2 :
  run cfg w evs = Ret (w1, out1) -> step cfg w1 e = Ret (w2, out2) ->
  run cfg w (evs ++ [e]) = Ret (w2, out1 ++ out2).
Proof.
  intros Hr Hs. revert w out1 Hr. induction evs as [|e0 evs IH]; intros w out1; cbn [run app].
  - intros [= <- <-]. rewrite Hs. cbn [go_bind]. by rewrite app_nil_r.
  - intros ([wa oa] & Ha & Hr)%go_bind_Ret. apply go_bind_Ret in Hr as ([wb ob] & Hr & [= -> <-]).
    rewrite Ha. cbn [go_bind]. rewrite (IH wa ob Hr). cbn [go_bind]. by rewrite app_assoc.
Qed.

(** *** Deadlines *)

Definition deadlines_le (T : Z) (w : worker) : Prop := forall it, it ∈ map val (heap w) -> it_deadline it <= T.

Lemma add_batches_heap n size now msg w w' ids :
  add_batches n size now msg w = Ret (w', ids) -> heap w' = heap w.
Proof.
  revert w w' ids. induction n as [|n IH]; intros w w' ids; cbn [add_batches]; [by intros [= <- _]|].
  intros (b & _ & Hr)%go_bind_Ret. apply go_bind_Ret in Hr as ([w1 ids1] & Ha & [= <- _]). by apply IH in Ha.
Qed.

Lemma find_batch_heap cfg now w msg w' oid : find_batch cfg now w msg = Ret (w', oid) -> heap w' = heap w.
Proof.
  unfold find_batch. case_match; [by intros [= <- _]|]. case_match; [by intros [= <- _]|].
  intros ([w1 ids] & Ha & [= <- _])%go_bind_Ret. by apply add_batches_heap in Ha.
Qed.

Lemma schedule_deadlines T w id b dl :
  heap_ok Less any (heap w) -> deadlines_le T w -> dl <= T -> deadlines_le T (schedule w id b dl).
Proof.
  intros Hok Hd Hdl. unfold deadlines_le, schedule. destruct (b_heapItem b); bsimpl; [done|].
  destruct (Push_item _ (mkItem id dl) Hok) as [_ Hp].
  intros it. rewrite Hp. intros [->|Hit]%elem_of_cons; [done|auto].
Qed.

Lemma append_msg_deadlines T cfg now w id b msg w' :
  append_msg cfg now w id b msg = Ret w' -> heap_ok Less any (heap w) -> deadlines_le T w ->
  now + BatchTimeoutMs cfg * millisecond <= T -> deadlines_le T w'.
Proof.
  unfold append_msg. intros ([p ok] & _ & Hr)%go_bind_Ret Hok Hd Hn. destruct ok.
  - injection Hr as <-. by apply schedule_deadlines.
  - apply go_bind_Ret in Hr as (b' & _ & Hr). apply go_bind_Ret in Hr as ([p' ok'] & _ & [= <-]).
    by apply schedule_deadlines.
Qed.

Lemma step_deadlines T cfg w e w' out :
  step cfg w e = Ret (w', out) -> winv (BufferSize cfg) w -> deadlines_le T w ->
  (match e with Msg now _ => now + BatchTimeoutMs cfg * millisecond <= T | Tick _ => True end) ->
  deadlines_le T w'.
Proof.
  destruct e as [now msg|now]; cbn [step]; intros Hs Hw Hd Hn.
  - unfold handleMsg in Hs. case_match.
    { apply go_bind_Ret in Hs as (o & _ & [= <- _]). done. }
    apply go_bind_Ret in Hs as ([w1 oid] & Hf & Hs). apply find_batch_heap in Hf.
    destruct oid as [id|]; [|injection Hs as <- _; intros it; rewrite Hf; apply Hd].
    case_match; [|done]. apply go_bind_Ret in Hs as (w2 & Ha & [= <- _]).
    eapply append_msg_deadlines; [done|rewrite Hf; apply Hw|intros it; rewrite Hf; apply Hd|done].
  - destruct (checkTimeout_spec _ now w Hw) as (w1 & o & He & _ & _ & Hit). rewrite He in Hs.
    injection Hs as <- _. intros it Hi. apply Hit in Hi as [Hi _]. by apply Hd.
Qed.

Lemma run_deadlines T cfg w evs w' out :
  cfg_ok cfg -> Forall event_ok evs -> run cfg w evs = Ret (w', out) -> winv (BufferSize cfg) w -> deadlines_le T w ->
  (forall now msg, Msg now msg ∈ evs -> now + BatchTimeoutMs cfg * millisecond <= T) -> deadlines_le T w'.
Proof.
  intros Hc He. revert w w' out. induction He as [|e evs He Hes IH]; intros w w' out; cbn [run].
  { by intros [= <- _]. }
  intros ([w1 o1] & Hs & Hr)%go_bind_Ret Hw Hd Hin. apply go_bind_Ret in Hr as ([w2 o2] & Hr & [= <- _]).
  destruct (step_spec cfg w e Hc He Hw) as (w1' & o1' & Hs' & Hw1 & _). rewrite Hs in Hs'. injection Hs' as <- _.
  eapply IH; [done|done| |].
  - eapply step_deadlines; [done..|]. destruct e; [|done]. eapply Hin. left.
  - intros now msg Hm. apply (Hin now msg). by right.
Qed.

Lemma heap_empty_idle size w : winv size w -> map val (heap w) = [] -> all_pending (store w) = [].
Proof.
  intros Hw Hh. unfold all_pending.
  assert (Hall : forall id b, (id, b) ∈ map_to_list (store w) -> batch_pending b = []).
  { intros id b Hb%elem_of_map_to_list. pose proof (w_batch _ _ Hw id b Hb) as Hok.
    destruct (b_heapItem b) as [it|] eqn:Ei.
    - destruct (w_item _ _ Hw id b it Hb Ei) as [_ Hit]. rewrite Hh in Hit. set_solver.
    - unfold batch_pending. by rewrite (bo_idle _ _ Hok Ei). }
  induction (map_to_list (store w)) as [|[id b] l IH]; [done|]. cbn [mbind list_bind].
  rewrite (Hall id b) by left. apply IH. intros id' b' Hin. apply (Hall id'). by right.
Qed.

(** *** Eviction *)

Lemma find_lookup (h : list (entry HeapItem)) it :
  it ∈ map val h -> exists e i, List.find (fun e => bool_decide (val e = it)) h = Some e /\ h !! i = Some e /\ val e = it.
Proof.
  intros Hin. destruct (List.find _ h) as [e|] eqn:Hf.
  - pose proof (List.find_some _ _ Hf) as [Hi He]. apply list_elem_of_In, list_elem_of_lookup in Hi as [i Hi].
    bool_prop. by exists e, i.
  - apply list_elem_of_fmap in Hin as (e & -> & He). apply list_elem_of_In in He.
    pose proof (List.find_none _ _ Hf e He) as Hn. cbv beta in Hn. bool_prop. done.
Qed.

Lemma remove_item_spec h it :
  heap_ok Less any h -> it ∈ map val h ->
  exists h', remove_item h it = Ret h' /\ heap_ok Less any h' /\ map val h ≡ₚ it :: map val h'.
Proof.
  intros Hok Hin. destruct (find_lookup h it Hin) as (e & i & Hf & Hi & Hv).
  pose proof (ok_idx _ _ _ Hok i e Hi) as Hx. unfold remove_item, item_index. rewrite Hf, Hx.
  rewrite (proj2 (Z.ltb_ge _ _)) by lia. rewrite Nat2Z.id.
  destruct (heap_Remove_spec Less any heap_Less_asym heap_Less_trans h i Hok) as (x & h' & -> & Hk & Hp & Hok');
    [by eapply lookup_lt_Some|].
  exists h'. unfold key in Hk. rewrite Hi in Hk. injection Hk as <-. rewrite Hv in Hp. done.
Qed.

Lemma remove_items_spec st ids h :
  heap_ok Less any h -> NoDup (map val h) -> NoDup ids ->
  (forall id, id ∈ ids -> exists b, st !! id = Some b /\
     forall it, b_heapItem b = Some it -> it_batch it = id /\ it ∈ map val h) ->
  (forall it, it ∈ map val h -> exists b, st !! it_batch it = Some b /\ b_heapItem b = Some it) ->
  exists h', remove_items st ids h = Ret h' /\ heap_ok Less any h' /\ NoDup (map val h') /\
    forall it, it ∈ map val h' <-> it ∈ map val h /\ it_batch it ∉ ids.
Proof.
  revert h. induction ids as [|id ids IH]; intros h Hok Hnd Hni Hin Hs.
  { exists h. split_and!; try done. set_solver. }
  apply NoDup_cons in Hni as [Hid Hni]. cbn [remove_items].
  destruct (Hin id) as (b & Hst & Hit); [left|]. rewrite Hst.
  destruct (b_heapItem b) as [it|] eqn:Ei.
  - destruct (Hit it) as [Hb Hh]; [done|].
    destruct (remove_item_spec h it Hok Hh) as (h1 & -> & Hok1 & Hp). cbn [go_bind].
    rewrite Hp in Hnd. apply NoDup_cons in Hnd as [Hn1 Hnd1].
    destruct (IH h1 Hok1 Hnd1 Hni) as (h2 & -> & Hok2 & Hnd2 & Hiff).
    + intros id' Hid'. destruct (Hin id') as (b' & Hb' & Hit'); [by right|]. exists b'. split; [done|].
      intros it' Hi'. destruct (Hit' it' Hi') as [He Hm]. split; [done|].
      rewrite Hp in Hm. apply elem_of_cons in Hm as [->|]; [|done]. congruence.
    + intros it' Hi'. apply Hs. rewrite Hp. by right.
    + exists h2. split_and!; try done. intros it'. rewrite Hiff, Hp, elem_of_cons, not_elem_of_cons. split.
      * intros [Hm ?]. split_and!; [by right| |done]. intros He.
        destruct (Hs it') as (b1 & Hb1 & Hi1); [rewrite Hp; by right|].
        destruct (Hs it) as (b2 & Hb2 & Hi2); [done|]. congruence.
      * intros [[->|] [? ?]]; congruence || done.
  - destruct (IH h Hok Hnd Hni) as (h2 & -> & Hok2 & Hnd2 & Hiff); [|done|].
    { intros id' Hid'. apply Hin. by right. }
    exists h2. split_and!; try done. intros it'. rewrite Hiff, not_elem_of_cons. split; [|tauto].
    intros [Hm ?]. split_and!; try done. intros <-. destruct (Hs it' Hm) as (b1 & Hb1 & Hi1). congruence.
Qed.
Lemma lookup_foldr_delete' (st : gmap nat Batch) v id :
  foldr delete st v !! id = if decide (id ∈ v) then None else st !! id.
Proof.
  induction v as [|x v IH]; [done|]. cbn [foldr]. destruct (decide (id = x)) as [->|Hne].
  - rewrite lookup_delete_eq, decide_True by left. done.
  - rewrite lookup_delete_ne, IH by done. by repeat case_decide; set_solver.
Qed.

Lemma evict_key_spec size now w k :
  winv size w ->
  exists w', evict_key now w k = Ret w' /\ winv size w' /\
    (forall k' ids, batches w' !! k' = Some ids -> batches w !! k' = Some ids) /\
    (forall id b, store w' !! id = Some b -> store w !! id = Some b) /\
    (forall id b, store w !! id = Some b -> store w' !! id = Some b \/
       exists ids, batches w !! b_RoutingKey b = Some ids /\ existsb (is_stale now (store w)) ids = true).
Proof.
  intros Hw. unfold evict_key. destruct (batches w !! k) as [v|] eqn:Hk; [|exists w; by eauto 10].
  destruct (existsb _ v) eqn:Hst; [|exists w; by eauto 10].
  pose proof (w_route _ _ Hw k v) as Hroute. specialize (fun id => Hroute id Hk).
  destruct (remove_items_spec (store w) v (heap w)) as (h & -> & Hok & Hnd & Hiff); try apply Hw; [by eapply Hw| |].
  { intros id Hid. destruct (Hroute id Hid) as (b & Hb & _). exists b. split; [done|]. intros it. by apply (w_item _ _ Hw). }
  cbn [go_bind]. eexists. split; [done|]. bsimpl.
  assert (Hl : forall id b, foldr delete (store w) v !! id = Some b <-> id ∉ v /\ store w !! id = Some b).
  { intros. rewrite lookup_foldr_delete'. case_decide; naive_solver. }
  split; [|split; [|split]].
  - constructor; bsimpl; try done.
    + intros id b [_ Hb]%Hl. by eapply Hw.
    + intros id Hid. rewrite lookup_foldr_delete'. case_decide; [done|]. by apply Hw.
    + intros id b it Hb Hi. apply Hl in Hb as [Hn Hb]. destruct (w_item _ _ Hw id b it Hb Hi) as [<- Hin].
      split; [done|]. by apply Hiff.
    + intros it Hit. apply Hiff in Hit as [Hit Hn]. destruct (w_sched _ _ Hw it Hit) as (b & Hb & Hi).
      exists b. by rewrite Hl.
    + intros k' ids id Hk' Hid. apply lookup_delete_Some in Hk' as [Hne Hk'].
      destruct (w_route _ _ Hw k' ids id Hk' Hid) as (b & Hb & <-). exists b. rewrite Hl. split_and!; try done.
      intros Hv. destruct (Hroute id Hv) as (b2 & Hb2 & ?). congruence.
    + intros k' ids Hk'. apply lookup_delete_Some in Hk' as [_ Hk']. by eapply Hw.
    + intros k' ids Hk'. apply lookup_delete_Some in Hk' as [_ Hk']. by eapply Hw.
  - intros k' ids Hk'. by apply lookup_delete_Some in Hk' as [_ Hk'].
  - intros id b Hb. by apply Hl in Hb as [_ Hb].
  - intros id b Hb. destruct (decide (id ∈ v)) as [Hv|Hn]; [|left; by apply Hl]. right.
    destruct (Hroute id Hv) as (b2 & Hb2 & Hk2). exists v. rewrite Hb in Hb2. injection Hb2 as <-. by rewrite Hk2.
Qed.

Lemma all_pending_sub st st' :
  (forall id b, st' !! id = Some b -> st !! id = Some b) -> exists lost, all_pending st ≡ₚ lost ++ all_pending st'.
Proof.
  revert st'. induction st as [|id b st Hn IH] using map_ind; intros st' Hsub.
  - exists []. replace st' with (∅ : gmap nat Batch); [done|]. symmetry. apply map_empty. intros id.
    destruct (st' !! id) eqn:E; [|done]. apply Hsub in E. by rewrite lookup_empty in E.
  - pose proof (all_pending_insert st id b) as Hi. rewrite delete_id in Hi by done. destruct (st' !! id) as [b'|] eqn:E.
    + pose proof (Hsub _ _ E) as Hb. rewrite lookup_insert_eq in Hb. injection Hb as <-.
      destruct (IH (delete id st')) as [lost Hl].
      { intros id' b' Hd. apply lookup_delete_Some in Hd as [Hne Hd]. apply Hsub in Hd. by rewrite lookup_insert_ne in Hd. }
      exists lost. rewrite Hi, (all_pending_delete st' id b E), Hl. apply Permutation_app_swap_app.
    + destruct (IH st') as [lost Hl]; [|exists (batch_pending b ++ lost); by rewrite Hi, Hl, app_assoc].
      intros id' b' Hd. pose proof (Hsub _ _ Hd) as Hd'. rewrite lookup_insert_ne in Hd'; [done|]. intros <-. congruence.
Qed.

Lemma evict_keeps size now w keys :
  winv size w -> exists w' lost, evictStaleBatches now w keys = Ret w' /\ winv size w' /\ all_pending (store w) ≡ₚ lost ++ all_pending (store w').
Proof.
  revert w. induction keys as [|k keys IH]; intros w Hw; cbn [evictStaleBatches]; [exists w, []; eauto|].
  destruct (evict_key_spec size now w k Hw) as (w1 & -> & Hw1 & _ & Hs & _). cbn [go_bind].
  destruct (IH w1 Hw1) as (w2 & lost & -> & Hw2 & Hl). destruct (all_pending_sub _ _ Hs) as [lost1 Hl1].
  exists w2, (lost1 ++ lost). split; [done|]. split; [done|]. by rewrite Hl1, Hl, app_assoc.
Qed.

Lemma is_stale_mono now st st' ids :
  (forall id b, st' !! id = Some b -> st !! id = Some b) ->
  existsb (is_stale now st') ids = true -> existsb (is_stale now st) ids = true.
Proof.
  intros Hs. rewrite !existsb_exists. intros (id & Hin & Hst). exists id. split; [done|].
  unfold is_stale in *. destruct (st' !! id) as [b|] eqn:E; [|done]. by rewrite (Hs _ _ E).
Qed.

(** ** Properties *)

(** No loss, no duplication, no panic: whatever sequence of messages and timer ticks a worker
    executes from its start, the messages it accepted are, as a multiset with their routes, exactly
    those that receivers parse from the packets it sent plus those still pending in its batches. *)
Theorem run_exactly_once cfg evs :
  cfg_ok cfg -> Forall event_ok evs ->
  exists w out, run cfg new_worker evs = Ret (w, out) /\ winv (BufferSize cfg) w /\
    mbind carried out ++ all_pending (store w) ≡ₚ mbind (accepted cfg) evs.
Proof.
  intros Hc He. destruct (run_spec cfg new_worker evs Hc He (winv_new _)) as (w & out & Hr & Hw & Hp).
  exists w, out. split; [done|]. split; [done|]. rewrite Hp. cbn [store new_worker].
  unfold all_pending. rewrite map_to_list_empty. cbn [mbind list_bind]. by rewrite app_nil_r.
Qed.

(** A late tick empties the batches. *)
Lemma late_tick_drains cfg evs now :
  cfg_ok cfg -> Forall event_ok evs ->
  (forall t msg, Msg t msg ∈ evs -> t + BatchTimeoutMs cfg * millisecond <= now) ->
  exists w out, run cfg new_worker (evs ++ [Tick now]) = Ret (w, out) /\
    all_pending (store w) = [] /\ mbind carried out ≡ₚ mbind (accepted cfg) evs.
Proof.
  intros Hc He Ht.
  assert (He' : Forall event_ok (evs ++ [Tick now])) by (apply Forall_app_2; [done|by repeat constructor]).
  destruct (run_spec cfg new_worker _ Hc He' (winv_new _)) as (w & out & Hr & Hw & Hp).
  exists w, out. split; [done|].
  assert (Hempty : map val (heap w) = []).
  { destruct (run_spec cfg new_worker evs Hc He (winv_new _)) as (w1 & out1 & Hr1 & Hw1 & _).
    assert (Hd : deadlines_le now w1).
    { eapply (run_deadlines now cfg new_worker evs); [done|done|exact Hr1|apply winv_new|intros it; cbn; set_solver|done]. }
    destruct (checkTimeout_spec _ now w1 Hw1) as (w2 & out2 & Hc2 & Hw2 & _ & Hit).
    rewrite (run_snoc _ _ _ _ _ (Tick now) _ _ Hr1 Hc2) in Hr. injection Hr as <- _. apply elem_of_nil_inv. intros it Hi. apply Hit in Hi as [Hi Hlt].
    apply Hd in Hi. lia. }
  pose proof (heap_empty_idle _ _ Hw Hempty) as Hnil. split; [done|].
  rewrite Hnil, app_nil_r in Hp. rewrite Hp, bind_app. cbn. unfold all_pending.
  rewrite map_to_list_empty. cbn. by rewrite !app_nil_r.
Qed.

(** Bounded delay: a timer tick at or after the last message plus the batch timeout leaves no
    message pending, so every accepted message has been sent by then. *)
Theorem tick_drains cfg evs now :
  cfg_ok cfg -> Forall event_ok evs ->
  (forall t msg, Msg t msg ∈ evs -> t + BatchTimeoutMs cfg * millisecond <= now) ->
  exists w out, run cfg new_worker (evs ++ [Tick now]) = Ret (w, out) /\
    all_pending (store w) = [] /\ mbind carried out ≡ₚ mbind (accepted cfg) evs.
Proof. apply late_tick_drains. Qed.

(** Eviction never panics between two complete operations of the worker, keeps the invariant, and
    only removes batches of routes that have a batch older than [batchMaxAge]. *)
Theorem evictStaleBatches_spec size now w keys :
  winv size w ->
  exists w', evictStaleBatches now w keys = Ret w' /\ winv size w' /\
    forall id b, store w !! id = Some b -> store w' !! id = Some b \/
      exists ids, batches w !! b_RoutingKey b = Some ids /\ existsb (is_stale now (store w)) ids = true.
Proof.
  revert w. induction keys as [|k keys IH]; intros w Hw; cbn [evictStaleBatches]; [exists w; eauto|].
  destruct (evict_key_spec size now w k Hw) as (w1 & -> & Hw1 & Hb1 & Hs1 & Hk1). cbn [go_bind].
  destruct (IH w1 Hw1) as (w2 & -> & Hw2 & Hk2). exists w2. split; [done|]. split; [done|].
  intros id b Hb. destruct (Hk1 id b Hb) as [Hb'|]; [|by right].
  destruct (Hk2 id b Hb') as [|(ids & Hi & Hst)]; [by left|right]. exists ids. eauto using is_stale_mono.
Qed.
End Worker.

(** ** Concrete runs *)

#[local] Existing Instance no_ipv6.

Definition sample_cfg : Config := mkConfig 1024 50 {[ 8082 := 2 ]}.

Definition sample_msg (port userID : Z) : aggregatorMsg :=
  mkMsg false "10.0.0.1,10.0.0.2,10.0.0.3" "tcp" port ["10.0.0.1"; "10.0.0.2"; "10.0.0.3"] [10; 0; 0; 2]
    userID (replicate 200 97).

Definition seconds (n : Z) : Z := n * 1000 * millisecond.

Lemma sample_msg_ok port userID : fits 16 port -> fits 32 userID -> msg_ok (sample_msg port userID).
Proof. intros. split; [done|]. split; [split; [done|split; vm_compute; [lia|done]]|vm_compute; done]. Qed.

(** Pending messages of the result of a run, and the headers and users of what was sent. *)
Definition sent_ports (r : go (worker * list sendInfo)) : list (Z * list Z) :=
  match r with
  | Ret (_, out) =>
      omap (fun s => match Parse (s_p s) (Z.of_nat (length (s_p s))) with
                     | Ret (inr (q, subs)) => Some (Port q, map UserID subs)
                     | _ => None
                     end) out
  | Panic => []
  end.

Definition pending_users (r : go worker) : option (list Z) :=
  match r with Ret w => Some (map (fun '(_, s) => UserID s) (all_pending (store w))) | Panic => None end.

(** The batches of a route are shared by all the origin ports behind it: the routing key holds
    the hop addresses only, so a request for port 8081 that follows one for port 8080 on the same path
    is sent in the same packet, whose header says 8080. *)
Theorem batch_mixes_ports :
  let run2 := run sample_cfg new_worker
    [Msg 0 (sample_msg 8080 7); Msg millisecond (sample_msg 8081 8); Tick (51 * millisecond)] in
  sent_ports run2 = [(8080, [7; 8])].
Proof. vm_compute. reflexivity. Qed.

(** Eviction drops accepted messages: with two batches for the route, one of them unused for more
    than a minute, a message that is waiting in the other one is discarded without being sent. *)
Theorem evict_loses_pending :
  let r := run sample_cfg new_worker
    [Msg 0 (sample_msg 8082 2); Tick (seconds 1); Msg (seconds 61) (sample_msg 8082 4)] in
  sent_ports r = [(8082, [2])] /\
  pending_users (let! (w, _) := r in Ret w) = Some [4] /\
  pending_users (let! (w, _) := r in
                 evictStaleBatches (seconds 61 + millisecond) w ["10.0.0.1,10.0.0.2,10.0.0.3"]) = Some [].
Proof. vm_compute. done. Qed.

(** Witnesses. *)
Definition sample_events : list event :=
  [Msg 0 (sample_msg 8080 7); Msg millisecond (sample_msg 8080 8); Tick (51 * millisecond)].

Lemma sample_events_ok : Forall event_ok sample_events.
Proof. repeat constructor; apply sample_msg_ok; vm_compute; done. Qed.

Lemma sample_cfg_ok : cfg_ok sample_cfg.
Proof. vm_compute. done. Qed.

Lemma run_exactly_once_witness :
  exists w out, run sample_cfg new_worker sample_events = Ret (w, out) /\
    mbind carried out ++ all_pending (store w) ≡ₚ
      [("10.0.0.1,10.0.0.2,10.0.0.3", mkSub 7 (replicate 200 97)); ("10.0.0.1,10.0.0.2,10.0.0.3", mkSub 8 (replicate 200 97))].
Proof.
  destruct (run_exactly_once sample_cfg sample_events sample_cfg_ok sample_events_ok) as (w & out & Hr & _ & Hp).
  exists w, out. split; [exact Hr|exact Hp].
Defined.

Lemma tick_drains_witness :
  exists w out, run sample_cfg new_worker ([Msg 0 (sample_msg 8080 7)] ++ [Tick (50 * millisecond)]) = Ret (w, out) /\
    all_pending (store w) = [] /\ mbind carried out ≡ₚ [("10.0.0.1,10.0.0.2,10.0.0.3", mkSub 7 (replicate 200 97))].
Proof.
  apply (tick_drains sample_cfg [Msg 0 (sample_msg 8080 7)] (50 * millisecond) sample_cfg_ok).
  - repeat constructor; apply sample_msg_ok; vm_compute; done.
  - intros t msg Hin. apply list_elem_of_singleton in Hin. injection Hin as -> _. vm_compute. done.
Defined.

Lemma evictStaleBatches_spec_witness :
  exists w', evictStaleBatches (seconds 100) new_worker ["a"] = Ret w' /\ winv 1024 w'.
Proof.
  destruct (evictStaleBatches_spec 1024 (seconds 100) new_worker ["a"] (winv_new 1024)) as (w' & He & Hw & _).
  exists w'. split; [exact He|exact Hw].
Defined.

End Aggregator.
