(* ===== verification/AggregatorSteps.v ===== *)
(** * The goroutines of one aggregator worker (data-proxy/aggregator/aggregator.go)

    A worker has three goroutines: one handles messages, one flushes the batches whose deadline has
    passed, one evicts the batches of idle routes.  They share the route table and the heap, guarded by
    [w.mu], and the batches, guarded by their own [b.mu]; the evictions read [b.createTime] and
    [b.heapItem] without [b.mu].  [handleMsg], [checkTimeout] and [evictStaleBatches] take and release these
    locks several times.  Here one step is one critical section, so that the goroutines
    interleave at every point where they hold no lock, and a goroutine that holds [b.mu] while it waits for [w.mu]
    keeps the others away from that batch only.

    An evicted batch leaves the heap and the route table, but the message goroutine may have found
    it just before and still append to it.  Such batches are kept apart ([evicted]): nothing sends them. *)

From Stdlib Require Import ZArith Lia.
From stdpp Require Import base list gmap strings list_tactics.
From S2P Require Import Prelude GoStrings GoChan Packet Tunnel GoHeap Aggregator.
Import TunnelPacket Aggregator.

Module AggregatorSteps.

Local Open Scope Z_scope.

(** ** State *)

(** Where the message goroutine is in [handleMsg]. *)
Inductive handler :=
| HIdle                                          (* waiting for a message *)
| HLookup (msg : aggregatorMsg)                  (* before w.mu.RLock *)
| HMake (msg : aggregatorMsg)                    (* the route has no batch; before w.mu.Lock *)
| HBatch (msg : aggregatorMsg) (id : nat)        (* a batch is chosen; before b.mu.Lock *)
| HJoin (msg : aggregatorMsg) (id : nat)         (* that batch refused; a new one is locked; before w.mu.Lock *)
| HPush (id : nat)                               (* b.mu is held, the message appended; before w.mu.Lock *)
| HMark (id : nat) (it : HeapItem).              (* b.mu is held, the item pushed; before b.heapItem = item *)

(** Where the eviction goroutine is: the routes of the snapshot that are left, the first of which it is looking
    at, and the batches of that route whose age it has yet to read. *)
Record sweeping := mkSweep {
  sw_now : Z;
  sw_routes : list (string * list nat);
  sw_todo : list nat;
  sw_bDel : bool
}.

Record gworker := mkG {
  base : worker;
  evicted : gmap nat Batch;      (* batches that an eviction took off the heap *)
  pc : handler;
  expired : list HeapItem;       (* popped by checkTimeout and not flushed yet *)
  tnow : Z;                      (* the time that checkTimeout read *)
  sweep : option sweeping
}.

Definition new_gworker : gworker := mkG new_worker ∅ HIdle [] 0 None.

Definition set_pc (g : gworker) (h : handler) : gworker := mkG (base g) (evicted g) h (expired g) (tnow g) (sweep g).
Definition set_base (g : gworker) (w : worker) : gworker := mkG w (evicted g) (pc g) (expired g) (tnow g) (sweep g).
Definition set_sweep (g : gworker) (s : option sweeping) : gworker := mkG (base g) (evicted g) (pc g) (expired g) (tnow g) s.
Definition set_store (w : worker) (st : gmap nat Batch) : worker := mkWorker st (next w) (batches w) (heap w).

(** The object that an id points to. *)
Definition get (g : gworker) (id : nat) : option Batch :=
  match store (base g) !! id with Some b => Some b | None => evicted g !! id end.

Definition put (g : gworker) (id : nat) (b : Batch) : gworker :=
  match store (base g) !! id with
  | Some _ => set_base g (set_store (base g) (<[id := b]> (store (base g))))
  | None => mkG (base g) (<[id := b]> (evicted g)) (pc g) (expired g) (tnow g) (sweep g)
  end.

(** The batch whose [b.mu] the message goroutine keeps while it waits for [w.mu]. *)
Definition holds (h : handler) (id : nat) : bool :=
  match h with HPush i | HMark i _ => bool_decide (i = id) | _ => false end.

(** ** The message goroutine *)

Section Steps.
Context `{IPv6Parser}.

(** [handleMsg] up to its first critical section: a direct message is sent without any lock. *)
Definition take_msg (cfg : Config) (g : gworker) (msg : aggregatorMsg) : go (gworker * list sendInfo) :=
  let small := is_direct cfg msg in
  let buffSize := if small then HeaderSize + 4 + 2 + Z.of_nat (length (m_data msg)) else BufferSize cfg in
  if small || m_emerge msg then
    let! out := send_direct buffSize msg in Ret (g, out)
  else Ret (set_pc g (HLookup msg), []).

(** The batches are made before the lock; they are dropped when the route has appeared meanwhile. *)
Definition make_batches (cfg : Config) (now : Z) (w : worker) (msg : aggregatorMsg) : go (worker * option nat) :=
  let! (w1, ids) := add_batches (batch_num cfg (m_port msg)) (BufferSize cfg) now msg w in
  match batches w !! m_routingKey msg with
  | Some bList => Ret (w, pick bList (m_userID msg))
  | None => Ret (mkWorker (store w1) (next w1) (<[m_routingKey msg := ids]> (batches w1)) (heap w1), pick ids (m_userID msg))
  end.

(** The condition of the section under [b.mu]: the batch is not a leftover, and it takes the message. *)
Definition try_append (b : Batch) (msg : aggregatorMsg) : go (Packet * bool) :=
  if bool_decide (b_heapItem b = None) && (HeaderSize <? Wp (b_pkt b)) then Ret (b_pkt b, false)
  else AppendUserPacket (b_pkt b) (m_userID msg) (m_data msg).

Definition set_item (b : Batch) (it : option HeapItem) : Batch :=
  mkBatch (b_BuffSize b) (b_RoutingKey b) (b_NextHop b) (b_pkt b) it (b_createTime b).

(** One critical section of the message goroutine. *)
Definition work (cfg : Config) (now : Z) (g : gworker) : outcome gworker :=
  let w := base g in
  match pc g with
  | HIdle => Blocked
  | HLookup msg =>
      Next (set_pc g (match pick (default [] (batches w !! m_routingKey msg)) (m_userID msg) with
                      | Some id => HBatch msg id
                      | None => HMake msg
                      end))
  | HMake msg =>
      match make_batches cfg now w msg with
      | Ret (w', oid) => Next (set_pc (set_base g w') (match oid with Some id => HBatch msg id | None => HIdle end))
      | Panic => Panics
      end
  | HBatch msg id =>
      match get g id with
      | None => Panics
      | Some b =>
          match try_append b msg with
          | Panic => Panics
          | Ret (p, true) =>
              Next (set_pc (put g id (set_pkt b p)) (match b_heapItem b with None => HPush id | Some _ => HIdle end))
          | Ret (_, false) =>
              match new_batch (BufferSize cfg) now msg with
              | Panic => Panics
              | Ret b_ =>
                  Next (set_pc (set_base g (mkWorker (<[next w := b_]> (store w)) (S (next w)) (batches w) (heap w)))
                          (HJoin msg (next w)))
              end
          end
      end
  | HJoin msg id =>
      match store w !! id with
      | None => Panics
      | Some b_ =>
          match AppendUserPacket (b_pkt b_) (m_userID msg) (m_data msg) with
          | Panic => Panics
          | Ret (p, _) =>
              Next (set_pc (set_base g
                (mkWorker (<[id := set_pkt b_ p]> (store w)) (next w)
                   (<[m_routingKey msg := default [] (batches w !! m_routingKey msg) ++ [id]]> (batches w)) (heap w))) (HPush id))
          end
      end
  | HPush id =>
      let it := mkItem id (now + BatchTimeoutMs cfg * millisecond) in
      Next (set_pc (set_base g (mkWorker (store w) (next w) (batches w) (heap_Push Less (heap w) it))) (HMark id it))
  | HMark id it =>
      match store w !! id with
      | None => Panics
      | Some b => Next (set_pc (set_base g (set_store w (<[id := set_item b (Some it)]> (store w)))) HIdle)
      end
  end.

(** ** The flush goroutine *)

(** The section under [w.mu]; the goroutine is through with the items of the tick before. *)
Definition pop_timer (now : Z) (g : gworker) : outcome gworker :=
  match expired g with
  | [] =>
      let '(xs, h) := pop_expired (length (heap (base g))) now (heap (base g)) in
      Next (mkG (mkWorker (store (base g)) (next (base g)) (batches (base g)) h) (evicted g) (pc g) xs now (sweep g))
  | _ => Blocked
  end.

(** The section under the [b.mu] of the next popped item. *)
Definition flush_next (g : gworker) : outcome (gworker * list sendInfo) :=
  match expired g with
  | [] => Blocked
  | it :: rest =>
      if holds (pc g) (it_batch it) then Blocked
      else match flush_item (tnow g) (store (base g)) it with
           | Ret (st, out) => Next (mkG (set_store (base g) st) (evicted g) (pc g) rest (tnow g) (sweep g), out)
           | Panic => Panics
           end
  end.

(** ** The eviction goroutine *)

Definition start_sweep (now : Z) (routes : list (string * list nat)) : option sweeping :=
  match routes with
  | [] => None
  | (_, v) :: _ => Some (mkSweep now routes v false)
  end.

(** The copy of [w.batches] under [w.mu.RLock]; [keys] is the order in which the copy is ranged over. *)
Definition snapshot (now : Z) (keys : list string) (g : gworker) : outcome gworker :=
  match sweep g with
  | Some _ => Blocked
  | None =>
      if bool_decide (NoDup keys) && bool_decide (list_to_set keys =@{gset string} dom (batches (base g))) then
        Next (set_sweep g (start_sweep now (omap (fun k => pair k <$> batches (base g) !! k) keys)))
      else Blocked
  end.

(** [now.Sub(b.createTime) > batchMaxAge] for one batch, read without a lock. *)
Definition read_age (g : gworker) : outcome gworker :=
  match sweep g with
  | Some (mkSweep now routes (id :: todo) d) =>
      let stale := match get g id with Some b => batchMaxAge <? now - b_createTime b | None => false end in
      Next (set_sweep g (Some (mkSweep now routes todo (d || stale))))
  | _ => Blocked
  end.

(** The batches that [heap.Remove] is called for. *)
Definition removed (v : list nat) (e : nat * Batch) : Prop := fst e ∈ v /\ b_heapItem (snd e) <> None.

#[global] Instance removed_dec v e : Decision (removed v e).
Proof. unfold removed. apply _. Defined.

(** The section under [w.mu] that ends a route of the snapshot. *)
Definition evict_route (g : gworker) : outcome gworker :=
  match sweep g with
  | Some (mkSweep now ((k, v) :: rest) [] d) =>
      let w := base g in
      if d : bool then
        match remove_items (store w) v (heap w) with
        | Panic => Panics
        | Ret h =>
            Next (mkG (mkWorker (filter (fun e => ~ removed v e) (store w)) (next w) (delete k (batches w)) h)
                      (filter (removed v) (store w) ∪ evicted g) (pc g) (expired g) (tnow g) (start_sweep now rest))
        end
      else Next (set_sweep g (start_sweep now rest))
  | _ => Blocked
  end.

(** ** All goroutines *)

Inductive gevent :=
| Work (now : Z)
| PopExpired (now : Z)
| FlushItem
| Snapshot (now : Z) (keys : list string)
| ReadAge
| EvictRoute.

Definition quietly (o : outcome gworker) : outcome (gworker * list sendInfo) := let? g := o in Next (g, []).

Definition gstep (cfg : Config) (g : gworker) (e : gevent) : outcome (gworker * list sendInfo) :=
  match e with
  | Work now => quietly (work cfg now g)
  | PopExpired now => quietly (pop_timer now g)
  | FlushItem => flush_next g
  | Snapshot now keys => quietly (snapshot now keys g)
  | ReadAge => quietly (read_age g)
  | EvictRoute => quietly (evict_route g)
  end.

(** ** The invariant *)

(** Open the existentials and conjunctions among the hypotheses. *)
Ltac open_hyps :=
  repeat match goal with
  | H : exists _, _ |- _ => destruct H
  | H : _ /\ _ |- _ => destruct H
  end.

(** A batch that the message goroutine holds has its message and no heap item yet. *)
Record batch_at (size : Z) (held : bool) (b : Batch) : Prop := {
  ba_rep : Rep (b_pkt b) (pending (b_pkt b));
  ba_valid : Forall valid_sub (pending (b_pkt b));
  ba_size : BuffSize (b_pkt b) = size;
  ba_idle : held = false -> b_heapItem b = None -> pending (b_pkt b) = [];
  ba_len : held = true \/ b_heapItem b <> None -> PayloadLen (b_pkt b) = payload_size (pending (b_pkt b))
}.

(** The items of the worker, those that the flush goroutine has popped included. *)
Definition items (g : gworker) : list HeapItem := map val (heap (base g)) ++ expired g.

Definition pc_ok (g : gworker) : Prop :=
  match pc g with
  | HIdle => True
  | HLookup msg | HMake msg => msg_ok msg
  | HBatch msg id => msg_ok msg /\ exists b, get g id = Some b /\ b_RoutingKey b = m_routingKey msg
  | HJoin msg id =>
      msg_ok msg /\ (forall k ids, batches (base g) !! k = Some ids -> id ∉ ids) /\
      exists b, store (base g) !! id = Some b /\ b_RoutingKey b = m_routingKey msg /\ b_heapItem b = None /\ PayloadLen (b_pkt b) = 0
  | HPush id => exists b, store (base g) !! id = Some b /\ b_heapItem b = None
  | HMark id it => it_batch it = id /\ it ∈ items g /\ exists b, store (base g) !! id = Some b /\ b_heapItem b = None
  end.

Definition routes_ok (st : gmap nat Batch) (routes : list (string * list nat)) : Prop :=
  NoDup (map fst routes) /\
  forall k v, (k, v) ∈ routes -> NoDup v /\ forall id, id ∈ v -> exists b, st !! id = Some b /\ b_RoutingKey b = k.

Definition sweep_ok (g : gworker) : Prop := match sweep g with None => True | Some s => routes_ok (store (base g)) (sw_routes s) end.

(** A batch in the store with messages is scheduled, or is being scheduled by the message goroutine. *)
Record ginv (cfg : Config) (g : gworker) : Prop := {
  g_batch id b : store (base g) !! id = Some b -> batch_at (BufferSize cfg) (holds (pc g) id) b;
  g_evicted id b : evicted g !! id = Some b -> batch_ok (BufferSize cfg) b /\ b_heapItem b <> None /\ store (base g) !! id = None;
  g_next id : (next (base g) <= id)%nat -> get g id = None;
  g_heap : heap_ok Less any (heap (base g));
  g_item id b it : store (base g) !! id = Some b -> b_heapItem b = Some it -> it_batch it = id /\ it ∈ items g;
  g_sched it : it ∈ items g ->
    exists b, store (base g) !! it_batch it = Some b /\ (b_heapItem b = Some it \/ b_heapItem b = None /\ pc g = HMark (it_batch it) it);
  g_nodup : NoDup (map it_batch (items g));
  g_route k ids id : batches (base g) !! k = Some ids -> id ∈ ids -> exists b, store (base g) !! id = Some b /\ b_RoutingKey b = k;
  g_route_nodup k ids : batches (base g) !! k = Some ids -> NoDup ids;
  g_route_ne k ids : batches (base g) !! k = Some ids -> ids <> [];
  g_pc : pc_ok g;
  g_sweep : sweep_ok g
}.

Ltac gsimpl := cbn [base evicted pc expired tnow sweep set_pc set_base set_sweep set_store store next batches heap
                    b_BuffSize b_RoutingKey b_NextHop b_pkt b_heapItem b_createTime set_pkt set_item it_batch it_deadline].

Lemma ginv_new cfg : ginv cfg new_gworker.
Proof.
  constructor; cbn; intros; try done; try (by apply heap_ok_nil).
  - set_solver.
  - constructor.
Qed.

Lemma batch_at_ok size held b : batch_at size held b -> (held = false \/ b_heapItem b <> None) -> batch_ok size b.
Proof. intros [HR Hv Hs Hi Hl] Hh. constructor; try done; [|by intros ?; apply Hl; right]. intros Hn. destruct Hh; [by apply Hi|done]. Qed.

Lemma batch_ok_at size b : batch_ok size b -> batch_at size false b.
Proof. intros [HR Hv Hs Hi Hl]. constructor; try done. intros [?|?]; [done|by apply Hl]. Qed.

Lemma get_store g id b : store (base g) !! id = Some b -> get g id = Some b.
Proof. unfold get. by intros ->. Qed.

Lemma get_None g id : get g id = None <-> store (base g) !! id = None /\ evicted g !! id = None.
Proof. unfold get. destruct (store (base g) !! id); naive_solver. Qed.

(** The snapshot of the evictions stays valid while no batch disappears or changes its route. *)
Lemma sweep_keeps g g' :
  sweep g' = sweep g -> (forall id b, store (base g) !! id = Some b -> exists b', store (base g') !! id = Some b' /\ b_RoutingKey b' = b_RoutingKey b) ->
  sweep_ok g -> sweep_ok g'.
Proof.
  unfold sweep_ok. intros -> Hst. destruct (sweep g); [|done]. intros [? Hs]. split; [done|]. intros k v Hkv. destruct (Hs k v Hkv) as [? Hv].
  split; [done|]. intros id Hid. destruct (Hv id Hid) as (b & Hb & <-). by apply Hst.
Qed.

(** Only the message goroutine moves, outside of [b.mu]. *)
Lemma ginv_pc cfg g h :
  ginv cfg g -> (forall id, holds (pc g) id = false) -> (forall id, holds h id = false) -> pc_ok (set_pc g h) -> ginv cfg (set_pc g h).
Proof.
  intros Hg H0 H1 Hp. constructor; gsimpl; try apply Hg; [|intros it Hit|done].
  - intros id b Hb. pose proof (g_batch _ _ Hg id b Hb) as Ha. rewrite H0 in Ha. by rewrite H1.
  - destruct (g_sched _ _ Hg it Hit) as (b & Hb & [Hi|[_ Hi]]); [by exists b; eauto|]. specialize (H0 (it_batch it)). rewrite Hi in H0. cbn in H0.
    by rewrite bool_decide_true in H0.
Qed.

(** A batch that exists nowhere else is added. *)
Lemma ginv_add cfg g b :
  ginv cfg g -> batch_ok (BufferSize cfg) b -> b_heapItem b = None ->
  ginv cfg (set_base g (mkWorker (<[next (base g) := b]> (store (base g))) (S (next (base g))) (batches (base g)) (heap (base g)))).
Proof.
  intros Hg Hb Hi. pose proof (proj1 (get_None _ _) (g_next _ _ Hg (next (base g)) (le_n _))) as [Hnew Hnew'].
  assert (Hne : forall id b', store (base g) !! id = Some b' -> <[next (base g) := b]> (store (base g)) !! id = Some b').
  { intros id b' Hb'. rewrite lookup_insert_ne; congruence. }
  assert (Hheld : holds (pc g) (next (base g)) = false).
  { pose proof (g_pc _ _ Hg) as Hp. unfold pc_ok in Hp. destruct (pc g); try done; cbn; apply bool_decide_eq_false; intros ->; open_hyps; congruence. }
  constructor; gsimpl; try apply Hg.
  - intros id b'. rewrite lookup_insert_Some. intros [[<- <-]|[_ ?]]; [|by eapply Hg]. rewrite Hheld. by apply batch_ok_at.
  - intros id b' Hb'. destruct (g_evicted _ _ Hg id b' Hb') as (? & ? & ?). split_and!; [done..|]. rewrite lookup_insert_ne; congruence.
  - intros id Hid. apply get_None. gsimpl. rewrite lookup_insert_ne by lia. apply get_None, Hg. lia.
  - intros id b' it. rewrite lookup_insert_Some. intros [[_ <-]|[_ ?]]; [congruence|]. by eapply Hg.
  - intros it Hit. destruct (g_sched _ _ Hg it Hit) as (b' & Hl & ?). exists b'. eauto.
  - intros k ids id Hk Hid. destruct (g_route _ _ Hg k ids id Hk Hid) as (b' & Hl & ?). eauto.
  - pose proof (g_pc _ _ Hg) as Hp. unfold pc_ok in *. gsimpl. destruct (pc g); try done; open_hyps; split_and?; try done; eexists; split_and?; eauto.
    unfold get in *. gsimpl. destruct (decide (id = next (base g))) as [->|]; [rewrite Hnew in *; congruence|]. by rewrite lookup_insert_ne.
  - apply (sweep_keeps g); [done| |apply Hg]. gsimpl. eauto.
Qed.

(** The packet of a batch changes; the message goroutine may keep the lock. *)
Lemma ginv_put cfg g id b0 b h :
  ginv cfg g -> (forall i, holds (pc g) i = false) -> store (base g) !! id = Some b0 -> b_heapItem b = b_heapItem b0 -> b_RoutingKey b = b_RoutingKey b0 ->
  batch_at (BufferSize cfg) (holds h id) b -> (forall i, i <> id -> holds h i = false) ->
  pc_ok (set_pc (set_base g (set_store (base g) (<[id := b]> (store (base g))))) h) ->
  ginv cfg (set_pc (set_base g (set_store (base g) (<[id := b]> (store (base g))))) h).
Proof.
  intros Hg H0 Hb0 Hi Hk Hb Hh Hp.
  assert (Hst : forall i b1, store (base g) !! i = Some b1 -> exists b2, <[id := b]> (store (base g)) !! i = Some b2 /\ b_RoutingKey b2 = b_RoutingKey b1 /\ b_heapItem b2 = b_heapItem b1).
  { intros i b1 Hb1. destruct (decide (i = id)) as [->|]; [exists b; rewrite lookup_insert_eq; split_and!; congruence|exists b1; by rewrite lookup_insert_ne]. }
  constructor; gsimpl; try apply Hg; try done.
  - intros i b1. rewrite lookup_insert_Some. intros [[<- <-]|[Hne Hb1]]; [done|]. pose proof (g_batch _ _ Hg i b1 Hb1) as Ha. rewrite H0 in Ha. by rewrite Hh.
  - intros i b1 Hb1. destruct (g_evicted _ _ Hg i b1 Hb1) as (? & ? & ?). split_and!; [done..|]. rewrite lookup_insert_ne; congruence.
  - intros i Hid. apply (g_next _ _ Hg), get_None in Hid as [? ?]. apply get_None. gsimpl. rewrite lookup_insert_ne by congruence. done.
  - intros i b1 it. rewrite lookup_insert_Some. intros [[<- <-]|[_ ?]]; [|by eapply Hg]. rewrite Hi. by apply Hg.
  - intros it Hit. destruct (g_sched _ _ Hg it Hit) as (b1 & Hb1 & [Hi1|[_ Hi1]]).
    + destruct (Hst _ _ Hb1) as (b2 & ? & _ & ?). exists b2. split; [done|]. left. congruence.
    + specialize (H0 (it_batch it)). rewrite Hi1 in H0. cbn in H0. by rewrite bool_decide_true in H0.
  - intros k ids i Hids Hin. destruct (g_route _ _ Hg k ids i Hids Hin) as (b1 & Hb1 & ?). destruct (Hst _ _ Hb1) as (b2 & ? & ? & _). exists b2. split; [done|congruence].
  - apply (sweep_keeps g); [done| |apply Hg]. gsimpl. intros i b1 (b2 & ? & ? & _)%Hst. eauto.
Qed.

(** The list of a route changes. *)
Lemma ginv_route cfg g k ids :
  ginv cfg g -> NoDup ids -> ids <> [] -> (forall id, id ∈ ids -> exists b, store (base g) !! id = Some b /\ b_RoutingKey b = k) ->
  (forall msg id, pc g = HJoin msg id -> id ∉ ids) ->
  ginv cfg (set_base g (mkWorker (store (base g)) (next (base g)) (<[k := ids]> (batches (base g))) (heap (base g)))).
Proof.
  intros Hg Hnd Hne Hin Hj. constructor; gsimpl; try apply Hg.
  - intros k' ids' id. rewrite lookup_insert_Some. intros [[<- <-]|[_ ?]]; [auto|]. by eapply Hg.
  - intros k' ids'. rewrite lookup_insert_Some. intros [[<- <-]|[_ ?]]; [done|]. by eapply Hg.
  - intros k' ids'. rewrite lookup_insert_Some. intros [[<- <-]|[_ ?]]; [done|]. by eapply Hg.
  - pose proof (g_pc _ _ Hg) as Hp. unfold pc_ok, items, get in *. gsimpl. destruct (pc g) as [|m|m|m i|m i|i|i it]; try done.
    destruct Hp as (? & Hr & ?). split_and!; [done| |done]. intros k' ids'. rewrite lookup_insert_Some. intros [[_ <-]|[_ ?]]; [by eapply Hj|by eapply Hr].
Qed.

(** ** What a worker owes *)

(** The message in hand will be appended to a batch that nothing sends any more. *)
Definition doomed (g : gworker) (msg : aggregatorMsg) (id : nat) : bool :=
  match evicted g !! id with
  | Some b => Wp (b_pkt b) + sub_size (msg_sub msg) <=? BuffSize (b_pkt b)
  | None => false
  end.

(** What becomes of a message that goes to a batch. *)
Definition batched (cfg : Config) (msg : aggregatorMsg) : list (string * SubPacket) :=
  if decide (24 + sub_size (msg_sub msg) <= BufferSize cfg) then [(m_routingKey msg, msg_sub msg)] else [].

Definition in_hand (cfg : Config) (g : gworker) : list (string * SubPacket) :=
  match pc g with
  | HLookup msg | HMake msg | HJoin msg _ => batched cfg msg
  | HBatch msg id => if doomed g msg id then [] else batched cfg msg
  | HIdle | HPush _ | HMark _ _ => []
  end.

(** Everything the worker has taken and not sent. *)
Definition gowes (cfg : Config) (g : gworker) : list (string * SubPacket) := in_hand cfg g ++ all_pending (store (base g)).

Lemma accepted_hand cfg msg t : is_direct cfg msg = false -> accepted cfg (Msg t msg) = batched cfg msg.
Proof.
  intros Hd. unfold accepted, accepts, batched. rewrite Hd. cbn [orb].
  case_decide; destruct (Z.leb_spec (24 + sub_size (msg_sub msg)) (BufferSize cfg)); done || lia.
Qed.

(** The sections that are left of [handleMsg], at most. *)
Definition left_of (h : handler) : nat :=
  match h with HIdle => 0 | HMark _ _ => 1 | HPush _ => 2 | HJoin _ _ => 3 | HBatch _ _ => 4 | HMake _ => 5 | HLookup _ => 6 end.

(** What a section of the message goroutine does to the account. *)
Definition moved (cfg : Config) (g g' : gworker) : Prop :=
  ginv cfg g' /\ gowes cfg g' ≡ₚ gowes cfg g /\ (left_of (pc g') < left_of (pc g))%nat /\ expired g' = expired g.

Lemma not_evicted cfg g id b : ginv cfg g -> store (base g) !! id = Some b -> evicted g !! id = None.
Proof. intros Hg Hb. destruct (evicted g !! id) as [b1|] eqn:E; [|done]. destruct (g_evicted _ _ Hg _ _ E) as (_ & _ & ?). congruence. Qed.

Lemma lookup_moved cfg now g msg :
  ginv cfg g -> pc g = HLookup msg -> exists g', work cfg now g = Next g' /\ moved cfg g g'.
Proof.
  intros Hg Hpc. pose proof (g_pc _ _ Hg) as Hp. unfold pc_ok in Hp. rewrite Hpc in Hp. unfold work. rewrite Hpc. eexists. split; [done|].
  destruct (pick (default [] (batches (base g) !! m_routingKey msg)) (m_userID msg)) as [id|] eqn:Ep.
  - destruct (batches (base g) !! m_routingKey msg) as [ids|] eqn:Ek; [|done]. cbn in Ep.
    assert (Hin : id ∈ ids) by (unfold pick in Ep; by eapply list_elem_of_lookup_2).
    destruct (g_route _ _ Hg _ _ _ Ek Hin) as (b & Hb & Hr). split_and!; gsimpl; [|unfold gowes, in_hand; gsimpl|rewrite Hpc; cbn; lia|done].
    + apply ginv_pc; [done|by rewrite Hpc|done|]. unfold pc_ok, get. gsimpl. split; [done|]. exists b. by rewrite Hb.
    + rewrite Hpc. unfold doomed. gsimpl. by rewrite (not_evicted _ _ _ _ Hg Hb).
  - split_and!; gsimpl; [|unfold gowes, in_hand; gsimpl; by rewrite Hpc|rewrite Hpc; cbn; lia|done]. apply ginv_pc; [done|by rewrite Hpc|done|done].
Qed.

Lemma add_batches_ginv cfg now msg n g :
  cfg_ok cfg -> fits 16 (m_port msg) -> ginv cfg g ->
  exists w' ids, add_batches n (BufferSize cfg) now msg (base g) = Ret (w', ids) /\ ginv cfg (set_base g w') /\
    length ids = n /\ NoDup ids /\
    (forall id, id ∈ ids -> (next (base g) <= id)%nat /\ exists b, store w' !! id = Some b /\ b_RoutingKey b = m_routingKey msg) /\
    batches w' = batches (base g) /\ heap w' = heap (base g) /\ all_pending (store w') ≡ₚ all_pending (store (base g)) /\
    (forall id b, store (base g) !! id = Some b -> store w' !! id = Some b).
Proof.
  intros Hc Hport. revert g. induction n as [|n IH]; intros g Hg.
  { exists (base g), []. destruct g. cbn [add_batches base set_base] in *. split_and!; try done; [constructor|set_solver]. }
  cbn [add_batches]. destruct (new_batch_ok _ now msg Hc Hport) as (b & Hb & Hok & Hi & Hk & _ & Hp). rewrite Hb. cbn [go_bind].
  destruct (IH _ (ginv_add cfg g b Hg Hok Hi)) as (w' & ids & Ha & Hg' & Hl & Hnd & Hin & Hbs & Hh & Hap & Hst).
  cbn [base set_base next store batches heap] in *. rewrite Ha. cbn [go_bind]. exists w', (next (base g) :: ids).
  pose proof (proj1 (get_None _ _) (g_next _ _ Hg (next (base g)) (le_n _))) as [Hnew _]. split_and!; try done.
  - simpl. lia.
  - apply NoDup_cons. split; [|done]. intros Hx. destruct (Hin _ Hx). lia.
  - intros id [->|Hid]%elem_of_cons.
    + split; [done|]. exists b. split; [|done]. apply Hst, lookup_insert_eq.
    + destruct (Hin _ Hid) as [? ?]. split; [lia|done].
  - rewrite Hap. by apply all_pending_fresh.
  - intros id b' Hl'. apply Hst. rewrite lookup_insert_ne; congruence.
Qed.

Lemma make_moved cfg now g msg :
  cfg_ok cfg -> ginv cfg g -> pc g = HMake msg -> exists g', work cfg now g = Next g' /\ moved cfg g g'.
Proof.
  intros Hc Hg Hpc. pose proof (g_pc _ _ Hg) as Hp. unfold pc_ok in Hp. rewrite Hpc in Hp. unfold work. rewrite Hpc. pose proof Hp as [Hport _].
  unfold make_batches. destruct (add_batches_ginv cfg now msg (batch_num cfg (m_port msg)) g Hc Hport Hg)
    as (w' & ids & -> & Hg' & Hl & Hnd & Hin & Hbs & Hh & Hap & Hst). cbn [go_bind].
  destruct (batches (base g) !! m_routingKey msg) as [bList|] eqn:Ek.
  - destruct (pick_Some bList (m_userID msg) (g_route_ne _ _ Hg _ _ Ek)) as (id & -> & Hid). destruct (g_route _ _ Hg _ _ _ Ek Hid) as (b & Hb & Hr).
    eexists. split; [done|]. destruct g as [w ev h ex tn sw]. cbn [base set_base pc] in *. subst h. split_and!; gsimpl; [|unfold gowes, in_hand; gsimpl|cbn; lia|done].
    + apply (ginv_pc cfg (mkG w ev (HMake msg) ex tn sw)); [done..|]. unfold pc_ok, get. gsimpl. split; [done|]. exists b. by rewrite Hb.
    + unfold doomed. gsimpl. pose proof (not_evicted _ _ _ _ Hg Hb) as Hev. cbn [evicted] in Hev. by rewrite Hev.
  - assert (Hne : ids <> []) by (pose proof (batch_num_pos cfg (m_port msg)); destruct ids; simpl in *; [lia|done]).
    destruct (pick_Some ids (m_userID msg) Hne) as (id & -> & Hi). destruct (Hin id Hi) as (_ & b & Hb & Hr). rewrite Hbs, Hh.
    eexists. split; [done|]. assert (Hev : evicted g !! id = None) by (by apply (not_evicted cfg (set_base g w') id b)).
    split_and!; gsimpl; [|unfold gowes, in_hand; gsimpl|rewrite Hpc; cbn; lia|done].
    + eapply (ginv_pc cfg (set_base (set_base g w') _)); [|gsimpl; by rewrite Hpc|done|].
      * rewrite <- Hbs, <- Hh. apply (ginv_route cfg (set_base g w')); [done..| |gsimpl; by rewrite Hpc]. intros id' Hid'. by apply Hin.
      * unfold pc_ok, get. gsimpl. split; [done|]. exists b. by rewrite Hb.
    + rewrite Hpc. unfold doomed. gsimpl. by rewrite Hev, Hap.
Qed.

Lemma batch_not_leftover size b : batch_ok size b -> bool_decide (b_heapItem b = None) && (HeaderSize <? Wp (b_pkt b)) = false.
Proof.
  intros [(_ & Hwp & _) _ _ Hidle _]. case_bool_decide as Hi; [|done]. rewrite (Hidle Hi) in Hwp. cbn in Hwp. rewrite Hwp. done.
Qed.

Lemma append_fits size b msg :
  batch_ok size b -> valid_sub (msg_sub msg) -> Wp (b_pkt b) + sub_size (msg_sub msg) <= size ->
  exists p, AppendUserPacket (b_pkt b) (m_userID msg) (m_data msg) = Ret (p, true) /\ batch_at size true (set_item (set_pkt b p) None) /\
    pending p = pending (b_pkt b) ++ [msg_sub msg].
Proof.
  intros [HR Hv Hs _ _] Hm Hfit. destruct (Rep_append _ _ (msg_sub msg) HR) as (p & Ha & HR' & _ & Hs' & Hl); [apply Hm|lia|].
  assert (Hv' : Forall valid_sub (pending (b_pkt b) ++ [msg_sub msg])) by (apply Forall_app_2; auto).
  assert (Hp : pending p = pending (b_pkt b) ++ [msg_sub msg]) by (by apply pending_Rep).
  exists p. split; [done|]. split; [|done]. constructor; gsimpl; rewrite ?Hp; try done; congruence.
Qed.

Lemma batch_at_item size b p o :
  batch_at size true (set_item (set_pkt b p) None) -> batch_at size (bool_decide (o = None)) (set_item (set_pkt b p) o).
Proof. intros [HR Hv Hs _ Hl]. constructor; gsimpl; try done; [|intros _; apply Hl; by left]. by case_bool_decide. Qed.

Lemma set_item_same b p : set_item (set_pkt b p) (b_heapItem b) = set_pkt b p.
Proof. done. Qed.

(** The chosen batch takes the message. *)
Lemma append_moved cfg now g msg id b :
  ginv cfg g -> pc g = HBatch msg id -> store (base g) !! id = Some b -> Wp (b_pkt b) + sub_size (msg_sub msg) <= BufferSize cfg ->
  exists g', work cfg now g = Next g' /\ moved cfg g g'.
Proof.
  intros Hg Hpc Hb Hfit. pose proof (g_pc _ _ Hg) as Hp. unfold pc_ok in Hp. rewrite Hpc in Hp. destruct Hp as (Hm & b0 & Hb0 & Hk).
  pose proof (get_store _ _ _ Hb) as Hget. rewrite Hget in Hb0. injection Hb0 as <-. unfold work. rewrite Hpc, Hget.
  assert (Hok : batch_ok (BufferSize cfg) b) by (eapply batch_at_ok; [by eapply g_batch|left; by rewrite Hpc]).
  unfold try_append. rewrite (batch_not_leftover _ _ Hok). destruct (append_fits _ b msg Hok) as (p & -> & Hat & Hpend); [apply Hm|done|].
  unfold put. rewrite Hb. eexists. split; [done|]. set (h := match b_heapItem b with Some _ => HIdle | None => HPush id end).
  pose proof Hok as [(_ & Hwp & _) _ _ _ _]. pose proof (payload_size_nonneg (pending (b_pkt b))) as Hnn. unfold HeaderSize in Hwp.
  assert (Hh : holds h id = bool_decide (b_heapItem b = None)) by (unfold h; destruct (b_heapItem b); cbn; rewrite ?bool_decide_true; done).
  split_and!; gsimpl.
  - eapply (ginv_put cfg g id b (set_pkt b p) h); try done.
    + by rewrite Hpc.
    + rewrite Hh. apply (batch_at_item _ b p (b_heapItem b)) in Hat. by rewrite set_item_same in Hat.
    + intros i Hi. unfold h. destruct (b_heapItem b); [done|]. cbn. by rewrite bool_decide_false.
    + unfold pc_ok. gsimpl. unfold h. destruct (b_heapItem b) eqn:Ei; [done|]. exists (set_pkt b p). by rewrite lookup_insert_eq.
  - unfold gowes, in_hand. gsimpl. rewrite Hpc. unfold doomed. rewrite (not_evicted _ _ _ _ Hg Hb). unfold batched. rewrite decide_True by lia.
    rewrite all_pending_insert, (all_pending_delete _ _ _ Hb). unfold batch_pending, tagged. gsimpl. rewrite Hpend, Hk, fmap_app.
    unfold h. destruct (b_heapItem b); cbn; solve_Permutation.
  - unfold h. rewrite Hpc. destruct (b_heapItem b); cbn; lia.
  - done.
Qed.

(** So does a batch that was evicted meanwhile: the message is not sent. *)
Lemma append_evicted cfg now g msg id b :
  ginv cfg g -> pc g = HBatch msg id -> evicted g !! id = Some b -> Wp (b_pkt b) + sub_size (msg_sub msg) <= BufferSize cfg ->
  exists g', work cfg now g = Next g' /\ moved cfg g g'.
Proof.
  intros Hg Hpc Hb Hfit. pose proof (g_pc _ _ Hg) as Hp. unfold pc_ok in Hp. rewrite Hpc in Hp. destruct Hp as (Hm & b0 & Hb0 & Hk).
  destruct (g_evicted _ _ Hg _ _ Hb) as (Hok & Hi & Hn). unfold get in Hb0. rewrite Hn, Hb in Hb0. injection Hb0 as <-.
  unfold work, get. rewrite Hpc, Hn, Hb. unfold try_append. rewrite (batch_not_leftover _ _ Hok).
  destruct (append_fits _ b msg Hok) as (p & -> & Hat & Hpend); [apply Hm|done|]. unfold put. rewrite Hn. eexists. split; [done|].
  destruct (b_heapItem b) as [it|] eqn:Ei; [|done]. split_and!; gsimpl; [| |rewrite Hpc; cbn; lia|done].
  - apply (batch_at_item _ b p (Some it)) in Hat. rewrite <- Ei, set_item_same in Hat.
    constructor; gsimpl; try apply Hg; try done.
    + intros i b1 Hb1. pose proof (g_batch _ _ Hg i b1 Hb1) as Ha. by rewrite Hpc in Ha.
    + intros i b1. rewrite lookup_insert_Some. intros [[<- <-]|[_ ?]]; [|by eapply Hg]. split_and!; [|gsimpl; by rewrite Ei|done].
      eapply batch_at_ok; [exact Hat|right; gsimpl; by rewrite Ei].
    + intros i Hid. apply (g_next _ _ Hg), get_None in Hid as [? ?]. apply get_None. gsimpl. rewrite lookup_insert_ne by congruence. done.
    + intros it' Hit. destruct (g_sched _ _ Hg it' Hit) as (b1 & Hb1 & [?|[_ ?]]); [by eauto|congruence].
  - unfold gowes, in_hand. gsimpl. rewrite Hpc. unfold doomed. rewrite Hb, (bo_size _ _ Hok). by rewrite (proj2 (Z.leb_le _ _) Hfit).
Qed.

(** The chosen batch is full: a new one is made. *)
Lemma full_moved cfg now g msg id b :
  cfg_ok cfg -> ginv cfg g -> pc g = HBatch msg id -> get g id = Some b -> BufferSize cfg < Wp (b_pkt b) + sub_size (msg_sub msg) ->
  exists g', work cfg now g = Next g' /\ moved cfg g g'.
Proof.
  intros Hc Hg Hpc Hb Hfull. pose proof (g_pc _ _ Hg) as Hp. unfold pc_ok in Hp. rewrite Hpc in Hp. destruct Hp as (Hm & b0 & Hb0 & Hk).
  rewrite Hb in Hb0. injection Hb0 as <-. pose proof Hm as [Hport _].
  assert (Hok : batch_ok (BufferSize cfg) b).
  { unfold get in Hb. destruct (store (base g) !! id) as [b1|] eqn:E; [|by eapply Hg]. injection Hb as ->. eapply batch_at_ok; [by eapply g_batch|left; by rewrite Hpc]. }
  unfold work. rewrite Hpc, Hb. unfold try_append. rewrite (batch_not_leftover _ _ Hok), AppendUserPacket_full by (rewrite (bo_size _ _ Hok); exact Hfull).
  destruct (new_batch_ok _ now msg Hc Hport) as (b' & -> & Hok' & Hi' & Hk' & Hl' & Hp'). eexists. split; [done|].
  pose proof (ginv_add cfg g b' Hg Hok' Hi') as Hadd. pose proof (proj1 (get_None _ _) (g_next _ _ Hg (next (base g)) (le_n _))) as [Hnew _].
  split_and!; gsimpl; [| |rewrite Hpc; cbn; lia|done].
  - apply (ginv_pc cfg (set_base g _) _ Hadd); [gsimpl; by rewrite Hpc|done|]. unfold pc_ok. gsimpl. split_and!; [done| |].
    + intros k ids Hids Hin. destruct (g_route _ _ Hg k ids _ Hids Hin) as (? & ? & _). congruence.
    + exists b'. by rewrite lookup_insert_eq.
  - unfold gowes, in_hand. gsimpl. rewrite Hpc, all_pending_fresh by done. unfold doomed. destruct (evicted g !! id) as [b1|] eqn:E; [|done].
    destruct (g_evicted _ _ Hg _ _ E) as (_ & _ & Hn). unfold get in Hb. rewrite Hn, E in Hb. injection Hb as ->.
    rewrite (bo_size _ _ Hok), (proj2 (Z.leb_gt _ _)) by lia. done.
Qed.

Lemma batch_moved cfg now g msg id :
  cfg_ok cfg -> ginv cfg g -> pc g = HBatch msg id -> exists g', work cfg now g = Next g' /\ moved cfg g g'.
Proof.
  intros Hc Hg Hpc. pose proof (g_pc _ _ Hg) as Hp. unfold pc_ok in Hp. rewrite Hpc in Hp. destruct Hp as (_ & b & Hb & _).
  destruct (Z.le_gt_cases (Wp (b_pkt b) + sub_size (msg_sub msg)) (BufferSize cfg)) as [Hfit|Hfull]; [|by eapply full_moved].
  unfold get in Hb. destruct (store (base g) !! id) as [b1|] eqn:E; [injection Hb as ->; by eapply append_moved|by eapply append_evicted].
Qed.

(** The new batch takes the message, unless the message is larger than a batch. *)
Lemma join_append cfg b msg :
  batch_ok (BufferSize cfg) b -> b_heapItem b = None -> PayloadLen (b_pkt b) = 0 -> msg_ok msg ->
  exists p ok, AppendUserPacket (b_pkt b) (m_userID msg) (m_data msg) = Ret (p, ok) /\ batch_at (BufferSize cfg) true (set_pkt b p) /\
    tagged (m_routingKey msg) (pending p) = batched cfg msg.
Proof.
  intros Hok Hi Hl Hm. pose proof Hok as [HR Hv Hs Hidle _]. specialize (Hidle Hi). pose proof HR as (_ & Hwp & _). rewrite Hidle in Hwp. cbn in Hwp.
  unfold HeaderSize in Hwp. unfold batched. case_decide as Hd.
  - destruct (append_fits _ b msg Hok) as (p & -> & Hat & Hpend); [apply Hm|lia|]. exists p, true. split; [done|]. rewrite Hpend, Hidle. split; [|done].
    rewrite <- Hi, set_item_same in Hat. exact Hat.
  - rewrite AppendUserPacket_full by (unfold msg_sub in *; lia). exists (b_pkt b), false. split; [done|]. rewrite Hidle. split; [|done].
    constructor; gsimpl; try done. intros _. by rewrite Hidle.
Qed.

Lemma join_moved cfg now g msg id :
  ginv cfg g -> pc g = HJoin msg id -> exists g', work cfg now g = Next g' /\ moved cfg g g'.
Proof.
  intros Hg Hpc. pose proof (g_pc _ _ Hg) as Hp. unfold pc_ok in Hp. rewrite Hpc in Hp. destruct Hp as (Hm & Hr & b & Hb & Hk & Hi & Hl).
  unfold work. rewrite Hpc, Hb. assert (Hok : batch_ok (BufferSize cfg) b) by (eapply batch_at_ok; [by eapply g_batch|left; by rewrite Hpc]).
  destruct (join_append cfg b msg Hok Hi Hl Hm) as (p & ok & -> & Hat & Htag). eexists. split; [done|].
  set (ids := default [] (batches (base g) !! m_routingKey msg)).
  assert (Hids : NoDup ids /\ id ∉ ids /\ forall i, i ∈ ids -> exists b, store (base g) !! i = Some b /\ b_RoutingKey b = m_routingKey msg).
  { unfold ids. destruct (batches (base g) !! m_routingKey msg) as [l|] eqn:E; cbn; [|split_and!; [constructor|set_solver..]].
    split_and!; [by eapply Hg|by eapply Hr|]. intros i Hin. by eapply Hg. }
  destruct Hids as (Hnd & Hni & Hin).
  assert (Hput : ginv cfg (set_pc (set_base g (set_store (base g) (<[id := set_pkt b p]> (store (base g))))) (HPush id))).
  { apply (ginv_put cfg g id b); try done; [by rewrite Hpc|cbn; by rewrite bool_decide_true|intros i ?; cbn; by rewrite bool_decide_false|].
    unfold pc_ok. gsimpl. exists (set_pkt b p). by rewrite lookup_insert_eq. }
  split_and!; gsimpl; [| |rewrite Hpc; cbn; lia|done].
  - apply (ginv_route cfg (set_pc (set_base g _) (HPush id)) (m_routingKey msg) (ids ++ [id]) Hput); gsimpl; [| |intros i|done].
    + apply NoDup_app. split; [done|]. split; [|apply NoDup_singleton]. set_solver.
    + by destruct ids.
    + intros [Hx|Hx%list_elem_of_singleton]%elem_of_app.
      * destruct (Hin i Hx) as (b1 & ? & ?). exists b1. rewrite lookup_insert_ne by congruence. done.
      * subst i. exists (set_pkt b p). by rewrite lookup_insert_eq.
  - unfold gowes, in_hand. gsimpl. rewrite Hpc, all_pending_insert, (all_pending_delete _ _ _ Hb). unfold batch_pending. gsimpl.
    rewrite Hk, Htag, (bo_idle _ _ Hok Hi). done.
Qed.

Lemma items_push g it :
  heap_ok Less any (heap (base g)) ->
  heap_ok Less any (heap_Push Less (heap (base g)) it) /\ map val (heap_Push Less (heap (base g)) it) ++ expired g ≡ₚ it :: items g.
Proof. intros Hok. destruct (Push_item _ it Hok) as [? Hp]. split; [done|]. unfold items. by rewrite Hp. Qed.

Lemma push_moved cfg now g id :
  ginv cfg g -> pc g = HPush id -> exists g', work cfg now g = Next g' /\ moved cfg g g'.
Proof.
  intros Hg Hpc. pose proof (g_pc _ _ Hg) as Hp. unfold pc_ok in Hp. rewrite Hpc in Hp. destruct Hp as (b & Hb & Hi).
  unfold work. rewrite Hpc. eexists. split; [done|]. set (it := mkItem id _). destruct (items_push g it (g_heap _ _ Hg)) as [Hok Hperm].
  assert (Hsame : forall i, holds (HMark id it) i = holds (pc g) i) by (by rewrite Hpc).
  split_and!; gsimpl; [|unfold gowes, in_hand; gsimpl; by rewrite Hpc|rewrite Hpc; cbn; lia|done].
  constructor; unfold items; gsimpl; try apply Hg; try done.
  - intros i b1 Hb1. rewrite Hsame. by apply Hg.
  - intros i b1 it1 Hb1 Hi1. destruct (g_item _ _ Hg i b1 it1 Hb1 Hi1) as [? ?]. split; [done|]. rewrite Hperm. by right.
  - intros it1. rewrite Hperm. intros [->|Hit]%elem_of_cons; [exists b; unfold it; gsimpl; eauto|].
    destruct (g_sched _ _ Hg it1 Hit) as (b1 & Hb1 & [?|[_ ?]]); [by eauto|congruence].
  - rewrite Hperm. cbn [map]. apply NoDup_cons. split; [|apply Hg]. intros (it1 & He & Hit)%list_elem_of_fmap.
    destruct (g_sched _ _ Hg it1 Hit) as (b1 & Hb1 & [?|[_ ?]]); [|congruence]. unfold it in He. cbn in He. congruence.
  - unfold pc_ok, items. gsimpl. split_and!; [done| |by eauto]. rewrite Hperm. left.
Qed.

Lemma mark_moved cfg now g id it :
  ginv cfg g -> pc g = HMark id it -> exists g', work cfg now g = Next g' /\ moved cfg g g'.
Proof.
  intros Hg Hpc. pose proof (g_pc _ _ Hg) as Hp. unfold pc_ok in Hp. rewrite Hpc in Hp. destruct Hp as (Hid & Hit & b & Hb & Hi).
  unfold work. rewrite Hpc, Hb. eexists. split; [done|].
  assert (Hst : forall i b1, store (base g) !! i = Some b1 -> exists b2, <[id := set_item b (Some it)]> (store (base g)) !! i = Some b2 /\ b_RoutingKey b2 = b_RoutingKey b1).
  { intros i b1 Hb1. destruct (decide (i = id)) as [->|]; [exists (set_item b (Some it)); rewrite lookup_insert_eq; gsimpl; split; congruence|exists b1; by rewrite lookup_insert_ne]. }
  split_and!; gsimpl; [| |rewrite Hpc; cbn; lia|done].
  - constructor; unfold items; gsimpl; try apply Hg; try done.
    + intros i b1. rewrite lookup_insert_Some. intros [[<- <-]|[Hne Hb1]].
      * pose proof (g_batch _ _ Hg _ _ Hb) as [HR Hv Hs _ Hl]. constructor; gsimpl; try done. intros _. apply Hl. left. rewrite Hpc. cbn. by rewrite bool_decide_true.
      * pose proof (g_batch _ _ Hg _ _ Hb1) as Ha. rewrite Hpc in Ha. cbn in Ha. by rewrite bool_decide_false in Ha.
    + intros i b1 Hb1. destruct (g_evicted _ _ Hg i b1 Hb1) as (? & ? & ?). split_and!; [done..|]. rewrite lookup_insert_ne; congruence.
    + intros i Hle. apply (g_next _ _ Hg), get_None in Hle as [? ?]. apply get_None. gsimpl. rewrite lookup_insert_ne by congruence. done.
    + intros i b1 it1. rewrite lookup_insert_Some. intros [[<- <-]|[_ ?]]; [gsimpl; by intros [= <-]|by eapply Hg].
    + intros it1 Hit1. destruct (g_sched _ _ Hg it1 Hit1) as (b1 & Hb1 & [?|[? He]]).
      * exists b1. rewrite lookup_insert_ne by congruence. eauto.
      * rewrite Hpc in He. injection He as -> ->. exists (set_item b (Some it1)). rewrite lookup_insert_eq. eauto.
    + intros k ids i Hids Hin. destruct (g_route _ _ Hg k ids i Hids Hin) as (b1 & Hb1 & <-). by apply Hst.
    + apply (sweep_keeps g); [done|exact Hst|apply Hg].
  - unfold gowes, in_hand. gsimpl. rewrite Hpc, all_pending_insert, (all_pending_delete _ _ _ Hb). done.
Qed.

Lemma work_moved cfg now g :
  cfg_ok cfg -> ginv cfg g -> pc g <> HIdle -> exists g', work cfg now g = Next g' /\ moved cfg g g'.
Proof.
  intros Hc Hg Hi. destruct (pc g) as [|msg|msg|msg id|msg id|id|id it] eqn:Hpc; [done|..];
    eauto using lookup_moved, make_moved, batch_moved, join_moved, push_moved, mark_moved.
Qed.

(** ** The flush goroutine *)

Lemma pop_keeps cfg now g :
  ginv cfg g -> expired g = [] ->
  exists g', pop_timer now g = Next g' /\ ginv cfg g' /\ gowes cfg g' = gowes cfg g /\ pc g' = pc g /\
    (forall it, it ∈ map val (heap (base g')) <-> it ∈ map val (heap (base g)) /\ now < it_deadline it).
Proof.
  intros Hg He. unfold pop_timer. rewrite He.
  pose proof (pop_expired_spec now (length (heap (base g))) (heap (base g)) (g_heap _ _ Hg) (le_n _)) as Hpop.
  destruct (pop_expired _ now (heap (base g))) as [xs h]. destruct Hpop as (Hok & Hp & Hexp & Hrest). eexists. split; [done|].
  assert (Hitems : map val h ++ xs ≡ₚ items g) by (unfold items; rewrite He, app_nil_r, Hp; solve_Permutation).
  split_and!; [|done|done|].
  - constructor; unfold items; gsimpl; try apply Hg; try done.
    + intros id b it Hb Hi. rewrite Hitems. by eapply Hg.
    + intros it. rewrite Hitems. apply Hg.
    + rewrite Hitems. apply Hg.
    + pose proof (g_pc _ _ Hg) as Hpc. unfold pc_ok, get in *. gsimpl. destruct (pc g); try done. destruct Hpc as (? & ? & ?).
      split_and!; [done| |done]. unfold items at 1. gsimpl. by rewrite Hitems.
  - gsimpl. intros it. rewrite Hp, elem_of_app. rewrite Forall_forall in Hexp, Hrest. split.
    + intros Hit. split; [by right|by apply Hrest].
    + intros [[Hit|Hit] Hlt]; [|done]. apply Hexp in Hit. lia.
Qed.

(** The batch of a popped item, unless the message goroutine holds it, still points to the item. *)
Lemma popped_ready cfg g it rest :
  ginv cfg g -> expired g = it :: rest -> holds (pc g) (it_batch it) = false ->
  exists b, store (base g) !! it_batch it = Some b /\ b_heapItem b = Some it /\ batch_ok (BufferSize cfg) b.
Proof.
  intros Hg He Hh. assert (Hit : it ∈ items g) by (unfold items; rewrite He; set_solver).
  destruct (g_sched _ _ Hg it Hit) as (b & Hb & Hi). exists b. split; [done|]. split; [|eapply batch_at_ok; [by eapply g_batch|by left]].
  destruct Hi as [|[_ Hi]]; [done|]. rewrite Hi in Hh. cbn in Hh. by rewrite bool_decide_true in Hh.
Qed.

(** The next popped batch is sent whole and left idle. *)
Lemma flush_keeps cfg g it rest :
  ginv cfg g -> expired g = it :: rest -> holds (pc g) (it_batch it) = false ->
  exists g' out, flush_next g = Next (g', out) /\ ginv cfg g' /\ mbind carried out ++ gowes cfg g' ≡ₚ gowes cfg g /\
    pc g' = pc g /\ expired g' = rest /\ heap (base g') = heap (base g).
Proof.
  intros Hg He Hh. unfold flush_next. rewrite He, Hh. destruct (popped_ready cfg g it rest Hg He Hh) as (b & Hb & Hi & Hok).
  destruct (flush_item_spec _ (tnow g) _ it b Hb Hok) as (b' & out & -> & Hok' & Hi' & Hk' & _ & Hp' & Hc & _); [by rewrite Hi|].
  exists (mkG (set_store (base g) (<[it_batch it := b']> (store (base g)))) (evicted g) (pc g) rest (tnow g) (sweep g)), out. split; [done|].
  assert (Hitems : items g ≡ₚ it :: map val (heap (base g)) ++ rest) by (unfold items; rewrite He; solve_Permutation).
  pose proof (g_nodup _ _ Hg) as Hnd. rewrite Hitems in Hnd. cbn [map] in Hnd. apply NoDup_cons in Hnd as [Hni Hnd].
  assert (Hsub : forall x, x ∈ map val (heap (base g)) ++ rest -> x ∈ items g /\ it_batch x <> it_batch it).
  { intros x Hx. split; [rewrite Hitems; by right|]. intros Hx'. apply Hni. rewrite <- Hx'. by apply list_elem_of_fmap_2. }
  assert (Hst : forall i b1, store (base g) !! i = Some b1 -> exists b2, <[it_batch it := b']> (store (base g)) !! i = Some b2 /\ b_RoutingKey b2 = b_RoutingKey b1).
  { intros i b1 Hb1. destruct (decide (i = it_batch it)) as [->|]; [exists b'; rewrite lookup_insert_eq; split; congruence|exists b1; by rewrite lookup_insert_ne]. }
  split_and!; [| |done..].
  - constructor; unfold items; gsimpl; try apply Hg; try done.
    + intros i b1. rewrite lookup_insert_Some. intros [[<- <-]|[Hne Hb1]]; [rewrite Hh; by apply batch_ok_at|by apply Hg].
    + intros i b1 Hb1. destruct (g_evicted _ _ Hg i b1 Hb1) as (? & ? & ?). split_and!; [done..|]. rewrite lookup_insert_ne; congruence.
    + intros i Hle. apply (g_next _ _ Hg), get_None in Hle as [? ?]. apply get_None. gsimpl. rewrite lookup_insert_ne by congruence. done.
    + intros i b1 it1. rewrite lookup_insert_Some. intros [[_ <-]|[Hne Hb1]] Hi1; [congruence|].
      destruct (g_item _ _ Hg i b1 it1 Hb1 Hi1) as [<- Hin]. split; [done|]. rewrite Hitems in Hin. apply elem_of_cons in Hin as [->|]; done.
    + intros it1 Hit1. destruct (Hsub _ Hit1) as [Hin Hne]. destruct (g_sched _ _ Hg it1 Hin) as (b1 & ? & ?). exists b1. by rewrite lookup_insert_ne.
    + intros k ids i Hids Hin. destruct (g_route _ _ Hg k ids i Hids Hin) as (b1 & Hb1 & <-). by apply Hst.
    + pose proof (g_pc _ _ Hg) as Hpc. unfold pc_ok in *. gsimpl. destruct (pc g) as [|m|m|m i|m i|i|i it1]; try done.
      * destruct Hpc as (? & b1 & Hb1 & Hk1). split; [done|]. unfold get in *. gsimpl. destruct (decide (i = it_batch it)) as [->|].
        -- rewrite Hb in Hb1. injection Hb1 as <-. exists b'. rewrite lookup_insert_eq. split; congruence.
        -- exists b1. by rewrite lookup_insert_ne.
      * destruct Hpc as (? & ? & b1 & Hb1 & ? & ? & ?). split_and!; [done..|]. exists b1. rewrite lookup_insert_ne; [done|]. congruence.
      * cbn in Hh. apply bool_decide_eq_false in Hh. rewrite lookup_insert_ne; done.
      * destruct Hpc as (? & Hin & ?). cbn in Hh. apply bool_decide_eq_false in Hh. split_and!; [done| |rewrite lookup_insert_ne; done].
        rewrite Hitems in Hin. unfold items. gsimpl. apply elem_of_cons in Hin as [->|]; done.
    + apply (sweep_keeps g); [done|exact Hst|apply Hg].
  - unfold gowes, in_hand, doomed. gsimpl. rewrite all_pending_insert, Hp', (all_pending_delete _ _ _ Hb), Hc. solve_Permutation.
Qed.

(** ** The eviction goroutine *)

Lemma ginv_sweep cfg g s : ginv cfg g -> sweep_ok (set_sweep g s) -> ginv cfg (set_sweep g s).
Proof. intros Hg Hs. constructor; try apply Hg. exact Hs. Qed.

Lemma start_sweep_ok g now routes : routes_ok (store (base g)) routes -> sweep_ok (set_sweep g (start_sweep now routes)).
Proof. unfold sweep_ok, start_sweep. by destruct routes as [|[k v] routes]. Qed.

Lemma snapshot_routes cfg g keys :
  ginv cfg g -> NoDup keys -> routes_ok (store (base g)) (omap (fun k => pair k <$> batches (base g) !! k) keys).
Proof.
  intros Hg Hnd. split.
  - induction Hnd as [|k keys Hk Hnd IH]; [constructor|]. cbn [omap list_omap]. destruct (batches (base g) !! k); [|done]. cbn. constructor; [|done].
    intros ([k' v] & -> & Hin)%list_elem_of_fmap. apply list_elem_of_omap in Hin as (k1 & Hk1 & Hx). destruct (batches (base g) !! k1); [|done].
    cbn in Hx. injection Hx as -> ->. done.
  - intros k v (k1 & _ & Hx)%list_elem_of_omap. destruct (batches (base g) !! k1) as [ids|] eqn:E; [|done]. cbn in Hx. injection Hx as -> ->.
    split; [by eapply Hg|]. intros id Hid. by eapply Hg.
Qed.

Lemma snapshot_keeps cfg now keys g g' : ginv cfg g -> snapshot now keys g = Next g' -> ginv cfg g' /\ gowes cfg g' = gowes cfg g.
Proof.
  intros Hg. unfold snapshot. destruct (sweep g); [done|]. case_match eqn:E; [|done]. bool_prop. intros [= <-]. split; [|done].
  apply ginv_sweep; [done|]. by apply start_sweep_ok, (snapshot_routes cfg).
Qed.

Lemma read_age_keeps cfg g g' : ginv cfg g -> read_age g = Next g' -> ginv cfg g' /\ gowes cfg g' = gowes cfg g.
Proof.
  intros Hg. pose proof (g_sweep _ _ Hg) as Hs. unfold read_age, sweep_ok in *. destruct (sweep g) as [[now routes [|id todo] d]|]; [done| |done].
  intros [= <-]. split; [|done]. by apply ginv_sweep.
Qed.

(** A popped item has index -1. *)
Lemma remove_popped h it : it ∉ map val h -> remove_item h it = Panic.
Proof.
  intros Hn. unfold remove_item, item_index. destruct (List.find _ h) as [e|] eqn:Hf; [|done]. exfalso. apply Hn.
  apply List.find_some in Hf as [Hi He]. bool_prop. rewrite <- He. apply list_elem_of_fmap_2. by apply list_elem_of_In.
Qed.

Lemma remove_items_popped st id b it ids h :
  heap_ok Less any h -> id ∈ ids -> st !! id = Some b -> b_heapItem b = Some it -> it ∉ map val h -> remove_items st ids h = Panic.
Proof.
  intros Hok Hin Hb Hi Hn. revert h Hok Hn. induction ids as [|x ids IH]; intros h Hok Hn; [set_solver|]. cbn [remove_items].
  destruct (decide (x = id)) as [->|Hne]; [rewrite Hb, Hi, (remove_popped h it Hn); done|].
  assert (Hin' : id ∈ ids) by set_solver. destruct (st !! x) as [bx|]; [|done]. destruct (b_heapItem bx) as [itx|]; [|by apply IH].
  destruct (decide (itx ∈ map val h)) as [Hx|Hx]; [|by rewrite remove_popped]. destruct (remove_item_spec h itx Hok Hx) as (h1 & -> & Hok1 & Hp). cbn [go_bind].
  apply IH; [done|done|]. intros Hit. apply Hn. rewrite Hp. by right.
Qed.

(** [heap.Remove] for every scheduled batch of a route whose items are on the heap. *)
Lemma remove_items_gone st ids h :
  heap_ok Less any h -> NoDup ids ->
  (forall id, id ∈ ids -> exists b, st !! id = Some b /\ forall it, b_heapItem b = Some it -> it_batch it = id /\ it ∈ map val h) ->
  exists h' gone, remove_items st ids h = Ret h' /\ heap_ok Less any h' /\ map val h ≡ₚ gone ++ map val h' /\
    forall it, it ∈ gone <-> exists id b, id ∈ ids /\ st !! id = Some b /\ b_heapItem b = Some it.
Proof.
  revert h. induction ids as [|x ids IH]; intros h Hok Hnd Hin.
  { exists h, []. split_and!; try done. set_solver. }
  apply NoDup_cons in Hnd as [Hx Hnd]. destruct (Hin x) as (b & Hb & Hi); [left|]. cbn [remove_items]. rewrite Hb. destruct (b_heapItem b) as [it|] eqn:Eb.
  - destruct (Hi it) as [Hid Hit]; [done|]. destruct (remove_item_spec h it Hok Hit) as (h1 & -> & Hok1 & Hp). cbn [go_bind].
    destruct (IH h1 Hok1 Hnd) as (h2 & gone & -> & Hok2 & Hp2 & Hg).
    { intros id Hid'. destruct (Hin id) as (b' & Hb' & Hi'); [by right|]. exists b'. split; [done|]. intros it' Hit'. destruct (Hi' it' Hit') as [He Hm].
      split; [done|]. rewrite Hp in Hm. apply elem_of_cons in Hm as [->|]; [congruence|done]. }
    exists h2, (it :: gone). split_and!; [done..|by rewrite Hp, Hp2|]. intros it'. rewrite elem_of_cons, Hg. split.
    + intros [->|(id & b' & ? & ? & ?)]; [exists x, b; set_solver|exists id, b'; set_solver].
    + intros (id & b' & [->|?]%elem_of_cons & ? & ?); [left; congruence|right; eauto].
  - destruct (IH h Hok Hnd) as (h2 & gone & -> & Hok2 & Hp2 & Hg); [intros id Hid; apply Hin; by right|].
    exists h2, gone. split_and!; try done. intros it'. rewrite Hg. split; intros (id & b' & Hid & ? & ?); [exists id, b'; set_solver|].
    apply elem_of_cons in Hid as [->|?]; [congruence|eauto].
Qed.

(** The flush goroutine has popped a batch of the route and not flushed it yet. *)
Definition races (g : gworker) (v : list nat) : bool :=
  existsb (fun id => match store (base g) !! id with
                     | Some b => match b_heapItem b with Some it => bool_decide (it ∈ expired g) | None => false end
                     | None => false
                     end) v.

Lemma races_spec g v :
  races g v = true <-> exists id b it, id ∈ v /\ store (base g) !! id = Some b /\ b_heapItem b = Some it /\ it ∈ expired g.
Proof.
  unfold races. rewrite existsb_exists. split.
  - intros (id & Hid & Hx). apply list_elem_of_In in Hid. destruct (store (base g) !! id) as [b|] eqn:Hb; [|done].
    destruct (b_heapItem b) as [it|] eqn:Hi; [|done]. bool_prop. by exists id, b, it.
  - intros (id & b & it & Hid & Hb & Hi & Hit). exists id. split; [by apply list_elem_of_In|]. rewrite Hb, Hi. by apply bool_decide_eq_true.
Qed.

(** The state after the section, with the heap [h]. *)
Definition after_evict (g : gworker) (k : string) (v : list nat) (h : list (entry HeapItem)) (s : option sweeping) : gworker :=
  mkG (mkWorker (filter (fun e => ~ removed v e) (store (base g))) (next (base g)) (delete k (batches (base g))) h)
      (filter (removed v) (store (base g)) ∪ evicted g) (pc g) (expired g) (tnow g) s.

Section Evict.
Context (cfg : Config) (g : gworker) (k : string) (v : list nat) (h : list (entry HeapItem)) (s : option sweeping).
Context (Hg : ginv cfg g) (Hv : forall id, id ∈ v -> exists b, store (base g) !! id = Some b /\ b_RoutingKey b = k).

Lemma store_after id b :
  store (base (after_evict g k v h s)) !! id = Some b <-> store (base g) !! id = Some b /\ ~ (id ∈ v /\ b_heapItem b <> None).
Proof. cbn. by rewrite map_lookup_filter_Some. Qed.

Lemma evicted_after id b :
  evicted (after_evict g k v h s) !! id = Some b <-> (store (base g) !! id = Some b /\ id ∈ v /\ b_heapItem b <> None) \/ evicted g !! id = Some b.
Proof.
  cbn. rewrite lookup_union_Some_raw, map_lookup_filter_Some, map_lookup_filter_None. unfold removed. cbn. split; [naive_solver|].
  intros [?|Hb]; [by left|right]. split; [|done]. left. by eapply Hg.
Qed.

Lemma get_after id b : get g id = Some b -> get (after_evict g k v h s) id = Some b.
Proof.
  unfold get at 1. intros Hb. unfold get. destruct (store (base g) !! id) as [b1|] eqn:E.
  - injection Hb as ->. destruct (decide (id ∈ v /\ b_heapItem b <> None)) as [Hr|Hr]; [|by rewrite (proj2 (store_after id b)) by done].
    destruct (store (base (after_evict g k v h s)) !! id) as [b2|] eqn:E2; [apply store_after in E2 as [? []]; congruence|]. apply evicted_after. tauto.
  - destruct (store (base (after_evict g k v h s)) !! id) as [b2|] eqn:E2; [apply store_after in E2 as [? _]; congruence|]. apply evicted_after. tauto.
Qed.

(** What stays: batches of other routes, and batches without a heap item. *)
Lemma stays id b : store (base g) !! id = Some b -> b_RoutingKey b <> k \/ b_heapItem b = None -> store (base (after_evict g k v h s)) !! id = Some b.
Proof. intros Hb Hor. apply store_after. split; [done|]. intros [Hid Hi]. destruct (Hv id Hid) as (b' & Hb' & ?). destruct Hor; congruence. Qed.

Context (gone : list HeapItem) (Hok : heap_ok Less any h) (Hp : map val (heap (base g)) ≡ₚ gone ++ map val h).
Context (Hgone : forall it, it ∈ gone <-> exists id b, id ∈ v /\ store (base g) !! id = Some b /\ b_heapItem b = Some it).

Lemma items_after : items g ≡ₚ gone ++ items (after_evict g k v h s).
Proof. unfold items. cbn. rewrite Hp. solve_Permutation. Qed.

Lemma gone_batch it : it ∈ gone -> it_batch it ∈ v.
Proof. intros (id & b & Hid & Hb & Hi)%Hgone. by destruct (g_item _ _ Hg id b it Hb Hi) as [-> _]. Qed.

Lemma after_ginv :
  routes_ok (store (base (after_evict g k v h s))) (match s with Some s => sw_routes s | None => [] end) -> ginv cfg (after_evict g k v h s).
Proof.
  intros Hs. constructor.
  - intros id b [Hb _]%store_after. by apply Hg.
  - intros id b [(Hb & Hid & Hi)|Hb]%evicted_after.
    + split_and!; [eapply batch_at_ok; [by eapply g_batch|by right]|done|]. destruct (store (base (after_evict g k v h s)) !! id) as [b2|] eqn:E2; [|done].
      apply store_after in E2 as [Hb2 Hn]. congruence || (rewrite Hb in Hb2; injection Hb2 as <-; tauto).
    + destruct (g_evicted _ _ Hg id b Hb) as (? & ? & Hn). split_and!; [done..|]. destruct (store (base (after_evict g k v h s)) !! id) as [b2|] eqn:E2; [|done].
      apply store_after in E2 as [? _]. congruence.
  - intros id Hid. apply (g_next _ _ Hg), get_None in Hid as [H1 H2]. apply get_None. split; apply eq_None_not_Some; intros [b Hb].
    + apply store_after in Hb as [? _]. congruence.
    + apply evicted_after in Hb as [[? _]|?]; congruence.
  - exact Hok.
  - intros id b it [Hb Hn]%store_after Hi. destruct (g_item _ _ Hg id b it Hb Hi) as [<- Hin]. split; [done|]. rewrite items_after, elem_of_app in Hin.
    destruct Hin as [Hin|]; [|done]. apply gone_batch in Hin. destruct Hn. split; congruence.
  - intros it Hit. destruct (g_sched _ _ Hg it) as (b & Hb & Hi); [rewrite items_after; set_solver|]. exists b. split; [|done]. apply store_after.
    split; [done|]. intros [Hid Hne]. destruct Hi as [Hi|[Hi _]]; [|done]. pose proof (g_nodup _ _ Hg) as Hnd. rewrite items_after, map_app in Hnd.
    apply NoDup_app in Hnd as (_ & Hdis & _). apply (Hdis (it_batch it)); apply list_elem_of_fmap_2; [|done]. apply Hgone. eauto.
  - pose proof (g_nodup _ _ Hg) as Hnd. rewrite items_after, map_app in Hnd. by apply NoDup_app in Hnd as (_ & _ & ?).
  - intros k' ids id Hk Hid. cbn in Hk. apply lookup_delete_Some in Hk as [Hne Hk]. destruct (g_route _ _ Hg k' ids id Hk Hid) as (b & Hb & <-).
    exists b. split; [|done]. apply stays; [done|]. left. congruence.
  - intros k' ids Hk. cbn in Hk. apply lookup_delete_Some in Hk as [_ Hk]. by eapply Hg.
  - intros k' ids Hk. cbn in Hk. apply lookup_delete_Some in Hk as [_ Hk]. by eapply Hg.
  - pose proof (g_pc _ _ Hg) as Hpc. unfold pc_ok in *. cbn [pc after_evict] in *. destruct (pc g) as [|m|m|m id|m id|id|id it]; try done.
    + destruct Hpc as (? & b & Hb & ?). split; [done|]. exists b. split; [by apply get_after|done].
    + destruct Hpc as (? & Hr & b & Hb & ? & ? & ?). split_and!; [done| |exists b; split_and!; [apply stays; by eauto|done..]].
      intros k' ids Hk. cbn in Hk. apply lookup_delete_Some in Hk as [_ Hk]. by eapply Hr.
    + destruct Hpc as (b & Hb & Hi). exists b. split; [apply stays; by eauto|done].
    + destruct Hpc as (Hid & Hin & b & Hb & Hi). split_and!; [done| |exists b; split; [apply stays; by eauto|done]]. rewrite items_after, elem_of_app in Hin.
      destruct Hin as [(i & b' & _ & Hb' & Hi')%Hgone|]; [|done]. destruct (g_item _ _ Hg i b' it Hb' Hi') as [? _]. congruence.
  - unfold sweep_ok. cbn [sweep after_evict]. by destruct s.
Qed.

Lemma after_owes : exists lost, gowes cfg (after_evict g k v h s) ++ lost ≡ₚ gowes cfg g.
Proof.
  destruct (all_pending_sub (store (base g)) (store (base (after_evict g k v h s)))) as [lost Hl]; [by intros id b [? _]%store_after|].
  assert (Hh : exists lost', in_hand cfg g ≡ₚ in_hand cfg (after_evict g k v h s) ++ lost').
  { unfold in_hand. cbn [pc after_evict]. destruct (pc g) as [|m|m|m id|m id|id|id it]; try (exists []; by rewrite app_nil_r).
    unfold doomed at 1. destruct (evicted g !! id) as [b|] eqn:E; [|destruct (doomed _ m id); [exists (batched cfg m); done|exists []; by rewrite app_nil_r]].
    unfold doomed. rewrite (proj2 (evicted_after id b)) by tauto. exists []. by rewrite app_nil_r. }
  destruct Hh as [lost' Hl']. exists (lost' ++ lost). unfold gowes. rewrite Hl, Hl'. solve_Permutation.
Qed.
End Evict.

(** Whether the goroutine is about to remove a route, and which one. *)
Definition evicting (g : gworker) : option (list nat) :=
  match sweep g with Some (mkSweep _ ((_, v) :: _) [] true) => Some v | _ => None end.

(** Without a race the section succeeds. *)
Lemma remove_ready cfg g now k v rest :
  ginv cfg g -> sweep g = Some (mkSweep now ((k, v) :: rest) [] true) -> races g v = false ->
  exists h, remove_items (store (base g)) v (heap (base g)) = Ret h /\
    ginv cfg (after_evict g k v h (start_sweep now rest)) /\
    exists lost, gowes cfg (after_evict g k v h (start_sweep now rest)) ++ lost ≡ₚ gowes cfg g.
Proof.
  intros Hg Hs Hn. pose proof (g_sweep _ _ Hg) as Hr. unfold sweep_ok in Hr. rewrite Hs in Hr. destruct Hr as [Hnk Hr]. cbn [sw_routes] in *.
  destruct (Hr k v) as [Hnd Hv]; [left|]. cbn [map fst] in Hnk. apply NoDup_cons in Hnk as [Hk Hnk].
  destruct (remove_items_gone (store (base g)) v (heap (base g)) (g_heap _ _ Hg) Hnd) as (h & gone & Hh & Hok & Hp & Hgone).
  { intros id Hid. destruct (Hv id Hid) as (b & Hb & _). exists b. split; [done|]. intros it Hi. destruct (g_item _ _ Hg id b it Hb Hi) as [? Hin]. split; [done|].
    apply elem_of_app in Hin as [|Hin]; [done|]. assert (races g v = true) by (apply races_spec; by exists id, b, it). congruence. }
  exists h. split; [done|]. split; [|by apply after_owes]. eapply after_ginv; try done.
  assert (Hrest : routes_ok (store (base (after_evict g k v h (start_sweep now rest)))) rest).
  { split; [done|]. intros k' v' Hkv. destruct (Hr k' v') as [? Hv']; [by right|]. split; [done|]. intros id Hid. destruct (Hv' id Hid) as (b & Hb & Hkb).
    exists b. split; [|done]. apply stays; [done|done|]. left. rewrite Hkb. intros ->. apply Hk. by apply (list_elem_of_fmap_2 fst _ (k, v')). }
  destruct rest as [|[k' v'] rest]; exact Hrest.
Qed.

Lemma races_panic cfg g v : ginv cfg g -> races g v = true -> remove_items (store (base g)) v (heap (base g)) = Panic.
Proof.
  intros Hg (id & b & it & Hid & Hb & Hi & Hit)%races_spec. eapply remove_items_popped; [apply Hg|done..|]. intros Hin.
  pose proof (g_nodup _ _ Hg) as Hnd. unfold items in Hnd. rewrite map_app in Hnd. apply NoDup_app in Hnd as (_ & Hdis & _).
  apply (Hdis (it_batch it)); by apply list_elem_of_fmap_2.
Qed.

Lemma evict_route_keeps cfg g g' :
  ginv cfg g -> evict_route g = Next g' -> ginv cfg g' /\ exists lost, gowes cfg g' ++ lost ≡ₚ gowes cfg g.
Proof.
  intros Hg. unfold evict_route. destruct (sweep g) as [[now [|[k v] rest] [|] [|]]|] eqn:Hs; try done.
  - destruct (remove_items _ v _) as [h|] eqn:Hh; [|done]. intros [= <-].
    destruct (remove_ready cfg g now k v rest Hg Hs) as (h' & Hh' & ?); [apply not_true_iff_false; intros Hr; by rewrite (races_panic cfg) in Hh|]. rewrite Hh in Hh'. by injection Hh' as <-.
  - intros [= <-]. split; [|exists []; by rewrite app_nil_r]. apply ginv_sweep; [done|]. apply start_sweep_ok.
    pose proof (g_sweep _ _ Hg) as Hr. unfold sweep_ok in Hr. rewrite Hs in Hr. destruct Hr as [Hnk Hr]. cbn [sw_routes map] in *. apply NoDup_cons in Hnk as [_ Hnk].
    split; [done|]. intros k' v' Hin. apply Hr. by right.
Qed.

(** The eviction panics exactly when it removes a route of which the flush goroutine has popped a batch. *)
Lemma evict_route_panics cfg g : ginv cfg g -> evict_route g = Panics <-> exists v, evicting g = Some v /\ races g v = true.
Proof.
  intros Hg. unfold evict_route, evicting. destruct (sweep g) as [[now [|[k v] rest] [|] [|]]|] eqn:Hs; try (split; [done|by intros (? & [=] & _)]).
  split.
  - intros Hp. exists v. split; [done|]. destruct (remove_items _ v _) as [h|] eqn:Hh; [done|]. destruct (races g v) eqn:Hn; [done|].
    destruct (remove_ready cfg g now k v rest Hg Hs Hn) as (h' & Hh' & _). congruence.
  - intros (v' & [= <-] & Hr). by rewrite (races_panic cfg).
Qed.

(** ** All steps *)

Lemma take_msg_spec cfg g msg :
  cfg_ok cfg -> msg_ok msg -> ginv cfg g -> pc g = HIdle ->
  exists g' out, take_msg cfg g msg = Ret (g', out) /\ ginv cfg g' /\ mbind carried out ++ gowes cfg g' ≡ₚ accepted cfg (Msg 0 msg) ++ gowes cfg g /\
    expired g' = expired g /\ base g' = base g.
Proof.
  intros Hc Hm Hg Hpc. pose proof Hm as (Hp & Hv & Hs). unfold take_msg.
  destruct (is_direct cfg msg) eqn:Ed; cbn [orb]; [|destruct (m_emerge msg)].
  - destruct (send_direct_spec msg Hp Hv (24 + sub_size (msg_sub msg))) as (out & Hd & Hcar); [unfold sub_size in *; lia|].
    replace (HeaderSize + 4 + 2 + Z.of_nat (length (m_data msg))) with (24 + sub_size (msg_sub msg)) by (unfold sub_size, HeaderSize; cbn; lia).
    rewrite Hd. cbn [go_bind]. exists g, out. rewrite Hcar, decide_True by lia. unfold accepted, accepts. by rewrite Ed.
  - destruct (send_direct_spec msg Hp Hv _ Hc) as (out & Hd & Hcar). rewrite Hd. cbn [go_bind]. exists g, out. by rewrite Hcar, accepted_hand.
  - eexists _, _. split; [done|]. split; [apply ginv_pc; [done|by rewrite Hpc|done|done]|]. split; [|done]. unfold gowes, in_hand. gsimpl. by rewrite Hpc, accepted_hand by done.
Qed.

Lemma quietly_Next (o : outcome gworker) g out : quietly o = Next (g, out) <-> o = Next g /\ out = [].
Proof. unfold quietly. destruct o; cbn; naive_solver. Qed.

Lemma quietly_Panics (o : outcome gworker) : quietly o = Panics <-> o = Panics.
Proof. by destruct o. Qed.

Lemma gstep_panics cfg g e :
  cfg_ok cfg -> ginv cfg g -> gstep cfg g e = Panics <-> e = EvictRoute /\ exists v, evicting g = Some v /\ races g v = true.
Proof.
  intros Hc Hg. split; [|intros [-> Hx]; cbn [gstep]; rewrite quietly_Panics; by apply (evict_route_panics cfg)].
  destruct e as [now|now| |now keys| |]; cbn [gstep]; rewrite ?quietly_Panics.
  - intros Hw. destruct (decide (left_of (pc g) = 0%nat)) as [H0|H0].
    + exfalso. revert Hw. unfold work. by destruct (pc g).
    + destruct (work_moved cfg now g Hc Hg) as (g' & He & _); [by destruct (pc g)|congruence].
  - unfold pop_timer. destruct (expired g); [|done]. by destruct (pop_expired _ _ _).
  - intros Hf. unfold flush_next in *. destruct (expired g) as [|it rest] eqn:Ee; [done|]. destruct (holds (pc g) (it_batch it)) eqn:Eh; [done|].
    destruct (flush_keeps cfg g it rest Hg Ee Eh) as (g' & out & He & _). unfold flush_next in He. rewrite Ee, Eh in He. congruence.
  - unfold snapshot. repeat case_match; done.
  - unfold read_age. repeat case_match; done.
  - intros Hp. split; [done|]. by apply (evict_route_panics cfg).
Qed.

Lemma gstep_keeps cfg g e g' out :
  cfg_ok cfg -> ginv cfg g -> gstep cfg g e = Next (g', out) ->
  ginv cfg g' /\ exists lost, mbind carried out ++ gowes cfg g' ++ lost ≡ₚ gowes cfg g /\ (e <> EvictRoute -> lost = []).
Proof.
  intros Hc Hg. destruct e as [now|now| |now keys| |]; cbn [gstep]; rewrite ?quietly_Next.
  - intros [Hw ->]. destruct (decide (left_of (pc g) = 0%nat)) as [H0|H0]; [exfalso; revert Hw; unfold work; by destruct (pc g)|].
    destruct (work_moved cfg now g Hc Hg) as (g1 & He & Hg' & Ho & _); [by destruct (pc g)|]. rewrite Hw in He. injection He as <-.
    split; [done|]. exists []. by rewrite app_nil_r.
  - intros [Hp ->]. destruct (expired g) eqn:Ee; [|unfold pop_timer in Hp; by rewrite Ee in Hp].
    destruct (pop_keeps cfg now g Hg Ee) as (g1 & He & Hg' & Ho & _). rewrite Hp in He. injection He as <-. split; [done|]. exists []. by rewrite app_nil_r, Ho.
  - intros Hf. pose proof Hf as Hf'. unfold flush_next in Hf'. destruct (expired g) as [|it rest] eqn:Ee; [done|]. destruct (holds (pc g) (it_batch it)) eqn:Eh; [done|].
    destruct (flush_keeps cfg g it rest Hg Ee Eh) as (g1 & out1 & He & Hg' & Ho & _). rewrite Hf in He. injection He as <- <-. split; [done|]. exists []. by rewrite app_nil_r.
  - intros [Hs ->]. destruct (snapshot_keeps cfg _ _ _ _ Hg Hs) as [? Ho]. split; [done|]. exists []. by rewrite app_nil_r, Ho.
  - intros [Hs ->]. destruct (read_age_keeps cfg _ _ Hg Hs) as [? Ho]. split; [done|]. exists []. by rewrite app_nil_r, Ho.
  - intros [Hs ->]. destruct (evict_route_keeps cfg _ _ Hg Hs) as [? [lost Ho]]. split; [done|]. by exists lost.
Qed.

(** A worker without items owes nothing between two messages. *)
Lemma idle_owes cfg g : ginv cfg g -> pc g = HIdle -> items g = [] -> gowes cfg g = [].
Proof.
  intros Hg Hpc Hi. unfold gowes, in_hand. rewrite Hpc. cbn [app]. unfold all_pending.
  assert (Hall : forall id b, (id, b) ∈ map_to_list (store (base g)) -> batch_pending b = []).
  { intros id b Hb%elem_of_map_to_list. destruct (b_heapItem b) as [it|] eqn:Ei.
    - destruct (g_item _ _ Hg id b it Hb Ei) as [_ Hit]. rewrite Hi in Hit. set_solver.
    - unfold batch_pending. pose proof (g_batch _ _ Hg id b Hb) as Ha. rewrite Hpc in Ha. by rewrite (ba_idle _ _ _ Ha eq_refl Ei). }
  induction (map_to_list (store (base g))) as [|[id b] l IH]; [done|]. cbn [mbind list_bind].
  rewrite (Hall id b) by left. apply IH. intros id' b' Hin. apply (Hall id'). by right.
Qed.

(** ** Sections without interference

    When no other goroutine comes in between, the sections add up to the operations of [Aggregator]. *)

Fixpoint works (cfg : Config) (now : Z) (n : nat) (g : gworker) : outcome gworker :=
  match n with O => Next g | S n => let? g' := work cfg now g in works cfg now n g' end.

Fixpoint flushes (n : nat) (g : gworker) : outcome (gworker * list sendInfo) :=
  match n with
  | O => Next (g, [])
  | S n => let? (g1, out1) := flush_next g in let? (g2, out2) := flushes n g1 in Next (g2, out1 ++ out2)
  end.

(** From the push on. *)
Lemma push_uninterrupted cfg now g id b :
  pc g = HPush id -> store (base g) !! id = Some b -> b_heapItem b = None ->
  works cfg now 2 g = Next (set_pc (set_base g (schedule (base g) id b (now + BatchTimeoutMs cfg * millisecond))) HIdle).
Proof.
  intros Hpc Hb Hi. cbn [works]. unfold work at 1. rewrite Hpc. cbn [obind]. unfold work. gsimpl. rewrite Hb. cbn [obind]. unfold schedule. by rewrite Hi.
Qed.

Lemma batch_uninterrupted cfg now g msg id b w' :
  pc g = HBatch msg id -> store (base g) !! id = Some b -> append_msg cfg now (base g) id b msg = Ret w' ->
  exists n, works cfg now n g = Next (set_pc (set_base g w') HIdle).
Proof.
  intros Hpc Hb. unfold append_msg. intros ([p ok] & Hp & Hx)%go_bind_Ret. fold (try_append b msg) in Hp.
  pose proof (get_store _ _ _ Hb) as Hget.
  assert (Hput : put g id (set_pkt b p) = set_base g (set_store (base g) (<[id := set_pkt b p]> (store (base g))))) by (unfold put; by rewrite Hb).
  destruct ok; [injection Hx as <-; destruct (b_heapItem b) as [it|] eqn:Ei|].
  - exists 1%nat. cbn [works]. unfold work. rewrite Hpc, Hget, Hp, Ei, Hput. cbn [obind]. unfold schedule. gsimpl. by rewrite Ei.
  - exists 3%nat. change (works cfg now 3 g) with (let? g' := work cfg now g in works cfg now 2 g'). unfold work at 1. rewrite Hpc, Hget, Hp, Ei, Hput. cbn [obind].
    rewrite (push_uninterrupted cfg now _ id (set_pkt b p)); [|done|gsimpl; apply lookup_insert_eq|done]. f_equal. unfold schedule, set_base, set_pc, set_store. gsimpl.
    rewrite Ei. by rewrite insert_insert_eq.
  - apply go_bind_Ret in Hx as (b_ & Hb_ & Hx). apply go_bind_Ret in Hx as ([p_ ok_] & Hp_ & [= <-]).
    assert (Hi_ : b_heapItem b_ = None) by (unfold new_batch in Hb_; by apply go_bind_Ret in Hb_ as (? & _ & [= <-])).
    exists 4%nat. change (works cfg now 4 g) with (let? g' := work cfg now g in works cfg now 3 g'). unfold work at 1. rewrite Hpc, Hget, Hp, Hb_. cbn [obind].
    set (g1 := set_pc _ (HJoin _ _)). change (works cfg now 3 g1) with (let? g' := work cfg now g1 in works cfg now 2 g'). 
    assert (H1 : store (base g1) !! next (base g) = Some b_) by apply lookup_insert_eq. unfold work at 1. change (pc g1) with (HJoin msg (next (base g))).
    cbv iota. rewrite H1, Hp_. cbn [obind].
    rewrite (push_uninterrupted cfg now _ (next (base g)) (set_pkt b_ p_)); [|done|gsimpl; apply lookup_insert_eq|done]. f_equal.
    unfold schedule, set_base, set_pc, set_store, g1. gsimpl. rewrite Hi_. by rewrite insert_insert_eq.
Qed.

Lemma works_S cfg now n g g1 : work cfg now g = Next g1 -> works cfg now (S n) g = works cfg now n g1.
Proof. intros Hw. cbn [works]. by rewrite Hw. Qed.

Lemma handle_uninterrupted cfg now g msg w' out :
  ginv cfg g -> pc g = HIdle -> handleMsg cfg now (base g) msg = Ret (w', out) ->
  exists g1 n, take_msg cfg g msg = Ret (g1, out) /\ works cfg now n g1 = Next (set_base g w').
Proof.
  intros Hg Hpc. unfold handleMsg, take_msg. destruct (is_direct cfg msg || m_emerge msg).
  { intros (o & -> & [= <- <-])%go_bind_Ret. exists g, 0%nat. split; [done|]. cbn. by destruct g. }
  intros ([w1 oid] & Hf & Hx)%go_bind_Ret. exists (set_pc g (HLookup msg)).
  assert (Hrest : forall id g1, oid = Some id -> base g1 = w1 -> set_pc (set_base g1 w') HIdle = set_base g w' -> pc g1 = HBatch msg id ->
    out = [] /\ exists n, works cfg now n g1 = Next (set_base g w')).
  { intros id g1 -> Hb1 Hset Hpc1. destruct (store w1 !! id) as [b|] eqn:Hb; [|done]. apply go_bind_Ret in Hx as (w2 & Ha & [= -> <-]). split; [done|].
    subst w1. destruct (batch_uninterrupted cfg now g1 msg id b w' Hpc1 Hb Ha) as [n Hn]. exists n. by rewrite Hn, Hset. }
  unfold find_batch in Hf. destruct (pick (default [] (batches (base g) !! m_routingKey msg)) (m_userID msg)) as [id|] eqn:Ep.
  - injection Hf as <- <-. destruct (Hrest id (set_pc g (HBatch msg id))) as [-> [n Hn]]; [done|done|destruct g; cbn in *; by subst|done|].
    exists (S n). split; [done|]. rewrite <- Hn. apply works_S. unfold work. gsimpl. by rewrite Ep.
  - destruct (batches (base g) !! m_routingKey msg) as [ids|] eqn:Ek.
    { destruct (pick_Some ids (m_userID msg) (g_route_ne _ _ Hg _ _ Ek)) as (id & Hid & _). cbn in Ep. congruence. }
    apply go_bind_Ret in Hf as ([w2 ids] & Ha & [= <- <-]). assert (Hne : exists id, pick ids (m_userID msg) = Some id).
    { pose proof (batch_num_pos cfg (m_port msg)). destruct (batch_num cfg (m_port msg)) as [|n]; [lia|]. cbn [add_batches] in Ha.
      apply go_bind_Ret in Ha as (? & _ & Ha). apply go_bind_Ret in Ha as ([? ids2] & _ & [= _ <-]).
      destruct (pick_Some (next (base g) :: ids2) (m_userID msg)) as (id & ? & _); [done|eauto]. }
    destruct Hne as [id Hid]. set (w3 := mkWorker _ _ _ _) in *.
    destruct (Hrest id (set_pc (set_base g w3) (HBatch msg id))) as [-> [n Hn]]; [done|done|destruct g; cbn in *; by subst|done|].
    exists (S (S n)). split; [done|]. rewrite <- Hn. transitivity (works cfg now (S n) (set_pc g (HMake msg))).
    + apply works_S. unfold work. gsimpl. by rewrite Ek, Ep.
    + apply works_S. unfold work, make_batches. gsimpl. rewrite Ha. cbn [go_bind]. by rewrite Ek, Hid.
Qed.

Lemma flushes_items g xs st out :
  expired g = xs -> (forall id, holds (pc g) id = false) -> flush_items (tnow g) (store (base g)) xs = Ret (st, out) ->
  flushes (length xs) g = Next (mkG (set_store (base g) st) (evicted g) (pc g) [] (tnow g) (sweep g), out).
Proof.
  revert g st out. induction xs as [|it xs IH]; intros g st out Hxs Hh; cbn [flush_items].
  { intros [= <- <-]. destruct g as [[]]. cbn in *. by subst. }
  intros ([st1 o1] & H1 & Hx)%go_bind_Ret. apply go_bind_Ret in Hx as ([st2 o2] & H2 & [= <- <-]).
  cbn [length flushes]. unfold flush_next. rewrite Hxs, Hh, H1. cbn [obind]. by rewrite (IH _ st2 o2).
Qed.

Lemma tick_uninterrupted now g w' out :
  pc g = HIdle -> expired g = [] -> checkTimeout now (base g) = Ret (w', out) ->
  exists g1, pop_timer now g = Next g1 /\
    flushes (length (expired g1)) g1 = Next (mkG w' (evicted g) HIdle [] now (sweep g), out).
Proof.
  intros Hpc He. unfold checkTimeout, pop_timer. rewrite He. destruct (pop_expired _ now _) as [xs h].
  intros ([st o] & Hf & [= <- <-])%go_bind_Ret. eexists. split; [done|]. gsimpl. rewrite (flushes_items _ xs st o); [by rewrite Hpc|done|by rewrite Hpc|done].
Qed.

(** The operations of a worker are their critical sections: when no other goroutine comes in between,
    the sections of the message goroutine lead from the receipt of a message to exactly the state and the packets
    of [handleMsg], and the sections of the flush goroutine to those of [checkTimeout]. *)
Theorem sections_agree cfg g now :
  ginv cfg g -> pc g = HIdle ->
  (forall msg w' out, handleMsg cfg now (base g) msg = Ret (w', out) ->
     exists g1 n, take_msg cfg g msg = Ret (g1, out) /\ works cfg now n g1 = Next (set_base g w')) /\
  (forall w' out, expired g = [] -> checkTimeout now (base g) = Ret (w', out) ->
     exists g1, pop_timer now g = Next g1 /\
       flushes (length (expired g1)) g1 = Next (mkG w' (evicted g) HIdle [] now (sweep g), out)).
Proof. intros Hg Hpc. split; [intros msg w' out; by apply handle_uninterrupted|intros w' out He; by apply tick_uninterrupted]. Qed.
End Steps.

#[local] Existing Instance no_ipv6.

Lemma sections_agree_witness :
  exists w' n g1, handleMsg sample_cfg 0 new_worker (sample_msg 8080 7) = Ret (w', []) /\
    take_msg sample_cfg new_gworker (sample_msg 8080 7) = Ret (g1, []) /\ works sample_cfg 0 n g1 = Next (set_base new_gworker w').
Proof.
  destruct (sections_agree sample_cfg new_gworker 0 (ginv_new sample_cfg) eq_refl) as [Hh _].
  destruct (handleMsg sample_cfg 0 new_worker (sample_msg 8080 7)) as [[w' out]|] eqn:E; [|vm_compute in E; discriminate E].
  assert (Ho : out = []) by (vm_compute in E; congruence). subst out. destruct (Hh _ _ _ E) as (g1 & n & H1 & H2).
  exists w', n, g1. split; [reflexivity|]. split; [exact H1|exact H2].
Defined.
End AggregatorSteps.
