(* ===== verification/ModuleConfig.v ===== *)
(** * Configuration files (config.go of the three programs)

    Every program reads [config.yaml] beside its executable and, when that names no provider, the node
    configuration that the programs of a host share: [config/node.yaml] in the nearest directory above
    the executable, or above the working directory. *)

From Stdlib Require Import ZArith Lia.
From stdpp Require Import base list gmap strings.
From S2P Require Import Prelude GoStrings Packet Tunnel Aggregator.

Module ModuleConfig.

Local Open Scope Z_scope.

(** ** Files *)

(** An absolute clean path: its components, the last one first, so that [filepath.Dir] is the tail;
    [[]] is the root, its own parent. *)
Abbreviation path := (list string).

Inductive file_status := Found | NotExist | StatFailed.

(** What the operating system returns. *)
Record os := mkOS {
  stat : path -> file_status;
  read_file : path -> option string;
  executable : option path;
  working_dir : option path
}.

(** [yaml.Unmarshal] of a document into a value of type [T]; [None] is an error. *)
Class Yaml (T : Type) := unmarshal : string -> option T.

(** ** Configurations *)

Record NodeIP := mkNodeIP { Private : string; Public : string }.
Record NodeConfig := mkNode { Provider : string; Continent : string; Country : string; City : string; IP : NodeIP }.

Record TestPath := mkTestPath { tp_Port : Z; tp_Path : string }.
Record Listener := mkListener { l_Proto : string; l_Port : Z; l_BatchNum : Z }.
Record RateLimit := mkRateLimit { QPS : Z; Burst : Z; CleanInterval : Z }.
Record AggregatorConfig := mkAgg { ac_BufferSize : Z; ac_BatchTimeoutMs : Z }.

(** data-proxy *)
Record ProxyConfig := mkProxyConfig {
  Port : string; ControlHost : string; TestRouting : list TestPath;
  AggWorkerNum : Z; AggWorkerCount : Z; TcpWorkerCount : Z; BackWorkerCount : Z; TunnelConcurrentLimit : Z;
  Listeners : list Listener; RateLimit_ : RateLimit; Aggregator_ : AggregatorConfig; pc_Node : NodeConfig
}.

(** control-plane *)
Record ControlConfig := mkControlConfig { IpLib : string; ServerList : list string; ServerIP : string; DataDir : string; cc_Node : NodeConfig }.

(** data-plane *)
Record PlaneConfig := mkPlaneConfig { dc_ControlHost : string; AccessLog : string; dc_Node : NodeConfig }.

(** A configuration with a node. *)
Class HasNode (T : Type) := { get_node : T -> NodeConfig; set_node : T -> NodeConfig -> T }.

#[export] Instance proxy_node : HasNode ProxyConfig := {|
  get_node := pc_Node;
  set_node c n := mkProxyConfig (Port c) (ControlHost c) (TestRouting c) (AggWorkerNum c) (AggWorkerCount c) (TcpWorkerCount c) (BackWorkerCount c)
                    (TunnelConcurrentLimit c) (Listeners c) (RateLimit_ c) (Aggregator_ c) n |}.
#[export] Instance control_node : HasNode ControlConfig := {|
  get_node := cc_Node; set_node c n := mkControlConfig (IpLib c) (ServerList c) (ServerIP c) (DataDir c) n |}.
#[export] Instance plane_node : HasNode PlaneConfig := {|
  get_node := dc_Node; set_node c n := mkPlaneConfig (dc_ControlHost c) (AccessLog c) n |}.

(** ** Reading *)

Definition Dir (p : path) : path := tail p.
Definition candidate (dir : path) : path := "node.yaml" :: "config" :: dir.

(** [for dir := startDir; dir != filepath.Dir(dir); dir = filepath.Dir(dir)] *)
Fixpoint findNodeConfig (o : os) (dir : path) : option path :=
  match dir with
  | [] => None
  | _ :: parent => match stat o (candidate dir) with Found => Some (candidate dir) | _ => findNodeConfig o parent end
  end.

Definition find_shared (o : os) (exeDir : path) : option path :=
  match findNodeConfig o exeDir with
  | Some p => Some p
  | None => match working_dir o with Some cwd => findNodeConfig o cwd | None => None end
  end.

(** The node of the shared configuration; an error is only logged. *)
Definition shared_node `{Yaml NodeConfig} (o : os) (exeDir : path) : option NodeConfig :=
  match find_shared o exeDir with
  | None => None
  | Some p => match read_file o p with Some content => unmarshal content | None => None end
  end.

Inductive config_error := NoExecutable | NoConfigFile | ReadFailed | ParseFailed.

Definition ReadYamlConfig {T} `{Yaml T} `{HasNode T} `{Yaml NodeConfig} (o : os) : T + config_error :=
  match executable o with
  | None => inr NoExecutable
  | Some exePath =>
      let exeDir := Dir exePath in
      let configPath := "config.yaml" :: exeDir in
      match stat o configPath with
      | NotExist => inr NoConfigFile
      | _ =>
          match read_file o configPath with
          | None => inr ReadFailed
          | Some content =>
              match (unmarshal content : option T) with
              | None => inr ParseFailed
              | Some config =>
                  if String.eqb (Provider (get_node config)) "" then
                    match shared_node o exeDir with
                    | Some n => inl (set_node config n)
                    | None => inl config
                    end
                  else inl config
              end
          end
      end
  end.

(** The tables that the proxy makes of its configuration; [uint16(v.Port)] wraps around. *)
Definition testPathMap (c : ProxyConfig) : gmap Z string := foldl (fun m v => <[tp_Port v := tp_Path v]> m) ∅ (TestRouting c).
Definition batchNumMap (c : ProxyConfig) : gmap Z Z := foldl (fun m v => <[u16 (l_Port v) := l_BatchNum v]> m) ∅ (Listeners c).

(** The function of each program; the one of the proxy also fills the tables. *)
Definition proxy_ReadYamlConfig `{Yaml ProxyConfig} `{Yaml NodeConfig} (o : os) : (ProxyConfig * gmap Z string * gmap Z Z) + config_error :=
  match ReadYamlConfig o with
  | inl config => inl (config, testPathMap config, batchNumMap config)
  | inr e => inr e
  end.
Definition control_ReadYamlConfig `{Yaml ControlConfig} `{Yaml NodeConfig} : os -> ControlConfig + config_error := ReadYamlConfig.
Definition plane_ReadYamlConfig `{Yaml PlaneConfig} `{Yaml NodeConfig} : os -> PlaneConfig + config_error := ReadYamlConfig.

(** What the workers of the aggregator read. *)
Definition aggregator_config (c : ProxyConfig) : Aggregator.Config :=
  Aggregator.mkConfig (ac_BufferSize (Aggregator_ c)) (ac_BatchTimeoutMs (Aggregator_ c)) (batchNumMap c).

(** ** Proofs *)

#[global] Instance file_status_eq_dec : EqDecision file_status.
Proof. solve_decision. Defined.

Lemma findNodeConfig_cons o c dir :
  findNodeConfig o (c :: dir) = if decide (stat o (candidate (c :: dir)) = Found) then Some (candidate (c :: dir)) else findNodeConfig o dir.
Proof. cbn [findNodeConfig]. by destruct (stat o (candidate (c :: dir))). Qed.

(** [p] is the shared file of [parent], a directory on the way from [dir] to the root, and no directory
    below it has one. *)
Definition nearest (o : os) (dir p : path) : Prop :=
  exists below parent, dir = below ++ parent /\ parent <> [] /\ p = candidate parent /\ stat o p = Found /\
    forall d rest, below = d ++ rest -> rest <> [] -> stat o (candidate (rest ++ parent)) <> Found.

Lemma findNodeConfig_nearest o dir p : findNodeConfig o dir = Some p <-> nearest o dir p.
Proof.
  induction dir as [|c dir IH].
  { split; [done|]. intros (below & parent & Heq & Hne & _). symmetry in Heq. by apply app_eq_nil in Heq as [_ ->]. }
  rewrite findNodeConfig_cons. case_decide as Es.
  - split.
    + intros [= <-]. exists [], (c :: dir). split_and!; try done. intros d rest Hx Hne. symmetry in Hx. by apply app_eq_nil in Hx as [_ ->].
    + intros (below & parent & Heq & Hne & -> & Hf & Hno). destruct below as [|b below]; [by rewrite Heq|].
      exfalso. apply (Hno [] (b :: below)); [done|done|]. by rewrite <- Heq.
  - rewrite IH. split.
    + intros (below & parent & -> & Hne & -> & Hf & Hno). exists (c :: below), parent. split_and!; try done.
      intros d rest Hx Hr. destruct d as [|x d]; [cbn in Hx; by subst rest|]. injection Hx as _ Hx. by eapply Hno.
    + intros (below & parent & Heq & Hne & -> & Hf & Hno). destruct below as [|b below]; [cbn in Heq; by subst parent|].
      injection Heq as <- ->. exists below, parent. split_and!; try done. intros d rest -> Hr. by apply (Hno (c :: d)).
Qed.

Lemma findNodeConfig_None o dir : findNodeConfig o dir = None <-> forall p, ~ nearest o dir p.
Proof.
  destruct (findNodeConfig o dir) as [p|] eqn:E; split; try done.
  - intros Hn. exfalso. by apply (Hn p), findNodeConfig_nearest.
  - intros _ p Hp%findNodeConfig_nearest. congruence.
Qed.

(** ** Properties *)

(** Which node configuration a program runs with: its own when it names a provider; otherwise the
    shared file of the nearest directory above the executable, or else above the working directory, when that
    file can be read and parsed; otherwise its own, without a provider.  Nothing else of the configuration
    changes. *)
Theorem ReadYamlConfig_node {T} `{Yaml T} `{HasNode T} `{Yaml NodeConfig} o exePath content (config : T) :
  executable o = Some exePath -> stat o ("config.yaml" :: Dir exePath) <> NotExist ->
  read_file o ("config.yaml" :: Dir exePath) = Some content -> unmarshal content = Some config ->
  (Provider (get_node config) <> "" -> ReadYamlConfig (T := T) o = inl config) /\
  (Provider (get_node config) = "" -> forall p text n,
     nearest o (Dir exePath) p \/
       ((forall q, ~ nearest o (Dir exePath) q) /\ exists cwd, working_dir o = Some cwd /\ nearest o cwd p) ->
     read_file o p = Some text -> unmarshal text = Some n -> ReadYamlConfig (T := T) o = inl (set_node config n)) /\
  (Provider (get_node config) = "" -> shared_node o (Dir exePath) = None -> ReadYamlConfig (T := T) o = inl config).
Proof.
  intros He Hs Hr Hu. unfold ReadYamlConfig. rewrite He, Hr, Hu. destruct (stat o ("config.yaml" :: Dir exePath)); [|done|];
    (split_and!; [by intros Hp%String.eqb_neq; rewrite Hp|intros -> p text n Hp Ht Hn; cbn [String.eqb]|intros -> Hn; cbn [String.eqb]; by rewrite Hn]);
    unfold shared_node, find_shared;
    (assert (Hfind : match findNodeConfig o (Dir exePath) with Some q => Some q | None => match working_dir o with Some cwd => findNodeConfig o cwd | None => None end end = Some p);
      [destruct Hp as [Hp|(Hno & cwd & Hw & Hp)];
        [apply findNodeConfig_nearest in Hp; by rewrite Hp
        |apply findNodeConfig_None in Hno; rewrite Hno, Hw; by apply findNodeConfig_nearest]
      |by rewrite Hfind, Ht, Hn]).
Qed.

Lemma foldl_insert_last {A V} (key : A -> Z) (val : A -> V) l (m : gmap Z V) k :
  foldl (fun m v => <[key v := val v]> m) m l !! k =
  match List.find (fun v => key v =? k) (reverse l) with Some v => Some (val v) | None => m !! k end.
Proof.
  revert m. induction l as [|v l IH]; intros m; [done|]. cbn [foldl]. rewrite IH, reverse_cons.
  assert (Hf : forall l1 : list A, List.find (fun v => key v =? k) (l1 ++ [v]) =
    match List.find (fun v => key v =? k) l1 with Some x => Some x | None => if key v =? k then Some v else None end).
  { induction l1 as [|y l1 IHl]; [cbn; by destruct (key v =? k)|]. cbn [app List.find]. destruct (key y =? k); [done|]. apply IHl. }
  rewrite Hf. destruct (List.find _ (reverse l)); [done|]. destruct (Z.eqb_spec (key v) k) as [->|Hne]; [apply lookup_insert_eq|by apply lookup_insert_ne].
Qed.

(** How many batches a route gets: the [batch_num] of the last listener whose port, taken modulo 2^16,
    is the port of the _origin_ of the message, and one batch when there is none or its [batch_num] is not
    positive; the listener on which the request came in plays no part. *)
Theorem batch_num_of_origin c port :
  Aggregator.batch_num (aggregator_config c) port =
  match List.find (fun l => u16 (l_Port l) =? port) (reverse (Listeners c)) with
  | Some l => Z.to_nat (Z.max 1 (l_BatchNum l))
  | None => 1%nat
  end.
Proof.
  unfold Aggregator.batch_num, aggregator_config, batchNumMap. cbn [Aggregator.BatchNumMap]. rewrite foldl_insert_last.
  destruct (List.find _ _) as [l|]; [|done]. destruct (Z.leb_spec (l_BatchNum l) 0); [by rewrite Z.max_l by lia|by rewrite Z.max_r by lia].
Qed.

(** ** Instances *)

Definition no_node : NodeConfig := mkNode "" "" "" "" (mkNodeIP "" "").
Definition berlin : NodeConfig := mkNode "gcp" "EU" "DE" "Berlin" (mkNodeIP "10.0.0.1" "34.1.1.1").
Definition node_yaml : Yaml NodeConfig := fun s => if String.eqb s "node" then Some berlin else None.
Definition plane_yaml : Yaml PlaneConfig := fun s => if String.eqb s "plane" then Some (mkPlaneConfig "http://127.0.0.1:7081" "access.log" no_node) else None.

(** /srv/data-plane/data-plane, with /srv/config/node.yaml. *)
Definition sample_os : os :=
  mkOS (fun p => if bool_decide (p = ["node.yaml"; "config"; "srv"]) then Found else if bool_decide (p = ["config.yaml"; "data-plane"; "srv"]) then Found else NotExist)
    (fun p => if bool_decide (p = ["node.yaml"; "config"; "srv"]) then Some "node" else if bool_decide (p = ["config.yaml"; "data-plane"; "srv"]) then Some "plane" else None)
    (Some ["data-plane"; "data-plane"; "srv"]) (Some ["root"]).

Lemma ReadYamlConfig_node_witness :
  ReadYamlConfig (T := PlaneConfig) (H := plane_yaml) (H1 := node_yaml) sample_os = inl (mkPlaneConfig "http://127.0.0.1:7081" "access.log" berlin).
Proof.
  destruct (ReadYamlConfig_node (T := PlaneConfig) (H := plane_yaml) (H1 := node_yaml) sample_os ["data-plane"; "data-plane"; "srv"] "plane"
    (mkPlaneConfig "http://127.0.0.1:7081" "access.log" no_node)) as (_ & Hshared & _).
  - reflexivity.
  - vm_compute. discriminate.
  - reflexivity.
  - reflexivity.
  - apply (Hshared eq_refl ["node.yaml"; "config"; "srv"] "node" berlin).
    + left. apply findNodeConfig_nearest. reflexivity.
    + reflexivity.
    + reflexivity.
Defined.
End ModuleConfig.
