(* ===== verification/AggregatorPool.v ===== *)
(** * The aggregator with its goroutines (data-proxy/aggregator/aggregator.go)

    [NewAggregator], [Start], [AddToBatch] and [flush]: the workers of [AggregatorSteps] read one channel,
    every worker has a message, a flush and an eviction goroutine, and packets are sent by goroutines of which
    every worker may have a limited number.  One step is what one goroutine does between two points where it
    may have to wait for a lock, a channel or the semaphore. *)

From Stdlib Require Import ZArith Lia.
From stdpp Require Import base list gmap strings list_tactics.
From S2P Require Import Prelude GoStrings GoChan Packet Tunnel GoHeap Aggregator AggregatorSteps.
Import TunnelPacket Aggregator AggregatorSteps WorkerPool.

Module AggregatorPool.

Local Open Scope Z_scope.

(** ** State *)

Definition inputChanSize : Z := 100000.

#[global] Instance sendInfo_eq_dec : EqDecision sendInfo.
Proof. solve_decision. Defined.

(** A worker, what its message goroutine and its flush goroutine have yet to hand to senders, and the
    packets that its senders are sending (the slots of [sendSem] that are taken). *)
Record node := mkNode {
  core : gworker;
  outMsg : list sendInfo;
  outTick : list sendInfo;
  inFlight : list sendInfo
}.

Record aggregator := mkAggregator {
  inputChan : list aggregatorMsg;
  nodes : list node;
  sendCap : nat;             (* capacity of sendSem *)
  sent : list sendInfo;      (* [SendPacket] returned nil *)
  failed : list sendInfo     (* [SendPacket] returned an error, which is logged *)
}.

Definition new_node : node := mkNode new_gworker [] [] [].

(** [NewAggregator]: the configured numbers, or 8. *)
Definition or_eight (n : Z) : nat := Z.to_nat (if n <=? 0 then 8 else n).

Definition NewAggregator (AggWorkerNum AggWorkerCount : Z) : aggregator :=
  mkAggregator [] (replicate (or_eight AggWorkerNum) new_node) (or_eight AggWorkerCount) [] [].

(** ** Steps *)

Inductive pevent :=
| AddToBatch (msg : aggregatorMsg)
| Handle (i : nat)                                     (* worker i takes a message from the channel *)
| Step (i : nat) (e : gevent)                          (* one section of a goroutine of worker i *)
| FlushMsg (i : nat)                                   (* the message goroutine gets a slot and starts a sender *)
| FlushTick (i : nat)                                  (* the flush goroutine does *)
| SendDone (i : nat) (s : sendInfo) (ok : bool).       (* a sender returns and gives its slot back *)

Section Steps.
Context `{IPv6Parser}.

Definition set_node (a : aggregator) (i : nat) (n : node) : aggregator :=
  mkAggregator (inputChan a) (<[i := n]> (nodes a)) (sendCap a) (sent a) (failed a).

(** A tick comes when the flush goroutine has started the senders of the tick before. *)
Definition busy (oT : list sendInfo) (e : gevent) : bool :=
  match e, oT with PopExpired _, _ :: _ => true | _, _ => false end.

Definition pool_step (cfg : Config) (a : aggregator) (e : pevent) : outcome aggregator :=
  match e with
  | AddToBatch msg =>
      if (Z.of_nat (length (inputChan a)) <? inputChanSize) then
        Next (mkAggregator (inputChan a ++ [msg]) (nodes a) (sendCap a) (sent a) (failed a))
      else Blocked
  | Handle i =>
      match inputChan a, nodes a !! i with
      | msg :: rest, Some (mkNode g [] oT fl) =>
          match pc g with
          | HIdle =>
              match take_msg cfg g msg with
              | Ret (g', out) => Next (mkAggregator rest (<[i := mkNode g' out oT fl]> (nodes a)) (sendCap a) (sent a) (failed a))
              | Panic => Panics
              end
          | _ => Blocked
          end
      | _, _ => Blocked
      end
  | Step i e =>
      match nodes a !! i with
      | Some (mkNode g oM oT fl) =>
          if busy oT e then Blocked
          else let? (g', out) := gstep cfg g e in Next (set_node a i (mkNode g' oM (oT ++ out) fl))
      | None => Blocked
      end
  | FlushMsg i =>
      match nodes a !! i with
      | Some (mkNode g (s :: oM) oT fl) =>
          if (length fl <? sendCap a)%nat then Next (set_node a i (mkNode g oM oT (fl ++ [s]))) else Blocked
      | _ => Blocked
      end
  | FlushTick i =>
      match nodes a !! i with
      | Some (mkNode g oM (s :: oT) fl) =>
          match expired g with
          | [] => if (length fl <? sendCap a)%nat then Next (set_node a i (mkNode g oM oT (fl ++ [s]))) else Blocked
          | _ => Blocked
          end
      | _ => Blocked
      end
  | SendDone i s ok =>
      match nodes a !! i with
      | Some (mkNode g oM oT fl) =>
          match remove_first s fl with
          | Some fl' =>
              Next (mkAggregator (inputChan a) (<[i := mkNode g oM oT fl']> (nodes a)) (sendCap a)
                      (if ok : bool then sent a ++ [s] else sent a) (if ok then failed a else failed a ++ [s]))
          | None => Blocked
          end
      | None => Blocked
      end
  end.

Fixpoint pool_run (cfg : Config) (a : aggregator) (evs : list pevent) : outcome aggregator :=
  match evs with
  | [] => Next a
  | e :: evs => match pool_step cfg a e with Next a' => pool_run cfg a' evs | Blocked => Blocked | Panics => Panics end
  end.

(** ** What the aggregator owes *)

Definition msg_accepted (cfg : Config) (msg : aggregatorMsg) : list (string * SubPacket) := accepted cfg (Msg 0 msg).

(** Everything a worker has taken and that is not sent. *)
Definition node_owes (cfg : Config) (n : node) : list (string * SubPacket) :=
  mbind carried (outMsg n ++ outTick n ++ inFlight n) ++ gowes cfg (core n).

Definition owes (cfg : Config) (a : aggregator) : list (string * SubPacket) :=
  mbind (msg_accepted cfg) (inputChan a) ++ mbind (node_owes cfg) (nodes a).

Definition added (cfg : Config) (evs : list pevent) : list (string * SubPacket) :=
  mbind (fun e => match e with AddToBatch msg => msg_accepted cfg msg | _ => [] end) evs.

(** An eviction ends a route. *)
Definition is_eviction (e : pevent) : bool := match e with Step _ EvictRoute => true | _ => false end.

(** An eviction that removes a route of which the flush goroutine has popped a batch. *)
Definition pool_races (a : aggregator) (e : pevent) : bool :=
  match e with
  | Step i EvictRoute =>
      match nodes a !! i with
      | Some n => match evicting (core n) with Some v => races (core n) v | None => false end
      | None => false
      end
  | _ => false
  end.

Definition pevent_ok (e : pevent) : Prop := match e with AddToBatch msg => msg_ok msg | _ => True end.

Record agg_ok (cfg : Config) (a : aggregator) : Prop := {
  ag_chan : Z.of_nat (length (inputChan a)) <= inputChanSize;
  ag_msgs : Forall msg_ok (inputChan a);
  ag_nodes : Forall (fun n => ginv cfg (core n) /\ (length (inFlight n) <= sendCap a)%nat) (nodes a)
}.

Lemma agg_ok_set cfg a ch i n se fa :
  agg_ok cfg a -> Z.of_nat (length ch) <= inputChanSize -> Forall msg_ok ch -> ginv cfg (core n) -> (length (inFlight n) <= sendCap a)%nat ->
  agg_ok cfg (mkAggregator ch (<[i := n]> (nodes a)) (sendCap a) se fa).
Proof. intros [_ _ Hn] Hl Hc Hw Hf. constructor; [done|done|]. by apply Forall_insert. Qed.

(** All messages that the aggregator has accepted and not lost. *)
Definition total (cfg : Config) (a : aggregator) : list (string * SubPacket) := mbind carried (sent a ++ failed a) ++ owes cfg a.

(** A step that changes one worker. *)
Lemma total_set cfg a i n n' ch se fa lost :
  nodes a !! i = Some n ->
  mbind carried (se ++ fa) ++ mbind (msg_accepted cfg) ch ++ node_owes cfg n' ++ lost ≡ₚ
    mbind carried (sent a ++ failed a) ++ mbind (msg_accepted cfg) (inputChan a) ++ node_owes cfg n ->
  total cfg (mkAggregator ch (<[i := n']> (nodes a)) (sendCap a) se fa) ++ lost ≡ₚ total cfg a.
Proof.
  intros Hn Hp. destruct (bind_insert (node_owes cfg) (nodes a) i n n' Hn) as (rest & Hr & Hr'). unfold total, owes. cbn [sent failed inputChan nodes].
  rewrite Hr, Hr'. transitivity ((mbind carried (se ++ fa) ++ mbind (msg_accepted cfg) ch ++ node_owes cfg n' ++ lost) ++ rest); [solve_Permutation|].
  rewrite Hp. solve_Permutation.
Qed.

(** What a step does to the account: [a'] after [a], with [new] accepted and [lost] discarded. *)
Definition accounted (cfg : Config) (a a' : aggregator) (new : list (string * SubPacket)) (lossless : bool) : Prop :=
  agg_ok cfg a' /\ sendCap a' = sendCap a /\ length (nodes a') = length (nodes a) /\
  exists lost, total cfg a' ++ lost ≡ₚ total cfg a ++ new /\ (lossless = true -> lost = []).

Lemma accounted_set cfg a ch i n n' se fa lost lossless :
  agg_ok cfg a -> nodes a !! i = Some n -> Z.of_nat (length ch) <= inputChanSize -> Forall msg_ok ch ->
  ginv cfg (core n') -> (length (inFlight n') <= sendCap a)%nat ->
  mbind carried (se ++ fa) ++ mbind (msg_accepted cfg) ch ++ node_owes cfg n' ++ lost ≡ₚ
    mbind carried (sent a ++ failed a) ++ mbind (msg_accepted cfg) (inputChan a) ++ node_owes cfg n ->
  (lossless = true -> lost = []) ->
  accounted cfg a (mkAggregator ch (<[i := n']> (nodes a)) (sendCap a) se fa) [] lossless.
Proof.
  intros Ha Hn Hl Hm Hw Hf Hp Hll. split; [by apply agg_ok_set|]. split; [done|]. split; [apply length_insert|].
  exists lost. split; [|done]. rewrite app_nil_r. by eapply total_set.
Qed.

Lemma handle_accounted cfg a i a' :
  cfg_ok cfg -> agg_ok cfg a -> pool_step cfg a (Handle i) <> Panics /\
  (pool_step cfg a (Handle i) = Next a' -> accounted cfg a a' [] true).
Proof.
  intros Hc Ha. pose proof Ha as [Hl Hm Hns]. cbn [pool_step]. destruct (inputChan a) as [|msg rest] eqn:Ec; [done|].
  destruct (nodes a !! i) as [[g [|] oT fl]|] eqn:En; [|done..]. apply Forall_cons in Hm as [Hm Hms].
  pose proof (Forall_lookup_1 _ _ _ _ Hns En) as [Hg Hf]. cbn [core inFlight] in Hg, Hf. destruct (pc g) eqn:Hpc; try done.
  destruct (take_msg_spec cfg g msg Hc Hm Hg Hpc) as (g' & out & -> & Hg' & Hp & _). split; [done|]. intros [= <-].
  eapply accounted_set with (lost := []); [done|exact En|cbn in Hl; lia|done|done|done| |done].
  rewrite Ec. unfold node_owes. cbn [mbind list_bind outMsg outTick inFlight core]. rewrite app_nil_r, !bind_app.
  change (mbind carried []) with (@nil (string * SubPacket)). unfold msg_accepted at 2. revert Hp. generalize (mbind carried out), (accepted cfg (Msg 0 msg)).
  intros l1 l2 Hp. transitivity (mbind carried (sent a) ++ mbind carried (failed a) ++ mbind (msg_accepted cfg) rest ++ mbind carried oT ++ mbind carried fl ++ (l1 ++ gowes cfg g')); [solve_Permutation|].
  rewrite Hp. solve_Permutation.
Qed.

Lemma section_accounted cfg a i e a' :
  cfg_ok cfg -> agg_ok cfg a -> (pool_step cfg a (Step i e) = Panics <-> pool_races a (Step i e) = true) /\
  (pool_step cfg a (Step i e) = Next a' -> accounted cfg a a' [] (negb (is_eviction (Step i e)))).
Proof.
  intros Hc Ha. pose proof Ha as [Hl Hm Hns]. cbn [pool_step pool_races]. destruct (nodes a !! i) as [[g oM oT fl]|] eqn:En; [|by destruct e].
  pose proof (Forall_lookup_1 _ _ _ _ Hns En) as [Hg Hf]. cbn [core inFlight] in Hg, Hf. destruct (busy oT e) eqn:Eb; [by destruct e|]. split.
  - pose proof (gstep_panics cfg g e Hc Hg) as Hp. destruct (gstep cfg g e) as [[g' out]| |]; cbn [obind core].
    + split; [done|]. intros Hr. assert (Hx : Next (g', out) = Panics); [|done]. apply Hp. destruct e; try done. split; [done|]. destruct (evicting g); eauto; done.
    + split; [done|]. intros Hr. assert (Hx : @Blocked (gworker * list sendInfo) = Panics); [|done]. apply Hp. destruct e; try done. split; [done|]. destruct (evicting g); eauto; done.
    + split; [|done]. intros _. destruct Hp as [Hp _]. destruct (Hp eq_refl) as (-> & v & -> & ?). done.
  - intros ([g' out] & Hs & [= <-])%obind_Next. destruct (gstep_keeps cfg g e g' out Hc Hg Hs) as (Hg' & lost & Hp & Hl').
    eapply accounted_set with (lost := lost); [done|exact En|done|done|done|done| |].
    + unfold node_owes. cbn [outMsg outTick inFlight core]. rewrite !bind_app, <- Hp. solve_Permutation.
    + intros Hx. apply Hl'. by intros ->.
Qed.

(** A goroutine starts a sender, or a sender ends: the packet changes its place. *)
Lemma flush_accounted cfg a e a' :
  agg_ok cfg a -> match e with FlushMsg _ | FlushTick _ | SendDone _ _ _ => True | _ => False end ->
  pool_step cfg a e <> Panics /\ (pool_step cfg a e = Next a' -> accounted cfg a a' [] true).
Proof.
  intros Ha He. pose proof Ha as [Hl Hm Hns]. split; [destruct e; cbn [pool_step]; repeat case_match; done|].
  destruct e as [| | |i|i|i s ok]; try done; cbn [pool_step]; destruct (nodes a !! i) as [[g oM oT fl]|] eqn:En; try done;
    pose proof (Forall_lookup_1 _ _ _ _ Hns En) as [Hw Hf]; cbn [core inFlight] in Hw, Hf.
  - destruct oM as [|s oM]; [done|]. destruct (Nat.ltb_spec (length fl) (sendCap a)); [|done]. intros [= <-].
    eapply accounted_set with (lost := []); [done|exact En|done|done|done|cbn; rewrite length_app; simpl; lia| |done].
    unfold node_owes. cbn [outMsg outTick inFlight core]. rewrite !bind_app. cbn [mbind list_bind]. solve_Permutation.
  - destruct oT as [|s oT]; [done|]. destruct (expired g); [|done]. destruct (Nat.ltb_spec (length fl) (sendCap a)); [|done]. intros [= <-].
    eapply accounted_set with (lost := []); [done|exact En|done|done|done|cbn; rewrite length_app; simpl; lia| |done].
    unfold node_owes. cbn [outMsg outTick inFlight core]. rewrite !bind_app. cbn [mbind list_bind]. solve_Permutation.
  - destruct (remove_first s fl) as [fl'|] eqn:Er; [|done]. apply remove_first_Perm in Er. intros [= <-].
    pose proof (Permutation_length Er) as Hlen. simpl in Hlen.
    eapply accounted_set with (lost := []); [done|exact En|done|done|done|cbn; lia| |done].
    unfold node_owes. cbn [outMsg outTick inFlight core]. rewrite !bind_app, Er. destruct ok; rewrite !bind_app; cbn [mbind list_bind]; solve_Permutation.
Qed.

Lemma step_accounted cfg a e a' :
  cfg_ok cfg -> agg_ok cfg a -> pevent_ok e ->
  (pool_step cfg a e = Panics <-> pool_races a e = true) /\
  (pool_step cfg a e = Next a' -> accounted cfg a a' (added cfg [e]) (negb (is_eviction e))).
Proof.
  intros Hc Ha He. destruct e as [msg|i|i e|i|i|i s ok]; [| |by apply section_accounted|..].
  2: destruct (handle_accounted cfg a i a' Hc Ha) as [? ?]; split; [split; done|done].
  2-4: match goal with |- (pool_step _ _ ?e = _ <-> _) /\ _ => destruct (flush_accounted cfg a e a' Ha I) as [? ?] end; split; [split; done|done].
  cbn [pool_step]. destruct (Z.ltb_spec (Z.of_nat (length (inputChan a))) inputChanSize); [|done]. split; [done|]. intros [= <-].
  destruct Ha as [Hl Hm Hn]. split; [|split; [done|split; [done|]]].
  - constructor; cbn [inputChan nodes sendCap]; [rewrite length_app; cbn [length]; lia|apply Forall_app; split; [done|by constructor]|done].
  - exists []. split; [|done]. unfold total, owes, added. cbn [inputChan nodes sent failed]. rewrite !bind_app. cbn [mbind list_bind]. solve_Permutation.
Qed.

(** Only evictions panic. *)
Lemma races_eviction a e : pool_races a e = true -> is_eviction e = true.
Proof. by destruct e as [| |i []| | |]. Qed.

Lemma run_accounted cfg a evs a' :
  cfg_ok cfg -> agg_ok cfg a -> Forall pevent_ok evs -> pool_run cfg a evs = Next a' ->
  accounted cfg a a' (added cfg evs) (negb (existsb is_eviction evs)).
Proof.
  intros Hc Ha He. revert a Ha. induction He as [|e evs He Hes IH]; intros a Ha; cbn [pool_run].
  { intros [= <-]. split_and!; [done..|]. exists []. by rewrite !app_nil_r. }
  destruct (pool_step cfg a e) as [a1| |] eqn:Es; [|done..]. intros Hr.
  destruct (step_accounted cfg a e a1 Hc Ha He) as [_ Hs]. destruct (Hs Es) as (Ha1 & Hc1 & Hl1 & lost1 & Hp1 & Hn1).
  destruct (IH a1 Ha1 Hr) as (Ha2 & Hc2 & Hl2 & lost2 & Hp2 & Hn2). split_and!; [done|congruence|congruence|].
  exists (lost2 ++ lost1). split.
  - rewrite app_assoc, Hp2. transitivity (added cfg evs ++ total cfg a1 ++ lost1); [solve_Permutation|]. rewrite Hp1.
    unfold added. cbn [mbind list_bind]. solve_Permutation.
  - cbn [existsb]. rewrite negb_orb, andb_true_iff. intros [H1 H2]. by rewrite Hn1, Hn2.
Qed.

Lemma agg_ok_new cfg num count : agg_ok cfg (NewAggregator num count).
Proof. constructor; cbn; [done|constructor|]. apply Forall_replicate. split; [apply ginv_new|simpl; lia]. Qed.

Lemma total_new cfg num count : total cfg (NewAggregator num count) = [].
Proof. unfold total, owes. cbn -[replicate]. by induction (or_eight num). Qed.

(** ** Draining *)

(** Steps of the workers and senders in which nothing is discarded. *)
Definition benign (e : pevent) : bool :=
  match e with AddToBatch _ | Step _ EvictRoute => false | SendDone _ _ ok => ok | _ => true end.

Definition leads (cfg : Config) (a a' : aggregator) : Prop :=
  exists evs, Forall (fun e => benign e = true) evs /\ pool_run cfg a evs = Next a'.

Lemma pool_run_app cfg a evs1 evs2 a1 : pool_run cfg a evs1 = Next a1 -> pool_run cfg a (evs1 ++ evs2) = pool_run cfg a1 evs2.
Proof.
  revert a. induction evs1 as [|e evs1 IH]; intros a; cbn [pool_run app]; [by intros [= ->]|].
  destruct (pool_step cfg a e); [|done..]. apply IH.
Qed.

Lemma leads_refl cfg a : leads cfg a a.
Proof. by exists []. Qed.

Lemma leads_trans cfg a1 a2 a3 : leads cfg a1 a2 -> leads cfg a2 a3 -> leads cfg a1 a3.
Proof.
  intros (l1 & Hb1 & Hr1) (l2 & Hb2 & Hr2). exists (l1 ++ l2). split; [by apply Forall_app|]. by rewrite (pool_run_app _ _ _ _ _ Hr1).
Qed.

Lemma leads_step cfg a e a1 a2 : benign e = true -> pool_step cfg a e = Next a1 -> leads cfg a1 a2 -> leads cfg a a2.
Proof. intros Hb Hs (l & Hl & Hr). exists (e :: l). split; [by constructor|]. cbn [pool_run]. by rewrite Hs. Qed.

Lemma leads_accounted cfg a a' : cfg_ok cfg -> agg_ok cfg a -> leads cfg a a' -> accounted cfg a a' [] true.
Proof.
  intros Hc Ha (evs & Hb & Hr). assert (He : Forall pevent_ok evs) by (eapply Forall_impl; [exact Hb|]; by intros []).
  assert (Hx : added cfg evs = [] /\ existsb is_eviction evs = false).
  { clear -Hb. induction Hb as [|e evs He Hb [IH1 IH2]]; [done|]. unfold added in *. cbn [mbind list_bind existsb] in *. rewrite IH1, IH2. by destruct e as [| |? []| | |]. }
  destruct Hx as [Hx1 Hx2]. pose proof (run_accounted cfg a evs a' Hc Ha He Hr) as Hacc. by rewrite Hx1, Hx2 in Hacc.
Qed.

Lemma leads_ok cfg a a' : cfg_ok cfg -> agg_ok cfg a -> leads cfg a a' -> agg_ok cfg a'.
Proof. intros Hc Ha Hl. by destruct (leads_accounted cfg a a' Hc Ha Hl). Qed.

(** [a'] is [a] with another state of worker [i], and more packets sent. *)
Definition settled (a a' : aggregator) (i : nat) (n : node) : Prop :=
  inputChan a' = inputChan a /\ nodes a' = <[i := n]> (nodes a) /\ sendCap a' = sendCap a /\ failed a' = failed a.

Lemma settled_trans a1 a2 a3 i n2 n3 : settled a1 a2 i n2 -> settled a2 a3 i n3 -> settled a1 a3 i n3.
Proof. intros (H1 & H2 & H3 & H4) (H1' & H2' & H3' & H4'). split_and!; try congruence. by rewrite H2', H2, list_insert_insert_eq. Qed.

Lemma settled_refl a i n : nodes a !! i = Some n -> settled a a i n.
Proof. intros Hn. split_and!; try done. by rewrite list_insert_id. Qed.

Lemma settled_lookup a a' i n : (i < length (nodes a))%nat -> settled a a' i n -> nodes a' !! i = Some n.
Proof. intros Hi (_ & -> & _). by apply list_lookup_insert_eq. Qed.

(** One step of worker [i], and the way on from there. *)
Lemma settle_step cfg a i n n1 (P : aggregator -> node -> Prop) e a1 :
  nodes a !! i = Some n -> benign e = true -> pool_step cfg a e = Next a1 -> settled a a1 i n1 ->
  (exists a' n', leads cfg a1 a' /\ settled a1 a' i n' /\ P a' n') -> exists a' n', leads cfg a a' /\ settled a a' i n' /\ P a' n'.
Proof. intros Hn Hb Hs Hset (a' & n' & Hl & Hset' & Hx). exists a', n'. split; [by eapply leads_step|]. split; [by eapply settled_trans|done]. Qed.

(** The message goroutine can finish. *)
Lemma finish_handler cfg a i g oM oT fl :
  cfg_ok cfg -> agg_ok cfg a -> nodes a !! i = Some (mkNode g oM oT fl) ->
  exists a' n', leads cfg a a' /\ settled a a' i n' /\ exists g', n' = mkNode g' oM oT fl /\ pc g' = HIdle /\ (pc g = HIdle -> g' = g).
Proof.
  intros Hc. remember (left_of (pc g)) as k eqn:Hk. revert a g Hk. induction (lt_wf k) as [k _ IH]. intros a g Hk Ha Hn.
  destruct (decide (k = 0%nat)) as [->|H0].
  { exists a, (mkNode g oM oT fl). split; [apply leads_refl|]. split; [by apply settled_refl|]. exists g. split; [done|]. split; [by destruct (pc g)|done]. }
  assert (Hpc : pc g <> HIdle) by (intros Hx; rewrite Hx in Hk; done).
  pose proof (Forall_lookup_1 _ _ _ _ (ag_nodes _ _ Ha) Hn) as [Hg _]. cbn [core] in Hg.
  destruct (work_moved cfg 0 g Hc Hg Hpc) as (g1 & Hw & _ & _ & Hlt & _).
  assert (Hs : pool_step cfg a (Step i (Work 0)) = Next (set_node a i (mkNode g1 oM (oT ++ []) fl))) by (cbn [pool_step busy gstep]; by rewrite Hn, Hw).
  rewrite app_nil_r in Hs.
  eapply settle_step; [exact Hn| |exact Hs|by split_and!|]; [done|].
  destruct (IH (left_of (pc g1)) ltac:(lia) (set_node a i (mkNode g1 oM oT fl)) g1) as (a' & n' & Hl & Hset & g' & -> & Hi & _); [done| | |].
  - by apply (leads_ok cfg a _ Hc Ha), (leads_step cfg a (Step i (Work 0)) _ _ eq_refl Hs), leads_refl.
  - cbn. apply list_lookup_insert_eq. by eapply lookup_lt_Some.
  - exists a', (mkNode g' oM oT fl). split_and!; [done..|]. exists g'. by split_and!.
Qed.

(** Then so can the flush goroutine. *)
Lemma finish_timer cfg a i g oM oT fl :
  cfg_ok cfg -> agg_ok cfg a -> nodes a !! i = Some (mkNode g oM oT fl) -> pc g = HIdle ->
  exists a' n', leads cfg a a' /\ settled a a' i n' /\
    exists g' oT', n' = mkNode g' oM oT' fl /\ pc g' = HIdle /\ expired g' = [] /\ heap (base g') = heap (base g).
Proof.
  intros Hc. remember (expired g) as xs eqn:Hx. revert a g oT Hx. induction xs as [|it xs IH]; intros a g oT Hx Ha Hn Hpc.
  { exists a, (mkNode g oM oT fl). split; [apply leads_refl|]. split; [by apply settled_refl|]. by exists g, oT. }
  pose proof (Forall_lookup_1 _ _ _ _ (ag_nodes _ _ Ha) Hn) as [Hg _]. cbn [core] in Hg.
  destruct (flush_keeps cfg g it xs Hg (eq_sym Hx)) as (g1 & out & Hf & _ & _ & Hpc1 & He1 & Hh1); [by rewrite Hpc|].
  assert (Hs : pool_step cfg a (Step i FlushItem) = Next (set_node a i (mkNode g1 oM (oT ++ out) fl))) by (cbn [pool_step busy gstep]; by rewrite Hn, Hf).
  eapply settle_step; [exact Hn| |exact Hs|by split_and!|]; [done|].
  destruct (IH (set_node a i (mkNode g1 oM (oT ++ out) fl)) g1 (oT ++ out)) as (a' & n' & Hl & Hset & g' & oT' & -> & Hi & He & Hh); [done| | |congruence|].
  - by apply (leads_ok cfg a _ Hc Ha), (leads_step cfg a (Step i FlushItem) _ _ eq_refl Hs), leads_refl.
  - cbn. apply list_lookup_insert_eq. by eapply lookup_lt_Some.
  - exists a', (mkNode g' oM oT' fl). split_and!; [done..|]. exists g', oT'. split_and!; [done..|congruence].
Qed.

(** Then so can the senders. *)
Lemma finish_senders cfg a i g oM oT fl :
  (0 < sendCap a)%nat -> expired g = [] -> nodes a !! i = Some (mkNode g oM oT fl) ->
  exists a' n', leads cfg a a' /\ settled a a' i n' /\ n' = mkNode g [] [] [].
Proof.
  remember (2 * (length oM + length oT) + length fl)%nat as k eqn:Hk. revert a oM oT fl Hk.
  induction (lt_wf k) as [k _ IH]. intros a oM oT fl Hk Hs He Hn. pose proof (lookup_lt_Some _ _ _ Hn) as Hlt.
  assert (Hset : forall n1, nodes (set_node a i n1) !! i = Some n1) by (intros n1; cbn; by apply list_lookup_insert_eq).
  destruct fl as [|s fl]; [destruct oM as [|s oM]; [destruct oT as [|s oT]|]|].
  - exists a, (mkNode g [] [] []). split; [apply leads_refl|]. split; [by apply settled_refl|done].
  - eapply (settle_step cfg a i _ (mkNode g [] oT [s]) (fun _ n' => n' = mkNode g [] [] []) (FlushTick i) (set_node a i (mkNode g [] oT [s]))); [exact Hn|done| |by split_and!|].
    + cbn [pool_step]. rewrite Hn, He. cbn [length]. by rewrite (proj2 (Nat.ltb_lt _ _) Hs).
    + refine (IH _ _ (set_node a i (mkNode g [] oT [s])) [] oT [s] eq_refl Hs He (Hset _)). cbn in *. lia.
  - eapply (settle_step cfg a i _ (mkNode g oM oT [s]) (fun _ n' => n' = mkNode g [] [] []) (FlushMsg i) (set_node a i (mkNode g oM oT [s]))); [exact Hn|done| |by split_and!|].
    + cbn [pool_step]. rewrite Hn. cbn [length]. by rewrite (proj2 (Nat.ltb_lt _ _) Hs).
    + refine (IH _ _ (set_node a i (mkNode g oM oT [s])) oM oT [s] eq_refl Hs He (Hset _)). cbn in *. lia.
  - eapply (settle_step cfg a i _ (mkNode g oM oT fl) (fun _ n' => n' = mkNode g [] [] []) (SendDone i s true)
      (mkAggregator (inputChan a) (<[i := mkNode g oM oT fl]> (nodes a)) (sendCap a) (sent a ++ [s]) (failed a))); [exact Hn|done| | |].
    + cbn [pool_step]. rewrite Hn. cbn [remove_first]. by rewrite decide_True by done.
    + by split_and!.
    + refine (IH _ _ (mkAggregator (inputChan a) (<[i := mkNode g oM oT fl]> (nodes a)) (sendCap a) (sent a ++ [s]) (failed a)) oM oT fl eq_refl Hs He (list_lookup_insert_eq _ _ _ Hlt)). cbn in *. lia.
Qed.

(** A worker can come to rest. *)
Lemma calm cfg a i n :
  cfg_ok cfg -> agg_ok cfg a -> (0 < sendCap a)%nat -> nodes a !! i = Some n ->
  exists a' g', leads cfg a a' /\ settled a a' i (mkNode g' [] [] []) /\ pc g' = HIdle /\ expired g' = [] /\
    (pc (core n) = HIdle -> heap (base g') = heap (base (core n))).
Proof.
  destruct n as [g oM oT fl]. intros Hc Ha Hs Hn. pose proof (lookup_lt_Some _ _ _ Hn) as Hlt.
  destruct (finish_handler cfg a i g oM oT fl Hc Ha Hn) as (a1 & n1 & Hl1 & Hs1 & g1 & -> & Hi1 & Hk1). pose proof (leads_ok _ _ _ Hc Ha Hl1) as Ha1.
  pose proof (settled_lookup _ _ _ _ Hlt Hs1) as Hn1.
  destruct (finish_timer cfg a1 i g1 oM oT fl Hc Ha1 Hn1 Hi1) as (a2 & n2 & Hl2 & Hs2 & g2 & oT2 & -> & Hi2 & He2 & Hh2).
  pose proof (settled_trans _ _ _ _ _ _ Hs1 Hs2) as Hs12. pose proof (settled_lookup _ _ _ _ Hlt Hs12) as Hn2.
  destruct (finish_senders cfg a2 i g2 oM oT2 fl) as (a3 & n3 & Hl3 & Hs3 & ->); [destruct Hs12 as (_ & _ & -> & _); done|done|done|].
  exists a3, g2. split_and!; [eapply leads_trans; [exact Hl1|]; by eapply leads_trans|by eapply settled_trans|done|done|]. cbn [core]. intros Hx. rewrite Hh2. by rewrite (Hk1 Hx).
Qed.

(** The first worker can empty the channel. *)
Lemma drain_queue cfg a :
  cfg_ok cfg -> agg_ok cfg a -> (0 < sendCap a)%nat -> (0 < length (nodes a))%nat ->
  exists a', leads cfg a a' /\ inputChan a' = [] /\ sendCap a' = sendCap a /\ length (nodes a') = length (nodes a) /\ failed a' = failed a.
Proof.
  intros Hc. remember (inputChan a) as ch eqn:Hch. revert a Hch. induction ch as [|msg ch IH]; intros a Hch Ha Hs Hn.
  { exists a. split_and!; [apply leads_refl|done..]. }
  destruct (lookup_lt_is_Some_2 (nodes a) 0 Hn) as [n0 H0].
  destruct (calm cfg a 0 n0 Hc Ha Hs H0) as (a1 & g & Hl1 & Hset & Hpc & _ & _). pose proof Hset as (Hc1 & Hn1 & Hs1 & Hf1). pose proof (leads_ok _ _ _ Hc Ha Hl1) as Ha1.
  pose proof (settled_lookup _ _ _ _ Hn Hset) as H01. pose proof Ha1 as [_ Hm1 Hns1]. rewrite Hc1, <- Hch in Hm1. apply Forall_cons in Hm1 as [Hm _].
  pose proof (Forall_lookup_1 _ _ _ _ Hns1 H01) as [Hg _]. destruct (take_msg_spec cfg g msg Hc Hm Hg Hpc) as (g' & out & Hh & _ & _).
  set (a2 := mkAggregator ch (<[0%nat := mkNode g' out [] []]> (nodes a1)) (sendCap a1) (sent a1) (failed a1)).
  assert (Hstep : pool_step cfg a1 (Handle 0) = Next a2) by (cbn [pool_step]; by rewrite Hc1, <- Hch, H01, Hpc, Hh).
  assert (Hl2 : leads cfg a a2) by (eapply leads_trans; [exact Hl1|]; by eapply leads_step; [|exact Hstep|apply leads_refl]).
  destruct (IH a2) as (a' & Hl & Hq & Hsc & Hln & Hfl); [done|exact (leads_ok _ _ _ Hc Ha Hl2)|cbn; lia| |].
  { cbn. by rewrite length_insert, Hn1, length_insert. }
  exists a'. split_and!; [by eapply leads_trans|done|cbn in Hsc; congruence| |cbn in Hfl; congruence].
  rewrite Hln. cbn. by rewrite length_insert, Hn1, length_insert.
Qed.

Lemma deadline_bound w : exists T, deadlines_le T w.
Proof.
  unfold deadlines_le. induction (map val (heap w)) as [|it l [T IH]]; [exists 0; set_solver|]. exists (Z.max T (it_deadline it)).
  intros it' [->|Hin]%elem_of_cons; [lia|]. specialize (IH it' Hin). lia.
Qed.

Definition quiet (cfg : Config) (n : node) : Prop := node_owes cfg n = [].

(** A worker can send everything it has. *)
Lemma quieten cfg a i n :
  cfg_ok cfg -> agg_ok cfg a -> (0 < sendCap a)%nat -> nodes a !! i = Some n ->
  exists a' n', leads cfg a a' /\ settled a a' i n' /\ quiet cfg n'.
Proof.
  intros Hc Ha Hs Hn. pose proof (lookup_lt_Some _ _ _ Hn) as Hlt. destruct (calm cfg a i n Hc Ha Hs Hn) as (a1 & g1 & Hl1 & Hs1 & Hpc1 & He1 & _).
  pose proof (leads_ok _ _ _ Hc Ha Hl1) as Ha1. pose proof (settled_lookup _ _ _ _ Hlt Hs1) as Hn1.
  pose proof (Forall_lookup_1 _ _ _ _ (ag_nodes _ _ Ha1) Hn1) as [Hg1 _]. cbn [core] in Hg1. destruct (deadline_bound (base g1)) as [T HT].
  destruct (pop_keeps cfg T g1 Hg1 He1) as (g2 & Hp & _ & _ & Hpc2 & Hh2).
  set (a2 := set_node a1 i (mkNode g2 [] ([] ++ []) [])).
  assert (Hstep : pool_step cfg a1 (Step i (PopExpired T)) = Next a2) by (cbn [pool_step busy gstep]; by rewrite Hn1, Hp).
  assert (Hl2 : leads cfg a a2) by (eapply leads_trans; [exact Hl1|]; by eapply leads_step; [|exact Hstep|apply leads_refl]).
  assert (Hs2 : settled a a2 i (mkNode g2 [] [] [])) by (by eapply settled_trans; [exact Hs1|]).
  destruct (calm cfg a2 i (mkNode g2 [] [] []) Hc (leads_ok _ _ _ Hc Ha Hl2)) as (a3 & g3 & Hl3 & Hs3 & Hpc3 & He3 & Hh3);
    [destruct Hs2 as (_ & _ & -> & _); done|by eapply settled_lookup|].
  pose proof (leads_trans _ _ _ _ Hl2 Hl3) as Hl. pose proof (settled_trans _ _ _ _ _ _ Hs2 Hs3) as Hset.
  exists a3, (mkNode g3 [] [] []). split_and!; [done..|]. unfold quiet, node_owes. cbn [outMsg outTick inFlight core app mbind list_bind].
  pose proof (Forall_lookup_1 _ _ _ _ (ag_nodes _ _ (leads_ok _ _ _ Hc Ha Hl)) (settled_lookup _ _ _ _ Hlt Hset)) as [Hg3 _].
  apply idle_owes; [done|done|]. unfold items. rewrite He3, app_nil_r, Hh3 by (cbn [core]; congruence). cbn [core].
  apply elem_of_nil_inv. intros it [Hin Hlt']%Hh2. apply HT in Hin. lia.
Qed.

Lemma drain_ticks cfg a k :
  cfg_ok cfg -> agg_ok cfg a -> (0 < sendCap a)%nat -> (k <= length (nodes a))%nat ->
  exists a', leads cfg a a' /\ inputChan a' = inputChan a /\ sendCap a' = sendCap a /\ length (nodes a') = length (nodes a) /\
    failed a' = failed a /\ Forall (quiet cfg) (take k (nodes a')).
Proof.
  intros Hc Ha Hs. induction k as [|k IH]; intros Hk; [exists a; split_and!; [apply leads_refl|done..]|].
  destruct IH as (a1 & Hl1 & Hc1 & Hs1 & Hn1 & Hf1 & Hq1); [lia|]. pose proof (leads_ok _ _ _ Hc Ha Hl1) as Ha1.
  destruct (lookup_lt_is_Some_2 (nodes a1) k ltac:(lia)) as [n Hn].
  destruct (quieten cfg a1 k n Hc Ha1 ltac:(lia) Hn) as (a2 & n' & Hl2 & (Hc2 & Hn2 & Hs2 & Hf2) & Hq).
  exists a2. split_and!; [by eapply leads_trans|congruence|congruence|rewrite Hn2, length_insert; congruence|congruence|].
  rewrite Hn2, (take_S_r _ k n') by (apply list_lookup_insert_eq; lia). rewrite take_insert_ge by lia.
  apply Forall_app. split; [done|]. by constructor.
Qed.

Lemma drains cfg a :
  cfg_ok cfg -> agg_ok cfg a -> (0 < sendCap a)%nat -> (0 < length (nodes a))%nat ->
  exists a', leads cfg a a' /\ owes cfg a' = [] /\ failed a' = failed a /\ inputChan a' = [].
Proof.
  intros Hc Ha Hs Hn. destruct (drain_queue cfg a Hc Ha Hs Hn) as (a1 & Hl1 & Hq & Hs1 & Hn1 & Hf1).
  destruct (drain_ticks cfg a1 (length (nodes a1)) Hc (leads_ok _ _ _ Hc Ha Hl1)) as (a2 & Hl2 & Hq2 & Hs2 & Hn2 & Hf2 & Hqu); [lia|done|].
  exists a2. split; [by eapply leads_trans|]. split; [|split; congruence]. unfold owes. rewrite Hq2, Hq. cbn [mbind list_bind app].
  rewrite <- Hn2, firstn_all in Hqu. clear -Hqu. induction Hqu as [|n ns Hn Hns IH]; [done|]. cbn [mbind list_bind]. by rewrite Hn.
Qed.

(** ** Properties *)

(** C6. The whole aggregator, in every interleaving of the critical sections of its message, flush and eviction
    goroutines and of its senders: a step panics exactly when an eviction removes a route of which the flush
    goroutine has popped a batch and not flushed it yet; no worker has more packets in flight than
    [AggWorkerCount]; every accepted message is exactly one of: sent, lost with a packet that failed to be
    sent, still in the aggregator, or discarded by an eviction; without evictions nothing is discarded. *)
Theorem aggregator_accounts cfg num count evs a :
  cfg_ok cfg -> Forall pevent_ok evs -> pool_run cfg (NewAggregator num count) evs = Next a ->
  (forall e, pevent_ok e -> pool_step cfg a e = Panics <-> pool_races a e = true) /\
  Forall (fun n => (length (inFlight n) <= or_eight count)%nat) (nodes a) /\
  exists lost, mbind carried (sent a ++ failed a) ++ owes cfg a ++ lost ≡ₚ added cfg evs /\ (existsb is_eviction evs = false -> lost = []).
Proof.
  intros Hc He Hr. destruct (run_accounted _ _ _ _ Hc (agg_ok_new cfg num count) He Hr) as (Ha & Hs & _ & lost & Hp & Hl). split_and!.
  - intros e Hok. by apply (step_accounted cfg a e a).
  - cbn in Hs. rewrite <- Hs. eapply Forall_impl; [apply Ha|]. by intros n [_ ?].
  - exists lost. split; [|intros Hx; apply Hl; by rewrite Hx]. unfold total at 1 in Hp. rewrite <- app_assoc in Hp. by rewrite Hp, total_new.
Qed.

(** C7. The aggregator can always finish: whatever has happened, its goroutines can go on, without any
    eviction and with every send succeeding, until nothing is queued, pending or in flight; every
    accepted message is then sent, apart from what evictions discarded and failed sends lost
    before. *)
Theorem aggregator_drains cfg num count evs a :
  cfg_ok cfg -> Forall pevent_ok evs -> pool_run cfg (NewAggregator num count) evs = Next a ->
  exists evs' a' lost, Forall (fun e => benign e = true) evs' /\ pool_run cfg (NewAggregator num count) (evs ++ evs') = Next a' /\
    owes cfg a' = [] /\ failed a' = failed a /\
    mbind carried (sent a') ++ mbind carried (failed a) ++ lost ≡ₚ added cfg evs /\ (existsb is_eviction evs = false -> lost = []).
Proof.
  intros Hc He Hr. destruct (run_accounted _ _ _ _ Hc (agg_ok_new cfg num count) He Hr) as (Ha & Hs & Hn & lost & Hp & Hl).
  assert (Hpos : forall n, (0 < or_eight n)%nat) by (intros n; unfold or_eight; destruct (Z.leb_spec n 0); lia).
  destruct (drains cfg a Hc Ha) as (a' & Hle & Ho & Hf & _); [rewrite Hs; apply Hpos|rewrite Hn; cbn; rewrite length_replicate; apply Hpos|].
  destruct (leads_accounted cfg a a' Hc Ha Hle) as (_ & _ & _ & lost' & Hp' & Hl'). rewrite (Hl' eq_refl), !app_nil_r in Hp'.
  destruct Hle as (evs' & Hb & Hr'). exists evs', a', lost. split_and!; [done|by rewrite (pool_run_app _ _ _ _ _ Hr)|done|done| |].
  - rewrite <- Hf. unfold total at 1 in Hp'. rewrite Ho, app_nil_r, bind_app in Hp'. by rewrite app_assoc, Hp', Hp, total_new.
  - intros Hx. apply Hl. by rewrite Hx.
Qed.
End Steps.

(** ** Concrete runs *)

#[local] Existing Instance no_ipv6.

(** Two workers, each in the middle of a message while the other goes on. *)
Definition sample_pool_events : list pevent :=
  [AddToBatch (sample_msg 8080 7); AddToBatch (sample_msg 8080 8); Handle 1; Step 1 (Work 0); Handle 0; Step 1 (Work 0); Step 0 (Work 5);
   Step 1 (Work 0); Step 1 (Work 0); Step 1 (PopExpired 1); Step 1 (Work 0); Step 0 (Work 5); Step 1 (PopExpired (51 * millisecond));
   Step 1 FlushItem; FlushTick 1].

Lemma sample_pool_ok : Forall pevent_ok sample_pool_events.
Proof. repeat (apply Forall_cons_2; [|]); try done; apply sample_msg_ok; vm_compute; done. Qed.

Definition in_flight (o : outcome aggregator) : option (list nat) :=
  match o with Next a => Some ((fun n => length (inFlight n)) <$> nodes a) | _ => None end.

Lemma sample_pool_runs : in_flight (pool_run sample_cfg (NewAggregator 2 1) sample_pool_events) = Some [0; 1]%nat.
Proof. vm_compute. reflexivity. Qed.

Lemma aggregator_accounts_witness :
  match pool_run sample_cfg (NewAggregator 2 1) sample_pool_events with
  | Next a => mbind carried (sent a ++ failed a) ++ owes sample_cfg a ≡ₚ added sample_cfg sample_pool_events
  | _ => False
  end.
Proof.
  pose proof sample_pool_runs as Hs. destruct (pool_run sample_cfg (NewAggregator 2 1) sample_pool_events) as [a| |] eqn:E; [|discriminate Hs|discriminate Hs].
  destruct (aggregator_accounts sample_cfg 2 1 sample_pool_events a sample_cfg_ok sample_pool_ok E) as (_ & _ & lost & Hp & Hl).
  rewrite (Hl eq_refl), app_nil_r in Hp. exact Hp.
Defined.

Lemma aggregator_drains_witness :
  exists evs a, pool_run sample_cfg (NewAggregator 2 1) (sample_pool_events ++ evs) = Next a /\ mbind carried (sent a) ≡ₚ added sample_cfg sample_pool_events.
Proof.
  pose proof sample_pool_runs as Hs. destruct (pool_run sample_cfg (NewAggregator 2 1) sample_pool_events) as [a| |] eqn:E; [|discriminate Hs|discriminate Hs].
  destruct (aggregator_drains sample_cfg 2 1 sample_pool_events a sample_cfg_ok sample_pool_ok E) as (evs & a' & lost & _ & Hr & _ & _ & Hp & Hl).
  exists evs, a'. split; [exact Hr|]. rewrite (Hl eq_refl), app_nil_r in Hp.
  assert (Hf : failed a = []) by (vm_compute in E; by injection E as <-). rewrite Hf in Hp. cbn [mbind list_bind] in Hp. rewrite app_nil_r in Hp. exact Hp.
Defined.

(** *** Evictions

    One worker whose route has two batches: one message is sent a second later, and a minute after that the other
    batch is stale. *)

Definition one_message (t userID : Z) (sections : nat) : list pevent :=
  AddToBatch (sample_msg 8082 userID) :: Handle 0 :: replicate sections (Step 0 (Work t)).

Definition minute_later : list pevent :=
  one_message 0 2 5 ++ [Step 0 (PopExpired (seconds 1)); Step 0 FlushItem; FlushTick 0] ++ one_message (seconds 61) 4 4.

Definition sweep_events (t : Z) : list pevent :=
  [Step 0 (Snapshot t ["10.0.0.1,10.0.0.2,10.0.0.3"]); Step 0 ReadAge; Step 0 ReadAge; Step 0 EvictRoute].

(** Users whose messages are owed, and users whose messages are on the way. *)
Definition pool_users (o : outcome aggregator) : option (list Z * list Z) :=
  match o with
  | Next a => Some (map (fun '(_, s) => UserID s) (owes sample_cfg a), map (fun '(_, s) => UserID s) (mbind (fun n => mbind carried (inFlight n)) (nodes a)))
  | _ => None
  end.

(** An eviction that comes between the two critical sections of [checkTimeout] panics: it calls
    [heap.Remove] with the index -1 of an item that was already popped. *)
Theorem evict_race_panics :
  pool_run sample_cfg (NewAggregator 1 1) (minute_later ++ [Step 0 (PopExpired (seconds 62))] ++ sweep_events (seconds 62)) = Panics.
Proof. vm_compute. reflexivity. Qed.

(** An eviction loses the message that waits in the batch, and also one that is appended after it: the message
    goroutine has chosen the batch before the eviction, finds its [heapItem] still set, and does not
    put it on the heap. *)
Theorem late_message_lost :
  let before := minute_later ++ one_message (seconds 61) 6 1 in
  let after := before ++ sweep_events (seconds 61) ++ [Step 0 (Work (seconds 61))] in
  pool_users (pool_run sample_cfg (NewAggregator 1 1) before) = Some ([2; 6; 4], [2]) /\
  pool_users (pool_run sample_cfg (NewAggregator 1 1) after) = Some ([2], [2]).
Proof. vm_compute. done. Qed.
End AggregatorPool.
