(* ===== verification/BufPool.v ===== *)
(** * Pooled buffers of the sharded aggregator (data-proxy/aggregator/aggregator_v2.go)

    The sharded aggregator copies every packet into a buffer of a [sync.Pool] that all aggregators of the process
    share, hands the buffer to a send worker, and the worker puts it back after sending.  Here buffers are
    arrays in a memory, with the slices of them that the pool, the tasks and the workers hold; the models of the
    aggregator ([AggregatorV2]) pass byte strings, and this file shows that they may: no buffer is written
    while a task holds it. *)

From Stdlib Require Import ZArith Lia.
From stdpp Require Import base list gmap list_tactics.
From S2P Require Import Prelude GoChan.

Module BufPool.

Local Open Scope nat_scope.

(** ** Data *)

(** The size of a new buffer; arrays are over their byte values. *)
Definition bufSize : nat := Z.to_nat (64 * 1024).
#[global] Opaque bufSize.

(** A slice that starts at the beginning of its array: the array and the capacity; the nil slice has none. *)
Inductive slice := Nil | Slice (base : nat).

Definition cap (s : slice) : nat := match s with Nil => 0 | Slice _ => bufSize end.

(** [sendTask]: a buffer and the length of the packet in it. *)
Record task := mkTask { buf : slice; len : nat }.

(** The memory of the process, the pool, the tasks between a shard and the end of their sending, the next
    array, and what was handed to the tunnel. *)
Record state := mkState { memory : gmap nat (list Z); pool : list slice; tasks : list task; fresh : nat; sent : list (list Z) }.

Definition initial : state := mkState ∅ [] [] 0 [].

(** ** Operations *)

(** [bufPool.Get()]: one of the buffers in the pool ([Some i]), or a new one. *)
Definition Get (choice : option nat) (s : state) : outcome (slice * state) :=
  match choice with
  | Some i => match pool s !! i with
              | Some b => Next (b, mkState (memory s) (delete i (pool s)) (tasks s) (fresh s) (sent s))
              | None => Blocked
              end
  | None => Next (Slice (fresh s), mkState (<[fresh s := replicate bufSize 0%Z]> (memory s)) (pool s) (tasks s) (S (fresh s)) (sent s))
  end.

(** [copy] into an array. *)
Definition write (old data : list Z) : list Z := data ++ drop (length data) old.

Definition contents (s : state) (b : slice) : list Z := match b with Nil => [] | Slice a => default [] (memory s !! a) end.

(** A shard sends a packet: [Get()[:n]], [copy], and the task. *)
Definition submit (data : list Z) (choice : option nat) (s : state) : outcome state :=
  obind (Get choice s) (fun '(b, s) =>
    if cap b <? length data then Panics
    else Next (mkState (match b with Nil => memory s | Slice a => <[a := write (contents s b) data]> (memory s) end)
                 (pool s) (tasks s ++ [mkTask b (length data)]) (fresh s) (sent s))).

(** [sendPacket] of the i-th task: the bytes of the slice go to the tunnel, then the buffer goes back. *)
Definition sendPacket (i : nat) (s : state) : outcome state :=
  match tasks s !! i with
  | None => Blocked
  | Some t => Next (mkState (memory s) (pool s ++ [buf t]) (delete i (tasks s)) (fresh s) (sent s ++ [take (len t) (contents s (buf t))]))
  end.

(** [sendPacket] of the zero task, which a worker receives from a closed channel. *)
Definition send_zero (s : state) : outcome state := Next (mkState (memory s) (pool s ++ [Nil]) (tasks s) (fresh s) (sent s ++ [[]])).

(** The runtime may drop a buffer of the pool at any time. *)
Definition drop_buffer (i : nat) (s : state) : outcome state :=
  match pool s !! i with
  | None => Blocked
  | Some _ => Next (mkState (memory s) (delete i (pool s)) (tasks s) (fresh s) (sent s))
  end.

Inductive event := Submit (data : list Z) (choice : option nat) | SendTask (i : nat) | DropBuffer (i : nat) | SendZero.

#[global] Instance event_eq_dec : EqDecision event.
Proof. solve_decision. Defined.

Definition step (s : state) (e : event) : outcome state :=
  match e with
  | Submit data choice => submit data choice s
  | SendTask i => sendPacket i s
  | DropBuffer i => drop_buffer i s
  | SendZero => send_zero s
  end.

Fixpoint run (s : state) (es : list event) : outcome state :=
  match es with
  | [] => Next s
  | e :: es => obind (step s e) (fun s => run s es)
  end.

(** ** The abstract sender

    Tasks are the packets themselves. *)
Record values := mkValues { v_tasks : list (list Z); v_sent : list (list Z) }.

Definition v_step (s : values) (e : event) : outcome values :=
  match e with
  | Submit data _ => if bufSize <? length data then Panics else Next (mkValues (v_tasks s ++ [data]) (v_sent s))
  | SendTask i => match v_tasks s !! i with
                  | None => Blocked
                  | Some data => Next (mkValues (delete i (v_tasks s)) (v_sent s ++ [data]))
                  end
  | DropBuffer _ => Next s
  | SendZero => Next (mkValues (v_tasks s) (v_sent s ++ [[]]))
  end.

Fixpoint v_run (s : values) (es : list event) : outcome values :=
  match es with
  | [] => Next s
  | e :: es => obind (v_step s e) (fun s => v_run s es)
  end.

(** ** Ownership *)

Definition arrays (l : list slice) : list nat := omap (fun b => match b with Nil => None | Slice a => Some a end) l.

(** Every array is in the pool or held by one task, not both and not twice; arrays have their full size, and a
    task's array begins with its packet.  Nil slices may be anywhere. *)
Record owned (s : state) (v : values) : Prop := {
  ow_unique : NoDup (arrays (pool s ++ (buf <$> tasks s)));
  ow_fresh a : a ∈ arrays (pool s ++ (buf <$> tasks s)) -> a < fresh s /\ exists d, memory s !! a = Some d /\ length d = bufSize;
  ow_tasks : (fun t => take (len t) (contents s (buf t))) <$> tasks s = v_tasks v;
  ow_sent : sent s = v_sent v
}.

Lemma arrays_Permutation l l' : l ≡ₚ l' -> arrays l ≡ₚ arrays l'.
Proof. intros Hp. unfold arrays. by rewrite Hp. Qed.

Lemma elem_of_arrays a l : a ∈ arrays l <-> Slice a ∈ l.
Proof.
  unfold arrays. rewrite list_elem_of_omap. split.
  - intros ([|b] & Hin & He); [done|]. by injection He as ->.
  - intros Hin. by exists (Slice a).
Qed.

(** Ownership depends only on which slices are in the pool. *)
Lemma owned_pool s v pool' :
  owned s v -> pool' ⊆+ pool s -> owned (mkState (memory s) pool' (tasks s) (fresh s) (sent s)) v.
Proof.
  intros [Hu Hf Ht Hs] [k Hk]%submseteq_Permutation. rewrite (arrays_Permutation _ (k ++ pool' ++ (buf <$> tasks s))) in Hu by (rewrite Hk; solve_Permutation).
  constructor; cbn [memory pool tasks fresh sent]; try done.
  - unfold arrays in *. rewrite omap_app in Hu. by apply NoDup_app in Hu as (_ & _ & ?).
  - intros a Ha. apply Hf. rewrite elem_of_arrays in *. rewrite Hk, !elem_of_app in *. naive_solver.
Qed.

(** An array that was taken is nobody else's. *)
Lemma Get_owned choice s v b s1 :
  owned s v -> Get choice s = Next (b, s1) ->
  owned s1 v /\ match b with
                | Nil => True
                | Slice a => exists d, a ∉ arrays (pool s1 ++ (buf <$> tasks s1)) /\ a < fresh s1 /\ memory s1 !! a = Some d /\ length d = bufSize
                end.
Proof.
  intros Ho Hg. destruct choice as [i|]; cbn [Get] in Hg.
  - destruct (pool s !! i) as [b'|] eqn:Ei; [|done]. injection Hg as <- <-. pose proof (delete_Permutation _ _ _ Ei) as Hp.
    assert (Hin : b' ∈ pool s) by (rewrite Hp; by left).
    assert (Ho' : owned (mkState (memory s) (delete i (pool s)) (tasks s) (fresh s) (sent s)) v) by (apply owned_pool; [done|]; apply submseteq_delete).
    split; [done|]. destruct b' as [|a]; [done|].
    assert (Ha : a ∈ arrays (pool s ++ (buf <$> tasks s))) by (apply elem_of_arrays, elem_of_app; by left).
    destruct (ow_fresh _ _ Ho a Ha) as (Hlt & d & Hd & Hl). exists d. cbn [memory pool tasks fresh]. split_and!; try done.
    pose proof (ow_unique _ _ Ho) as Hu. rewrite (arrays_Permutation _ ((Slice a :: delete i (pool s)) ++ (buf <$> tasks s))) in Hu by (by apply Permutation_app_tail).
      cbn in Hu. by apply NoDup_cons in Hu as [? _].
  - injection Hg as <- <-. destruct Ho as [Hu Hf Ht Hs].
    assert (Hn : fresh s ∉ arrays (pool s ++ (buf <$> tasks s))) by (intros Hin; apply Hf in Hin as [? _]; lia).
    split; [|exists (replicate bufSize 0%Z); cbn [memory pool tasks fresh]; split_and!; [done|lia|by rewrite lookup_insert_eq|by rewrite length_replicate]]. constructor; cbn [memory pool tasks fresh sent]; try done.
    + intros a Ha. assert (a <> fresh s) by (by intros ->). destruct (Hf a Ha) as (Hlt & d & Hd & Hl). split; [lia|]. exists d. by rewrite lookup_insert_ne.
    + rewrite <- Ht. apply list_fmap_ext. intros j t Hj. unfold contents. cbn [memory]. destruct (buf t) as [|a] eqn:Eb; [done|].
      assert (a <> fresh s); [|by rewrite lookup_insert_ne]. intros ->. apply Hn, elem_of_arrays, elem_of_app. right.
      rewrite <- Eb. apply list_elem_of_fmap_2. by eapply list_elem_of_lookup_2.
Qed.

(** Writing a packet into it and handing it over changes no other task. *)
Lemma task_owned s v a d data :
  owned s v -> a ∉ arrays (pool s ++ (buf <$> tasks s)) -> a < fresh s -> memory s !! a = Some d -> length d = bufSize -> length data <= bufSize ->
  owned (mkState (<[a := write d data]> (memory s)) (pool s) (tasks s ++ [mkTask (Slice a) (length data)]) (fresh s) (sent s))
        (mkValues (v_tasks v ++ [data]) (v_sent v)).
Proof.
  intros [Hu Hf Ht Hs] Hn Hlt Hd Hl Hdata.
  assert (Hp : pool s ++ (buf <$> (tasks s ++ [mkTask (Slice a) (length data)])) ≡ₚ Slice a :: pool s ++ (buf <$> tasks s))
    by (rewrite fmap_app; cbn [fmap list_fmap buf]; solve_Permutation).
  constructor; cbn [memory pool tasks fresh sent v_tasks v_sent].
  - rewrite (arrays_Permutation _ _ Hp). cbn. by apply NoDup_cons.
  - intros a'. rewrite (arrays_Permutation _ _ Hp). cbn. rewrite elem_of_cons. destruct (decide (a' = a)) as [->|Hne].
    + intros _. split; [done|]. exists (write d data). rewrite lookup_insert_eq. split; [done|]. unfold write. rewrite length_app, length_drop. lia.
    + intros [->|Ha']; [done|]. rewrite lookup_insert_ne by done. by apply Hf.
  - rewrite fmap_app. cbn [fmap list_fmap]. f_equal.
    + rewrite <- Ht. apply list_fmap_ext. intros j t Hj. unfold contents. cbn [memory]. destruct (buf t) as [|a'] eqn:Eb; [done|].
      assert (a' <> a); [|by rewrite lookup_insert_ne]. intros ->. apply Hn, elem_of_arrays, elem_of_app. right.
      rewrite <- Eb. apply list_elem_of_fmap_2. by eapply list_elem_of_lookup_2.
    + unfold contents. cbn [buf len memory]. rewrite lookup_insert_eq. cbn [from_option]. unfold id, write. by rewrite take_app_length.
  - done.
Qed.

(** A task that is sent hands its buffer to the pool. *)
Lemma send_owned i s v s' :
  owned s v -> sendPacket i s = Next s' ->
  exists data, v_tasks v !! i = Some data /\ owned s' (mkValues (delete i (v_tasks v)) (v_sent v ++ [data])).
Proof.
  intros [Hu Hf Ht Hs] Hstep. unfold sendPacket in Hstep. destruct (tasks s !! i) as [t|] eqn:Ei; [|done]. injection Hstep as <-.
  exists (take (len t) (contents s (buf t))). split; [by rewrite <- Ht, list_lookup_fmap, Ei|].
  assert (Hp : (pool s ++ [buf t]) ++ (buf <$> delete i (tasks s)) ≡ₚ pool s ++ (buf <$> tasks s)).
  { rewrite <- app_assoc. apply Permutation_app_head. symmetry. exact (fmap_Permutation buf _ _ (delete_Permutation _ _ _ Ei)). }
  constructor; cbn [memory pool tasks fresh sent v_tasks v_sent].
  - by rewrite (arrays_Permutation _ _ Hp).
  - intros a. rewrite (arrays_Permutation _ _ Hp). apply Hf.
  - rewrite <- Ht. unfold contents. cbn [memory]. apply list_fmap_delete.
  - by rewrite Hs.
Qed.

(** A nil slice carries the empty packet only. *)
Lemma nil_owned s v : owned s v -> owned (mkState (memory s) (pool s) (tasks s ++ [mkTask Nil 0]) (fresh s) (sent s)) (mkValues (v_tasks v ++ [[]]) (v_sent v)).
Proof.
  intros [Hu Hf Ht Hs]. assert (Ha : arrays (pool s ++ (buf <$> tasks s ++ [mkTask Nil 0])) = arrays (pool s ++ (buf <$> tasks s)))
    by (unfold arrays; rewrite fmap_app, !omap_app; cbn; by rewrite app_nil_r).
  constructor; cbn [memory pool tasks fresh sent v_tasks v_sent]; rewrite ?Ha; try done. by rewrite fmap_app, <- Ht.
Qed.

Lemma zero_owned s v : owned s v -> owned (mkState (memory s) (pool s ++ [Nil]) (tasks s) (fresh s) (sent s ++ [[]])) (mkValues (v_tasks v) (v_sent v ++ [[]])).
Proof.
  intros [Hu Hf Ht Hs]. assert (Ha : arrays ((pool s ++ [Nil]) ++ (buf <$> tasks s)) = arrays (pool s ++ (buf <$> tasks s)))
    by (unfold arrays; rewrite !omap_app; cbn; by rewrite app_nil_r).
  constructor; cbn [memory pool tasks fresh sent v_tasks v_sent]; rewrite ?Ha; try done. by rewrite Hs.
Qed.

(** The pool hands out a nil slice for a packet. *)
Definition gets_nil (s : state) (e : event) : Prop :=
  match e with Submit data (Some i) => pool s !! i = Some Nil /\ data <> [] | _ => False end.

(** One step of the pool is one step of the packets. *)
Lemma step_owned s v e :
  owned s v ->
  match step s e with
  | Next s' => exists v', v_step v e = Next v' /\ owned s' v'
  | Panics => v_step v e = Panics \/ gets_nil s e
  | Blocked => True
  end.
Proof.
  intros Ho. destruct e as [data choice|i|i|]; cbn [step].
  - unfold submit. destruct (Get choice s) as [[b s1]| |] eqn:Eg; cbn [obind]; [|done|by destruct choice; cbn in Eg; try case_match].
    destruct (Get_owned _ _ _ _ _ Ho Eg) as (Ho1 & Hb). destruct b as [|a]; cbn [cap v_step].
    + destruct data as [|x data]; cbn [length Nat.ltb Nat.leb].
      * eexists. split; [done|]. by apply nil_owned.
      * right. destruct choice as [i|]; cbn [Get] in Eg; [|done]. cbn [gets_nil]. destruct (pool s !! i); [|done]. by injection Eg as -> _.
    + destruct Hb as (d & Hn & Hlt & Hd & Hl). destruct (Nat.ltb_spec bufSize (length data)); [by left|]. eexists. split; [done|].
      unfold contents. rewrite Hd. by apply task_owned.
  - destruct (sendPacket i s) as [s'| |] eqn:Es; [|done|unfold sendPacket in Es; by case_match].
    destruct (send_owned _ _ _ _ Ho Es) as (data & Hi & Ho'). cbn [v_step]. rewrite Hi. eauto.
  - unfold drop_buffer. destruct (pool s !! i) as [b|]; [|done]. exists v. split; [done|]. apply owned_pool; [done|]. apply submseteq_delete.
  - eexists. split; [done|]. by apply zero_owned.
Qed.

Lemma initial_owned : owned initial (mkValues [] []).
Proof. constructor; cbn; try done; [constructor|]. intros a Ha. by apply not_elem_of_nil in Ha. Qed.

Lemma run_owned es s v :
  owned s v ->
  match run s es with
  | Next s' => exists v', v_run v es = Next v' /\ owned s' v'
  | Panics => v_run v es = Panics \/ exists es1 e es2 s1, es = es1 ++ e :: es2 /\ run s es1 = Next s1 /\ gets_nil s1 e
  | Blocked => True
  end.
Proof.
  revert s v. induction es as [|e es IH]; intros s v Ho; cbn [run v_run]; [by exists v|].
  pose proof (step_owned s v e Ho) as Hstep. destruct (step s e) as [s'| |] eqn:Es; cbn [obind]; [|done|].
  - destruct Hstep as (v' & -> & Ho'). cbn [obind]. specialize (IH s' v' Ho'). destruct (run s' es); [done|done|].
    destruct IH as [IH|(es1 & e1 & es2 & s1 & -> & Hr & Hn)]; [by left|]. right. exists (e :: es1), e1, es2, s1. split_and!; [done| |done]. cbn [run]. by rewrite Es.
  - destruct Hstep as [->|Hn]; [by left|]. right. by exists [], e, es, s.
Qed.

(** Nil slices come from zero tasks. *)
Lemma no_nil es s s' : SendZero ∉ es -> Nil ∉ pool s ++ (buf <$> tasks s) -> run s es = Next s' -> Nil ∉ pool s' ++ (buf <$> tasks s').
Proof.
  revert s. induction es as [|e es IH]; intros s Hz Hn; cbn [run]; [by intros [= <-]|]. intros (s1 & Hs & Hr)%obind_Next.
  apply not_elem_of_cons in Hz as [Hz Hzs]. apply (IH s1); [done| |done]. clear IH Hr. destruct e as [data choice|i|i|]; cbn [step] in Hs; [| | |done].
  - unfold submit in Hs. apply obind_Next in Hs as ([b s2] & Hg & Hs). destruct (cap b <? length data); [done|]. injection Hs as <-. cbn [pool tasks].
    destruct choice as [i|]; cbn [Get] in Hg.
    + destruct (pool s !! i) as [b'|] eqn:Ei; [|done]. injection Hg as <- <-. cbn [pool tasks]. intros Hin. apply Hn.
      rewrite (delete_Permutation _ _ _ Ei). rewrite fmap_app in Hin. cbn in Hin. rewrite !elem_of_app, ?elem_of_cons in *. set_solver.
    + injection Hg as <- <-. cbn [pool tasks]. rewrite fmap_app. cbn. rewrite !elem_of_app, elem_of_cons in *. set_solver.
  - unfold sendPacket in Hs. destruct (tasks s !! i) as [t|] eqn:Ei; [|done]. injection Hs as <-. cbn [pool tasks]. intros Hin. apply Hn.
    rewrite (fmap_Permutation buf _ _ (delete_Permutation _ _ _ Ei)). cbn. rewrite !elem_of_app, ?elem_of_cons in *. set_solver.
  - unfold drop_buffer in Hs. destruct (pool s !! i) as [b|] eqn:Ei; [|done]. injection Hs as <-. cbn [pool tasks]. intros Hin. apply Hn.
    rewrite (delete_Permutation _ _ _ Ei). rewrite !elem_of_app, ?elem_of_cons in *. set_solver.
Qed.

(** C25. The pool of buffers does not show: however the calls of the shards and of the send workers interleave, the sends of the zero
    tasks that workers receive after [Stop] included, whichever buffer the pool returns and whatever the runtime drops from it, the packets that are sent and
    those that wait are what they would be if every task had a copy of its own.  There are two reasons for a panic: a packet that does not
    fit into a buffer, and a nil slice that the pool returns for a packet, which only happens after a zero task was sent. *)
Theorem pool_refines_copies es :
  match run initial es with
  | Next s => exists v, v_run (mkValues [] []) es = Next v /\ sent s = v_sent v /\ (fun t => take (len t) (contents s (buf t))) <$> tasks s = v_tasks v /\
                        NoDup (arrays (pool s ++ (buf <$> tasks s)))
  | Panics => v_run (mkValues [] []) es = Panics \/
      exists es1 e es2 s1, es = es1 ++ e :: es2 /\ run initial es1 = Next s1 /\ gets_nil s1 e /\ SendZero ∈ es1
  | Blocked => True
  end.
Proof.
  pose proof (run_owned es _ _ initial_owned) as Hr. destruct (run initial es) as [s| |]; [|done|].
  - destruct Hr as (v & Hv & [Hu Hf Ht Hs]). by exists v.
  - destruct Hr as [?|(es1 & e & es2 & s1 & -> & Hr & Hn)]; [by left|]. right. exists es1, e, es2, s1. split_and!; [done..|].
    destruct (decide (SendZero ∈ es1)) as [|Hz]; [done|]. exfalso. eapply no_nil in Hr; [|done|cbn; set_solver]. apply Hr.
    destruct e as [data [i|]| | |]; try done. destruct Hn as [Hn _]. apply elem_of_app. left. by eapply list_elem_of_lookup_2.
Qed.

(** A worker that goes on after [Stop] receives zero tasks from its closed channel and puts nil slices into the
    pool, which other aggregators share: the next packet that gets one of them panics. *)
Theorem zero_task_poisons_pool s d data : step s SendZero = Next d -> data <> [] -> step d (Submit data (Some (length (pool s)))) = Panics.
Proof.
  intros [= <-] Hne. cbn [step]. unfold submit. cbn [Get pool]. rewrite list_lookup_middle by done. cbn [obind cap]. by destruct data.
Qed.

Definition sample_events : list event :=
  [Submit [1; 2]%Z None; Submit [3]%Z None; SendTask 0; Submit [4; 5; 6]%Z (Some 0); SendTask 1; SendTask 0].

Lemma pool_refines_copies_witness :
  match run initial sample_events with
  | Next s => sent s = [[1; 2]; [4; 5; 6]; [3]]%Z
  | _ => False
  end.
Proof.
  pose proof (pool_refines_copies sample_events) as H.
  assert (Hb : match run initial sample_events with Next _ => false | _ => true end = false) by (vm_compute; reflexivity).
  assert (Hv : match v_run (mkValues [] []) sample_events with Next v => bool_decide (v_sent v = [[1; 2]; [4; 5; 6]; [3]]%Z) | _ => false end = true) by (vm_compute; reflexivity).
  destruct (run initial sample_events) as [s| |]; [|discriminate Hb|discriminate Hb].
  destruct H as (v & Hv' & -> & _). rewrite Hv' in Hv. exact (bool_decide_eq_true_1 _ Hv).
Defined.
End BufPool.
