(* ===== verification/AggregatorV2.v ===== *)
(** * The sharded aggregator (data-proxy/aggregator/aggregator_v2.go)

    A second aggregator whose shards have the batches, the heap and the locks of a worker of the first one.  The
    critical sections under these locks are the same code, so a shard is a [gworker] of [AggregatorSteps] and one step is one
    critical section; what differs is here: large messages (from 1024 bytes) are sent at once, and send buffers come from
    a pool of 64 KiB buffers.  [AggregatorV2Pool] has the goroutines and channels. *)

From Stdlib Require Import ZArith Lia String.
From stdpp Require Import base list gmap strings vector list_tactics.
From S2P Require Import Prelude GoStrings GoChan Packet Tunnel GoHeap Aggregator AggregatorSteps.
Import TunnelPacket Aggregator AggregatorSteps.

Module AggregatorV2.

Local Open Scope Z_scope.

Definition shardCount : Z := 16.

(** [fnv.New32a] over the bytes of the key. *)
Definition fnv32a (s : list Z) : Z :=
  foldl (fun h b => u32 (Z.lxor h b * 16777619)) 2166136261 s.

Definition key_bytes (s : string) : list Z := (fun c => Z.of_nat (Ascii.nat_of_ascii c)) <$> String.list_ascii_of_string s.

Definition hashRoutingKey (key : string) : Z := fnv32a (key_bytes key) mod shardCount.

Section Shard.
Context `{IPv6Parser}.

(** [bufPool.Get().([]byte)[:n]] panics beyond the 64 KiB of a pooled buffer. *)
Definition pooled (p : Packet) : go bytes :=
  if 64 * 1024 <? TotalBytes p then Panic else wire p.

Definition send_directV2 (buffSize : Z) (msg : aggregatorMsg) : go (list sendInfo) :=
  let! p := msg_packet buffSize msg in
  let! (p1, ok) := AppendUserPacket p (m_userID msg) (m_data msg) in
  if ok : bool then
    let! p2 := SerializeHead p1 in
    let! buf := pooled p2 in
    Ret [mkSend buf (m_routingKey msg) (m_nextHop msg)]
  else Ret [].

Definition is_large (msg : aggregatorMsg) : bool := 1024 <=? Z.of_nat (length (m_data msg)).

(** [handleMsg] up to its first critical section. *)
Definition take_msgV2 (cfg : Config) (g : gworker) (msg : aggregatorMsg) : go (gworker * list sendInfo) :=
  let large := is_large msg in
  let buffSize := if large then HeaderSize + 4 + 2 + Z.of_nat (length (m_data msg)) else BufferSize cfg in
  if large || m_emerge msg then
    let! out := send_directV2 buffSize msg in Ret (g, out)
  else Ret (set_pc g (HLookup msg), []).

(** The critical sections of [handleMsg] for a message that is batched. *)
Definition handleMsgV2 (cfg : Config) (now : Z) (g : gworker) : outcome gworker := work cfg now g.

(** ** Timers

    The first section of [checkTimeout], under [sw.mu]. *)
Definition popV2 (now : Z) (g : gworker) : outcome gworker := pop_timer now g.

Definition flush_itemV2 (now : Z) (st : gmap nat Batch) (item : HeapItem) : go (gmap nat Batch * list sendInfo) :=
  match st !! it_batch item with
  | None => Panic
  | Some b =>
      let! p := SerializeHead (b_pkt b) in
      let! buf := pooled p in
      let p' := mkPacket (Buf p) (BuffSize p) (HopPos p) (HopIP p) (PayloadLen p) (Port p) (Protocol p) HeaderSize in
      Ret (<[it_batch item := mkBatch (b_BuffSize b) (b_RoutingKey b) (b_NextHop b) p' None now]> st,
           [mkSend buf (b_RoutingKey b) (b_NextHop b)])
  end.

(** The section under the [b.mu] of the next popped item. *)
Definition flush_nextV2 (g : gworker) : outcome (gworker * list sendInfo) :=
  match expired g with
  | [] => Blocked
  | it :: rest =>
      if holds (pc g) (it_batch it) then Blocked
      else match flush_itemV2 (tnow g) (store (base g)) it with
           | Ret (st, out) => Next (mkG (set_store (base g) st) (evicted g) (pc g) rest (tnow g) (sweep g), out)
           | Panic => Panics
           end
  end.

(** ** Eviction

    The copy of the route table of a shard under [sw.mu.RLock]. *)
Definition snapshotV2 (now : Z) (keys : list string) (g : gworker) : outcome gworker := snapshot now keys g.

(** The age of the next batch, read without a lock; the first stale batch ends the loop over the route. *)
Definition read_ageV2 (g : gworker) : outcome gworker :=
  match sweep g with
  | Some (mkSweep now routes (id :: todo) d) =>
      let stale := match get g id with Some b => batchMaxAge <? now - b_createTime b | None => false end in
      Next (set_sweep g (Some (mkSweep now routes (if stale then [] else todo) (d || stale))))
  | _ => Blocked
  end.

(** The section under [sw.mu] that ends a route of the copy. *)
Definition evict_routeV2 (g : gworker) : outcome gworker := evict_route g.

(** The send worker that the dispatcher hands a packet to. *)
Definition dispatch (sendWorkers : nat) (s : sendInfo) : Z := hashRoutingKey (s_routingKey s) mod Z.of_nat sendWorkers.

(** ** Lemmas *)

Lemma hashRoutingKey_range k : 0 <= hashRoutingKey k < shardCount.
Proof. apply Z.mod_pos_bound. done. Qed.

Lemma dispatch_range n s : (0 < n)%nat -> 0 <= dispatch n s < Z.of_nat n.
Proof. intros Hn. apply Z.mod_pos_bound. lia. Qed.

Lemma send_directV2_spec size msg :
  24 <= size <= 64 * 1024 -> fits 16 (m_port msg) -> valid_sub (msg_sub msg) ->
  exists out, send_directV2 size msg = Ret out /\
    mbind carried out =
      if decide (24 + sub_size (msg_sub msg) <= size) then [(m_routingKey msg, msg_sub msg)] else [].
Proof.
  intros Hs Hport Hmsg. unfold send_directV2.
  destruct (msg_packet_Rep size msg ltac:(lia) Hport) as (p & -> & HR & Hb & _). cbn [go_bind].
  pose proof HR as (_ & Hwp & _). unfold HeaderSize in Hwp. cbn in Hwp. case_decide as Hd.
  - destruct (Rep_append p [] (msg_sub msg) HR) as (p1 & Ha & HR1 & _ & Hb1 & Hl1); [apply Hmsg|lia|].
    cbn [UserID Data msg_sub] in Ha. rewrite Ha. cbn [go_bind].
    destruct (wire_Rep p1 [msg_sub msg] HR1) as (p2 & buf & Hsh & Hwire & Hne & HR2 & Hb2 & q & Hq & _); [by constructor|done|].
    rewrite Hsh. cbn [go_bind]. unfold pooled. rewrite (SerializeHead_TotalBytes _ _ Hsh).
    rewrite (proj2 (Z.ltb_ge _ _)) by (unfold TotalBytes, HeaderSize; rewrite Hl1; cbn [payload_size app]; lia).
    rewrite Hwire. cbn [go_bind]. eexists. split; [done|].
    cbn [mbind list_bind]. unfold carried. cbn [s_p s_routingKey]. rewrite Hq. done.
  - rewrite AppendUserPacket_full by (unfold msg_sub in *; lia). cbn [go_bind]. by exists [].
Qed.

Definition acceptsV2 (cfg : Config) (msg : aggregatorMsg) : bool :=
  is_large msg || (24 + sub_size (msg_sub msg) <=? BufferSize cfg).

Definition acceptedV2 (cfg : Config) (msg : aggregatorMsg) : list (string * SubPacket) :=
  if acceptsV2 cfg msg then [(m_routingKey msg, msg_sub msg)] else [].

Definition msg_okV2 (msg : aggregatorMsg) : Prop := fits 16 (m_port msg) /\ valid_sub (msg_sub msg) /\ 24 + sub_size (msg_sub msg) <= 64 * 1024.

Lemma take_msgV2_spec cfg g msg :
  24 <= BufferSize cfg <= 64 * 1024 -> msg_okV2 msg -> ginv cfg g -> pc g = HIdle ->
  exists g' out, take_msgV2 cfg g msg = Ret (g', out) /\ ginv cfg g' /\ mbind carried out ++ gowes cfg g' ≡ₚ acceptedV2 cfg msg ++ gowes cfg g.
Proof.
  intros Hc (Hp & Hv & Hs) Hg Hpc. unfold take_msgV2, acceptedV2, acceptsV2. destruct (is_large msg) eqn:El; cbn [orb].
  - destruct (send_directV2_spec (24 + sub_size (msg_sub msg)) msg) as (out & Hd & Hcar); [unfold sub_size in *; lia|done|done|].
    replace (HeaderSize + 4 + 2 + Z.of_nat (length (m_data msg))) with (24 + sub_size (msg_sub msg)) by (unfold sub_size, HeaderSize; cbn; lia).
    rewrite Hd. cbn [go_bind]. exists g, out. by rewrite Hcar, decide_True by lia.
  - assert (Hif : (if 24 + sub_size (msg_sub msg) <=? BufferSize cfg then [(m_routingKey msg, msg_sub msg)] else []) = batched cfg msg)
      by (unfold batched; case_decide; destruct (Z.leb_spec (24 + sub_size (msg_sub msg)) (BufferSize cfg)); done || lia).
    rewrite Hif. destruct (m_emerge msg).
    + destruct (send_directV2_spec _ msg Hc Hp Hv) as (out & Hd & Hcar). rewrite Hd. cbn [go_bind]. exists g, out. by rewrite Hcar.
    + eexists _, _. split; [done|]. split; [apply ginv_pc; [done|by rewrite Hpc|done|]|].
      * split_and!; [done|done|lia].
      * unfold gowes, in_hand. cbn [pc set_pc base]. by rewrite Hpc.
Qed.

(** *** The timers against those of the first aggregator *)

Lemma pooled_wire size p q subs :
  size <= 64 * 1024 -> Rep p subs -> BuffSize p = size -> PayloadLen p = payload_size subs -> SerializeHead p = Ret q -> pooled q = wire q.
Proof.
  intros Hs HR Hb Hl Hq. unfold pooled. rewrite (SerializeHead_TotalBytes _ _ Hq).
  rewrite (proj2 (Z.ltb_ge _ _)); [done|]. destruct HR as (Hwf & Hwp & _). unfold TotalBytes. rewrite Hl. destruct Hwf. unfold HeaderSize in *. lia.
Qed.

Lemma flush_itemV2_eq size now st it b :
  size <= 64 * 1024 -> st !! it_batch it = Some b -> batch_ok size b -> b_heapItem b <> None ->
  flush_itemV2 now st it = flush_item now st it.
Proof.
  intros Hsz Hb [HR Hv Hs _ Hl] Hi. unfold flush_itemV2, flush_item. rewrite Hb.
  destruct (wire_Rep _ _ HR Hv (Hl Hi)) as (p & buf & Hsh & Hw & Hne & _). rewrite Hsh. cbn [go_bind].
  rewrite (pooled_wire size _ _ _ Hsz HR Hs (Hl Hi) Hsh), Hw. cbn [go_bind]. by destruct buf.
Qed.

(** While the buffers of the batches fit into pooled buffers, the pool does not show. *)
Lemma flush_nextV2_eq cfg g : BufferSize cfg <= 64 * 1024 -> ginv cfg g -> flush_nextV2 g = flush_next g.
Proof.
  intros Hc Hg. unfold flush_nextV2, flush_next. destruct (expired g) as [|it rest] eqn:Ee; [done|]. destruct (holds _ _) eqn:Eh; [done|].
  destruct (popped_ready cfg g it rest Hg Ee Eh) as (b & Hb & Hi & Hok). rewrite (flush_itemV2_eq (BufferSize cfg) _ _ _ b) by (done || by rewrite Hi). done.
Qed.

Lemma read_ageV2_keeps cfg g g' : ginv cfg g -> read_ageV2 g = Next g' -> ginv cfg g' /\ gowes cfg g' = gowes cfg g.
Proof.
  intros Hg. pose proof (g_sweep _ _ Hg) as Hs. unfold read_ageV2, sweep_ok in *. destruct (sweep g) as [[now routes [|id todo] d]|]; [done| |done].
  intros [= <-]. split; [|done]. by apply ginv_sweep.
Qed.

(** A message of 65507 to 65529 data bytes crashes its shard: the packet made for it is longer
    than a pooled send buffer. *)
Theorem take_msgV2_pool_panic cfg g msg :
  fits 16 (m_port msg) -> 65507 <= Z.of_nat (length (m_data msg)) <= 65529 ->
  take_msgV2 cfg g msg = Panic.
Proof.
  intros Hp Hn. unfold take_msgV2, is_large. rewrite (proj2 (Z.leb_le _ _)) by lia. cbn [orb].
  unfold send_directV2, HeaderSize.
  destruct (msg_packet_Rep (24 + 4 + 2 + Z.of_nat (length (m_data msg))) msg ltac:(lia) Hp) as (p & -> & HR & Hb & _).
  cbn [go_bind]. pose proof HR as (_ & Hwp & _). unfold HeaderSize in Hwp. cbn in Hwp.
  destruct (Rep_append p [] (msg_sub msg) HR) as (p1 & Ha & HR1 & _ & _ & Hl1);
    [unfold fits; cbn; lia|unfold sub_size; cbn; lia|].
  cbn [UserID Data msg_sub] in Ha. rewrite Ha. cbn [go_bind].
  destruct (SerializeHead_ok p1 _ HR1) as (p2 & Hsh & _ & _ & _ & Hpl & _). rewrite Hsh. cbn [go_bind].
  unfold pooled, TotalBytes, HeaderSize. rewrite Hpl, Hl1.
  rewrite (proj2 (Z.ltb_lt _ _)); [done|]. cbn [payload_size app]. unfold sub_size. cbn [Data msg_sub]. lia.
Qed.
End Shard.

#[local] Existing Instance no_ipv6.

Lemma take_msgV2_pool_panic_witness :
  let msg := mkMsg false "k" "tcp" 80 [] [] 7 (replicate (Z.to_nat 65507) 97) in
  take_msgV2 sample_cfg new_gworker msg = Panic.
Proof.
  intros msg. apply take_msgV2_pool_panic.
  - vm_compute. split; done.
  - unfold msg. cbn [m_data]. rewrite length_replicate. lia.
Defined.

End AggregatorV2.
