(* ===== verification/AggregatorV2Pool.v ===== *)
(** * The sharded aggregator with its goroutines (data-proxy/aggregator/aggregator_v2.go)

    [NewAggregatorV2], [Start], [AddToBatch], [sendPacket] and [Stop]: the message goroutines of the shards read one
    channel, every shard has a flush goroutine, one goroutine evicts in all shards, and the packets go
    through one channel to a dispatcher, which gives them to send workers by their routing key.  One step is what one goroutine does
    between two points where it may have to wait for a lock or a channel; a packet is put on the channel under the
    [b.mu] of its batch. *)

From Stdlib Require Import ZArith Lia.
From stdpp Require Import base list gmap strings list_tactics.
From S2P Require Import Prelude GoStrings GoChan Packet Tunnel GoHeap Aggregator AggregatorSteps AggregatorPool AggregatorV2.
Import TunnelPacket Aggregator AggregatorSteps AggregatorV2.

Module AggregatorV2Pool.

Local Open Scope Z_scope.

(** ** State *)

Record sendWorker := mkSW { taskCh : list sendInfo; sending : option sendInfo }.

(** A shard, and the packet that its message goroutine has yet to put on the channel. *)
Record shard := mkShard { core : gworker; outMsg : list sendInfo }.

Record aggregatorV2 := mkV2 {
  inputChan : list aggregatorMsg;
  shards : list shard;
  evictor : option (Z * nat);          (* the eviction goroutine: the time it read and the next shard *)
  sendTaskCh : list sendInfo;
  held : option sendInfo;              (* the task of the dispatcher *)
  sendWorkers : list sendWorker;
  stopped : bool;                      (* [Stop] has closed the channels *)
  dropped : list aggregatorMsg;        (* taken by the message goroutine of another shard *)
  emitted : list sendInfo;             (* everything put on sendTaskCh so far *)
  done_ : list (sendInfo * bool)       (* what [sendPacket] has finished, with its success *)
}.

Definition set_input (a : aggregatorV2) (ch : list aggregatorMsg) : aggregatorV2 :=
  mkV2 ch (shards a) (evictor a) (sendTaskCh a) (held a) (sendWorkers a) (stopped a) (dropped a) (emitted a) (done_ a).
Definition set_shard (a : aggregatorV2) (i : nat) (s : shard) : aggregatorV2 :=
  mkV2 (inputChan a) (<[i := s]> (shards a)) (evictor a) (sendTaskCh a) (held a) (sendWorkers a) (stopped a) (dropped a) (emitted a) (done_ a).
Definition set_evictor (a : aggregatorV2) (e : option (Z * nat)) : aggregatorV2 :=
  mkV2 (inputChan a) (shards a) e (sendTaskCh a) (held a) (sendWorkers a) (stopped a) (dropped a) (emitted a) (done_ a).
Definition set_dropped (a : aggregatorV2) (l : list aggregatorMsg) : aggregatorV2 :=
  mkV2 (inputChan a) (shards a) (evictor a) (sendTaskCh a) (held a) (sendWorkers a) (stopped a) l (emitted a) (done_ a).
Definition set_queue (a : aggregatorV2) (q : list sendInfo) (t : option sendInfo) : aggregatorV2 :=
  mkV2 (inputChan a) (shards a) (evictor a) q t (sendWorkers a) (stopped a) (dropped a) (emitted a) (done_ a).
Definition set_senders (a : aggregatorV2) (ws : list sendWorker) (d : list (sendInfo * bool)) : aggregatorV2 :=
  mkV2 (inputChan a) (shards a) (evictor a) (sendTaskCh a) (held a) ws (stopped a) (dropped a) (emitted a) d.
Definition set_stopped (a : aggregatorV2) : aggregatorV2 :=
  mkV2 (inputChan a) (shards a) (evictor a) (sendTaskCh a) (held a) (sendWorkers a) true (dropped a) (emitted a) (done_ a).

Definition sendTaskChSize : Z := 10000.
Definition taskChSize : Z := 100.

Definition NewAggregatorV2 (AggWorkerCount : Z) : aggregatorV2 :=
  mkV2 [] (replicate (Z.to_nat shardCount) (mkShard new_gworker [])) None [] None
    (replicate (AggregatorPool.or_eight AggWorkerCount) (mkSW [] None)) false [] [] [].

(** ** Steps *)

Inductive v2event :=
| AddV2 (msg : aggregatorMsg)
| ReceiveV2 (i : nat)                                   (* the message goroutine of shard i takes a message *)
| SectionV2 (i : nat) (now : Z)                         (* and runs a critical section of handleMsg *)
| EmitV2 (i : nat)                                      (* and puts a packet on the channel *)
| PopV2 (i : nat) (now : Z)                             (* the flush goroutine of shard i pops what has expired *)
| FlushV2 (i : nat)                                     (* and puts the next popped batch on the channel *)
| EvictTick (now : Z)                                   (* the eviction goroutine begins *)
| EvictShard (keys : list string)                       (* and copies the routes of the next shard *)
| EvictAge (i : nat)                                    (* and reads the age of a batch of shard i *)
| EvictKey (i : nat)                                    (* and ends a route of shard i *)
| EvictEnd
| Dispatch                                              (* the dispatcher takes a task *)
| Forward                                               (* and hands it to a send worker *)
| StartSend (j : nat)
| EndSend (j : nat) (ok : bool)
| StopV2.

(** What a send worker receives from its closed and empty channel. *)
Definition zero_task : sendInfo := mkSend [] "" [].

Section Steps.
Context `{IPv6Parser}.

(** A send on [sendTaskCh], after which [a] goes on as given. *)
Definition emit (a : aggregatorV2) (out : list sendInfo) : outcome aggregatorV2 :=
  if stopped a && negb (bool_decide (out = [])) then Panics
  else if Z.of_nat (length (sendTaskCh a)) + Z.of_nat (length out) <=? sendTaskChSize then
    Next (mkV2 (inputChan a) (shards a) (evictor a) (sendTaskCh a ++ out) (held a) (sendWorkers a) (stopped a) (dropped a) (emitted a ++ out) (done_ a))
  else Blocked.

(** A section of a goroutine of shard [i] that sends nothing. *)
Definition on_shard (a : aggregatorV2) (i : nat) (f : gworker -> outcome gworker) : outcome aggregatorV2 :=
  match shards a !! i with
  | Some (mkShard g out) => let? g' := f g in Next (set_shard a i (mkShard g' out))
  | None => Blocked
  end.

(** The eviction goroutine is through with the shards before. *)
Definition swept (a : aggregatorV2) : bool := forallb (fun s => bool_decide (sweep (core s) = None)) (shards a).

Definition shard_step (cfg : Config) (a : aggregatorV2) (e : v2event) : outcome aggregatorV2 :=
  match e with
  | ReceiveV2 i =>
      match inputChan a, shards a !! i with
      | msg :: rest, Some (mkShard g []) =>
          match pc g with
          | HIdle =>
              if hashRoutingKey (m_routingKey msg) =? Z.of_nat i then
                match take_msgV2 cfg g msg with
                | Ret (g', out) => Next (set_shard (set_input a rest) i (mkShard g' out))
                | Panic => Panics
                end
              else Next (set_dropped (set_input a rest) (dropped a ++ [msg]))
          | _ => Blocked
          end
      | _, _ => Blocked
      end
  | SectionV2 i now => on_shard a i (handleMsgV2 cfg now)
  | EmitV2 i =>
      match shards a !! i with
      | Some (mkShard g (s :: out)) => emit (set_shard a i (mkShard g out)) [s]
      | _ => Blocked
      end
  | PopV2 i now => on_shard a i (popV2 now)
  | FlushV2 i =>
      match shards a !! i with
      | Some (mkShard g om) => let? (g', out) := flush_nextV2 g in emit (set_shard a i (mkShard g' om)) out
      | None => Blocked
      end
  | EvictTick now => match evictor a with None => Next (set_evictor a (Some (now, O))) | Some _ => Blocked end
  | EvictShard keys =>
      match evictor a with
      | Some (now, i) => if swept a then let? a' := on_shard a i (snapshotV2 now keys) in Next (set_evictor a' (Some (now, S i))) else Blocked
      | None => Blocked
      end
  | EvictAge i => on_shard a i read_ageV2
  | EvictKey i => on_shard a i evict_routeV2
  | EvictEnd =>
      match evictor a with
      | Some (_, i) => if swept a && (Z.of_nat i =? shardCount) then Next (set_evictor a None) else Blocked
      | None => Blocked
      end
  | _ => Blocked
  end.

Definition v2_step (cfg : Config) (a : aggregatorV2) (e : v2event) : outcome aggregatorV2 :=
  match e with
  | AddV2 msg =>
      if stopped a then Panics
      else if Z.of_nat (length (inputChan a)) <? AggregatorPool.inputChanSize then Next (set_input a (inputChan a ++ [msg]))
      else Blocked
  | Dispatch =>
      match held a, sendTaskCh a with
      | None, t :: rest => Next (set_queue a rest (Some t))
      | _, _ => Blocked
      end
  | Forward =>
      match held a with
      | None => Blocked
      | Some t =>
          if stopped a then Panics
          else let j := Z.to_nat (dispatch (length (sendWorkers a)) t) in
               match sendWorkers a !! j with
               | None => Panics
               | Some w =>
                   if Z.of_nat (length (taskCh w)) <? taskChSize then
                     Next (set_senders (set_queue a (sendTaskCh a) None) (<[j := mkSW (taskCh w ++ [t]) (sending w)]> (sendWorkers a)) (done_ a))
                   else Blocked
               end
      end
  | StartSend j =>
      match sendWorkers a !! j with
      | Some (mkSW (t :: rest) None) => Next (set_senders a (<[j := mkSW rest (Some t)]> (sendWorkers a)) (done_ a))
      | Some (mkSW [] None) => if stopped a then Next (set_senders a (<[j := mkSW [] (Some zero_task)]> (sendWorkers a)) (done_ a)) else Blocked
      | _ => Blocked
      end
  | EndSend j ok =>
      match sendWorkers a !! j with
      | Some (mkSW q (Some t)) => Next (set_senders a (<[j := mkSW q None]> (sendWorkers a)) (done_ a ++ [(t, ok)]))
      | _ => Blocked
      end
  | StopV2 => if stopped a then Panics else Next (set_stopped a)
  | _ => shard_step cfg a e
  end.

Fixpoint v2_run (cfg : Config) (a : aggregatorV2) (evs : list v2event) : outcome aggregatorV2 :=
  match evs with
  | [] => Next a
  | e :: evs => let? a' := v2_step cfg a e in v2_run cfg a' evs
  end.

(** ** Order *)

Definition of_key (k : string) (l : list sendInfo) : list sendInfo := filter (fun s => s_routingKey s = k) l.

(** What a send worker still has to finish, first first. *)
Definition unfinished (w : sendWorker) : list sendInfo := option_list (sending w) ++ taskCh w.

Definition worker_of (a : aggregatorV2) (s : sendInfo) : nat := Z.to_nat (dispatch (length (sendWorkers a)) s).

Definition worker_of_key (a : aggregatorV2) (k : string) : nat := worker_of a (mkSend [] k []).

Record pipeline_ok (a : aggregatorV2) : Prop := {
  pi_some : (0 < length (sendWorkers a))%nat;
  pi_place j w s : sendWorkers a !! j = Some w -> s ∈ unfinished w -> worker_of a s = j;
  pi_order k : of_key k (emitted a) =
    of_key k ((done_ a).*1 ++ default [] (unfinished <$> sendWorkers a !! worker_of_key a k) ++ option_list (held a) ++ sendTaskCh a);
  pi_all : emitted a ≡ₚ (done_ a).*1 ++ mbind unfinished (sendWorkers a) ++ option_list (held a) ++ sendTaskCh a;
  pi_open : stopped a = false
}.

Lemma of_key_app k l1 l2 : of_key k (l1 ++ l2) = of_key k l1 ++ of_key k l2.
Proof. apply filter_app. Qed.

Lemma of_key_other k s : s_routingKey s <> k -> of_key k [s] = [].
Proof. intros Hk. unfold of_key. by rewrite filter_cons_False. Qed.

Lemma worker_of_same a s k : s_routingKey s = k -> worker_of_key a k = worker_of a s.
Proof. intros <-. done. Qed.

Lemma worker_of_len a a' s : length (sendWorkers a') = length (sendWorkers a) -> worker_of a' s = worker_of a s.
Proof. intros Hl. unfold worker_of. by rewrite Hl. Qed.

(** Changing a worker without changing what it has to finish. *)
Lemma default_insert a j w w' k :
  sendWorkers a !! j = Some w ->
  default [] (unfinished <$> <[j := w']> (sendWorkers a) !! k) = if decide (j = k) then unfinished w' else default [] (unfinished <$> sendWorkers a !! k).
Proof.
  intros Hw. case_decide as Hk; [subst k; rewrite list_lookup_insert_eq by (by eapply lookup_lt_Some); done|]. by rewrite list_lookup_insert_ne.
Qed.

(** What the shards do to the rest: packets go to the end of the channel. *)
Definition emits (a a' : aggregatorV2) (out : list sendInfo) : Prop :=
  sendWorkers a' = sendWorkers a /\ held a' = held a /\ stopped a' = stopped a /\ done_ a' = done_ a /\
  sendTaskCh a' = sendTaskCh a ++ out /\ emitted a' = emitted a ++ out.

Lemma emits_pipeline a a' out : pipeline_ok a -> emits a a' out -> pipeline_ok a'.
Proof.
  intros [Hs Hp Ho Ha Hn] (Hw & Hh & Hst & Hd & Hc & He).
  constructor; unfold worker_of_key, worker_of; rewrite ?Hw, ?Hh, ?Hst, ?Hd, ?Hc, ?He; [done|done| | |done].
  - intros k. specialize (Ho k). rewrite !of_key_app in *. rewrite Ho. unfold worker_of_key, worker_of. rewrite <- !app_assoc. done.
  - rewrite Ha. solve_Permutation.
Qed.

Lemma forward_pipeline cfg a a' : pipeline_ok a -> v2_step cfg a Forward = Next a' -> pipeline_ok a'.
Proof.
  intros [Hs Hp Ho Ha Hn]. cbn [v2_step]. destruct (held a) as [t|] eqn:Eh; [|done]. rewrite Hn. fold (worker_of a t).
  destruct (sendWorkers a !! worker_of a t) as [w|] eqn:Ew; [|done]. case_match; [|done]. intros [= <-].
  assert (Hlen : length (<[worker_of a t := mkSW (taskCh w ++ [t]) (sending w)]> (sendWorkers a)) = length (sendWorkers a)) by apply length_insert.
  assert (Hu : unfinished (mkSW (taskCh w ++ [t]) (sending w)) = unfinished w ++ [t]) by (unfold unfinished; cbn; by rewrite app_assoc).
  match goal with |- pipeline_ok ?x => assert (Hwk : forall s, worker_of x s = worker_of a s) by (intros s; by apply worker_of_len) end.
  constructor; cbn [emitted done_ sendWorkers held sendTaskCh stopped set_senders set_queue]; [by rewrite Hlen| | | |done].
  - intros j w' s Hj Hin. rewrite Hwk. destruct (decide (j = worker_of a t)) as [->|Hne].
    + rewrite list_lookup_insert_eq in Hj by (by eapply lookup_lt_Some). injection Hj as <-. rewrite Hu in Hin.
      apply elem_of_app in Hin as [Hin|Hin]; [by eapply Hp|]. apply list_elem_of_singleton in Hin as ->. done.
    + rewrite list_lookup_insert_ne in Hj by done. by eapply Hp.
  - intros k. rewrite Ho. cbn [option_list app]. unfold worker_of_key at 2. rewrite Hwk. fold (worker_of_key a k).
    rewrite (default_insert a _ w _ _ Ew), Hu. case_decide as Hk.
    + rewrite <- Hk, Ew. cbn [default fmap option_fmap option_map]. rewrite <- !app_assoc. done.
    + rewrite !of_key_app. change (option_list (Some t)) with [t]. rewrite of_key_other; [done|].
      intros Hkey. apply Hk. by rewrite (worker_of_same a t k Hkey).
  - rewrite Ha. cbn [option_list app]. destruct (bind_insert unfinished (sendWorkers a) _ w (mkSW (taskCh w ++ [t]) (sending w)) Ew) as (rest & -> & ->).
    rewrite Hu. solve_Permutation.
Qed.

(** A worker that starts or ends a task. *)
Lemma sender_pipeline a j w w' fin :
  pipeline_ok a -> sendWorkers a !! j = Some w -> unfinished w = fin.*1 ++ unfinished w' ->
  pipeline_ok (set_senders a (<[j := w']> (sendWorkers a)) (done_ a ++ fin)).
Proof.
  intros [Hs Hp Ho Ha Hn] Ew Hu. pose proof (length_insert (sendWorkers a) j w') as Hlen.
  match goal with |- pipeline_ok ?x => assert (Hwk : forall s, worker_of x s = worker_of a s) by (intros s; by apply worker_of_len) end.
  constructor; cbn [emitted done_ sendWorkers held sendTaskCh stopped set_senders set_queue]; [by rewrite Hlen| | | |done].
  - intros i w1 s Hi Hin. rewrite Hwk. destruct (decide (i = j)) as [->|Hne].
    + rewrite list_lookup_insert_eq in Hi by (by eapply lookup_lt_Some). injection Hi as <-. eapply Hp; [exact Ew|]. rewrite Hu. apply elem_of_app. by right.
    + rewrite list_lookup_insert_ne in Hi by done. by eapply Hp.
  - intros k. unfold worker_of_key. rewrite Hwk, Ho. fold (worker_of_key a k). rewrite (default_insert a _ w _ _ Ew), fmap_app. case_decide as Hk.
    + rewrite <- Hk, Ew. change (default [] (unfinished <$> Some w)) with (unfinished w). rewrite Hu, <- !app_assoc.
      reflexivity.
    + assert (Hf : of_key k fin.*1 = []); [|rewrite !of_key_app, Hf; by rewrite app_nil_r].
      apply elem_of_nil_inv. intros s [Hkey Hin]%list_elem_of_filter. apply Hk. rewrite (worker_of_same a s k Hkey). symmetry. eapply Hp; [exact Ew|].
      rewrite Hu. apply elem_of_app. by left.
  - rewrite Ha. destruct (bind_insert unfinished (sendWorkers a) _ w w' Ew) as (rest & -> & ->). rewrite Hu, fmap_app. solve_Permutation.
Qed.

(** ** Accounting of the shards *)

Definition v2event_ok (e : v2event) : Prop := match e with AddV2 msg => msg_okV2 msg | StopV2 => False | _ => True end.

Definition is_evict (e : v2event) : bool := match e with EvictKey _ => true | _ => false end.

(** An eviction that removes a route of which the flush goroutine of the shard has popped a batch. *)
Definition v2_races (a : aggregatorV2) (e : v2event) : bool :=
  match e with
  | EvictKey i =>
      match shards a !! i with
      | Some s => match evicting (core s) with Some v => races (core s) v | None => false end
      | None => false
      end
  | _ => false
  end.

(** Everything a shard has taken and not put on the channel. *)
Definition shard_owes (cfg : Config) (s : shard) : list (string * SubPacket) := mbind carried (outMsg s) ++ gowes cfg (core s).

(** All messages that were accepted and not lost. *)
Definition totalV2 (cfg : Config) (a : aggregatorV2) : list (string * SubPacket) :=
  mbind carried (emitted a) ++ mbind (acceptedV2 cfg) (inputChan a ++ dropped a) ++ mbind (shard_owes cfg) (shards a).

Definition addedV2 (evs : list v2event) : list aggregatorMsg := omap (fun e => match e with AddV2 msg => Some msg | _ => None end) evs.

Record shards_ok (cfg : Config) (a : aggregatorV2) : Prop := {
  so_inv : Forall (fun s => ginv cfg (core s)) (shards a);
  so_msgs : Forall msg_okV2 (inputChan a)
}.

(** What a step of a shard does. *)
Definition shard_moved (cfg : Config) (a a' : aggregatorV2) (lossless : bool) : Prop :=
  shards_ok cfg a' /\ (exists out, emits a a' out) /\
  exists lost, totalV2 cfg a' ++ lost ≡ₚ totalV2 cfg a /\ (lossless = true -> lost = []).

(** A step that changes shard [i], takes the input to [ch] and puts [out] on the channel. *)
Lemma moved_shard cfg a i s s' ch out lost lossless a' :
  shards_ok cfg a -> shards a !! i = Some s -> ginv cfg (core s') -> Forall msg_okV2 ch ->
  shards a' = <[i := s']> (shards a) -> inputChan a' = ch -> dropped a' = dropped a -> emits a a' out ->
  mbind carried out ++ mbind (acceptedV2 cfg) ch ++ shard_owes cfg s' ++ lost ≡ₚ mbind (acceptedV2 cfg) (inputChan a) ++ shard_owes cfg s ->
  (lossless = true -> lost = []) -> shard_moved cfg a a' lossless.
Proof.
  intros [Hi Hm] Hs Hg Hch Hs' Hin Hdr He Hp Hl. split; [constructor; [rewrite Hs'; by apply Forall_insert|by rewrite Hin]|]. split; [by exists out|].
  exists lost. split; [|done]. destruct He as (_ & _ & _ & _ & _ & He). unfold totalV2. rewrite Hs', Hin, Hdr, He.
  destruct (bind_insert (shard_owes cfg) (shards a) i s s' Hs) as (rest & -> & ->). rewrite !bind_app.
  transitivity ((mbind carried out ++ mbind (acceptedV2 cfg) ch ++ shard_owes cfg s' ++ lost) ++ mbind carried (emitted a) ++ mbind (acceptedV2 cfg) (dropped a) ++ rest);
    [solve_Permutation|]. rewrite Hp. solve_Permutation.
Qed.

Lemma emits_refl a a' :
  sendWorkers a' = sendWorkers a -> held a' = held a -> stopped a' = stopped a -> done_ a' = done_ a -> sendTaskCh a' = sendTaskCh a -> emitted a' = emitted a -> emits a a' [].
Proof. intros. unfold emits. rewrite !app_nil_r. by split_and!. Qed.

Lemma on_shard_moved cfg a i f lossless a' :
  shards_ok cfg a ->
  (forall g g', ginv cfg g -> f g = Next g' -> ginv cfg g' /\ exists lost, gowes cfg g' ++ lost ≡ₚ gowes cfg g /\ (lossless = true -> lost = [])) ->
  on_shard a i f = Next a' -> shard_moved cfg a a' lossless /\ inputChan a' = inputChan a.
Proof.
  intros Ha Hf. unfold on_shard. destruct (shards a !! i) as [[g om]|] eqn:Es; [|done]. intros (g' & Hg' & [= <-])%obind_Next.
  pose proof (Forall_lookup_1 _ _ _ _ (so_inv _ _ Ha) Es) as Hg. destruct (Hf g g' Hg Hg') as (Hok & lost & Hp & Hl). split; [|done].
  eapply (moved_shard cfg a i _ (mkShard g' om) (inputChan a) [] lost); [done|exact Es|exact Hok|apply Ha|done|done|done|by apply emits_refl| |done].
  unfold shard_owes. cbn [core outMsg]. rewrite <- Hp. cbn [mbind list_bind]. solve_Permutation.
Qed.

Lemma emit_Next a out a' : stopped a = false -> emit a out = Next a' ->
  emits a a' out /\ shards a' = shards a /\ inputChan a' = inputChan a /\ dropped a' = dropped a.
Proof. unfold emit. intros Hn. rewrite Hn. cbn [andb]. case_match; [|done]. intros [= <-]. split; [|done]. by unfold emits. Qed.

Lemma emit_not_Panics a out : stopped a = false -> emit a out <> Panics.
Proof. unfold emit. intros ->. cbn [andb]. by case_match. Qed.

Section Shards.
Context (cfg : Config) (Hc : 24 <= BufferSize cfg <= 64 * 1024).

Lemma cfg_fits : cfg_ok cfg.
Proof. unfold cfg_ok. lia. Qed.

(** The sections that the shards share with the workers of the first aggregator. *)
Lemma section_keeps e g g' : ginv cfg g -> gstep cfg g e = Next (g', []) ->
  ginv cfg g' /\ exists lost, gowes cfg g' ++ lost ≡ₚ gowes cfg g /\ (match e with EvictRoute => false | _ => true end = true -> lost = []).
Proof.
  intros Hg Hs. destruct (gstep_keeps cfg g e g' [] cfg_fits Hg Hs) as (Hg' & lost & Hp & Hl). split; [done|]. exists lost. split; [exact Hp|].
  intros Hb. apply Hl. by intros ->.
Qed.

Lemma receive_moved a i a' : shards_ok cfg a ->
  shard_step cfg a (ReceiveV2 i) <> Panics /\ (shard_step cfg a (ReceiveV2 i) = Next a' -> shard_moved cfg a a' true).
Proof.
  intros Ha. pose proof Ha as [Hi Hm]. cbn [shard_step]. destruct (inputChan a) as [|msg rest] eqn:Ec; [done|]. destruct (shards a !! i) as [[g [|]]|] eqn:Es; [|done..].
  destruct (pc g) eqn:Hpc; try done. apply Forall_cons in Hm as [Hm Hms]. pose proof (Forall_lookup_1 _ _ _ _ Hi Es) as Hg. cbn [core] in Hg. case_match.
  - destruct (take_msgV2_spec cfg g msg Hc Hm Hg Hpc) as (g' & out & -> & Hg' & Hp). split; [done|]. intros [= <-].
    eapply (moved_shard cfg a i _ (mkShard g' out) rest [] []); [done|exact Es|exact Hg'|done|done|done|done|by apply emits_refl| |done].
    rewrite Ec. unfold shard_owes. cbn [core outMsg mbind list_bind app]. rewrite app_nil_r, Hp. solve_Permutation.
  - split; [done|]. intros [= <-]. split; [by constructor|]. split; [exists []; by apply emits_refl|]. exists []. split; [|done].
    unfold totalV2. rewrite Ec. cbn [emitted inputChan dropped shards set_dropped set_input]. rewrite app_nil_r. rewrite !bind_app. cbn [mbind list_bind]. solve_Permutation.
Qed.

Lemma emit_moved a i a' : shards_ok cfg a -> stopped a = false ->
  shard_step cfg a (EmitV2 i) <> Panics /\ (shard_step cfg a (EmitV2 i) = Next a' -> shard_moved cfg a a' true).
Proof.
  intros Ha Hn. cbn [shard_step]. destruct (shards a !! i) as [[g [|s om]]|] eqn:Es; [done| |done]. split; [by apply emit_not_Panics|].
  intros (He & Hs & Hin & Hd)%emit_Next; [|done]. pose proof (Forall_lookup_1 _ _ _ _ (so_inv _ _ Ha) Es) as Hg.
  eapply (moved_shard cfg a i _ (mkShard g om) (inputChan a) [s] []); [done|exact Es|exact Hg|apply Ha|done|done|done|exact He| |done].
  unfold shard_owes. cbn [core outMsg mbind list_bind]. solve_Permutation.
Qed.

Lemma flushV2_moved a i a' : shards_ok cfg a -> stopped a = false ->
  shard_step cfg a (FlushV2 i) <> Panics /\ (shard_step cfg a (FlushV2 i) = Next a' -> shard_moved cfg a a' true).
Proof.
  intros Ha Hn. cbn [shard_step]. destruct (shards a !! i) as [[g om]|] eqn:Es; [|done]. pose proof (Forall_lookup_1 _ _ _ _ (so_inv _ _ Ha) Es) as Hg. cbn [core] in Hg.
  rewrite (flush_nextV2_eq cfg) by (done || lia). pose proof (gstep_panics cfg g FlushItem cfg_fits Hg) as Hnp. cbn [gstep] in Hnp.
  destruct (flush_next g) as [[g' out]| |] eqn:Ef; cbn [obind]; [|done|by destruct (proj1 Hnp eq_refl) as [? _]]. split; [by apply emit_not_Panics|].
  intros (He & Hs & Hin & Hd)%emit_Next; [|done]. destruct (gstep_keeps cfg g FlushItem g' out cfg_fits Hg Ef) as (Hg' & lost & Hp & Hl). rewrite Hl, app_nil_r in Hp by done.
  eapply (moved_shard cfg a i _ (mkShard g' om) (inputChan a) out []); [done|exact Es|exact Hg'|apply Ha|done|done|done|exact He| |done].
  unfold shard_owes. cbn [core outMsg]. rewrite <- Hp. solve_Permutation.
Qed.

Lemma on_shard_panics a i f : on_shard a i f = Panics <-> exists s, shards a !! i = Some s /\ f (core s) = Panics.
Proof.
  unfold on_shard. destruct (shards a !! i) as [[g om]|]; [|naive_solver]. split.
  - intros Hx. exists (mkShard g om). split; [done|]. cbn [core]. by destruct (f g).
  - intros (s & [= <-] & Hf). cbn [core] in Hf. by rewrite Hf.
Qed.

Lemma shard_step_panics a e : shards_ok cfg a -> stopped a = false -> shard_step cfg a e = Panics <-> v2_races a e = true.
Proof.
  intros Ha Hn. assert (Hno : forall i e', e' <> EvictRoute -> ~ exists s, shards a !! i = Some s /\ gstep cfg (core s) e' = Panics).
  { intros i e' Hne (s & Hs & Hp). apply gstep_panics in Hp as [? _]; [done|apply cfg_fits|exact (Forall_lookup_1 _ _ _ _ (so_inv _ _ Ha) Hs)]. }
  destruct e as [msg|i|i now|i|i now|i|now|keys|i|i| | | |j|j ok|]; cbn [v2_races]; try (split; [by repeat case_match|done]).
  - split; [|done]. intros Hp. by destruct (receive_moved a i a Ha).
  - cbn [shard_step]. rewrite on_shard_panics. split; [|done]. intros (s & Hs & Hp). destruct (Hno i (Work now)); [done|]. exists s. cbn [gstep]. by rewrite quietly_Panics.
  - split; [|done]. intros Hp. by destruct (emit_moved a i a Ha Hn).
  - cbn [shard_step]. rewrite on_shard_panics. split; [|done]. intros (s & Hs & Hp). destruct (Hno i (PopExpired now)); [done|]. exists s. cbn [gstep]. by rewrite quietly_Panics.
  - split; [|done]. intros Hp. by destruct (flushV2_moved a i a Ha Hn).
  - cbn [shard_step]. by destruct (evictor a).
  - split; [|done]. cbn [shard_step]. destruct (evictor a) as [[now i]|]; [|done]. case_match; [|done]. destruct (on_shard _ _ _) eqn:Eo; [done..|]. intros _.
    apply on_shard_panics in Eo as (s & Hs & Hp). destruct (Hno i (Snapshot now keys)); [done|]. exists s. cbn [gstep]. by rewrite quietly_Panics.
  - cbn [shard_step]. rewrite on_shard_panics. split; [|done]. intros (s & Hs & Hp). unfold read_ageV2 in Hp. by repeat case_match.
  - cbn [shard_step]. rewrite on_shard_panics. split.
    + intros (s & Hs & Hp). apply (evict_route_panics cfg) in Hp as (v & Hv & ?); [by rewrite Hs, Hv|exact (Forall_lookup_1 _ _ _ _ (so_inv _ _ Ha) Hs)].
    + destruct (shards a !! i) as [s|] eqn:Es; [|done]. destruct (evicting (core s)) as [v|] eqn:Ev; [|done]. intros Hr. exists s. split; [done|].
      apply (evict_route_panics cfg); [exact (Forall_lookup_1 _ _ _ _ (so_inv _ _ Ha) Es)|]. by exists v.
  - cbn [shard_step]. destruct (evictor a) as [[now i]|]; [|done]. by case_match.
Qed.

Lemma shard_step_moved a e a' : shards_ok cfg a -> stopped a = false -> shard_step cfg a e = Next a' -> shard_moved cfg a a' (negb (is_evict e)).
Proof.
  intros Ha Hn. assert (Hsame : forall x, shard_moved cfg a (set_evictor a x) true).
  { intros x. split; [by destruct Ha|]. split; [exists []; by apply emits_refl|]. exists []. by rewrite app_nil_r. }
  assert (Hq : forall e' f i, (forall g, quietly (f g) = gstep cfg g e') -> on_shard a i f = Next a' -> shard_moved cfg a a' match e' with EvictRoute => false | _ => true end).
  { intros e' f i Hf Ho. eapply (on_shard_moved cfg a i f); [done| |exact Ho]. intros g g' Hg Hx. apply (section_keeps e'); [done|]. rewrite <- Hf. by apply quietly_Next. }
  destruct e as [msg|i|i now|i|i now|i|now|keys|i|i| | | |j|j ok|]; cbn [is_evict negb]; try done.
  - intros Hp. by apply (receive_moved a i).
  - cbn [shard_step]. by apply (Hq (Work now)).
  - intros Hp. by apply (emit_moved a i).
  - cbn [shard_step]. by apply (Hq (PopExpired now)).
  - intros Hp. by apply (flushV2_moved a i).
  - cbn [shard_step]. destruct (evictor a); [done|]. intros [= <-]. apply Hsame.
  - cbn [shard_step]. destruct (evictor a) as [[now i]|]; [|done]. case_match; [|done]. intros (a1 & Ho & [= <-])%obind_Next.
    destruct (on_shard_moved cfg a i (snapshotV2 now keys) true a1 Ha) as [(Hok & (out & He) & lost & Hp & Hl) _]; [|done|].
    + intros g g' Hg Hx. destruct (snapshot_keeps cfg _ _ _ _ Hg Hx) as [? ->]. split; [done|]. exists []. by rewrite app_nil_r.
    + split; [by destruct Hok|]. split; [by exists out|]. by exists lost.
  - cbn [shard_step]. intros Ho. eapply (on_shard_moved cfg a i read_ageV2); [done| |exact Ho]. intros g g' Hg Hx.
    destruct (read_ageV2_keeps cfg _ _ Hg Hx) as [? ->]. split; [done|]. exists []. by rewrite app_nil_r.
  - cbn [shard_step]. by apply (Hq EvictRoute).
  - cbn [shard_step]. destruct (evictor a) as [[now i]|]; [|done]. case_match; [|done]. intros [= <-]. apply Hsame.
Qed.

(** ** Steps of all goroutines *)

(** What is true after the events [evs]. *)
Record v2_inv (evs : list v2event) (a : aggregatorV2) : Prop := {
  vi_shards : shards_ok cfg a;
  vi_pipe : pipeline_ok a;
  vi_total : exists lost, totalV2 cfg a ++ lost ≡ₚ mbind (acceptedV2 cfg) (addedV2 evs) /\ (existsb is_evict evs = false -> lost = [])
}.

Lemma v2_inv_new count : v2_inv [] (NewAggregatorV2 count).
Proof.
  assert (Hz : forall n j w, replicate n (mkSW [] None) !! j = Some w -> w = mkSW [] None) by (intros n j w Hl; by apply lookup_replicate in Hl as [-> _]).
  constructor; [constructor; [apply Forall_replicate, ginv_new|constructor]| |exists []; by rewrite app_nil_r].
  constructor; cbn [emitted done_ sendWorkers held sendTaskCh stopped NewAggregatorV2].
  - rewrite length_replicate. unfold AggregatorPool.or_eight. destruct (Z.leb_spec count 0); lia.
  - intros j w s Hw Hin. apply Hz in Hw as ->. by apply not_elem_of_nil in Hin.
  - intros k. destruct (replicate _ _ !! _) eqn:E; [apply Hz in E as ->|]; done.
  - by induction (AggregatorPool.or_eight count).
  - done.
Qed.

Lemma addedV2_app l1 l2 : addedV2 (l1 ++ l2) = addedV2 l1 ++ addedV2 l2.
Proof. apply omap_app. Qed.

(** A step that the shards do not see. *)
Lemma v2_inv_pipe evs e a a' :
  v2_inv evs a -> pipeline_ok a' -> addedV2 [e] = [] -> shards a' = shards a -> inputChan a' = inputChan a -> dropped a' = dropped a -> emitted a' = emitted a -> v2_inv (evs ++ [e]) a'.
Proof.
  intros [[Hs Hm] _ (lost & Ht & Hl)] Hp He Hs' Hi Hd Hem. constructor; [constructor; congruence|done|].
  exists lost. unfold totalV2 in *. rewrite Hs', Hi, Hd, Hem. split.
  - by rewrite Ht, addedV2_app, He, app_nil_r.
  - rewrite existsb_app. by intros [? _]%orb_false_iff; apply Hl.
Qed.

Lemma v2_inv_shard evs e a a' :
  v2_inv evs a -> addedV2 [e] = [] -> shard_step cfg a e = Next a' -> v2_inv (evs ++ [e]) a'.
Proof.
  intros [Hs Hp (lost & Ht & Hl)] He Hstep. destruct (shard_step_moved a e a' Hs (pi_open _ Hp) Hstep) as (Hs' & (out & Hem) & lost' & Hp' & Hl').
  constructor; [done|by eapply emits_pipeline|]. exists (lost' ++ lost). split.
  - rewrite addedV2_app, He, app_nil_r, <- Ht, <- Hp'. solve_Permutation.
  - rewrite existsb_app. cbn [existsb]. rewrite orb_false_r. intros [He1 He2]%orb_false_iff. by rewrite Hl, Hl' by (done || by rewrite He2).
Qed.

Lemma v2_step_inv evs a e :
  v2event_ok e -> v2_inv evs a -> (v2_step cfg a e = Panics <-> v2_races a e = true) /\ forall a', v2_step cfg a e = Next a' -> v2_inv (evs ++ [e]) a'.
Proof.
  intros He Hv. pose proof Hv as [Hs Hp _]. pose proof (pi_open _ Hp) as Hn.
  destruct e as [msg|i|i now|i|i now|i|now|keys|i|i| | | |j|j ok|];
    try (split; [by apply shard_step_panics|intros a'; by apply v2_inv_shard]); cbn [v2_step v2_races]; try done.
  - rewrite Hn. destruct (_ <? _); [|done]. split; [done|]. intros a' [= <-]. destruct Hv as [[Hi Hm] _ (lost & Ht & Hl)].
    constructor; [constructor; [done|]|by destruct Hp|].
    + cbn [inputChan set_input]. apply Forall_app. split; [done|by constructor].
    + exists lost. split; [|rewrite existsb_app; by intros [? _]%orb_false_iff; apply Hl]. rewrite addedV2_app. change (addedV2 [AddV2 msg]) with [msg].
      rewrite bind_app, <- Ht. unfold totalV2. cbn [emitted inputChan dropped shards set_input]. rewrite !bind_app. cbn [mbind list_bind]. solve_Permutation.
  - destruct (held a) eqn:Eh; [done|]. destruct (sendTaskCh a) as [|t rest] eqn:Ec; [done|]. split; [done|]. intros a' [= <-].
    eapply v2_inv_pipe; [done| |done..]. destruct Hp as [? ? Ho Ha ?].
    constructor; cbn [emitted done_ sendWorkers held sendTaskCh stopped set_queue]; try done; rewrite ?Eh, ?Ec in *; done.
  - destruct (held a) as [t|] eqn:Eh; [|done]. rewrite Hn.
    destruct (lookup_lt_is_Some_2 (sendWorkers a) (Z.to_nat (dispatch (length (sendWorkers a)) t))) as [w Ew].
    { pose proof (pi_some _ Hp). pose proof (dispatch_range (length (sendWorkers a)) t ltac:(lia)). lia. }
    assert (Hf : forall a', v2_step cfg a Forward = Next a' -> pipeline_ok a') by (intros a'; by apply (forward_pipeline cfg)).
    cbn [v2_step] in Hf. rewrite Eh, Hn, Ew in Hf. rewrite Ew. destruct (_ <? _); [|done]. split; [done|]. intros a' Ha'. pose proof (Hf a' Ha') as Hp'. injection Ha' as <-.
    by eapply v2_inv_pipe.
  - destruct (sendWorkers a !! j) as [[[|t q] [|]]|] eqn:Ew; try done; [by rewrite Hn|]. split; [done|]. intros a' [= <-]. eapply v2_inv_pipe; [done| |done..].
    pose proof (sender_pipeline a j _ (mkSW q (Some t)) [] Hp Ew ltac:(done)) as Hx. by rewrite app_nil_r in Hx.
  - destruct (sendWorkers a !! j) as [[q [t|]]|] eqn:Ew; [|done..]. split; [done|]. intros a' [= <-]. eapply v2_inv_pipe; [done| |done..]. by eapply sender_pipeline.
Qed.

Lemma v2_run_inv evs0 evs a a' : Forall v2event_ok evs -> v2_inv evs0 a -> v2_run cfg a evs = Next a' -> v2_inv (evs0 ++ evs) a'.
Proof.
  intros He. revert evs0 a. induction He as [|e evs He Hes IH]; intros evs0 a Hv; cbn [v2_run]; [intros [= <-]; by rewrite app_nil_r|].
  intros (a1 & Ha1 & Hr)%obind_Next. destruct (v2_step_inv evs0 a e He Hv) as [_ Hx]. rewrite cons_middle, app_assoc. by apply (IH _ a1); [apply Hx|].
Qed.

(** ** Properties *)

(** C24. The sharded aggregator until it is stopped, with buffers of at most 64 KiB and messages that fit into such a buffer, in every
    interleaving of the critical sections of its goroutines: it panics exactly when the eviction removes a route of which the flush goroutine
    has popped a batch and not sent it yet; the messages that were added are
    those in packets on the channel, those still waiting, those that the message goroutine of another shard took and dropped, and those lost by evictions (none without
    one); every packet put on the channel is handed to [SendPacket] exactly once or is still on its way; and the packets of one
    routing key are finished in the order in which they were put on the channel. *)
Theorem v2_order count evs a :
  Forall v2event_ok evs -> v2_run cfg (NewAggregatorV2 count) evs = Next a ->
  (forall e, v2event_ok e -> v2_step cfg a e = Panics <-> v2_races a e = true) /\
  (exists lost, mbind carried (emitted a) ++ mbind (acceptedV2 cfg) (inputChan a) ++ mbind (shard_owes cfg) (shards a) ++
                mbind (acceptedV2 cfg) (dropped a) ++ lost ≡ₚ mbind (acceptedV2 cfg) (addedV2 evs) /\
                (existsb is_evict evs = false -> lost = [])) /\
  emitted a ≡ₚ (done_ a).*1 ++ mbind unfinished (sendWorkers a) ++ option_list (held a) ++ sendTaskCh a /\
  forall k, of_key k (done_ a).*1 `prefix_of` of_key k (emitted a).
Proof.
  intros He Hr. pose proof (v2_run_inv [] evs _ a He (v2_inv_new count) Hr) as Hv. pose proof Hv as [Hs Hp (lost & Ht & Hl)]. split_and!.
  - intros e Hok. by eapply v2_step_inv.
  - exists lost. split; [|done]. cbn [app] in Ht. rewrite <- Ht. unfold totalV2. rewrite bind_app. solve_Permutation.
  - apply Hp.
  - intros k. rewrite (pi_order _ Hp k), of_key_app. by apply prefix_app_r.
Qed.
End Shards.
End Steps.

#[local] Existing Instance no_ipv6.

Definition small_msg : aggregatorMsg := mkMsg true "10.0.0.1,10.0.0.2,10.0.0.3" "tcp" 8080 ["10.0.0.1"; "10.0.0.2"; "10.0.0.3"] [10; 0; 0; 2] 7 [104; 105].
Definition small_shard : nat := Z.to_nat (hashRoutingKey (m_routingKey small_msg)).

(** [Stop] closes the channels of the send workers while the dispatcher may hold a packet for one of
    them: forwarding it is a send on a closed channel.  A packet that a shard has ready after [Stop] has the
    same effect, and idle send workers, which watch another channel that nobody closes, receive zero tasks for ever. *)
Theorem stop_panics :
  v2_run sample_cfg (NewAggregatorV2 2) [AddV2 small_msg; ReceiveV2 small_shard; EmitV2 small_shard; Dispatch; StopV2; Forward] = Panics /\
  v2_run sample_cfg (NewAggregatorV2 2) [AddV2 small_msg; ReceiveV2 small_shard; StopV2; EmitV2 small_shard] = Panics /\
  (let forever := [StopV2; StartSend 0; EndSend 0 false; StartSend 0; EndSend 0 false] in
   match v2_run sample_cfg (NewAggregatorV2 2) forever with Next a => (done_ a).*1 = [zero_task; zero_task] | _ => False end).
Proof. vm_compute. done. Qed.

Definition slow_msg : aggregatorMsg := mkMsg false "10.0.0.1,10.0.0.2,10.0.0.3" "tcp" 8080 ["10.0.0.1"; "10.0.0.2"; "10.0.0.3"] [10; 0; 0; 2] 7 [104; 105].

(** The flush goroutine of a shard pops a batch that has become stale, and before it sends the batch the eviction comes to its route:
    [heap.Remove] is called with the index -1. *)
Definition race_events : list v2event :=
  let late := 1000000000000000 in
  [AddV2 slow_msg; ReceiveV2 small_shard] ++ replicate 5 (SectionV2 small_shard 0) ++ [PopV2 small_shard late; EvictTick late] ++
  replicate small_shard (EvictShard []) ++ [EvictShard [m_routingKey slow_msg]; EvictAge small_shard; EvictKey small_shard].

Theorem evict_race_panicsV2 : v2_run sample_cfg (NewAggregatorV2 2) race_events = Panics.
Proof. vm_compute. done. Qed.

Definition small_worker : nat := Z.to_nat (dispatch 2 (mkSend [] (m_routingKey small_msg) [])).
Definition sample_v2_events : list v2event :=
  [AddV2 small_msg; ReceiveV2 small_shard; EmitV2 small_shard; Dispatch; Forward; StartSend small_worker; EndSend small_worker true].

Lemma v2_order_witness :
  match v2_run sample_cfg (NewAggregatorV2 2) sample_v2_events with
  | Next a => length (done_ a) = 1%nat /\ of_key (m_routingKey small_msg) (done_ a).*1 `prefix_of` of_key (m_routingKey small_msg) (emitted a)
  | _ => False
  end.
Proof.
  assert (Hn : match v2_run sample_cfg (NewAggregatorV2 2) sample_v2_events with Next a => length (done_ a) = 1%nat | _ => False end) by (vm_compute; reflexivity).
  destruct (v2_run sample_cfg (NewAggregatorV2 2) sample_v2_events) as [a| |] eqn:E; [|destruct Hn|destruct Hn]. split; [exact Hn|].
  apply (v2_order sample_cfg ltac:(cbn; lia) 2 sample_v2_events a).
  - apply Forall_cons_2; [|by repeat constructor]. split; [unfold fits; cbn; lia|]. split; [|vm_compute; discriminate].
    apply (bool_decide_unpack _). vm_compute. exact I.
  - exact E.
Defined.
End AggregatorV2Pool.
