(* ===== verification/Graph.v ===== *)
(** * The network graph (control-plane/routing/graph/update-graph.go)

    The graph the routers work on: nodes by public address, edges by the string ["src->dst"].  Each
    report of a node ([AddNode]) turns its probe results into edges whose weight is [EdgeRisk]. *)

From Stdlib Require Import ZArith Lia SpecFloat.
From stdpp Require Import base list gmap strings pretty.
From S2P Require Import Prelude F64.

(** What the code uses of package [math]. *)
Class GoMath := {
  Pow : float64 -> float64 -> float64;
  Exp : float64 -> float64;
  Pow_ok x y : weight_ok x -> weight_ok y -> weight_ok (Pow x y);
  Exp_ok x : is_nan x = false -> weight_ok (Exp x)
}.

Module Graph.

Record Edge := mkEdge {
  SourceIp : string;
  DestinationIp : string;
  EdgeWeight : float64;
  Load : float64;
  Latency : float64;
  Loss : float64
}.

#[global] Instance Edge_eq_dec : EqDecision Edge.
Proof. solve_decision. Defined.

(** [agg.LinkCongestion] with the fields of its probe target that the graph reads. *)
Record LinkCongestion := mkLink {
  TargetType : string;
  TargetIP : string;      (* Target.IP *)
  TargetPort : Z;         (* Target.Port *)
  PacketLoss : float64;
  AverageLatency : float64
}.

(** [rece.CPUInfo]. *)
Record CPUInfo := mkCPU {
  PhysicalCore : Z;
  LogicalCore : Z;
  Usage : float64;
  Load1Min : float64;
  LoadDelta : float64
}.

(** [agg.NodeTelemetry]; [LinksCongestion] in the order in which the loop visits the map. *)
Record NodeTelemetry := mkNode {
  PublicIP : string;
  Provider : string;
  Continent : string;
  Country : string;
  City : string;
  CpuPressure : float64;
  Cpu : CPUInfo;
  LinksCongestion : list LinkCongestion
}.

Record GraphManager := mkGraph {
  edges : gmap string Edge;
  nodes : gmap string NodeTelemetry
}.

Definition NewGraphManager : GraphManager := mkGraph ∅ ∅.

Definition GetNodes (g : GraphManager) : gmap string NodeTelemetry := nodes g.

Definition GetNode (g : GraphManager) (id : string) : option NodeTelemetry := nodes g !! id.

(** The order of the slice is the iteration order of the map. *)
Definition GetEdges `{RangeMap} (g : GraphManager) : list Edge := snd <$> range_map (edges g).

Definition GetEdge (g : GraphManager) (edgeID : string) : option Edge := edges g !! edgeID.

Definition UpdateWeight (e : Edge) (newWeight : float64) : Edge := mkEdge (SourceIp e) (DestinationIp e) newWeight (Load e) (Latency e) (Loss e).
Definition Weight (e : Edge) : float64 := EdgeWeight e.

(** [GetEdge] returns a pointer: an update through it is an update of the graph. *)
Definition update_edge (g : GraphManager) (edgeID : string) (newWeight : float64) : GraphManager :=
  mkGraph (alter (fun e => UpdateWeight e newWeight) edgeID (edges g)) (nodes g).

(** ** Edge risk *)

Section Risk.
Context `{GoMath}.

Definition cpuMax : float64 := of_Z 60.
Definition cpuPower : float64 := of_Z 2.
Definition lossInflection : float64 := lit 5 100.
Definition lossSharpness : float64 := of_Z 40.
Definition latencyMax : float64 := of_Z 150.
Definition latPower : float64 := lit 3 2.
Definition wCPU : float64 := lit 1 2.
Definition wLoss : float64 := fzero.
Definition wLat : float64 := lit 1 2.

Definition cpu_risk (cpuPressure : float64) : float64 :=
  if flt cpuPressure (of_Z 50) then fzero
  else Pow (fdiv cpuPressure cpuMax) cpuPower.

Definition loss_risk (loss : float64) : float64 :=
  if fle fone loss then fone
  else if fle loss fzero then fzero
  else fdiv fone (fadd fone (Exp (fmul (SFopp lossSharpness) (fsub loss lossInflection)))).

Definition lat_risk (latency : float64) : float64 :=
  let latRatio := fdiv latency latencyMax in
  let latRatio := if flt latRatio fzero then fzero else latRatio in
  Pow latRatio latPower.

Definition EdgeRisk (cpuPressure loss latency : float64) : float64 :=
  fadd (fadd (fmul wCPU (cpu_risk cpuPressure)) (fmul wLoss (loss_risk loss))) (fmul wLat (lat_risk latency)).

(** ** AddNode, RemoveNode *)

(** One link of a report: the end points, the risk and the load; [None] when the peer is unknown. *)
Definition link_edge (g : GraphManager) (node : NodeTelemetry) (v : LinkCongestion) :
    option (string * string * float64 * float64) :=
  if String.eqb (TargetType v) "source" then
    Some (PublicIP node, TargetIP v +:+ ":" +:+ pretty (TargetPort v),
          EdgeRisk fzero (PacketLoss v) (AverageLatency v), fzero)
  else match nodes g !! TargetIP v with
       | None => None
       | Some outNode =>
           Some (PublicIP node, TargetIP v,
                 EdgeRisk (CpuPressure outNode) (PacketLoss v) (AverageLatency v), CpuPressure outNode)
       end.

Definition edge_key (in_ out : string) : string := in_ +:+ "->" +:+ out.

Definition add_link (node : NodeTelemetry) (g : GraphManager) (v : LinkCongestion) : GraphManager :=
  match link_edge g node v with
  | None => g
  | Some (in_, out, r, load) =>
      let newLine := edge_key in_ out in
      let e := match edges g !! newLine with
               | Some old => mkEdge (SourceIp old) (DestinationIp old) r (Load old) (Latency old) (Loss old)
               | None => mkEdge in_ out r load (AverageLatency v) fzero
               end in
      mkGraph (<[newLine := e]> (edges g)) (nodes g)
  end.

Definition AddNode (g : GraphManager) (node : NodeTelemetry) : GraphManager :=
  foldl (add_link node) (mkGraph (edges g) (<[PublicIP node := node]> (nodes g))) (LinksCongestion node).

Definition RemoveNode (g : GraphManager) (id : string) : GraphManager :=
  mkGraph (filter (fun ke => SourceIp (snd ke) <> id /\ DestinationIp (snd ke) <> id) (edges g))
          (delete id (nodes g)).

(** ** The weights are numbers, and not negative *)

(** A measured quantity: a float64 that is not NaN (the reports are JSON, which has none). *)
Definition measured (x : float64) : Prop := valid x /\ is_finite x = true.

Lemma lit_half_ok : weight_ok (lit 1 2).
Proof. by split. Qed.

Lemma half_ok x : weight_ok x -> weight_ok (fmul (lit 1 2) x).
Proof.
  intros Hx. destruct (decide (x = finf)) as [->|]; [by split|].
  apply fmul_ok; [by split|done|done|done].
Qed.

Lemma cpu_risk_ok cpu : measured cpu -> weight_ok (cpu_risk cpu).
Proof.
  intros [Hv Hf]. unfold cpu_risk. destruct (flt cpu (of_Z 50)) eqn:E; [by split|].
  apply Pow_ok; [|by split]. change cpuMax with (S754_finite false 8444249301319680 (-47)). apply fdiv_ok; [|done].
  split; [done|]. destruct cpu as [|s| |s m e]; try done. by destruct s.
Qed.

Lemma loss_risk_finite loss : measured loss -> is_finite (loss_risk loss) = true /\ nonneg (loss_risk loss).
Proof.
  intros [Hv Hf]. unfold loss_risk. destruct (fle fone loss); [done|]. destruct (fle loss fzero); [done|].
  set (x := fmul _ _).
  assert (Hx : is_nan x = false).
  { unfold x. change (SFopp lossSharpness) with (S754_finite true 5629499534213120 (-47)).
    apply fmul_not_nan, fsub_not_nan; done. }
  destruct (fadd_ok fone (Exp x)) as (Hs & H1 & _); [by split|by apply Exp_ok|].
  split; [by apply recip_finite|]. destruct Hs as [Hvs Hns].
  destruct (fadd fone (Exp x)) as [s|s| |s m e]; cbn in Hns; subst; try done.
  apply (fdiv_ok fone m e); [by split|done].
Qed.

Lemma lat_risk_ok lat : measured lat -> weight_ok (lat_risk lat).
Proof.
  intros [Hv Hf]. unfold lat_risk. cbv zeta. apply Pow_ok; [|by split].
  change latencyMax with (S754_finite false 5277655813324800 (-45)).
  destruct (flt _ fzero) eqn:E; [by split|].
  destruct lat as [s|s| |s m e]; try done. destruct s; [|apply fdiv_ok; [by split|done]].
  pose proof (fdiv_sign true m e false 5277655813324800 (-45)) as Hs. cbn [xorb] in Hs.
  destruct (fdiv _ _) as [s|s| |s m' e']; cbn in Hs; subst; by split.
Qed.

Lemma EdgeRisk_weight cpu loss lat :
  measured cpu -> measured loss -> measured lat -> weight_ok (EdgeRisk cpu loss lat).
Proof.
  intros Hc Hl Ht. destruct (loss_risk_finite loss Hl) as [Hlf Hln]. unfold EdgeRisk.
  assert (H0 : weight_ok (fmul wLoss (loss_risk loss))) by (by destruct (loss_risk loss)).
  apply fadd_ok; [apply fadd_ok; [by apply half_ok, cpu_risk_ok|done]|by apply half_ok, lat_risk_ok].
Qed.

(** ** Invariant *)

Definition report_ok (node : NodeTelemetry) : Prop :=
  measured (CpuPressure node) /\
  Forall (fun v => measured (PacketLoss v) /\ measured (AverageLatency v)) (LinksCongestion node).

Record graph_ok (g : GraphManager) : Prop := {
  ok_edges k e : edges g !! k = Some e ->
    k = edge_key (SourceIp e) (DestinationIp e) /\ weight_ok (EdgeWeight e) /\ measured (Latency e);
  ok_nodes id n : nodes g !! id = Some n -> PublicIP n = id /\ measured (CpuPressure n)
}.

Lemma measured_zero : measured fzero.
Proof. by split. Qed.

Lemma link_edge_ok g node v in_ out r load :
  graph_ok g -> measured (PacketLoss v) -> measured (AverageLatency v) ->
  link_edge g node v = Some (in_, out, r, load) -> weight_ok r.
Proof.
  intros Hg Hl Ht. unfold link_edge. case_match.
  - intros [= <- <- <- <-]. apply EdgeRisk_weight; auto using measured_zero.
  - destruct (nodes g !! TargetIP v) as [o|] eqn:E; [|done]. intros [= <- <- <- <-].
    apply EdgeRisk_weight; [|done..]. by apply (ok_nodes _ Hg _ _ E).
Qed.

Lemma add_link_ok node g v :
  graph_ok g -> measured (PacketLoss v) -> measured (AverageLatency v) -> graph_ok (add_link node g v).
Proof.
  intros Hg Hl Ht. unfold add_link. destruct (link_edge g node v) as [[[[in_ out] r] load]|] eqn:E; [|done].
  pose proof (link_edge_ok _ _ _ _ _ _ _ Hg Hl Ht E) as Hr. constructor; cbn [edges nodes]; [|apply Hg].
  intros k e. rewrite lookup_insert_Some. intros [[<- <-]|[_ He]]; [|by apply Hg].
  destruct (edges g !! edge_key in_ out) as [old|] eqn:Eo; [|done].
  destruct (ok_edges _ Hg _ _ Eo) as (? & ? & ?). done.
Qed.

Lemma AddNode_ok g node : graph_ok g -> report_ok node -> graph_ok (AddNode g node).
Proof.
  intros Hg [Hc Hl]. unfold AddNode.
  assert (Hg0 : graph_ok (mkGraph (edges g) (<[PublicIP node := node]> (nodes g)))).
  { constructor; cbn [edges nodes]; [apply Hg|]. intros id n. rewrite lookup_insert_Some.
    intros [[<- <-]|[_ Hn]]; [done|by apply Hg]. }
  revert Hg0. generalize (mkGraph (edges g) (<[PublicIP node := node]> (nodes g))) as g0.
  induction Hl as [|v l [Hv1 Hv2] Hl IH]; intros g0 Hg0; [done|]. by apply IH, add_link_ok.
Qed.

Lemma RemoveNode_ok g id : graph_ok g -> graph_ok (RemoveNode g id).
Proof.
  intros Hg. constructor; cbn [RemoveNode edges nodes].
  - intros k e [He _]%map_lookup_filter_Some. by apply Hg.
  - intros i n [_ Hn]%lookup_delete_Some. by apply Hg.
Qed.

(** A weight that is set from outside keeps the invariant when it is a weight, and is read back. *)
Lemma update_edge_ok g edgeID w : graph_ok g -> weight_ok w -> graph_ok (update_edge g edgeID w).
Proof.
  intros Hg Hw. constructor; cbn [update_edge edges nodes]; [|apply Hg]. intros k e He. apply lookup_alter_Some in He as [(-> & old & Ho & ->)|[_ He]]; [|by apply Hg].
  destruct (ok_edges _ Hg _ _ Ho) as (? & _ & ?). done.
Qed.

Lemma update_edge_weight g edgeID w : Weight <$> GetEdge (update_edge g edgeID w) edgeID = (fun _ => w) <$> GetEdge g edgeID.
Proof. unfold GetEdge. cbn [update_edge edges]. rewrite lookup_alter_eq. by destruct (edges g !! edgeID). Qed.

(** Reports and removals in the order in which the manager executes them. *)
Inductive graph_op := Report (node : NodeTelemetry) | Remove (id : string).

Definition apply_op (g : GraphManager) (op : graph_op) : GraphManager :=
  match op with Report node => AddNode g node | Remove id => RemoveNode g id end.

Definition op_ok (op : graph_op) : Prop := match op with Report node => report_ok node | Remove _ => True end.

Lemma nodes_add_links node l g : nodes (foldl (add_link node) g l) = nodes g.
Proof.
  revert g. induction l as [|v l IH]; intros g; [done|]. cbn [foldl]. rewrite IH. unfold add_link. by repeat case_match.
Qed.

Lemma link_edge_nodes g g' node v : nodes g = nodes g' -> link_edge g node v = link_edge g' node v.
Proof. unfold link_edge. by intros ->. Qed.

Definition link_key (g : GraphManager) (node : NodeTelemetry) (v : LinkCongestion) : option string :=
  (fun '(in_, out, _, _) => edge_key in_ out) <$> link_edge g node v.

Lemma add_links_other node l g k :
  (forall v, v ∈ l -> link_key g node v <> Some k) -> edges (foldl (add_link node) g l) !! k = edges g !! k.
Proof.
  revert g. induction l as [|v l IH]; intros g Hk; [done|]. cbn [foldl].
  assert (Hn : nodes (add_link node g v) = nodes g) by (apply (nodes_add_links node [v])).
  rewrite IH.
  - specialize (Hk v ltac:(left)). unfold add_link, link_key in *.
    destruct (link_edge g node v) as [[[[in_ out] r] load]|]; [|done]. cbn [edges fmap option_fmap option_map] in *.
    rewrite lookup_insert_ne; [done|]. congruence.
  - intros v' Hv'. unfold link_key. rewrite (link_edge_nodes _ _ _ _ Hn). apply Hk. by right.
Qed.

(** ** Properties *)

(** C19. In every sequence of node reports and removals the graph stays well formed: an edge is
    stored under the key of its end points, a node under its address, and every edge weight is a
    non-negative float64 that is not NaN, which is what the path search relies on. *)
Theorem graph_invariant ops :
  Forall op_ok ops -> graph_ok (foldl apply_op NewGraphManager ops).
Proof.
  assert (H0 : graph_ok NewGraphManager) by (constructor; intros ??; cbn; by rewrite lookup_empty).
  revert H0. generalize NewGraphManager as g. intros g Hg Hops. revert g Hg.
  induction Hops as [|[node|id] ops Ho Hops IH]; intros g Hg; [done| |]; cbn [foldl apply_op];
    apply IH; [by apply AddNode_ok|by apply RemoveNode_ok].
Qed.

(** What a report does to one edge: the last link of the report for it sets the weight to the
    risk of that link; a new edge also takes the load and latency of the link, but an edge that
    exists keeps the load and latency of the first report that made it. *)
Theorem AddNode_edge g node l1 v l2 in_ out r load :
  LinksCongestion node = l1 ++ v :: l2 ->
  let g0 := mkGraph (edges g) (<[PublicIP node := node]> (nodes g)) in
  link_edge g0 node v = Some (in_, out, r, load) ->
  (forall v', v' ∈ l1 ++ l2 -> link_key g0 node v' <> Some (edge_key in_ out)) ->
  edges (AddNode g node) !! edge_key in_ out =
    Some (match edges g !! edge_key in_ out with
          | Some old => mkEdge (SourceIp old) (DestinationIp old) r (Load old) (Latency old) (Loss old)
          | None => mkEdge in_ out r load (AverageLatency v) fzero
          end).
Proof.
  intros Hl g0 Hv Hother. unfold AddNode. rewrite Hl, foldl_app. cbn [foldl]. fold g0.
  set (g1 := foldl (add_link node) g0 l1).
  assert (Hn1 : nodes g1 = nodes g0) by apply nodes_add_links.
  assert (Hn2 : nodes (add_link node g1 v) = nodes g0) by (rewrite <- Hn1; apply (nodes_add_links node [v])).
  rewrite add_links_other.
  - unfold add_link. rewrite (link_edge_nodes g1 g0 node v Hn1), Hv. cbn [edges]. rewrite lookup_insert_eq.
    unfold g1. rewrite add_links_other; [done|]. intros v' Hv'. apply Hother. apply elem_of_app. by left.
  - intros v' Hv'. unfold link_key. rewrite (link_edge_nodes _ g0 _ _ Hn2). apply Hother. apply elem_of_app. by right.
Qed.

(** Removing a node removes it and exactly the edges that touch it. *)
Theorem RemoveNode_spec g id :
  nodes (RemoveNode g id) !! id = None /\
  forall k e, edges (RemoveNode g id) !! k = Some e <->
    edges g !! k = Some e /\ SourceIp e <> id /\ DestinationIp e <> id.
Proof.
  split; [apply lookup_delete_eq|]. intros k e. cbn [RemoveNode edges]. by rewrite map_lookup_filter_Some.
Qed.
End Risk.

(** ** Instances *)

(** A [math] package for the examples: constant functions satisfy what the proofs use. *)
Definition toy_math : GoMath.
Proof. refine {| Pow x y := x; Exp _ := fone |}; [done|by split]. Defined.

Definition sample_node (lat : Z) : NodeTelemetry :=
  mkNode "10.0.0.1" "gcp" "EU" "DE" "Berlin" (of_Z 20) (mkCPU 2 2 (of_Z 20) (of_Z 1) fzero)
    [mkLink "source" "10.0.0.9" 8080 fzero (of_Z lat)].

Lemma measured_of_Z_sample : measured (of_Z 20) /\ measured (of_Z 75) /\ measured (of_Z 150).
Proof. vm_compute. done. Qed.

Lemma sample_report_ok : report_ok (sample_node 75) /\ report_ok (sample_node 150).
Proof. split; (split; [vm_compute; done|repeat constructor; vm_compute; done]). Qed.

Lemma graph_invariant_witness :
  @graph_ok (foldl (@apply_op toy_math) NewGraphManager [Report (sample_node 75); Report (sample_node 150); Remove "10.0.0.9:8080"]).
Proof.
  apply (@graph_invariant toy_math). destruct sample_report_ok. repeat constructor; done.
Defined.

(** The second report changes the weight (0.5 for 150 ms) but not the latency (75 ms). *)
Lemma AddNode_edge_witness :
  let g1 := @AddNode toy_math NewGraphManager (sample_node 75) in
  edges (@AddNode toy_math g1 (sample_node 150)) !! "10.0.0.1->10.0.0.9:8080" =
    Some (mkEdge "10.0.0.1" "10.0.0.9:8080" (lit 1 2) fzero (of_Z 75) fzero).
Proof.
  intros g1.
  etransitivity; [exact (@AddNode_edge toy_math g1 (sample_node 150) [] (mkLink "source" "10.0.0.9" 8080 fzero (of_Z 150)) []
      "10.0.0.1" "10.0.0.9:8080" (lit 1 2) fzero eq_refl ltac:(vm_compute; reflexivity)
      ltac:(intros v' Hv'; by apply not_elem_of_nil in Hv'))|].
  vm_compute. reflexivity.
Defined.

End Graph.
