(* ===== verification/ShortestPath.v ===== *)
(** * The path search of the K-shortest solver (control-plane/routing/core-domain/k-shortest.go)

    [findShortestPath]: Dijkstra's algorithm on a heap with lazy deletion, except that it stops
    relaxing edges as soon as the destination has been seen.  What it returns is a simple path of the
    graph with its cost; it finds a path whenever the destination can be reached; the path need not be
    a shortest one. *)

From Stdlib Require Import ZArith Lia SpecFloat.
From stdpp Require Import base list gmap strings.
From S2P Require Import Prelude F64 GoHeap GoStrings Graph.
Import Graph.

Module ShortestPath.

Record Path := mkPath { hops : list string; p_cost : float64; p_rawRTT : float64 }.

Record PQNode := mkPQ { node : string; cost : float64; rawRTT : float64 }.

#[global] Instance PQNode_eq_dec : EqDecision PQNode.
Proof. solve_decision. Defined.

Definition Less (x y : PQNode) : bool := flt (cost x) (cost y).

Abbreviation adjacency := (gmap string (list Edge)).

Record KShortestSolver := mkSolver {
  ks_edges : list Edge;
  alpha : float64;
  ks_k : nat;
  useLatency : bool
}.

(** A missing key of a Go map reads as the zero value. *)
Definition edges_of (g : adjacency) (u : string) : list Edge := default [] (g !! u).
Definition fget (m : gmap string float64) (k : string) : float64 := default fzero (m !! k).
Definition sget (m : gmap string string) (k : string) : string := default "" (m !! k).
Definition bget (m : gmap string bool) (k : string) : bool := default false (m !! k).

(** ** removeConsecutiveDuplicates *)

Fixpoint dedup_from (prev : string) (l : list string) : list string :=
  match l with
  | [] => []
  | h :: rest => if String.eqb h prev then dedup_from h rest else h :: dedup_from h rest
  end.

Definition removeConsecutiveDuplicates (l : list string) : list string :=
  match l with
  | [] => []
  | h :: rest => h :: dedup_from h rest
  end.

(** The check before it in [findShortestPath]. *)
Fixpoint has_consecutive (l : list string) : bool :=
  match l with
  | x :: (y :: _) as rest => String.eqb x y || has_consecutive rest
  | _ => false
  end.

(** ** findShortestPath *)

Record search := mkSearch {
  dist : gmap string float64;
  prev : gmap string string;
  rtt : gmap string float64;
  pq : list (entry PQNode)
}.

Inductive result := Found (p : Path) | NotFound | OutOfFuel.

Section Search.
Context (ks : KShortestSolver).

Definition edge_cost (e : Edge) : float64 :=
  fmul (if useLatency ks then Latency e else EdgeWeight e) (alpha ks).

(** All the nodes of the graph start at infinity. *)
Definition init_dist (g : adjacency) : gmap string float64 :=
  let sources := map_to_list g in
  let names := (fst <$> sources) ++ mbind (fun '(_, es) => map DestinationIp es) sources in
  list_to_map ((fun n => (n, finf)) <$> names).

Definition init_search (start : string) (g : adjacency) : search :=
  mkSearch (<[start := fzero]> (init_dist g)) ∅ (<[start := fzero]> (init_dist g))
           (heap_Push Less [] (mkPQ start fzero fzero)).

(** The body of the loop over the edges of the current node. *)
Definition relax (forbidden forbiddenE : gmap string bool) (currNode : string) (currCost : float64)
    (st : search) (e : Edge) : search :=
  let nextNode := DestinationIp e in
  if bget forbidden nextNode then st
  else if bget forbiddenE (currNode +:+ "->" +:+ nextNode) then st
  else
    let newCost := fadd currCost (edge_cost e) in
    let newRTT := fadd (fget (rtt st) currNode) (Latency e) in
    if flt newCost (fget (dist st) nextNode) then
      mkSearch (<[nextNode := newCost]> (dist st)) (<[nextNode := currNode]> (prev st))
               (<[nextNode := newRTT]> (rtt st)) (heap_Push Less (pq st) (mkPQ nextNode newCost fzero))
    else st.

(** [for node := end; node != ""; node = prev[node]]. *)
Fixpoint build_path (fuel : nat) (prev : gmap string string) (n : string) (path : list string) :
    option (list string) :=
  if String.eqb n "" then Some path
  else match fuel with
       | O => None
       | S fuel => build_path fuel prev (sget prev n) (n :: path)
       end.

Definition finish (st : search) (end_ : string) (currCost : float64) : result :=
  match build_path (S (size (prev st))) (prev st) end_ [] with
  | None => OutOfFuel
  | Some path =>
      let path := if has_consecutive path then removeConsecutiveDuplicates path else path in
      Found (mkPath path currCost (fget (rtt st) end_))
  end.

Fixpoint search_loop (fuel : nat) (end_ : string) (g : adjacency) (forbidden forbiddenE : gmap string bool)
    (st : search) : result :=
  match fuel with
  | O => OutOfFuel
  | S fuel =>
      match heap_Pop Less (pq st) with
      | None => NotFound
      | Some (u, pq') =>
          let st1 := mkSearch (dist st) (prev st) (rtt st) pq' in
          let currNode := node u in
          let currCost := cost u in
          if flt (fget (dist st) currNode) currCost then search_loop fuel end_ g forbidden forbiddenE st1
          else if String.eqb currNode end_ then finish st1 end_ currCost
          else if negb (feq (fget (dist st) end_) finf) then search_loop fuel end_ g forbidden forbiddenE st1
          else search_loop fuel end_ g forbidden forbiddenE
                 (foldl (relax forbidden forbiddenE currNode currCost) st1 (edges_of g currNode))
      end
  end.

Definition edge_count (g : adjacency) : nat := sum_list_with (fun '(_, es) => length es) (map_to_list g).

(** Every iteration takes one element off the heap, and an edge is pushed at most once. *)
Definition search_fuel (g : adjacency) : nat := 2 + edge_count g.

Definition findShortestPath (start end_ : string) (g : adjacency) (forbidden forbiddenE : gmap string bool) : result :=
  search_loop (search_fuel g) end_ g forbidden forbiddenE (init_search start g).
End Search.

(** ** Correctness of the search *)

(** Costs are compared as numbers. *)
Definition number (x : PQNode) : Prop := is_nan (cost x) = false.

Lemma pq_Less_asym x y : Less x y = true -> Less y x = false.
Proof. apply flt_asym. Qed.

Lemma pq_Less_trans x y z : number y -> le Less x y -> le Less y z -> le Less x z.
Proof. unfold number, le, Less. apply fge_trans. Qed.

Lemma fget_Some m k d : m !! k = Some d -> fget m k = d.
Proof. unfold fget. by intros ->. Qed.

Lemma build_path_spec prev n path fuel : n = "" -> build_path fuel prev n path = Some path.
Proof. intros ->. by destruct fuel. Qed.

Lemma flt_inf_r x y : flt x y = true -> x <> finf.
Proof. intros H ->. apply flt_rank in H as (_ & _ & H). destruct y as [[]|[]| |[] m e]; cbn in H; lia. Qed.

Lemma feq_inf x : weight_ok x -> feq x finf = bool_decide (x = finf).
Proof. intros [_ Hn]. destruct x as [[]|[]| |[] m e]; cbn in Hn; try done. Qed.

Lemma weight_ok_num x : weight_ok x -> is_nan x = false.
Proof. intros [_ H]. by apply nonneg_not_nan. Qed.

Lemma weight_ok_inf : weight_ok finf.
Proof. done. Qed.

#[local] Hint Resolve weight_ok_num weight_ok_inf : go_db.

Lemma init_dist_inf (g : adjacency) v d : init_dist g !! v = Some d -> d = finf.
Proof.
  unfold init_dist. intros Hl. apply elem_of_list_to_map_2 in Hl.
  apply list_elem_of_fmap in Hl as (n & Hn & _). congruence.
Qed.

Lemma init_dist_dom (g : adjacency) u e : e ∈ edges_of g u -> is_Some (init_dist g !! DestinationIp e).
Proof.
  intros He. apply not_eq_None_Some. intros Hn. unfold init_dist in Hn. apply not_elem_of_list_to_map in Hn.
  apply Hn. rewrite <- list_fmap_compose. apply list_elem_of_fmap. exists (DestinationIp e). split; [done|].
  apply elem_of_app. right. unfold edges_of in He. destruct (g !! u) as [es|] eqn:E; [|set_solver].
  apply list_elem_of_bind. exists (u, es). split; [|by apply elem_of_map_to_list]. by apply list_elem_of_fmap_2.
Qed.

Section Correct.
Context (ks : KShortestSolver) (g : adjacency) (start end_ : string) (forb forbE : gmap string bool).

(** The weights are those of [Graph.graph_invariant] and the node names are addresses. *)
Record graph_good : Prop := {
  gg_weight u e : e ∈ edges_of g u -> weight_ok (edge_cost ks e);
  gg_name u e : e ∈ edges_of g u -> DestinationIp e <> "";
  gg_start : start <> ""
}.

Context (Hg : graph_good).

Definition allowed (u : string) (e : Edge) : Prop :=
  e ∈ edges_of g u /\ bget forb (DestinationIp e) = false /\
  bget forbE (u +:+ "->" +:+ DestinationIp e) = false.

Definition path_hops (es : list Edge) : list string := start :: map DestinationIp es.
Definition sum_cost (es : list Edge) : float64 := foldl (fun c e => fadd c (edge_cost ks e)) fzero es.
Definition sum_rtt (es : list Edge) : float64 := foldl (fun c e => fadd c (Latency e)) fzero es.

(** [walk v es]: [es] are the edges of a simple path from [start] to [v] that uses allowed edges. *)
Inductive walk : string -> list Edge -> Prop :=
| walk_start : walk start []
| walk_snoc u es e : walk u es -> allowed u e -> DestinationIp e ∉ path_hops es ->
    walk (DestinationIp e) (es ++ [e]).

(** The same, recorded in [prev] with all nodes but the last one settled. *)
Inductive traced (S : gset string) (P : gmap string string) : string -> list Edge -> Prop :=
| traced_start : P !! start = None -> traced S P start []
| traced_snoc u es e : traced S P u es -> u ∈ S -> allowed u e -> DestinationIp e ∉ path_hops es ->
    P !! DestinationIp e = Some u -> traced S P (DestinationIp e) (es ++ [e]).

Lemma traced_walk S P v es : traced S P v es -> walk v es.
Proof. induction 1; [apply walk_start|by eapply walk_snoc]. Qed.

Lemma path_hops_snoc es e : path_hops (es ++ [e]) = path_hops es ++ [DestinationIp e].
Proof. unfold path_hops. by rewrite map_app. Qed.

Lemma walk_nodup v es : walk v es -> NoDup (path_hops es).
Proof.
  induction 1 as [|u es e Hw IH Ha Hn]; [apply NoDup_singleton|]. rewrite path_hops_snoc.
  apply NoDup_app. split; [done|]. split; [|apply NoDup_singleton].
  intros x Hx Hx2. apply list_elem_of_singleton in Hx2 as ->. done.
Qed.

Lemma walk_last v es : walk v es -> last (path_hops es) = Some v.
Proof. destruct 1; [done|]. rewrite path_hops_snoc. by rewrite last_snoc. Qed.

Lemma walk_names v es : walk v es -> v <> "" /\ Forall (fun h => h <> "") (path_hops es).
Proof.
  induction 1 as [|u es e Hw IH Ha Hn]; [split; [|repeat constructor]; apply Hg|].
  assert (DestinationIp e <> "") by (eapply (gg_name Hg); apply Ha).
  rewrite path_hops_snoc. split; [done|]. apply Forall_app. split; [apply IH|by repeat constructor].
Qed.

(** Changing [prev] outside the settled nodes keeps the traces. *)
Lemma traced_mono S S' P P' v es :
  traced S P v es -> S ⊆ S' -> (forall x, x ∈ S \/ x = v -> P' !! x = P !! x) -> traced S' P' v es.
Proof.
  intros Ht HS. induction Ht as [Hp|u es e Ht IH Hu Ha Hn Hp]; intros HP.
  - constructor. rewrite HP by (by right). done.
  - apply (traced_snoc _ _ u); try done; [|by apply HS|rewrite HP; [done|by right]].
    apply IH. intros x [Hx|Hx]; apply HP; [by left|left; congruence].
Qed.

(** Following [prev] from the end of a trace gives its path. *)
Lemma build_path_traced S P v es path fuel :
  traced S P v es -> (length es < fuel)%nat -> build_path fuel P v path = Some (path_hops es ++ path).
Proof.
  intros Ht. revert path fuel. induction Ht as [Hp|u es e Ht IH Hu Ha Hn Hp]; intros path fuel Hf.
  - destruct fuel as [|fuel]; [simpl in Hf; lia|]. cbn [build_path].
    rewrite (proj2 (String.eqb_neq _ _)) by apply Hg.
    unfold sget. rewrite Hp. cbn [default]. by apply build_path_spec.
  - rewrite length_app in Hf. simpl in Hf. destruct fuel as [|fuel]; [lia|]. cbn [build_path].
    rewrite (proj2 (String.eqb_neq _ _)) by (eapply (gg_name Hg); apply Ha).
    unfold sget. rewrite Hp. cbn [default]. rewrite IH by lia. rewrite path_hops_snoc, <- app_assoc. done.
Qed.

(** A trace is no longer than [prev] is large. *)
Lemma traced_length S P v es : traced S P v es -> (length es <= size P)%nat.
Proof.
  intros Ht. pose proof (walk_nodup v es (traced_walk _ _ _ _ Ht)) as Hnd.
  assert (Hdom : forall x, x ∈ map DestinationIp es -> x ∈ dom P).
  { clear Hnd. induction Ht as [Hp|u es e Ht IH Hu Ha Hn Hp]; [set_solver|].
    rewrite map_app. intros x [Hx|Hx%list_elem_of_singleton]%elem_of_app; [by apply IH|].
    subst. by apply elem_of_dom_2 in Hp. }
  unfold path_hops in Hnd. apply NoDup_cons in Hnd as [_ Hnd].
  rewrite <- (length_map DestinationIp es), <- size_dom.
  rewrite <- (size_list_to_set (C := gset string)) by done.
  apply subseteq_size. intros x Hx. apply elem_of_list_to_set in Hx. by apply Hdom.
Qed.

Lemma traced_hops S P v es h : traced S P v es -> h ∈ path_hops es -> h ∈ S \/ h = v.
Proof.
  induction 1 as [Hp|u es e Ht IH Hu Ha Hn Hp].
  - intros Hh. apply list_elem_of_singleton in Hh. by right.
  - rewrite path_hops_snoc. intros [Hh|Hh%list_elem_of_singleton]%elem_of_app; [|by right].
    left. destruct (IH Hh) as [| ->]; done.
Qed.

Lemma sum_cost_snoc es e : sum_cost (es ++ [e]) = fadd (sum_cost es) (edge_cost ks e).
Proof. unfold sum_cost. by rewrite foldl_snoc. Qed.

Lemma sum_rtt_snoc es e : sum_rtt (es ++ [e]) = fadd (sum_rtt es) (Latency e).
Proof. unfold sum_rtt. by rewrite foldl_snoc. Qed.

(** *** The invariant of the search

    [S] are the nodes whose edges have been relaxed; while the edges of [cur] are being relaxed,
    [todo] are the ones that are left. *)
Record inv (S : gset string) (cur : string) (todo : list Edge) (st : search) : Prop := {
  i_dist v d : dist st !! v = Some d -> weight_ok d /\
    (d = finf \/ exists es, traced S (prev st) v es /\ d = sum_cost es /\ rtt st !! v = Some (sum_rtt es));
  i_dom u e : e ∈ edges_of g u -> is_Some (dist st !! DestinationIp e);
  i_start : dist st !! start = Some fzero;
  i_heap : heap_ok Less number (pq st);
  i_item x : x ∈ map val (pq st) -> weight_ok (cost x) /\ cost x <> finf /\
    exists d, dist st !! node x = Some d /\ (d = cost x \/ flt d (cost x) = true);
  i_settled u : u ∈ S -> exists d, dist st !! u = Some d /\ d <> finf /\
    (forall x, x ∈ map val (pq st) -> flt (cost x) d = false) /\
    (forall e, allowed u e -> u = cur /\ e ∈ todo \/ flt (fadd d (edge_cost ks e)) (fget (dist st) (DestinationIp e)) = false);
  i_open v d : dist st !! v = Some d -> d <> finf -> v ∉ S -> v = end_ \/ fget (dist st) end_ = finf ->
    exists x, x ∈ map val (pq st) /\ node x = v /\ cost x = d;
  i_end : end_ ∉ S
}.

(** The current node has its final distance [c], which bounds those of the settled nodes. *)
Definition at_cur (S : gset string) (cur : string) (c : float64) (st : search) : Prop :=
  cur ∈ S /\ dist st !! cur = Some c /\ c <> finf /\
  forall x d, x ∈ S -> dist st !! x = Some d -> flt c d = false.

Abbreviation relax' := (relax ks forb forbE).

(** An improving edge leads to a node that is not settled. *)
Lemma improve_unsettled S cur todo st c e :
  inv S cur todo st -> at_cur S cur c st -> e ∈ edges_of g cur ->
  flt (fadd c (edge_cost ks e)) (fget (dist st) (DestinationIp e)) = true ->
  DestinationIp e ∉ S /\ DestinationIp e <> start /\
  forall x d, x ∈ S -> dist st !! x = Some d -> flt (fadd c (edge_cost ks e)) d = false.
Proof.
  intros Hi (Hcur & Hc & Hcinf & Hmax) He Hlt.
  pose proof (gg_weight Hg _ _ He) as Hw. destruct (i_dist _ _ _ _ Hi _ _ Hc) as [Hwc _].
  destruct (fadd_ok c _ Hwc Hw) as (Hwn & Hge & _).
  assert (Hall : forall x d, x ∈ S -> dist st !! x = Some d -> flt (fadd c (edge_cost ks e)) d = false).
  { intros x d Hx Hd. apply (fge_trans d c); eauto with go_db. }
  split_and!; [| |done].
  - intros HS. destruct (i_settled _ _ _ _ Hi _ HS) as (d & Hd & _). rewrite (fget_Some _ _ _ Hd), (Hall _ _ HS Hd) in Hlt. done.
  - intros Hs. rewrite Hs, (fget_Some _ _ _ (i_start _ _ _ _ Hi)), nonneg_ge_zero in Hlt; [done|apply Hwn].
Qed.

(** The state after an improving edge. *)
Lemma inv_improve S cur todo st c e :
  inv S cur (e :: todo) st -> at_cur S cur c st -> allowed cur e ->
  flt (fadd c (edge_cost ks e)) (fget (dist st) (DestinationIp e)) = true ->
  let nc := fadd c (edge_cost ks e) in
  let v := DestinationIp e in
  inv S cur todo (mkSearch (<[v := nc]> (dist st)) (<[v := cur]> (prev st))
    (<[v := fadd (fget (rtt st) cur) (Latency e)]> (rtt st)) (heap_Push Less (pq st) (mkPQ v nc fzero))).
Proof.
  intros Hi Hat Ha Hlt nc v. pose proof Ha as (He & _).
  destruct (improve_unsettled _ _ _ _ _ _ Hi Hat He Hlt) as (HvS & Hvs & Hall). fold v nc in HvS, Hvs, Hall, Hlt.
  destruct Hat as (Hcur & Hc & Hcinf & Hmax).
  pose proof (gg_weight Hg _ _ He) as Hw. destruct (i_dist _ _ _ _ Hi _ _ Hc) as [Hwc Htr].
  destruct (fadd_ok c _ Hwc Hw) as (Hwn & Hge & _). fold nc in Hwn, Hge.
  pose proof (flt_inf_r _ _ Hlt) as Hninf.
  destruct Htr as [|(es & Htr & Hces & Hres)]; [done|].
  destruct (i_dom _ _ _ _ Hi _ _ He) as [dv Hdv]. fold v in Hdv.
  assert (Hlt' : flt nc dv = true) by (by rewrite (fget_Some _ _ _ Hdv) in Hlt).
  destruct (heap_Push_spec Less number pq_Less_asym pq_Less_trans _ (mkPQ v nc fzero) (i_heap _ _ _ _ Hi)) as [Hok Hp];
    [unfold number; cbn; eauto with go_db|].
  assert (HP : forall x, x ∈ S -> <[v := cur]> (prev st) !! x = prev st !! x)
    by (intros x Hx; rewrite lookup_insert_ne; [done|congruence]).
  assert (HD : forall x, x ∈ S -> <[v := nc]> (dist st) !! x = dist st !! x)
    by (intros x Hx; rewrite lookup_insert_ne; [done|congruence]).
  constructor; cbn [dist prev rtt pq].
  - intros x d. rewrite lookup_insert_Some. intros [[<- <-]|[Hne Hd]].
    + split; [done|]. right. exists (es ++ [e]). split; [|split].
      * apply (traced_snoc _ _ cur); try done.
        -- apply (traced_mono S S (prev st)); try done. intros x [Hx|Hx]; [by apply HP|subst x; by apply HP].
        -- intros Hin. destruct (traced_hops _ _ _ _ _ Htr Hin) as [|Heq]; [done|]. fold v in Heq. congruence.
        -- apply lookup_insert_eq.
      * by rewrite sum_cost_snoc, <- Hces.
      * by rewrite lookup_insert_eq, sum_rtt_snoc, (fget_Some _ _ _ Hres).
    + destruct (i_dist _ _ _ _ Hi _ _ Hd) as [? [?|(es' & Ht' & ? & ?)]]; (split; [done|]); [by left|right].
      exists es'. rewrite (lookup_insert_ne (rtt st)) by done. split; [|done].
      apply (traced_mono S S (prev st)); try done. intros y [Hy|Hy]; [by apply HP|subst y; by apply lookup_insert_ne].
  - intros u e' He'. rewrite lookup_insert_is_Some. destruct (decide (v = DestinationIp e')); [by left|right].
    split; [done|]. by apply (i_dom _ _ _ _ Hi u).
  - rewrite lookup_insert_ne by done. apply Hi.
  - done.
  - intros x. rewrite Hp. intros [->|Hx]%elem_of_cons; cbn [node cost].
    + split_and!; try done. exists nc. rewrite lookup_insert_eq. by split; [|left].
    + destruct (i_item _ _ _ _ Hi x Hx) as (? & ? & d & Hd & Hdc). split_and!; try done.
      destruct (decide (v = node x)) as [Heq|]; [|exists d; by rewrite lookup_insert_ne].
      exists nc. rewrite <- Heq, lookup_insert_eq. split; [done|]. right.
      assert (d = dv) as -> by congruence. destruct Hdc as [<-|?]; [done|by eapply flt_trans].
  - intros u Hu. destruct (i_settled _ _ _ _ Hi u Hu) as (d & Hd & ? & Hit & Hcl). exists d.
    rewrite HD by done. split_and!; try done.
    + intros x. rewrite Hp. intros [->|Hx]%elem_of_cons; [by apply (Hall u)|by apply Hit].
    + intros e' Ha'. destruct (Hcl e' Ha') as [[-> [Heq|Hin]%elem_of_cons]|Hle]; [|by left; auto|].
      * right. subst e'. fold v. assert (d = c) as -> by congruence. fold nc.
        rewrite (fget_Some _ _ nc) by apply lookup_insert_eq. apply flt_irrefl.
      * right. destruct (decide (v = DestinationIp e')) as [Heq|]; [|unfold fget in *; by rewrite lookup_insert_ne].
        rewrite <- Heq in *. rewrite (fget_Some _ _ _ Hdv) in Hle. rewrite (fget_Some _ _ nc) by apply lookup_insert_eq.
        destruct (flt (fadd d (edge_cost ks e')) nc) eqn:E; [|done].
        rewrite (flt_trans _ _ _ E Hlt') in Hle. done.
  - intros x d. rewrite lookup_insert_Some. intros [[<- <-]|[Hne Hd]] Hfin HxS Hend.
    + exists (mkPQ v nc fzero). rewrite Hp. split; [left|done].
    + destruct (i_open _ _ _ _ Hi x d Hd Hfin HxS) as (y & Hy & ?).
      * destruct (decide (v = end_)) as [Heq|]; [|unfold fget in *; by rewrite lookup_insert_ne in Hend].
        rewrite <- Heq, (fget_Some _ _ nc) in Hend by apply lookup_insert_eq. destruct Hend; [by left; congruence|done].
      * exists y. rewrite Hp. split; [by right|done].
  - apply Hi.
Qed.

(** An edge that does not improve leaves the state as it is. *)
Lemma inv_skip S cur todo st c e :
  inv S cur (e :: todo) st -> dist st !! cur = Some c ->
  (allowed cur e -> flt (fadd c (edge_cost ks e)) (fget (dist st) (DestinationIp e)) = false) ->
  inv S cur todo st.
Proof.
  intros Hi Hc Hno. constructor; try apply Hi.
  intros u Hu. destruct (i_settled _ _ _ _ Hi u Hu) as (d & Hd & ? & Hit & Hcl). exists d. split_and!; try done.
  intros e' Ha'. destruct (Hcl e' Ha') as [[-> [Heq|Hin]%elem_of_cons]|Hle]; [|by left; auto|by right].
  subst e'. right. assert (d = c) as -> by congruence. auto.
Qed.

Lemma relax_ok S cur todo st c e :
  inv S cur (e :: todo) st -> at_cur S cur c st -> e ∈ edges_of g cur ->
  inv S cur todo (relax' cur c st e) /\ at_cur S cur c (relax' cur c st e) /\
  (length (pq (relax' cur c st e)) <= length (pq st) + 1)%nat.
Proof.
  intros Hi Hat He. pose proof Hat as (Hcur & Hc & Hcinf & Hmax). unfold relax.
  destruct (bget forb (DestinationIp e)) eqn:E1; [|destruct (bget forbE _) eqn:E2]; [| |
    destruct (flt (fadd c (edge_cost ks e)) (fget (dist st) (DestinationIp e))) eqn:E3].
  1,2: (split; [|split; [done|lia]]); apply (inv_skip _ _ _ _ c e); try done; intros (_ & ? & ?); congruence.
  - assert (Ha : allowed cur e) by done. split; [by apply inv_improve|].
    destruct (improve_unsettled _ _ _ _ _ _ Hi Hat He E3) as (HvS & _).
    split; [|cbn [pq]; unfold heap_Push; rewrite length_up, length_app; simpl; lia].
    unfold at_cur. cbn [dist]. rewrite lookup_insert_ne by congruence. split_and!; try done.
    intros x d Hx. rewrite lookup_insert_ne by congruence. by apply Hmax.
  - split; [|split; [done|lia]]. by apply (inv_skip _ _ _ _ c e).
Qed.

Lemma relax_all S cur todo st c :
  inv S cur todo st -> at_cur S cur c st -> (forall e, e ∈ todo -> e ∈ edges_of g cur) ->
  inv S cur [] (foldl (relax' cur c) st todo) /\
  (length (pq (foldl (relax' cur c) st todo)) <= length (pq st) + length todo)%nat.
Proof.
  revert st. induction todo as [|e todo IH]; intros st Hi Hat Hin; [split; [done|simpl; lia]|]. cbn [foldl].
  destruct (relax_ok _ _ _ _ _ _ Hi Hat (Hin e ltac:(left))) as (Hi' & Hat' & Hl).
  destruct (IH _ Hi' Hat') as [? ?]; [intros; apply Hin; by right|]. split; [done|]. simpl. lia.
Qed.

(** Edges that cannot improve anything change nothing. *)
Lemma relax_settled cur st c todo :
  (forall e, allowed cur e -> flt (fadd c (edge_cost ks e)) (fget (dist st) (DestinationIp e)) = false) ->
  (forall e, e ∈ todo -> e ∈ edges_of g cur) ->
  foldl (relax' cur c) st todo = st.
Proof.
  intros Hcl. induction todo as [|e todo IH]; intros Hin; [done|]. cbn [foldl].
  assert (Hr : relax' cur c st e = st); [|rewrite Hr; apply IH; intros; apply Hin; by right].
  unfold relax. destruct (bget forb _) eqn:E1; [done|]. destruct (bget forbE _) eqn:E2; [done|].
  rewrite Hcl; [done|]. split_and!; try done. apply Hin. left.
Qed.

Lemma relax_dom cur c todo st : dom (dist st) ⊆ dom (dist (foldl (relax' cur c) st todo)).
Proof.
  revert st. induction todo as [|e todo IH]; intros st; [done|]. cbn [foldl].
  etransitivity; [|apply IH]. unfold relax. repeat case_match; try done. cbn [dist]. set_solver.
Qed.

(** *** Termination: the edges of the nodes that are not settled *)

Definition unsettled (S : gset string) (l : list (string * list Edge)) : nat :=
  sum_list_with (fun '(u, es) => if decide (u ∈ S) then 0 else length es) l.

Lemma unsettled_settle S u l :
  u ∉ S -> NoDup (fst <$> l) ->
  (unsettled ({[u]} ∪ S) l + match list_find (fun p => fst p = u) l with
                             | Some (_, (_, es)) => length es | None => 0 end <= unsettled S l)%nat.
Proof.
  intros Hu. induction l as [|[x es] l IH]; intros Hnd; [done|]. cbn [fmap list_fmap fst] in Hnd.
  apply NoDup_cons in Hnd as [Hx Hnd]. specialize (IH Hnd).
  unfold unsettled in *. cbn [sum_list_with list_find fst].
  destruct (decide (x = u)) as [->|Hne].
  - rewrite (decide_True (P := u ∈ {[u]} ∪ S)) by set_solver. rewrite (decide_False (P := u ∈ S)) by done.
    assert (sum_list_with (fun '(u0, es) => if decide (u0 ∈ ({[u]} ∪ S : gset string)) then 0 else length es) l
      <= sum_list_with (fun '(u0, es) => if decide (u0 ∈ S) then 0 else length es) l)%nat; [|lia].
    clear. induction l as [|[y es'] l IH]; [done|]. cbn [sum_list_with]. repeat case_decide; set_solver by lia.
  - destruct (list_find (fun p => fst p = u) l) as [[i [y es']]|]; cbn [fmap option_fmap option_map prod_map];
      repeat case_decide; set_solver by lia.
Qed.

Lemma unsettled_edges S u :
  u ∉ S -> (unsettled ({[u]} ∪ S) (map_to_list g) + length (edges_of g u) <= unsettled S (map_to_list g))%nat.
Proof.
  intros Hu. pose proof (unsettled_settle S u (map_to_list g) Hu (NoDup_fst_map_to_list g)) as Hs.
  enough (length (edges_of g u) <= match list_find (fun p => fst p = u) (map_to_list g) with
                             | Some (_, (_, es)) => length es | None => 0 end)%nat by lia.
  unfold edges_of. destruct (g !! u) as [es|] eqn:E; [|simpl; lia]. simpl.
  apply elem_of_map_to_list in E.
  destruct (list_find_elem_of (fun p => fst p = u) (map_to_list g) (u, es) E eq_refl) as [[i [x es']] Hf]. rewrite Hf.
  apply list_find_Some in Hf as (Hl & Hx & _). cbn in Hx. subst x.
  apply list_elem_of_lookup_2, elem_of_map_to_list in Hl. apply elem_of_map_to_list in E. simplify_eq. lia.
Qed.

(** *** The result *)

(** A set of nodes that contains the start, not the end, and that no allowed edge leaves, except
    edges on which the cost overflows to infinity. *)
Definition cut_off : Prop :=
  exists S : gset string, start ∈ S /\ end_ ∉ S /\
    forall u e, u ∈ S -> allowed u e -> DestinationIp e ∈ S \/
      exists c, weight_ok c /\ c <> finf /\ fadd c (edge_cost ks e) = finf.

Definition result_ok (r : result) : Prop :=
  match r with
  | Found p => exists es, walk end_ es /\ hops p = path_hops es /\ p_cost p = sum_cost es /\ p_rawRTT p = sum_rtt es
  | NotFound => is_Some (init_dist g !! end_) \/ start = end_ -> cut_off
  | OutOfFuel => False
  end.

Lemma nodup_no_consecutive l : NoDup l -> has_consecutive l = false.
Proof.
  induction l as [|x [|y l] IH]; intros Hnd; [done|done|]. apply NoDup_cons in Hnd as [Hx Hnd].
  cbn [has_consecutive]. rewrite (proj2 (String.eqb_neq x y)); [by apply IH|]. set_solver.
Qed.

Lemma finish_ok S st es c :
  traced S (prev st) end_ es -> rtt st !! end_ = Some (sum_rtt es) -> c = sum_cost es ->
  result_ok (finish st end_ c).
Proof.
  intros Ht Hr Hc. unfold finish.
  rewrite (build_path_traced S _ _ es) by (try done; pose proof (traced_length _ _ _ _ Ht); lia).
  pose proof (traced_walk _ _ _ _ Ht) as Hw. rewrite app_nil_r.
  rewrite nodup_no_consecutive by (by eapply walk_nodup).
  exists es. rewrite (fget_Some _ _ _ Hr). by split_and!.
Qed.

Lemma empty_heap_cut_off S cur st :
  inv S cur [] st -> map val (pq st) = [] -> is_Some (dist st !! end_) -> cut_off.
Proof.
  intros Hi Hnil [de Hde]. rewrite <- (fget_Some _ _ _ Hde) in Hde.
  assert (Hinf : fget (dist st) end_ = finf).
  { destruct (decide (fget (dist st) end_ = finf)) as [|Hn]; [done|].
    destruct (i_open _ _ _ _ Hi end_ _ Hde Hn) as (x & Hx & _); [apply Hi|by left|]. rewrite Hnil in Hx. set_solver. }
  assert (Hopen : forall v d, dist st !! v = Some d -> d <> finf -> v ∈ S).
  { intros v d Hd Hn. destruct (decide (v ∈ S)) as [|HS]; [done|].
    destruct (i_open _ _ _ _ Hi v d Hd Hn HS) as (x & Hx & _); [by right|]. rewrite Hnil in Hx. set_solver. }
  exists S. split; [apply (Hopen start fzero); [apply Hi|done]|]. split; [apply Hi|].
  intros u e Hu Ha. destruct (i_settled _ _ _ _ Hi u Hu) as (d & Hd & Hdn & _ & Hcl).
  destruct (Hcl e Ha) as [[_ Hn]|Hle]; [by apply not_elem_of_nil in Hn|].
  destruct (i_dom _ _ _ _ Hi u e (proj1 Ha)) as [dv Hdv]. rewrite (fget_Some _ _ _ Hdv) in Hle.
  destruct (decide (dv = finf)) as [->|Hn]; [|left; by eapply Hopen]. right.
  destruct (i_dist _ _ _ _ Hi _ _ Hd) as [Hwd _]. exists d. split_and!; try done.
  pose proof (gg_weight Hg _ _ (proj1 Ha)) as Hw. destruct (fadd_ok d _ Hwd Hw) as ([_ Hnn] & _ & _).
  destruct (fadd d (edge_cost ks e)) as [[]|[]| |[] m x]; cbn in Hnn; done.
Qed.

(** Taking the least element off the heap. *)
Lemma inv_pop S cur st x h :
  inv S cur [] st -> map val (pq st) ≡ₚ x :: map val h -> heap_ok Less number h ->
  fget (dist st) (node x) <> cost x \/ (node x <> end_ /\ fget (dist st) end_ <> finf) ->
  inv S cur [] (mkSearch (dist st) (prev st) (rtt st) h).
Proof.
  intros Hi Hp Hok Hor. constructor; cbn [dist prev rtt pq]; try apply Hi; try done.
  - intros y Hy. apply Hi. rewrite Hp. by right.
  - intros u Hu. destruct (i_settled _ _ _ _ Hi u Hu) as (d & ? & ? & Hit & ?). exists d. split_and!; try done.
    intros y Hy. apply Hit. rewrite Hp. by right.
  - intros v d Hd Hn HvS He. destruct (i_open _ _ _ _ Hi v d Hd Hn HvS He) as (y & Hy & Hyn & Hyc).
    rewrite Hp in Hy. apply elem_of_cons in Hy as [->|Hy]; [|by exists y]. exfalso.
    destruct Hor as [Hne|[Hne Hf]]; [|destruct He; congruence].
    apply Hne. rewrite Hyn, Hyc. by apply fget_Some.
Qed.

(** Settling the node on top of the heap. *)
Lemma inv_settle S cur st x h :
  inv S cur [] st -> map val (pq st) ≡ₚ x :: map val h -> heap_ok Less number h -> Forall (le Less x) (map val h) ->
  dist st !! node x = Some (cost x) -> node x <> end_ ->
  let st1 := mkSearch (dist st) (prev st) (rtt st) h in
  inv ({[node x]} ∪ S) (node x) (edges_of g (node x)) st1 /\ at_cur ({[node x]} ∪ S) (node x) (cost x) st1.
Proof.
  intros Hi Hp Hok Hmin Hd Hne st1.
  assert (Hx : x ∈ map val (pq st)) by (rewrite Hp; left).
  destruct (i_item _ _ _ _ Hi x Hx) as (Hwx & Hxinf & _).
  split; [constructor; unfold st1; cbn [dist prev rtt pq]; try apply Hi; try done|].
  - intros v d Hv. destruct (i_dist _ _ _ _ Hi v d Hv) as [? [?|(es & Ht & ?)]]; (split; [done|]); [by left|right].
    exists es. split; [|done]. apply (traced_mono S _ (prev st)); try done. set_solver.
  - intros y Hy. apply Hi. rewrite Hp. by right.
  - intros u Hu. destruct (decide (u = node x)) as [->|Hnu].
    + exists (cost x). split_and!; try done; [|by intros e' (? & _); left].
      rewrite Forall_forall in Hmin. intros y Hy. by apply Hmin.
    + destruct (i_settled _ _ _ _ Hi u ltac:(set_solver)) as (d & ? & ? & Hit & Hcl). exists d. split_and!; try done.
      * intros y Hy. apply Hit. rewrite Hp. by right.
      * intros e' Ha. destruct (Hcl e' Ha) as [[_ Hn]|]; [by apply not_elem_of_nil in Hn|by right].
  - intros v d Hv Hn HvS He. destruct (i_open _ _ _ _ Hi v d Hv Hn ltac:(set_solver) He) as (y & Hy & Hyn & Hyc).
    rewrite Hp in Hy. apply elem_of_cons in Hy as [->|Hy]; [set_solver|by exists y].
  - pose proof (i_end _ _ _ _ Hi). set_solver.
  - split; [set_solver|]. unfold st1. cbn [dist]. split_and!; try done.
    intros u d Hu Hud. destruct (decide (u = node x)) as [->|Hnu].
    + assert (d = cost x) as -> by congruence. apply flt_irrefl.
    + destruct (i_settled _ _ _ _ Hi u ltac:(set_solver)) as (d' & ? & ? & Hit & _). assert (d = d') as -> by congruence.
      by apply Hit.
Qed.

Lemma search_loop_ok fuel S cur st :
  inv S cur [] st -> (dom (init_dist g) ⊆ dom (dist st)) ->
  (length (pq st) + unsettled S (map_to_list g) < fuel)%nat ->
  result_ok (search_loop ks fuel end_ g forb forbE st).
Proof.
  revert S cur st. induction fuel as [|fuel IH]; intros S cur st Hi Hdom Hf; [lia|]. cbn [search_loop].
  destruct (decide (pq st = [])) as [Hnil|Hne].
  { rewrite Hnil. cbn. intros Hend. eapply (empty_heap_cut_off S cur st); [done|by rewrite Hnil|].
    destruct Hend as [Hend|<-]; [|rewrite (i_start _ _ _ _ Hi); done].
    apply elem_of_dom, Hdom, elem_of_dom, Hend. }
  destruct (heap_Pop_spec Less number pq_Less_asym pq_Less_trans _ (i_heap _ _ _ _ Hi) Hne) as (x & h & -> & _ & Hp & Hok & Hmin).
  assert (Hlen : length (pq st) = (length h + 1)%nat).
  { apply Permutation_length in Hp. simpl in Hp. rewrite !length_map in Hp. lia. }
  assert (Hx : x ∈ map val (pq st)) by (rewrite Hp; left).
  destruct (i_item _ _ _ _ Hi x Hx) as (Hwx & Hxinf & d & Hd & Hdc). rewrite (fget_Some _ _ _ Hd).
  destruct (flt d (cost x)) eqn:Hlt.
  { apply (IH S cur); cbn [dist pq]; [|done|lia]. eapply inv_pop; [done..|]. left. rewrite (fget_Some _ _ _ Hd).
    intros ->. by rewrite flt_irrefl in Hlt. }
  destruct Hdc as [->|]; [|congruence].
  destruct (String.eqb_spec (node x) end_) as [Hend|Hend].
  { destruct (i_dist _ _ _ _ Hi _ _ Hd) as [_ [|(es & Ht & Hc & Hr)]]; [done|]. rewrite Hend in *.
    eapply finish_ok; cbn [prev rtt]; done. }
  assert (Hfe : feq (fget (dist st) end_) finf = bool_decide (fget (dist st) end_ = finf)).
  { destruct (dist st !! end_) as [de|] eqn:Ede.
    - rewrite (fget_Some _ _ _ Ede). apply feq_inf. by apply (i_dist _ _ _ _ Hi _ _ Ede).
    - unfold fget. by rewrite Ede. }
  rewrite Hfe. case_bool_decide as Hinf; cbn [negb].
  - destruct (inv_settle _ _ _ _ _ Hi Hp Hok Hmin Hd Hend) as [Hi' Hat].
    destruct (relax_all _ _ _ _ _ Hi' Hat) as [Hi2 Hl2]; [done|].
    apply (IH ({[node x]} ∪ S) (node x)); [done| |].
    + etransitivity; [apply Hdom|]. apply (relax_dom _ _ _ (mkSearch (dist st) (prev st) (rtt st) h)).
    + destruct (decide (node x ∈ S)) as [HS|HS].
      * rewrite relax_settled; [|intros e Ha; cbn [dist]|done].
        -- replace ({[node x]} ∪ S) with S by set_solver. cbn [pq]. lia.
        -- destruct (i_settled _ _ _ _ Hi _ HS) as (d & Hd' & _ & _ & Hcl). assert (d = cost x) as -> by congruence.
           destruct (Hcl e Ha) as [[_ Hn]|]; [by apply not_elem_of_nil in Hn|done].
      * pose proof (unsettled_edges S (node x) HS). cbn [pq] in Hl2. lia.
  - apply (IH S cur); cbn [dist pq]; [|done|lia]. eapply inv_pop; [done..|]. by right.
Qed.
Lemma sinv_init : inv ∅ "" [] (init_search start g).
Proof.
  assert (Hh : heap_ok Less number (heap_Push Less [] (mkPQ start fzero fzero)) /\
               map val (heap_Push Less [] (mkPQ start fzero fzero)) ≡ₚ [mkPQ start fzero fzero])
    by (by apply (heap_Push_spec Less number pq_Less_asym pq_Less_trans); [apply heap_ok_nil|]).
  destruct Hh as [Hok Hp]. constructor; unfold init_search; cbn [dist prev rtt pq]; try done.
  - intros v d. rewrite lookup_insert_Some. intros [[<- <-]|[_ Hd]].
    + split; [done|]. right. exists []. split; [by constructor|]. by rewrite lookup_insert_eq.
    + apply init_dist_inf in Hd as ->. split; [done|by left].
  - intros u e He. apply lookup_insert_is_Some'. right. by eapply init_dist_dom.
  - apply lookup_insert_eq.
  - intros x. rewrite Hp. intros Hx. apply list_elem_of_singleton in Hx as ->. cbn [node cost].
    split_and!; try done. exists fzero. rewrite lookup_insert_eq. by split; [|left].
  - intros v d. rewrite lookup_insert_Some. intros [[<- <-]|[_ Hd]] Hn _ _.
    + exists (mkPQ start fzero fzero). rewrite Hp. split; [left|done].
    + by apply init_dist_inf in Hd.
Qed.

Lemma findShortestPath_ok : result_ok (findShortestPath ks start end_ g forb forbE).
Proof.
  unfold findShortestPath, search_fuel. eapply search_loop_ok; [apply sinv_init| |].
  - unfold init_search. cbn [dist]. set_solver.
  - unfold init_search. cbn [pq]. unfold heap_Push. rewrite length_up. cbn [length app].
    enough (unsettled ∅ (map_to_list g) = edge_count g) by lia.
    unfold unsettled, edge_count. induction (map_to_list g) as [|[u es] l IH]; [done|]. cbn [sum_list_with].
    rewrite IH. by rewrite decide_False by set_solver.
Qed.
End Correct.

(** ** Properties *)

(** C12. The path search on non-negative costs and non-empty node names terminates within its fuel; a path it returns is a simple path of allowed
    edges from [start] to [end_], its cost is the float sum of the costs of its edges and its round
    trip the float sum of their latencies; and it reports that there is no path only when an explicit
    set of nodes separates [start] from [end_] (up to edges on which the cost overflows). *)
Theorem findShortestPath_correct ks g start end_ forb forbE :
  graph_good ks g start ->
  match findShortestPath ks start end_ g forb forbE with
  | Found p => exists es, walk g start forb forbE end_ es /\ hops p = path_hops start es /\ NoDup (hops p) /\
      last (hops p) = Some end_ /\ p_cost p = sum_cost ks es /\ p_rawRTT p = sum_rtt es
  | NotFound => is_Some (init_dist g !! end_) \/ start = end_ -> cut_off ks g start end_ forb forbE
  | OutOfFuel => False
  end.
Proof.
  intros Hg. pose proof (findShortestPath_ok ks g start end_ forb forbE Hg) as Hr.
  destruct (findShortestPath ks start end_ g forb forbE) as [p| |]; [|done|done].
  destruct Hr as (es & Hw & Hh & Hc & Hrtt). exists es. rewrite Hh.
  split_and!; try done; [by eapply walk_nodup|by eapply walk_last].
Qed.

Definition e (s d : string) (w : Z) : Edge := mkEdge s d (of_Z w) fzero (of_Z w) fzero.

Definition triangle : adjacency := {[ "s" := [e "s" "t" 10; e "s" "a" 1]; "a" := [e "a" "t" 1] ]}.

Definition plain_solver : KShortestSolver := mkSolver [] fone 5 false.

(** The path found need not be a shortest one: relaxing stops as soon as the destination has been
    seen once.  On the triangle s->t (10), s->a (1), a->t (1) the search returns the direct edge with
    cost 10 although the path over a costs 2. *)
Theorem findShortestPath_not_shortest :
  findShortestPath plain_solver "s" "t" triangle ∅ ∅ = Found (mkPath ["s"; "t"] (of_Z 10) (of_Z 10)) /\
  walk triangle "s" ∅ ∅ "t" [e "s" "a" 1; e "a" "t" 1] /\
  flt (sum_cost plain_solver [e "s" "a" 1; e "a" "t" 1]) (of_Z 10) = true.
Proof.
  split; [vm_compute; reflexivity|]. split; [|vm_compute; reflexivity].
  apply (walk_snoc triangle "s" ∅ ∅ "a" [e "s" "a" 1] (e "a" "t" 1)).
  - apply (walk_snoc triangle "s" ∅ ∅ "s" [] (e "s" "a" 1)); [apply walk_start| |].
    + split; [|done]. right. left.
    + apply (bool_decide_unpack _). done.
  - split; [|done]. left.
  - apply (bool_decide_unpack _). done.
Qed.

Lemma triangle_good : graph_good plain_solver triangle "s".
Proof.
  assert (Hall : forall u x, x ∈ edges_of triangle u -> x ∈ [e "s" "t" 10; e "s" "a" 1; e "a" "t" 1]).
  { intros u x. unfold edges_of, triangle. rewrite lookup_insert. case_decide; [set_solver|].
    rewrite lookup_singleton. case_decide; set_solver. }
  constructor; [| |done]; intros u x Hx%Hall; rewrite !elem_of_cons in Hx;
    destruct Hx as [->|[->|[->|Hx]]]; try (by apply not_elem_of_nil in Hx); vm_compute; done.
Qed.

Lemma findShortestPath_correct_witness :
  exists p es, findShortestPath plain_solver "s" "t" triangle ∅ ∅ = Found p /\
    walk triangle "s" ∅ ∅ "t" es /\ hops p = path_hops "s" es.
Proof.
  pose proof (findShortestPath_correct plain_solver triangle "s" "t" ∅ ∅ triangle_good) as H.
  assert (E : findShortestPath plain_solver "s" "t" triangle ∅ ∅ = Found (mkPath ["s"; "t"] (of_Z 10) (of_Z 10)))
    by (vm_compute; reflexivity).
  rewrite E in H. destruct H as (es & Hw & Hh & _). exists (mkPath ["s"; "t"] (of_Z 10) (of_Z 10)), es.
  split; [exact E|]. split; [exact Hw|exact Hh].
Defined.

End ShortestPath.
