(* ===== verification/KShortest.v ===== *)
(** * The K-shortest-paths solver (control-plane/routing/core-domain/k-shortest.go)

    Yen's algorithm on top of the path search of [ShortestPath.v], with the selection of the best
    paths.  The solver works on a copy of the graph that it changes for each search and restores. *)

From Stdlib Require Import ZArith Lia SpecFloat Ascii.
From stdpp Require Import base list gmap strings sorting.
From S2P Require Import Prelude F64 GoHeap GoStrings GoSort Graph ShortestPath.
Import Graph ShortestPath.

Module KShortest.

(** [NewKShortestSolverWithLatency]; [k] is an [int]. *)
Definition NewKShortestSolverWithLatency (edges : list Edge) (k : Z) (useLatency : bool) : KShortestSolver :=
  mkSolver edges fone (if (k <=? 0)%Z then 5 else Z.to_nat k) useLatency.

Definition NewKShortestSolver (edges : list Edge) (k : Z) : KShortestSolver :=
  NewKShortestSolverWithLatency edges k false.

(** ** Helpers *)

Fixpoint dup_from (seen : gmap string bool) (l : list string) : bool :=
  match l with
  | [] => false
  | h :: rest => if bget seen h then true else dup_from (<[h := true]> seen) rest
  end.

Definition hasDuplicateNodes (l : list string) : bool := dup_from ∅ l.

Definition isInPath (n : string) (path : list string) : bool := existsb (fun h => String.eqb h n) path.

Fixpoint prefix_eq (p1 p2 : list string) : bool :=
  match p2, p1 with
  | [], _ => true
  | y :: p2', x :: p1' => String.eqb x y && prefix_eq p1' p2'
  | _ :: _, [] => false
  end.

Definition pathsSharePrefix (path1 path2 : list string) : bool :=
  if length path1 <? length path2 then prefix_eq path2 path1 else prefix_eq path1 path2.

Definition isPathInQueue (l : list string) (q : list (entry PQNode)) : bool :=
  existsb (fun e => String.eqb (node (val e)) (Join l "->")) q.

Definition isPathInList (l : list string) (list : list Path) : bool :=
  existsb (fun p => String.eqb (Join (hops p) "->") (Join l "->")) list.

Definition first_edge (g : adjacency) (source dest : string) : option Edge :=
  List.find (fun e => String.eqb (DestinationIp e) dest) (edges_of g source).

(** The loop of [calculatePathCost] and [calculatePathRTT] over the consecutive pairs. *)
Fixpoint path_sum (f : Edge -> float64) (g : adjacency) (acc : float64) (path : list string) : float64 :=
  match path with
  | source :: (dest :: _) as rest =>
      let acc' := match first_edge g source dest with Some e => fadd acc (f e) | None => acc end in
      path_sum f g acc' rest
  | _ => acc
  end.

Section Yen.
Context (ks : KShortestSolver).

Definition calculatePathCost (path : list string) (g : adjacency) : float64 := path_sum (edge_cost ks) g fzero path.
Definition calculatePathRTT (path : list string) (g : adjacency) : float64 := path_sum Latency g fzero path.

(** ** One spur *)

(** The edges of the spur node that are left for the search. *)
Definition remove_targets (A : list Path) (spurNode : string) (j : nat) (rootPath : list string) (gc : adjacency) : adjacency :=
  foldl (fun gc path =>
    if (j <? length (hops path)) && pathsSharePrefix (hops path) rootPath then
      match hops path !! (j + 1) with
      | Some target =>
          <[spurNode := List.filter (fun e => negb (String.eqb (DestinationIp e) target)) (edges_of gc spurNode)]> gc
      | None => gc
      end
    else gc) gc A.

(** The loop body for index [j] of [prevPath]; [None] when the search runs out of fuel. *)
Definition spur (end_ : string) (A : list Path) (prevHops : list string) (st : adjacency * list (entry PQNode)) (j : nat) :
    option (adjacency * list (entry PQNode)) :=
  let '(gc, B) := st in
  match prevHops !! j with
  | None => Some st
  | Some spurNode =>
      let rootPath := take (j + 1) prevHops in
      match gc !! spurNode with
      | None => Some st
      | Some originalEdges =>
          let forbiddenNodes := list_to_map ((fun n => (n, true)) <$> take j rootPath) in
          let removedEdges := List.filter (fun e => negb (isInPath (DestinationIp e) rootPath)) originalEdges in
          let gc1 := remove_targets A spurNode j rootPath (<[spurNode := removedEdges]> gc) in
          let restored := <[spurNode := originalEdges]> gc1 in
          if String.eqb spurNode end_ then Some (restored, B)
          else if isInPath end_ rootPath then Some (restored, B)
          else
            match findShortestPath ks spurNode end_ gc1 forbiddenNodes ∅ with
            | OutOfFuel => None
            | NotFound => Some (restored, B)
            | Found spurPath =>
                if hasDuplicateNodes (hops spurPath) then Some (gc1, B)   (* not restored *)
                else
                  let rootCost := calculatePathCost rootPath gc1 in
                  let rootRTT := calculatePathRTT rootPath gc1 in
                  let cleanHops := removeConsecutiveDuplicates (take j rootPath ++ hops spurPath) in
                  let B' :=
                    if negb (hasDuplicateNodes cleanHops) && negb (isPathInList cleanHops A) && negb (isPathInQueue cleanHops B)
                    then heap_Push Less B (mkPQ (Join cleanHops "->") (fadd rootCost (p_cost spurPath)) (fadd rootRTT (p_rawRTT spurPath)))
                    else B in
                  Some (restored, B')
            end
      end
  end.

Fixpoint spurs (end_ : string) (A : list Path) (prevHops : list string) (js : list nat)
    (st : adjacency * list (entry PQNode)) : option (adjacency * list (entry PQNode)) :=
  match js with
  | [] => Some st
  | j :: rest => st1 ← spur end_ A prevHops st j; spurs end_ A prevHops rest st1
  end.

Fixpoint candidates (end_ : string) (A todo : list Path) (st : adjacency * list (entry PQNode)) :
    option (adjacency * list (entry PQNode)) :=
  match todo with
  | [] => Some st
  | prevPath :: rest =>
      st1 ← spurs end_ A (hops prevPath) (seq 0 (length (hops prevPath) - 1)) st;
      candidates end_ A rest st1
  end.

(** ** Yen's algorithm *)

Fixpoint yen_loop (fuel : nat) (end_ : string) (A : list Path) (st : adjacency * list (entry PQNode)) : option (list Path) :=
  if length A <? ks_k ks then
    match fuel with
    | O => None
    | S fuel =>
        '(gc, B) ← candidates end_ A A st;
        match heap_Pop Less B with
        | None => Some A
        | Some (shortest, B') =>
            let l := removeConsecutiveDuplicates (Split (node shortest) "->") in
            let newPath := mkPath l (cost shortest) (rawRTT shortest) in
            yen_loop fuel end_ (if isPathInList l A then A else A ++ [newPath]) (gc, B')
        end
    end
  else Some A.

Definition cost_less (p q : Path) : bool := flt (p_cost p) (p_cost q).

Inductive yen_result := Paths (A : list Path) | NoPathFound | YenOutOfFuel.

Definition dedup_path (p : Path) : Path := mkPath (removeConsecutiveDuplicates (hops p)) (p_cost p) (p_rawRTT p).

(** The outer loop adds one path per iteration, so [k] iterations are enough. *)
Definition yensAlgorithm (start end_ : string) (g : adjacency) : yen_result :=
  match findShortestPath ks start end_ g ∅ ∅ with
  | OutOfFuel => YenOutOfFuel
  | NotFound => NoPathFound
  | Found firstPath =>
      match yen_loop (ks_k ks) end_ [dedup_path firstPath] (g, []) with
      | None => YenOutOfFuel
      | Some A => Paths (dedup_path <$> exchange_sort cost_less A)
      end
  end.

(** ** Computing *)

Definition build_graph (edges : list Edge) : adjacency :=
  foldl (fun g e => <[SourceIp e := edges_of g (SourceIp e) ++ [e]]> g) ∅ edges.

Definition has_node (edges : list Edge) (n : string) : bool :=
  existsb (fun e => String.eqb (SourceIp e) n || String.eqb (DestinationIp e) n) edges.

Inductive computing_result := Routes (paths : list (list string * float64)) | StartNotFound | EndNotFound | NoPath | NoFuel.

Definition Computing (start end_ : string) : computing_result :=
  if negb (has_node (ks_edges ks) start) then StartNotFound
  else if negb (has_node (ks_edges ks) end_) then EndNotFound
  else match yensAlgorithm start end_ (build_graph (ks_edges ks)) with
       | Paths A => Routes ((fun p => (hops p, p_cost p)) <$> A)
       | NoPathFound => NoPath
       | YenOutOfFuel => NoFuel
       end.
End Yen.

(** ** selectTopPaths *)

Definition rtt_less (p q : Path) : bool := flt (p_rawRTT p) (p_rawRTT q).

Definition selectTopPaths (paths : list Path) (count : nat) : list Path :=
  if length paths <=? count then paths
  else
    let shortPaths := exchange_sort rtt_less (List.filter (fun p => length (hops p) <=? 4) paths) in
    let longPaths := exchange_sort rtt_less (List.filter (fun p => negb (length (hops p) <=? 4)) paths) in
    let result := take count shortPaths in
    result ++ take (count - length result) longPaths.

(** ** Lemmas *)

Lemma bget_seen (seen : gmap string bool) h : (forall k b, seen !! k = Some b -> b = true) -> bget seen h = bool_decide (h ∈ dom seen).
Proof.
  intros Ht. unfold bget. destruct (seen !! h) as [b|] eqn:E; simpl.
  - rewrite (Ht _ _ E). symmetry. apply bool_decide_eq_true. by apply elem_of_dom_2 in E.
  - symmetry. apply bool_decide_eq_false. by apply not_elem_of_dom.
Qed.

Lemma dup_from_spec l seen :
  (forall k b, seen !! k = Some b -> b = true) ->
  dup_from seen l = false <-> NoDup l /\ forall h, h ∈ l -> h ∉ dom seen.
Proof.
  revert seen. induction l as [|h l IH]; intros seen Ht; cbn [dup_from].
  { split; [|done]. intros _. split; [constructor|set_solver]. }
  rewrite bget_seen by done. case_bool_decide as Hin.
  - split; [done|]. intros [_ Hn]. exfalso. apply (Hn h); [left|done].
  - rewrite IH.
    + rewrite NoDup_cons. split.
      * intros [Hnd Hn]. split; [split; [|done]|].
        -- intros Hl. apply (Hn h Hl). rewrite dom_insert. set_solver.
        -- intros x [->|Hx]%elem_of_cons; [done|]. specialize (Hn x Hx). rewrite dom_insert in Hn. set_solver.
      * intros [[Hh Hnd] Hn]. split; [done|]. intros x Hx. specialize (Hn x ltac:(by right)). rewrite dom_insert. set_solver.
    + intros k b. rewrite lookup_insert_Some. intros [[_ <-]|[_ ?]]; [done|by eapply Ht].
Qed.

Lemma hasDuplicateNodes_spec l : hasDuplicateNodes l = false <-> NoDup l.
Proof. unfold hasDuplicateNodes. rewrite dup_from_spec by done. set_solver. Qed.

Lemma dedup_from_nodup x l : NoDup (x :: l) -> dedup_from x l = l.
Proof.
  revert x. induction l as [|y l IH]; intros x Hnd; [done|]. cbn [dedup_from].
  apply NoDup_cons in Hnd as [Hx Hnd]. rewrite (proj2 (String.eqb_neq y x)) by set_solver. by rewrite IH.
Qed.

Lemma removeConsecutiveDuplicates_nodup l : NoDup l -> removeConsecutiveDuplicates l = l.
Proof. destruct l; [done|]. intros. cbn. by rewrite dedup_from_nodup. Qed.

Lemma isInPath_spec n l : isInPath n l = true <-> n ∈ l.
Proof.
  unfold isInPath. rewrite existsb_exists. split.
  - intros (x & Hx & E). bool_prop. subst. by apply list_elem_of_In.
  - intros Hn. exists n. split; [by apply list_elem_of_In|]. apply String.eqb_refl.
Qed.

(** *** Paths of a graph *)

Definition no_arrow (s : string) : Prop := has_char ">"%char s = false.

(** Consecutive hops are joined by an edge. *)
Fixpoint linked (g : adjacency) (l : list string) : Prop :=
  match l with
  | u :: (v :: _) as rest => (exists e, e ∈ edges_of g u /\ DestinationIp e = v) /\ linked g rest
  | _ => True
  end.

Record simple_path (g : adjacency) (start end_ : string) (l : list string) : Prop := {
  sp_start : head l = Some start;
  sp_end : last l = Some end_;
  sp_linked : linked g l;
  sp_nodup : NoDup l;
  sp_names : Forall no_arrow l
}.

Lemma linked_app g l1 x l2 : linked g (l1 ++ x :: l2) <-> linked g (l1 ++ [x]) /\ linked g (x :: l2).
Proof.
  induction l1 as [|u l1 IH]; cbn [app]; [cbn; tauto|].
  destruct l1 as [|v l1]; cbn [app linked] in *; [cbn; tauto|]. rewrite IH. tauto.
Qed.

Lemma linked_sub g g' l : (forall u e, e ∈ edges_of g u -> e ∈ edges_of g' u) -> linked g l -> linked g' l.
Proof.
  intros Hs. induction l as [|u [|v l] IH]; [done|done|]. cbn [linked]. intros [(e & He & ?) Hl].
  split; [exists e; auto|by apply IH].
Qed.

Lemma walk_linked g start forb forbE v es : walk g start forb forbE v es -> linked g (path_hops start es).
Proof.
  induction 1 as [|u es e Hw IH Ha Hn]; [done|]. rewrite path_hops_snoc.
  pose proof (walk_last _ _ _ _ _ _ Hw) as Hl. apply last_Some in Hl as [l0 Hl]. rewrite Hl in *.
  rewrite <- app_assoc. apply linked_app. split; [done|]. split; [|done]. exists e. split; [apply Ha|done].
Qed.

Lemma walk_avoids g start forb forbE v es h :
  walk g start forb forbE v es -> h ∈ map DestinationIp es -> bget forb h = false /\ exists u e, e ∈ edges_of g u /\ DestinationIp e = h.
Proof.
  induction 1 as [|u es e Hw IH Ha Hn]; [set_solver|]. rewrite map_app.
  intros [Hh|Hh%list_elem_of_singleton]%elem_of_app; [by apply IH|]. subst h. destruct Ha as (? & ? & _). eauto.
Qed.

Section YenCorrect.
Context (ks : KShortestSolver) (g : adjacency) (start end_ : string).

Record yen_good : Prop := {
  yg_weight u e : e ∈ edges_of g u -> weight_ok (edge_cost ks e);
  yg_name u e : e ∈ edges_of g u -> DestinationIp e <> "" /\ no_arrow (DestinationIp e);
  yg_start : start <> "" /\ no_arrow start
}.

Context (Hg : yen_good).

Abbreviation spath := (simple_path g start end_).

Definition subgraph (gc : adjacency) : Prop := forall u e, e ∈ edges_of gc u -> e ∈ edges_of g u.

(** The latencies are non-negative numbers too (needed for the round trips only). *)
Definition lat_ok : Prop := forall u e, e ∈ edges_of g u -> weight_ok (Latency e).

Lemma find_simple s gc forb p :
  subgraph gc -> s <> "" -> no_arrow s -> findShortestPath ks s end_ gc forb ∅ = Found p ->
  exists t, hops p = s :: t /\ NoDup (hops p) /\ last (hops p) = Some end_ /\ linked gc (hops p) /\
    (forall h, h ∈ t -> bget forb h = false) /\ Forall no_arrow (hops p) /\ weight_ok (p_cost p) /\
    (lat_ok -> weight_ok (p_rawRTT p)).
Proof.
  intros Hsub Hs Hsa Hf.
  assert (Hgg : graph_good ks gc s).
  { constructor; [| |done]; intros u e He%Hsub; [by eapply yg_weight|by apply (yg_name Hg u)]. }
  pose proof (findShortestPath_ok ks gc s end_ forb ∅ Hgg) as Hr. rewrite Hf in Hr.
  destruct Hr as (es & Hw & Hh & Hc & Hrt). exists (map DestinationIp es). rewrite Hh. split_and!.
  - done.
  - by eapply walk_nodup.
  - by eapply walk_last.
  - by eapply walk_linked.
  - intros h Hin. by apply (walk_avoids _ _ _ _ _ _ _ Hw Hin).
  - constructor; [done|]. apply Forall_forall. intros h Hin.
    destruct (walk_avoids _ _ _ _ _ _ _ Hw Hin) as (_ & u & e & He & <-). by apply (yg_name Hg u), Hsub.
  - rewrite Hc. unfold sum_cost. clear -Hw Hgg. induction Hw as [|u es e Hw IH Ha Hn]; [done|].
    rewrite foldl_snoc. apply fadd_ok; [done|]. eapply (gg_weight ks gc s Hgg). apply Ha.
  - intros Hlat. rewrite Hrt. unfold sum_rtt. clear -Hw Hlat Hsub. induction Hw as [|u es e Hw IH Ha Hn]; [done|].
    rewrite foldl_snoc. apply fadd_ok; [done|]. eapply Hlat, Hsub, Ha.
Qed.

Lemma no_fuel_find s gc forb :
  subgraph gc -> s <> "" -> findShortestPath ks s end_ gc forb ∅ <> OutOfFuel.
Proof.
  intros Hsub Hs Hf.
  assert (Hgg : graph_good ks gc s).
  { constructor; [| |done]; intros u e He%Hsub; [by eapply yg_weight|by apply (yg_name Hg u)]. }
  pose proof (findShortestPath_ok ks gc s end_ forb ∅ Hgg) as Hr. by rewrite Hf in Hr.
Qed.

(** The names on a path of the graph. *)
Lemma linked_names gc l x : subgraph gc -> linked gc (x :: l) -> Forall (fun h => h <> "" /\ no_arrow h) l.
Proof.
  intros Hsub. revert x. induction l as [|y l IH]; intros x Hl; [constructor|]. cbn [linked] in Hl.
  destruct Hl as [(e & He & <-) Hl]. constructor; [by apply (yg_name Hg x), Hsub|by eapply IH].
Qed.

Lemma first_edge_elem gc u v e : first_edge gc u v = Some e -> e ∈ edges_of gc u.
Proof. unfold first_edge. intros He. apply List.find_some in He as [He _]. by apply list_elem_of_In. Qed.

Lemma path_sum_ok f gc l acc :
  (forall u e, e ∈ edges_of g u -> weight_ok (f e)) -> subgraph gc -> weight_ok acc -> weight_ok (path_sum f gc acc l).
Proof.
  intros Hf Hsub. revert acc. induction l as [|u [|v l] IH]; intros acc Ha; [done|done|].
  cbn [path_sum]. apply IH. destruct (first_edge gc u v) as [e|] eqn:E; [|done].
  apply fadd_ok; [done|]. eapply Hf, Hsub, first_edge_elem, E.
Qed.

(** *** The changed graph of a spur is a subgraph, and restoring undoes the change *)

Lemma remove_targets_spec A s j root gc es :
  gc !! s = Some es ->
  exists es', remove_targets A s j root gc = <[s := es']> gc /\ forall e, e ∈ es' -> e ∈ es.
Proof.
  revert gc es. unfold remove_targets. induction A as [|p A IH]; intros gc es Hs; cbn [foldl].
  { exists es. split; [|done]. by rewrite insert_id. }
  case_match; [|by apply IH]. case_match; [|by apply IH].
  destruct (IH (<[s := List.filter (fun e => negb (String.eqb (DestinationIp e) s0)) (edges_of gc s)]> gc) _ (lookup_insert_eq _ _ _))
    as (es' & -> & Hin).
  exists es'. rewrite insert_insert_eq. split; [done|]. intros e He%Hin.
  apply list_elem_of_In, filter_In in He as [He _]. unfold edges_of in He. rewrite Hs in He. by apply list_elem_of_In.
Qed.

Lemma spur_graph A s j root es :
  g !! s = Some es ->
  let gc1 := remove_targets A s j root (<[s := List.filter (fun e => negb (isInPath (DestinationIp e) root)) es]> g) in
  subgraph gc1 /\ <[s := es]> gc1 = g.
Proof.
  intros Hs gc1. set (es0 := List.filter _ es) in *.
  destruct (remove_targets_spec A s j root (<[s := es0]> g) es0) as (es' & He & Hin); [apply lookup_insert_eq|].
  unfold gc1. rewrite He, insert_insert_eq. split; [|by rewrite insert_insert_eq, insert_id].
  intros u e Hu. unfold edges_of in *. destruct (decide (u = s)) as [->|].
  - rewrite lookup_insert_eq in Hu. rewrite Hs. simpl in *. apply Hin, list_elem_of_In, filter_In in Hu as [Hu _].
    by apply list_elem_of_In.
  - by rewrite lookup_insert_ne in Hu.
Qed.

(** *** Candidates *)

Definition ainv (A : list Path) : Prop :=
  Forall (fun p => spath (hops p) /\ weight_ok (p_cost p) /\ (lat_ok -> weight_ok (p_rawRTT p))) A /\ NoDup (map hops A).

Record binv (A : list Path) (B : list (entry PQNode)) : Prop := {
  b_heap : heap_ok Less number B;
  b_item x : x ∈ map val B -> weight_ok (cost x) /\ (lat_ok -> weight_ok (rawRTT x)) /\
    exists l, node x = Join l "->" /\ spath l /\ l ∉ map hops A;
  b_nodup : NoDup (map node (map val B))
}.

Lemma spath_ne l : spath l -> l <> [].
Proof. intros [Hs _ _ _ _] ->. done. Qed.

Lemma Join_spath_inj l1 l2 : spath l1 -> spath l2 -> Join l1 "->" = Join l2 "->" -> l1 = l2.
Proof.
  intros H1 H2. apply Join_arrow_inj; [by apply spath_ne|by apply spath_ne|apply H1|apply H2].
Qed.

Lemma isPathInList_spec A l : ainv A -> spath l -> isPathInList l A = false <-> l ∉ map hops A.
Proof.
  intros [HA _] Hl. rewrite <- not_true_iff_false. apply not_iff_compat. unfold isPathInList.
  rewrite existsb_exists. rewrite Forall_forall in HA. split.
  - intros (p & Hp & He). apply list_elem_of_In in Hp. bool_prop. apply Join_spath_inj in He; [|by apply HA|done].
    subst l. by apply list_elem_of_fmap_2.
  - intros Hin. apply list_elem_of_fmap in Hin as (p & -> & Hp). exists p. split; [by apply list_elem_of_In|].
    apply String.eqb_refl.
Qed.

Lemma isPathInQueue_spec l B : isPathInQueue l B = false -> Join l "->" ∉ map node (map val B).
Proof.
  intros Hn Hin. apply not_true_iff_false in Hn. apply Hn. unfold isPathInQueue. rewrite existsb_exists.
  apply list_elem_of_fmap in Hin as (x & He & Hx). apply list_elem_of_fmap in Hx as (y & -> & Hy).
  exists y. split; [by apply list_elem_of_In|]. by apply String.eqb_eq.
Qed.

Lemma forbidden_spec l h : bget (list_to_map ((fun n => (n, true)) <$> l)) h = false -> h ∉ l.
Proof.
  intros Hb Hin. unfold bget in Hb. destruct (list_to_map ((fun n => (n, true)) <$> l) !! h : option bool) as [b|] eqn:E.
  - apply elem_of_list_to_map_2, list_elem_of_fmap in E as (n & [= _ ->] & _). done.
  - apply not_elem_of_list_to_map in E. apply E. rewrite <- list_fmap_compose. apply list_elem_of_fmap. by exists h.
Qed.

(** The root of a path followed by a spur that avoids it. *)
Lemma merge_spath l j x t gc :
  spath l -> l !! j = Some x -> subgraph gc -> NoDup (x :: t) -> last (x :: t) = Some end_ -> linked gc (x :: t) ->
  (forall h, h ∈ t -> h ∉ take j l) -> Forall no_arrow (x :: t) -> spath (take j l ++ x :: t).
Proof.
  intros [Hs He Hl Hnd Hn] Hx Hsub Hnd2 He2 Hl2 Hav Hn2.
  pose proof (take_drop_middle l j x Hx) as Hsplit. constructor.
  - rewrite <- Hsplit in Hs. by destruct (take j l).
  - rewrite last_app. by rewrite He2.
  - apply linked_app. split; [|by eapply linked_sub]. rewrite <- Hsplit in Hl. by apply linked_app in Hl as [? _].
  - rewrite <- Hsplit in Hnd. apply NoDup_app in Hnd as (Hnd1 & Hdis & _). apply NoDup_app. split_and!; try done.
    intros h Hh [->|Ht]%elem_of_cons; [|by apply (Hav h)]. apply (Hdis x Hh). left.
  - apply Forall_app. split; [by apply Forall_take|done].
Qed.

Lemma push_binv A B l c r :
  binv A B -> spath l -> l ∉ map hops A -> Join l "->" ∉ map node (map val B) -> weight_ok c -> (lat_ok -> weight_ok r) ->
  binv A (heap_Push Less B (mkPQ (Join l "->") c r)).
Proof.
  intros HB Hl Hn Hq Hc Hr.
  destruct (heap_Push_spec Less number pq_Less_asym pq_Less_trans _ (mkPQ (Join l "->") c r) (b_heap _ _ HB)) as [Hok Hp];
    [by apply weight_ok_num|].
  constructor; [done| |].
  - intros x. rewrite Hp. intros [->|Hx]%elem_of_cons; [|by apply HB]. split; [done|]. split; [done|]. by exists l.
  - rewrite Hp. cbn [map node]. apply NoDup_cons. split; [done|apply HB].
Qed.

Lemma spur_ok A B p j :
  ainv A -> p ∈ A -> binv A B ->
  exists B', spur ks end_ A (hops p) (g, B) j = Some (g, B') /\ binv A B'.
Proof.
  intros HA Hp HB. pose proof HA as [HAl _]. rewrite Forall_forall in HAl. destruct (HAl p Hp) as [Hsp _].
  unfold spur. destruct (hops p !! j) as [x|] eqn:Ej; [|by exists B].
  destruct (g !! x) as [es|] eqn:Ex; [|by exists B].
  destruct (spur_graph A x j (take (j + 1) (hops p)) es Ex) as [Hsub Hrest]. cbv zeta. rewrite Hrest.
  set (gc1 := remove_targets _ _ _ _ _) in *.
  destruct (String.eqb x end_); [by exists B|]. destruct (isInPath end_ _); [by exists B|].
  assert (Hx : x <> "" /\ no_arrow x).
  { destruct (hops p) as [|h0 t] eqn:Eh; [done|]. pose proof (sp_start _ _ _ _ Hsp) as Hst. cbn in Hst.
    injection Hst as ->. destruct j as [|j]; [injection Ej as <-; apply Hg|].
    pose proof (linked_names g t start (fun _ _ H => H) (sp_linked _ _ _ _ Hsp)) as Hnm.
    rewrite Forall_forall in Hnm. apply Hnm. by eapply list_elem_of_lookup_2. }
  destruct Hx as [Hx Hxa].
  destruct (findShortestPath ks x end_ gc1 _ ∅) as [sp| |] eqn:Ef; [|by exists B|by apply no_fuel_find in Ef].
  destruct (find_simple x gc1 _ sp Hsub Hx Hxa Ef) as (t & Hh & Hnd & Hlast & Hlk & Hav & Hnm & Hc & Hrt).
  rewrite (proj2 (hasDuplicateNodes_spec _) Hnd).
  assert (Htk : take j (take (j + 1) (hops p)) = take j (hops p)) by (rewrite take_take; f_equal; lia).
  rewrite Htk in *. assert (Hm : spath (take j (hops p) ++ hops sp)).
  { rewrite Hh in *. eapply merge_spath; try done. intros h Ht. by apply forbidden_spec, Hav. }
  rewrite removeConsecutiveDuplicates_nodup by apply Hm.
  destruct (negb (hasDuplicateNodes _) && _ && _) eqn:E; [|by exists B].
  eexists. split; [done|]. bool_prop. apply push_binv; try done.
  - by apply isPathInList_spec.
  - by apply isPathInQueue_spec.
  - apply fadd_ok; [|done]. apply path_sum_ok; [apply Hg|done|done].
  - intros Hlat. apply fadd_ok; [|by apply Hrt]. by apply path_sum_ok.
Qed.

Lemma spurs_ok A B p js :
  ainv A -> p ∈ A -> binv A B -> exists B', spurs ks end_ A (hops p) js (g, B) = Some (g, B') /\ binv A B'.
Proof.
  intros HA Hp. revert B. induction js as [|j js IH]; intros B HB; [by exists B|].
  destruct (spur_ok A B p j HA Hp HB) as (B1 & H1 & HB1). cbn [spurs]. rewrite H1. by apply IH.
Qed.

Lemma candidates_ok A todo B :
  ainv A -> (forall p, p ∈ todo -> p ∈ A) -> binv A B ->
  exists B', candidates ks end_ A todo (g, B) = Some (g, B') /\ binv A B'.
Proof.
  intros HA. revert B. induction todo as [|p todo IH]; intros B Hin HB; [by exists B|].
  destruct (spurs_ok A B p (seq 0 (length (hops p) - 1)) HA (Hin p ltac:(left)) HB) as (B1 & H1 & HB1).
  cbn [candidates]. rewrite H1. apply IH; [|done]. intros q Hq. apply Hin. by right.
Qed.

Lemma yen_loop_ok fuel A B :
  ainv A -> binv A B -> (ks_k ks <= length A + fuel)%nat ->
  exists A', yen_loop ks fuel end_ A (g, B) = Some A' /\ ainv A' /\ (exists A2, A' = A ++ A2) /\
    (length A' <= length A `max` ks_k ks)%nat.
Proof.
  revert A B. induction fuel as [|fuel IH]; intros A B HA HB Hf; cbn [yen_loop];
    destruct (Nat.ltb_spec (length A) (ks_k ks)) as [Hlt|Hge]; try lia;
    try (exists A; split_and!; [done|done|exists []; by rewrite app_nil_r|lia]).
  destruct (candidates_ok A A B HA ltac:(done) HB) as (B1 & -> & HB1). cbn [mbind option_bind].
  destruct (decide (B1 = [])) as [->|Hne].
  { exists A. split_and!; [done|done|exists []; by rewrite app_nil_r|lia]. }
  destruct (heap_Pop_spec Less number pq_Less_asym pq_Less_trans _ (b_heap _ _ HB1) Hne) as (x & B2 & -> & _ & Hp & Hok & _).
  destruct (b_item _ _ HB1 x) as (Hwx & Hrx & l & Hl & Hsl & HlA); [rewrite Hp; left|].
  rewrite Hl, (Split_Join l "->" ">"%char) by (apply arrow_sep || by apply spath_ne || apply Hsl).
  rewrite removeConsecutiveDuplicates_nodup by apply Hsl.
  rewrite (proj2 (isPathInList_spec A l HA Hsl) HlA).
  destruct (IH (A ++ [mkPath l (cost x) (rawRTT x)]) B2) as (A' & Hy & HA' & (A2 & HA2) & Hlen).
  - destruct HA as [HA1 HA2]. split.
    + apply Forall_app. split; [done|]. by apply Forall_singleton.
    + rewrite map_app. apply NoDup_app. split_and!; [done| |apply NoDup_singleton].
      intros h Hh Hs. apply list_elem_of_singleton in Hs as ->. done.
  - pose proof (b_nodup _ _ HB1) as Hnd. rewrite Hp in Hnd. cbn [map] in Hnd. apply NoDup_cons in Hnd as [Hnx Hnd].
    constructor; [done| |done]. intros y Hy. destruct (b_item _ _ HB1 y) as (? & ? & ly & Hly & Hsy & HyA); [rewrite Hp; by right|].
    split; [done|]. split; [done|]. exists ly. split_and!; try done. rewrite map_app. intros [?|Hs]%elem_of_app; [done|].
    apply list_elem_of_singleton in Hs. cbn in Hs. subst ly. apply Hnx. rewrite Hl, <- Hly. by apply list_elem_of_fmap_2.
  - rewrite length_app. simpl. lia.
  - exists A'. split_and!; [done|done|rewrite HA2, <- app_assoc; by eexists|].
    rewrite length_app in Hlen. simpl in Hlen. lia.
Qed.
End YenCorrect.

Lemma cost_less_asym p q : cost_less p q = true -> cost_less q p = false.
Proof. apply flt_asym. Qed.

Lemma dedup_path_id p : NoDup (hops p) -> dedup_path p = p.
Proof. destruct p. intros. unfold dedup_path. cbn in *. by rewrite removeConsecutiveDuplicates_nodup. Qed.

(** What [yensAlgorithm] returns. *)
Definition yen_ok (ks : KShortestSolver) (g : adjacency) (start end_ : string) (r : yen_result) : Prop :=
  match r with
  | Paths A => Forall (fun p => simple_path g start end_ (hops p) /\ weight_ok (p_cost p) /\ (lat_ok g -> weight_ok (p_rawRTT p))) A /\
      NoDup (map hops A) /\ (1 <= length A <= ks_k ks)%nat /\
      StronglySorted (fun p q => flt (p_cost q) (p_cost p) = false) A
  | NoPathFound => is_Some (init_dist g !! end_) -> cut_off ks g start end_ ∅ ∅
  | YenOutOfFuel => False
  end.

Lemma yensAlgorithm_ok ks g start end_ :
  yen_good ks g start -> (1 <= ks_k ks)%nat -> yen_ok ks g start end_ (yensAlgorithm ks start end_ g).
Proof.
  intros Hg Hk. unfold yensAlgorithm.
  assert (Hgg : graph_good ks g start).
  { constructor; [| |apply Hg]; intros u e He; [by eapply yg_weight|by apply (yg_name _ _ _ Hg u)]. }
  pose proof (findShortestPath_ok ks g start end_ ∅ ∅ Hgg) as Hr.
  destruct (findShortestPath ks start end_ g ∅ ∅) as [p| |] eqn:Ef; [|cbn in *; auto|done].
  destruct (find_simple ks g start end_ Hg start g ∅ p (fun _ _ H => H)) as (t & Hh & Hnd & Hl & Hlk & _ & Hnm & Hc & Hrt);
    [apply Hg|apply Hg|done|].
  rewrite dedup_path_id by done.
  assert (HA : ainv g start end_ [p]).
  { split; [|apply NoDup_singleton]. apply Forall_singleton. split; [|done]. constructor; try done. by rewrite Hh. }
  destruct (yen_loop_ok ks g start end_ Hg (ks_k ks) [p] [] HA) as (A & -> & HA' & (A2 & ->) & Hlen);
    [constructor; [apply heap_ok_nil|set_solver|constructor]|simpl; lia|].
  destruct HA' as [HF HN]. set (A := [p] ++ A2) in *. pose proof (exchange_sort_perm cost_less A) as Hp.
  assert (Hid : dedup_path <$> exchange_sort cost_less A = exchange_sort cost_less A).
  { rewrite <- (list_fmap_id (exchange_sort cost_less A)) at 2. apply list_fmap_ext. intros i x Hx.
    apply dedup_path_id. assert (x ∈ A) as Hin by (rewrite <- Hp; by eapply list_elem_of_lookup_2).
    rewrite Forall_forall in HF. by apply (HF x Hin). }
  rewrite Hid. unfold yen_ok. rewrite exchange_sort_length. split; [|split; [|split]].
  - by rewrite Hp.
  - apply (NoDup_Permutation_proper _ (map hops A)); [by apply Permutation_map|done].
  - unfold A in *. simpl in *. lia.
  - apply (exchange_sort_sorted cost_less (fun p => weight_ok (p_cost p)) cost_less_asym).
    + intros x y z Hy. unfold le_of, cost_less. apply fge_trans. by apply weight_ok_num.
    + eapply Forall_impl; [exact HF|]. by intros x (_ & ? & _).
Qed.

(** *** Computing *)

Lemma build_graph_elem edges u e : e ∈ edges_of (build_graph edges) u <-> e ∈ edges /\ SourceIp e = u.
Proof.
  unfold build_graph. assert (Hgen : forall g, e ∈ edges_of (foldl (fun g e => <[SourceIp e := edges_of g (SourceIp e) ++ [e]]> g) g edges) u <->
    e ∈ edges_of g u \/ e ∈ edges /\ SourceIp e = u).
  { induction edges as [|x edges IH]; intros g; cbn [foldl]; [set_solver|]. rewrite IH, elem_of_cons.
    assert (Hx : e ∈ edges_of (<[SourceIp x := edges_of g (SourceIp x) ++ [x]]> g) u <-> e ∈ edges_of g u \/ e = x /\ SourceIp x = u).
    { unfold edges_of at 1. rewrite lookup_insert. case_decide as Hd; simpl.
      - rewrite elem_of_app, list_elem_of_singleton, Hd. tauto.
      - fold (edges_of g u). naive_solver. }
    rewrite Hx. naive_solver. }
  rewrite Hgen. unfold edges_of at 1. rewrite lookup_empty. set_solver.
Qed.

Definition edge_ok (useLat : bool) (e : Edge) : Prop :=
  weight_ok (if useLat then Latency e else EdgeWeight e) /\
  SourceIp e <> "" /\ no_arrow (SourceIp e) /\ DestinationIp e <> "" /\ no_arrow (DestinationIp e).

Lemma has_node_spec edges n : has_node edges n = true <-> exists e, e ∈ edges /\ (SourceIp e = n \/ DestinationIp e = n).
Proof.
  unfold has_node. rewrite existsb_exists. split.
  - intros (e & He & Hn). exists e. split; [by apply list_elem_of_In|]. apply orb_true_iff in Hn as [?|?]; bool_prop; auto.
  - intros (e & He & Hn). exists e. split; [by apply list_elem_of_In|]. apply orb_true_iff.
    destruct Hn; [left|right]; by apply String.eqb_eq.
Qed.

Lemma init_dist_source g u es : g !! u = Some es -> is_Some (init_dist g !! u).
Proof.
  intros Hu. apply not_eq_None_Some. intros Hn. unfold init_dist in Hn. apply not_elem_of_list_to_map in Hn.
  apply Hn. rewrite <- list_fmap_compose. apply list_elem_of_fmap. exists u. split; [done|].
  apply elem_of_app. left. apply list_elem_of_fmap. exists (u, es). split; [done|]. by apply elem_of_map_to_list.
Qed.

Lemma node_in_graph edges n : has_node edges n = true -> is_Some (init_dist (build_graph edges) !! n).
Proof.
  intros (e & He & [<-|<-])%has_node_spec.
  - assert (Hin : e ∈ edges_of (build_graph edges) (SourceIp e)) by (by apply build_graph_elem).
    unfold edges_of in Hin. destruct (build_graph edges !! SourceIp e) eqn:E; [by eapply init_dist_source|set_solver].
  - apply (init_dist_dom (build_graph edges) (SourceIp e)). by apply build_graph_elem.
Qed.

Lemma take_drop_two {A} n m (l1 l2 : list A) :
  (take n l1 ++ take m l2) ++ drop n l1 ++ drop m l2 ≡ₚ l1 ++ l2.
Proof.
  transitivity ((take n l1 ++ drop n l1) ++ (take m l2 ++ drop m l2)); [|by rewrite !take_drop].
  rewrite <- !app_assoc. apply Permutation_app_head. rewrite !app_assoc. apply Permutation_app_tail, Permutation_app_comm.
Qed.

Lemma Computing_ok edges k useLat start end_ :
  Forall (edge_ok useLat) edges ->
  let ks := NewKShortestSolverWithLatency edges k useLat in
  match Computing ks start end_ with
  | Routes l =>
      Forall (fun r => simple_path (build_graph edges) start end_ (fst r)) l /\ NoDup (fst <$> l) /\
      (1 <= length l <= ks_k ks)%nat /\ StronglySorted (fun r1 r2 => flt (snd r2) (snd r1) = false) l
  | StartNotFound => forall e, e ∈ edges -> SourceIp e <> start /\ DestinationIp e <> start
  | EndNotFound => forall e, e ∈ edges -> SourceIp e <> end_ /\ DestinationIp e <> end_
  | NoPath => cut_off ks (build_graph edges) start end_ ∅ ∅
  | NoFuel => False
  end.
Proof.
  intros Hed ks. rewrite Forall_forall in Hed. unfold Computing. cbn [ks_edges ks NewKShortestSolverWithLatency].
  assert (Hno : forall n, has_node edges n = false -> forall e, e ∈ edges -> SourceIp e <> n /\ DestinationIp e <> n).
  { intros n Hn e He. apply not_true_iff_false in Hn. rewrite has_node_spec in Hn. split; intros Heq; apply Hn; eauto. }
  destruct (has_node edges start) eqn:Es; cbn [negb]; [|by apply Hno].
  destruct (has_node edges end_) eqn:Ee; cbn [negb]; [|by apply Hno].
  assert (Hg : yen_good ks (build_graph edges) start).
  { constructor.
    - intros u e [He _]%build_graph_elem. unfold edge_cost. cbn [useLatency alpha ks NewKShortestSolverWithLatency].
      apply fmul_one_ok. by apply Hed.
    - intros u e [He _]%build_graph_elem. by destruct (Hed e He) as (_ & _ & _ & ? & ?).
    - apply has_node_spec in Es as (e & He & [<-|<-]); destruct (Hed e He) as (_ & ? & ? & ? & ?); done. }
  pose proof (yensAlgorithm_ok ks (build_graph edges) start end_ Hg) as Hy.
  destruct (yensAlgorithm ks start end_ (build_graph edges)) as [A| |]; cbn [yen_ok] in Hy.
  - destruct Hy as (HF & HN & Hlen & Hso); [cbn; case_match; bool_prop; lia|]. split_and!.
    + rewrite Forall_fmap. eapply Forall_impl; [exact HF|]. by intros p [? _].
    + rewrite <- list_fmap_compose. exact HN.
    + rewrite length_fmap. lia.
    + rewrite length_fmap. lia.
    + clear -Hso. induction Hso as [|p A Hs IH Hp]; [constructor|]. rewrite fmap_cons. constructor; [done|].
      rewrite Forall_fmap. exact Hp.
  - apply Hy; [cbn; case_match; bool_prop; lia|by apply node_in_graph].
  - apply Hy. cbn. case_match; bool_prop; lia.
Qed.

(** ** Properties *)

(** C13. The K-shortest solver: on non-negative weights and node names that are not empty and have no '>' it always terminates with an answer.  The
    routes are between one and [k] pairwise different simple paths of the given edges from [start] to
    [end_], in order of non-decreasing cost; an error means that an end point is on no edge, or that a
    set of nodes separates the end points. *)
Theorem Computing_correct edges k useLat start end_ :
  Forall (edge_ok useLat) edges ->
  let ks := NewKShortestSolverWithLatency edges k useLat in
  match Computing ks start end_ with
  | Routes l =>
      Forall (fun r => simple_path (build_graph edges) start end_ (fst r)) l /\ NoDup (fst <$> l) /\
      (1 <= length l <= ks_k ks)%nat /\ StronglySorted (fun r1 r2 => flt (snd r2) (snd r1) = false) l
  | StartNotFound => forall e, e ∈ edges -> SourceIp e <> start /\ DestinationIp e <> start
  | EndNotFound => forall e, e ∈ edges -> SourceIp e <> end_ /\ DestinationIp e <> end_
  | NoPath => cut_off ks (build_graph edges) start end_ ∅ ∅
  | NoFuel => False
  end.
Proof. apply Computing_ok. Qed.

(** [selectTopPaths] returns [min count (length paths)] of the given paths and prefers short ones: a
    path of more than four hops is selected only when every path of at most four hops is. *)
Theorem selectTopPaths_spec paths count :
  length (selectTopPaths paths count) = count `min` length paths /\
  (exists rest, selectTopPaths paths count ++ rest ≡ₚ paths) /\
  ((exists p, p ∈ selectTopPaths paths count /\ (4 < length (hops p))%nat) ->
    forall p, p ∈ paths -> (length (hops p) <= 4)%nat -> p ∈ selectTopPaths paths count).
Proof.
  unfold selectTopPaths. destruct (Nat.leb_spec (length paths) count) as [Hle|Hlt].
  { split_and!; [lia|exists []; by rewrite app_nil_r|done]. }
  set (isShort := fun p => length (hops p) <=? 4). set (S := List.filter isShort paths). set (L := List.filter (fun p => negb (isShort p)) paths).
  change (List.filter (fun p => negb (length (hops p) <=? 4)) paths) with L.
  assert (HSL : S ++ L ≡ₚ paths).
  { unfold S, L. clear. induction paths as [|p l IH]; [done|]. cbn [List.filter]. destruct (isShort p); cbn [negb app]; [by rewrite IH|].
    by rewrite <- Permutation_middle, IH. }
  pose proof (exchange_sort_perm rtt_less S) as HS. pose proof (exchange_sort_perm rtt_less L) as HL.
  set (S' := exchange_sort rtt_less S) in *. set (L' := exchange_sort rtt_less L) in *.
  assert (Hlen : (length S' + length L' = length paths)%nat) by (rewrite <- HSL, length_app, HS, HL; done).
  split_and!.
  - rewrite length_app, !length_take. lia.
  - exists (drop count S' ++ drop (count - length (take count S')) L').
    rewrite take_drop_two, HS, HL. exact HSL.
  - intros (p & Hp & Hlong) q Hq Hshort. apply elem_of_app. left.
    assert (Hcount : (length S' < count)%nat).
    { apply elem_of_app in Hp as [Hp|Hp].
      - exfalso. assert (p ∈ S') as Hp' by (rewrite <- (take_drop count S'); apply elem_of_app; by left).
        rewrite HS in Hp'. apply list_elem_of_In, filter_In in Hp' as [_ Hp']. unfold isShort in Hp'. bool_prop. lia.
      - rewrite length_take in Hp. destruct (Nat.lt_ge_cases (length S') count); [done|].
        replace (count - count `min` length S')%nat with 0%nat in Hp by lia. rewrite take_0 in Hp. set_solver. }
    rewrite take_ge by lia. rewrite HS. apply list_elem_of_In, filter_In. split; [by apply list_elem_of_In|].
    unfold isShort. by apply Nat.leb_le.
Qed.

(** ** Instances *)

Definition sample_edges : list Edge := [e "s" "t" 10; e "s" "a" 1; e "a" "t" 1].

Lemma sample_edges_ok : Forall (edge_ok false) sample_edges.
Proof. repeat (constructor; [vm_compute; done|]). constructor. Qed.

Lemma Computing_correct_witness :
  exists l, Computing (NewKShortestSolver sample_edges 3) "s" "t" = Routes l /\
    Forall (fun r => simple_path (build_graph sample_edges) "s" "t" (fst r)) l /\ length l = 2%nat.
Proof.
  pose proof (Computing_correct sample_edges 3 false "s" "t" sample_edges_ok) as H.
  assert (E : Computing (NewKShortestSolver sample_edges 3) "s" "t" =
    Routes [(["s"; "a"; "t"], of_Z 2); (["s"; "t"], of_Z 10)]) by (vm_compute; reflexivity).
  change (NewKShortestSolverWithLatency sample_edges 3 false) with (NewKShortestSolver sample_edges 3) in H.
  cbv zeta in H. rewrite E in H. eexists. split; [exact E|]. split; [exact (proj1 H)|reflexivity].
Defined.

End KShortest.
