(* ===== verification/LiveNet.v ===== *)
(** * The LiveNet solver (control-plane/routing/core-domain/livenet.go)

    Five candidate paths from the K-shortest solver, of which the [k] with the least round trip are
    returned. *)

From Stdlib Require Import ZArith Lia SpecFloat.
From stdpp Require Import base list gmap strings sorting.
From S2P Require Import Prelude F64 GoHeap GoStrings GoSort Graph ShortestPath KShortest.
Import Graph ShortestPath KShortest.

Module LiveNet.

Record LiveStyleSolver := mkLive { ls_edges : list Edge; ls_k : nat }.

Definition NewLiveStyleSolver (edges : list Edge) (k : Z) : LiveStyleSolver :=
  mkLive edges (if (k <=? 0)%Z then 2 else Z.to_nat k).

(** [routing.PathInfo]. *)
Record PathInfo := mkInfo { Hops : list string; Rtt : float64; RawRTT : float64 }.

Definition path_info (p : Path) : PathInfo := mkInfo (hops p) (p_cost p) (p_rawRTT p).

Definition live_selectTopPaths (paths : list Path) (count : nat) : list Path :=
  let validPaths := exchange_sort rtt_less (List.filter (fun p => (length (hops p) - 1 <=? 10)%nat) paths) in
  if (count <? length validPaths)%nat then take count validPaths else validPaths.

Inductive live_result := LiveRoutes (paths : list PathInfo) | LiveStartNotFound | LiveEndNotFound | LiveNoPath | LiveNoFuel.

Definition live_Computing (ls : LiveStyleSolver) (start end_ : string) : live_result :=
  if negb (has_node (ls_edges ls) start) then LiveStartNotFound
  else if negb (has_node (ls_edges ls) end_) then LiveEndNotFound
  else match yensAlgorithm (NewKShortestSolver (ls_edges ls) 5) start end_ (build_graph (ls_edges ls)) with
       | Paths A => LiveRoutes (path_info <$> live_selectTopPaths A (ls_k ls))
       | NoPathFound => LiveNoPath
       | YenOutOfFuel => LiveNoFuel
       end.

Lemma rtt_less_asym p q : rtt_less p q = true -> rtt_less q p = false.
Proof. apply flt_asym. Qed.

Lemma sorted_take {A} (R : A -> A -> Prop) n l : StronglySorted R l -> StronglySorted R (take n l).
Proof.
  intros Hs. revert n. induction Hs as [|x l Hs IH Hx]; intros [|n]; try constructor; [apply IH|by apply Forall_take].
Qed.

(** Everything in front of a cut of a sorted list is at most everything behind it. *)
Lemma sorted_cut {A} (R : A -> A -> Prop) n l x y :
  StronglySorted R l -> x ∈ take n l -> y ∈ drop n l -> R x y.
Proof.
  intros Hs. revert n. induction Hs as [|z l Hs IH Hz]; intros [|n]; cbn [take drop]; [set_solver..| |].
  - set_solver.
  - intros [->|Hx]%elem_of_cons Hy; [|by eapply IH]. rewrite Forall_forall in Hz. apply Hz.
    rewrite <- (take_drop n l). apply elem_of_app. by right.
Qed.

Lemma live_select_spec paths count :
  Forall (fun p => weight_ok (p_rawRTT p)) paths ->
  let sel := live_selectTopPaths paths count in
  let valid := List.filter (fun p => (length (hops p) - 1 <=? 10)%nat) paths in
  (length sel = count `min` length valid)%nat /\ StronglySorted (le_of rtt_less) sel /\
  exists rest, sel ++ rest ≡ₚ valid /\
    forall p q, p ∈ sel -> q ∈ rest -> flt (p_rawRTT q) (p_rawRTT p) = false.
Proof.
  intros Hw sel valid. pose proof (exchange_sort_perm rtt_less valid) as Hp.
  assert (Hs : StronglySorted (le_of rtt_less) (exchange_sort rtt_less valid)).
  { apply (exchange_sort_sorted rtt_less (fun p => weight_ok (p_rawRTT p)) rtt_less_asym).
    - intros x y z Hy. unfold le_of, rtt_less. apply fge_trans. by apply weight_ok_num.
    - rewrite Forall_forall in Hw |- *. intros x Hx. apply list_elem_of_In, filter_In in Hx as [Hx _].
      by apply Hw, list_elem_of_In. }
  assert (Hsel : sel = take count (exchange_sort rtt_less valid)).
  { unfold sel, live_selectTopPaths. fold valid. destruct (Nat.ltb_spec count (length (exchange_sort rtt_less valid))); [done|].
    by rewrite take_ge by lia. }
  rewrite Hsel, length_take, exchange_sort_length. split; [done|]. split; [by apply sorted_take|].
  exists (drop count (exchange_sort rtt_less valid)). rewrite take_drop. split; [done|].
  intros p q Hx Hy. by apply (sorted_cut _ _ _ _ _ Hs Hx Hy).
Qed.

Lemma filter_ten paths :
  List.filter (fun p => (length (hops p) - 1 <=? 10)%nat) paths = List.filter (fun p => (length (hops p) <=? 11)%nat) paths.
Proof.
  apply filter_ext. intros p. destruct (Nat.leb_spec (length (hops p) - 1) 10), (Nat.leb_spec (length (hops p)) 11); try done; lia.
Qed.

Lemma live_Computing_ok edges k start end_ :
  Forall (fun e => edge_ok false e /\ weight_ok (Latency e)) edges ->
  let ls := NewLiveStyleSolver edges k in
  let ks := NewKShortestSolver edges 5 in
  match live_Computing ls start end_ with
  | LiveRoutes l =>
      exists candidates rest,
        yensAlgorithm ks start end_ (build_graph edges) = Paths candidates /\
        Forall (fun p => simple_path (build_graph edges) start end_ (hops p)) candidates /\ NoDup (hops <$> candidates) /\ (1 <= length candidates <= 5)%nat /\
        l ++ rest ≡ₚ path_info <$> List.filter (fun p => (length (hops p) <=? 11)%nat) candidates /\
        length l = ls_k ls `min` length (List.filter (fun p => (length (hops p) <=? 11)%nat) candidates) /\
        StronglySorted (fun r1 r2 => flt (RawRTT r2) (RawRTT r1) = false) l /\
        forall r q, r ∈ l -> q ∈ rest -> flt (RawRTT q) (RawRTT r) = false
  | LiveStartNotFound => forall e, e ∈ edges -> SourceIp e <> start /\ DestinationIp e <> start
  | LiveEndNotFound => forall e, e ∈ edges -> SourceIp e <> end_ /\ DestinationIp e <> end_
  | LiveNoPath => cut_off ks (build_graph edges) start end_ ∅ ∅
  | LiveNoFuel => False
  end.
Proof.
  intros Hed ls ks. unfold live_Computing. cbn [ls_edges ls NewLiveStyleSolver]. rewrite Forall_forall in Hed.
  assert (Hno : forall n, has_node edges n = false -> forall e, e ∈ edges -> SourceIp e <> n /\ DestinationIp e <> n).
  { intros n Hn e He. apply not_true_iff_false in Hn. rewrite has_node_spec in Hn. split; intros Heq; apply Hn; eauto. }
  destruct (has_node edges start) eqn:Es; cbn [negb]; [|by apply Hno]. destruct (has_node edges end_) eqn:Ee; cbn [negb]; [|by apply Hno].
  assert (Hg : yen_good ks (build_graph edges) start).
  { constructor.
    - intros u e [He _]%build_graph_elem. apply fmul_one_ok. by apply (Hed e He).
    - intros u e [He _]%build_graph_elem. by destruct (Hed e He) as [(_ & _ & _ & ? & ?) _].
    - apply has_node_spec in Es as (e & He & [<-|<-]); destruct (Hed e He) as [(_ & ? & ? & ? & ?) _]; done. }
  assert (Hlat : lat_ok (build_graph edges)) by (intros u e [He _]%build_graph_elem; by apply (Hed e He)).
  pose proof (yensAlgorithm_ok ks (build_graph edges) start end_ Hg ltac:(cbn; lia)) as Hy. fold ks.
  destruct (yensAlgorithm ks start end_ (build_graph edges)) as [A| |]; cbn [yen_ok] in Hy; [|apply Hy; by apply node_in_graph|done].
  destruct Hy as (HF & HN & Hl5 & _). change (ks_k ks) with 5%nat in Hl5.
  destruct (live_select_spec A (ls_k ls)) as (Hlen & Hso & rest & Hp & Hr).
  { eapply Forall_impl; [exact HF|]. intros p [_ Hp]. by apply Hp. }
  rewrite filter_ten in Hlen, Hp. change (ls_k (mkLive edges _)) with (ls_k ls). exists A, (path_info <$> rest). split_and!; try done; try lia.
  - eapply Forall_impl; [exact HF|]. by intros p [? _].
  - rewrite <- fmap_app. by apply fmap_Permutation.
  - by rewrite length_fmap.
  - clear -Hso. induction Hso as [|p l Hs IH Hp]; [constructor|]. rewrite fmap_cons. constructor; [done|]. by rewrite Forall_fmap.
  - intros r q (p & -> & Hin)%list_elem_of_fmap (p' & -> & Hin')%list_elem_of_fmap. by apply Hr.
Qed.

(** C14. The LiveNet solver, on non-negative weights and latencies: it always terminates with an answer.  The
    routes are taken from the up to five different simple paths that Yen's algorithm gives: of those with at most ten
    hops the [k] with the least round trip (all of them when they are fewer), in order of non-decreasing round trip, so there is
    no route only when every candidate is longer; an error means that an end point is on no edge, or that a set of nodes
    separates the end points.  (The preference for at most four hops that the source announces is not in the code.) *)
Theorem live_Computing_correct edges k start end_ :
  Forall (fun e => edge_ok false e /\ weight_ok (Latency e)) edges ->
  let ls := NewLiveStyleSolver edges k in
  let ks := NewKShortestSolver edges 5 in
  match live_Computing ls start end_ with
  | LiveRoutes l =>
      exists candidates rest,
        yensAlgorithm ks start end_ (build_graph edges) = Paths candidates /\
        Forall (fun p => simple_path (build_graph edges) start end_ (hops p)) candidates /\ NoDup (hops <$> candidates) /\ (1 <= length candidates <= 5)%nat /\
        l ++ rest ≡ₚ path_info <$> List.filter (fun p => (length (hops p) <=? 11)%nat) candidates /\
        length l = ls_k ls `min` length (List.filter (fun p => (length (hops p) <=? 11)%nat) candidates) /\
        StronglySorted (fun r1 r2 => flt (RawRTT r2) (RawRTT r1) = false) l /\
        forall r q, r ∈ l -> q ∈ rest -> flt (RawRTT q) (RawRTT r) = false
  | LiveStartNotFound => forall e, e ∈ edges -> SourceIp e <> start /\ DestinationIp e <> start
  | LiveEndNotFound => forall e, e ∈ edges -> SourceIp e <> end_ /\ DestinationIp e <> end_
  | LiveNoPath => cut_off ks (build_graph edges) start end_ ∅ ∅
  | LiveNoFuel => False
  end.
Proof. apply live_Computing_ok. Qed.

Lemma live_Computing_correct_witness :
  exists l, live_Computing (NewLiveStyleSolver sample_edges 1) "s" "t" = LiveRoutes l /\ (length l <= 1)%nat.
Proof.
  assert (Hok : Forall (fun e => edge_ok false e /\ weight_ok (Latency e)) sample_edges)
    by (repeat (constructor; [vm_compute; done|]); constructor).
  pose proof (live_Computing_correct sample_edges 1 "s" "t" Hok) as H. cbv zeta in H.
  assert (E : live_Computing (NewLiveStyleSolver sample_edges 1) "s" "t" =
    LiveRoutes [mkInfo ["s"; "a"; "t"] (of_Z 2) (of_Z 2)]) by (vm_compute; reflexivity).
  rewrite E in H. destruct H as (candidates & rest & _ & _ & _ & _ & _ & Hlen & _). eexists. split; [exact E|]. rewrite Hlen. apply Nat.le_min_l.
Defined.

End LiveNet.
