(* ===== verification/OneWan.v ===== *)
(** * The ONE-WAN solver (control-plane/routing/core-domain/onewan-multi.go)

    Candidate paths by randomised depth-first search, then a stochastic search over selections of
    candidates.  The random numbers ([rand.Perm], [rand.Float64]) come from a source that is an
    argument of the definitions; each call takes the next number of the source. *)

From Stdlib Require Import ZArith Lia SpecFloat.
From stdpp Require Import base list gmap strings sorting.
From S2P Require Import Prelude F64 GoHeap GoStrings GoSort Graph ShortestPath KShortest LiveNet.
Import Graph ShortestPath KShortest LiveNet.

Module OneWan.

(** Package [math/rand/v2]: the [c]-th call gives a permutation of [0..n-1], a number in [0, 1). *)
Class Rand := {
  Perm : nat -> nat -> list nat;
  Float64 : nat -> float64;
  Perm_perm c n : Perm c n ≡ₚ seq 0 n
}.

Definition maxHops : nat := 30.

Record ONEWANSolver := mkOneWan { os_edges : list Edge; os_maxPaths : Z }.

Definition NewONEWANSolver (edges : list Edge) (maxPaths : Z) : ONEWANSolver := mkOneWan edges maxPaths.

Section Solver.
Context `{Rand}.

(** ** dfsRandomPath *)

Record dfs_state := mkDfs {
  visited : gset string;
  d_hops : list string;
  totalLatency : float64;
  calls : nat               (* random numbers taken so far *)
}.

Section Dfs.
Context (target : string) (g : adjacency).

(** [hops = hops[:len(hops)-1]; delete(visited, node)]. *)
Definition backtrack (n : string) (st : dfs_state) : dfs_state :=
  mkDfs (visited st ∖ {[n]}) (removelast (d_hops st)) (totalLatency st) (calls st).

(** The loop over the shuffled indices; [rec] is the recursive call. *)
Fixpoint try_edges (rec : string -> dfs_state -> bool * dfs_state) (n : string) (neighbors : list Edge)
    (indices : list nat) (st : dfs_state) : bool * dfs_state :=
  match indices with
  | [] => (false, backtrack n st)
  | idx :: rest =>
      match neighbors !! idx with
      | None => (false, st)      (* an index of [rand.Perm] is in range *)
      | Some edge =>
          if decide (DestinationIp edge ∈ visited st) then try_edges rec n neighbors rest st
          else
            let '(ok, st1) := rec (DestinationIp edge) st in
            if ok : bool then (true, mkDfs (visited st1) (d_hops st1) (fadd (totalLatency st1) (Latency edge)) (calls st1))
            else try_edges rec n neighbors rest st1
      end
  end.

(** [depth_left] is [maxHops + 1 - depth]: at 0 the depth exceeds the limit. *)
Fixpoint dfs (depth_left : nat) (n : string) (st : dfs_state) : bool * dfs_state :=
  match depth_left with
  | O => (false, st)
  | S depth_left =>
      let st1 := mkDfs ({[n]} ∪ visited st) (d_hops st ++ [n]) (totalLatency st) (calls st) in
      if String.eqb n target then (true, st1)
      else
        let neighbors := edges_of g n in
        match neighbors with
        | [] => (false, backtrack n st1)
        | _ =>
            let indices := Perm (calls st1) (length neighbors) in
            let st2 := mkDfs (visited st1) (d_hops st1) (totalLatency st1) (S (calls st1)) in
            try_edges (dfs depth_left) n neighbors indices st2
        end
  end.
End Dfs.

Definition dfsRandomPath (c : nat) (current target : string) (g : adjacency) (limit : nat) : option Path * nat :=
  let '(ok, st) := dfs target g (S limit) current (mkDfs ∅ [] fzero c) in
  (if ok : bool then Some (mkPath (d_hops st) (totalLatency st) (totalLatency st)) else None, calls st).

(** ** randomDFSPaths *)

Fixpoint attempts (n : nat) (c : nat) (start end_ : string) (g : adjacency) (maxPaths : Z)
    (used : gset string) (paths : list Path) : list Path * nat :=
  match n with
  | O => (paths, c)
  | S n =>
      if (Z.of_nat (length paths) <? maxPaths)%Z then
        let '(path, c1) := dfsRandomPath c start end_ g 15 in
        match path with
        | None => attempts n c1 start end_ g maxPaths used paths
        | Some p =>
            let pathStr := Join (hops p) "->" in
            if decide (pathStr ∈ used) then attempts n c1 start end_ g maxPaths used paths
            else attempts n c1 start end_ g maxPaths ({[pathStr]} ∪ used) (paths ++ [p])
        end
      else (paths, c)
  end.

Definition randomDFSPaths (c : nat) (start end_ : string) (g : adjacency) (maxPaths : Z) : list Path * nat :=
  let '(paths, c1) := attempts 100 c start end_ g maxPaths ∅ [] in
  (exchange_sort cost_less paths, c1).

(** ** generateCandidatePaths *)

Definition deduplicateHops : list string -> list string := removeConsecutiveDuplicates.

Definition filterPathsByHops (paths : list PathInfo) (limit : nat) : list PathInfo :=
  List.filter (fun p => (length (Hops p) - 1 <=? limit)%nat) paths.

Record destCandidates := mkDest { dc_end : string; dc_paths : list PathInfo; dc_probs : list float64 }.

Definition candidates_for (maxPaths : Z) (paths : list Path) : list PathInfo :=
  let infos := omap (fun p => let cleanHops := deduplicateHops (hops p) in
                      if (maxHops <? length cleanHops - 1)%nat then None
                      else Some (mkInfo cleanHops (p_cost p) (p_rawRTT p))) paths in
  let infos := filterPathsByHops infos maxHops in
  if (maxPaths <? Z.of_nat (length infos))%Z then take (Z.to_nat maxPaths) infos else infos.

Fixpoint generateCandidatePaths (os : ONEWANSolver) (c : nat) (start : string) (ends : list string) (g : adjacency) :
    list destCandidates * nat :=
  match ends with
  | [] => ([], c)
  | end_ :: rest =>
      if negb (has_node (os_edges os) end_) then generateCandidatePaths os c start rest g
      else
        let '(paths, c1) := randomDFSPaths c start end_ g (os_maxPaths os) in
        let infos := candidates_for (os_maxPaths os) paths in
        let '(more, c2) := generateCandidatePaths os c1 start rest g in
        match infos with
        | [] => (more, c2)
        | _ => (mkDest end_ infos [] :: more, c2)
        end
  end.

(** ** beamSearchSelection *)

Definition numIterations : nat := 100.
Definition pathsPerDest : nat := 2.
Definition loadWeight : float64 := of_Z 5.

Definition path_probs (paths : list PathInfo) : list float64 :=
  let total := foldl (fun acc p => if flt fzero (RawRTT p) then fadd acc (fdiv fone (RawRTT p)) else acc) fzero paths in
  (fun p => if flt fzero (RawRTT p) && flt fzero total then fdiv (fdiv fone (RawRTT p)) total
            else fdiv fone (of_Z (Z.of_nat (length paths)))) <$> paths.

Definition with_probs (dc : destCandidates) : destCandidates := mkDest (dc_end dc) (dc_paths dc) (path_probs (dc_paths dc)).

Definition edge_key_of (e : Edge) : string := SourceIp e +:+ "->" +:+ DestinationIp e.

Definition edge_load_map (edges : list Edge) : gmap string float64 :=
  foldl (fun m e => <[edge_key_of e := Load e]> m) ∅ edges.

(** The keys of the edges along a path. *)
Fixpoint hop_keys (l : list string) : list string :=
  match l with
  | u :: (v :: _) as rest => (u +:+ "->" +:+ v) :: hop_keys rest
  | _ => []
  end.

Definition total_prob (probs : list float64) (selected : gset nat) : float64 :=
  foldl (fun acc '(i, p) => if decide (i ∈ selected) then acc else fadd acc p) fzero (zip (seq 0 (length probs)) probs).

(** The first index that is not selected yet and whose cumulative probability reaches [r]; 0 when
    there is none. *)
Fixpoint pick_index (l : list (nat * float64)) (selected : gset nat) (r cumulative : float64) : nat :=
  match l with
  | [] => 0
  | (i, prob) :: rest =>
      if decide (i ∈ selected) then pick_index rest selected r cumulative
      else let cumulative := fadd cumulative prob in
           if fle r cumulative then i else pick_index rest selected r cumulative
  end.

Fixpoint select_paths (n : nat) (c : nat) (dc : destCandidates) (selected : gset nat) : list PathInfo * nat :=
  match n with
  | O => ([], c)
  | S n =>
      let r := fmul (Float64 c) (total_prob (dc_probs dc) selected) in
      let i := pick_index (zip (seq 0 (length (dc_probs dc))) (dc_probs dc)) selected r fzero in
      let '(more, c') := select_paths n (S c) dc ({[i]} ∪ selected) in
      match dc_paths dc !! i with
      | Some p => (p :: more, c')
      | None => (more, c')
      end
  end.

Fixpoint select_all (c : nat) (dcs : list destCandidates) : list PathInfo * nat :=
  match dcs with
  | [] => ([], c)
  | dc :: rest =>
      let '(ps, c1) := select_paths (pathsPerDest `min` length (dc_paths dc)) c dc ∅ in
      let '(qs, c2) := select_all c1 rest in (ps ++ qs, c2)
  end.

Definition edge_usage (paths : list PathInfo) : gmap string float64 :=
  foldl (fun m k => <[k := fadd (fget m k) fone]> m) ∅ (mbind (fun p => hop_keys (Hops p)) paths).

(** Go's [max] of two numbers. *)
Definition fmax (x y : float64) : float64 :=
  if is_nan x || is_nan y then fnan else if flt x y then y else x.

Definition add_penalties (load usage : gmap string float64) (st : float64 * gset string) (k : string) : float64 * gset string :=
  let '(score, done_) := st in
  if decide (k ∈ done_) then st
  else let count := fget usage k in
       (fadd score (fmul (fmul (fmul count count) (fmax (fget load k) fone)) loadWeight), {[k]} ∪ done_).

Definition solution_score (load : gmap string float64) (paths : list PathInfo) : float64 :=
  fst (foldl (fun st p => foldl (add_penalties load (edge_usage paths)) (fadd (fst st) (RawRTT p), snd st) (hop_keys (Hops p)))
         (fzero, ∅) paths).

Fixpoint solutions (n : nat) (c : nat) (load : gmap string float64) (dcs : list destCandidates) : list (list PathInfo * float64) :=
  match n with
  | O => []
  | S n => let '(ps, c1) := select_all c dcs in (ps, solution_score load ps) :: solutions n c1 load dcs
  end.

Definition best_of (first : list PathInfo * float64) (rest : list (list PathInfo * float64)) : list PathInfo * float64 :=
  foldl (fun best sol => if flt (snd sol) (snd best) then sol else best) first rest.

Definition beamSearchSelection (os : ONEWANSolver) (c : nat) (dcs : list destCandidates) : list PathInfo :=
  match solutions numIterations c (edge_load_map (os_edges os)) (with_probs <$> dcs) with
  | [] => []
  | first :: rest => fst (best_of first rest)
  end.

Inductive wan_result := WanRoutes (paths : list PathInfo) | WanStartNotFound | WanNoPaths.

Definition wan_ComputingMulti (os : ONEWANSolver) (start : string) (ends : list string) : wan_result :=
  let g := build_graph (os_edges os) in
  if negb (has_node (os_edges os) start) then WanStartNotFound
  else let '(dcs, c) := generateCandidatePaths os 0 start ends g in
       match dcs with
       | [] => WanNoPaths
       | _ => WanRoutes (beamSearchSelection os c dcs)
       end.

(** ** Proofs about the search *)

(** A simple path that starts at [n], reaches [target] and avoids [V]. *)
Record dfs_path (g : adjacency) (target n : string) (V : gset string) (l : list string) : Prop := {
  dp_head : head l = Some n;
  dp_last : last l = Some target;
  dp_linked : linked g l;
  dp_nodup : NoDup l;
  dp_avoid h : h ∈ l -> h ∉ V
}.

(** What a call does: on success it has appended a path, on failure it has restored the state. *)
Definition dfs_post (g : adjacency) (target : string) (depth_left : nat) (n : string) (st : dfs_state) (r : bool * dfs_state) : Prop :=
  let '(ok, st') := r in
  if ok then exists l, d_hops st' = d_hops st ++ l /\ dfs_path g target n (visited st) l /\ (length l <= depth_left)%nat
  else d_hops st' = d_hops st /\ visited st' = visited st /\
    forall l, (length l <= depth_left)%nat -> dfs_path g target n (visited st) l -> False.

Lemma dfs_path_cons g target n e V l :
  e ∈ edges_of g n -> n ∉ V -> dfs_path g target (DestinationIp e) ({[n]} ∪ V) l -> dfs_path g target n V (n :: l).
Proof.
  intros He Hn [Hh Hl Hlk Hnd Hav]. destruct l as [|x l]; [done|]. cbn in Hh. injection Hh as ->. constructor; try done.
  - cbn [linked]. split; [by exists e|done].
  - apply NoDup_cons. split; [|done]. intros Hin. apply (Hav n Hin). set_solver.
  - intros h [->|Hh]%elem_of_cons; [done|]. specialize (Hav h Hh). set_solver.
Qed.

(** The loop over the edges after the node was entered. *)
Lemma try_edges_post g target depth_left n rec indices st V hops0 :
  (forall m s, m ∉ visited s -> dfs_post g target depth_left m s (rec m s)) ->
  n ∉ V -> visited st = {[n]} ∪ V -> d_hops st = hops0 ++ [n] ->
  (forall i, i ∈ indices -> is_Some (edges_of g n !! i)) ->
  let '(ok, st') := try_edges rec n (edges_of g n) indices st in
  if ok then exists l, d_hops st' = hops0 ++ l /\ dfs_path g target n V l /\ (length l <= S depth_left)%nat
  else d_hops st' = hops0 /\ visited st' = V /\
    forall i e l, i ∈ indices -> edges_of g n !! i = Some e -> (length l <= depth_left)%nat ->
      dfs_path g target (DestinationIp e) ({[n]} ∪ V) l -> False.
Proof.
  intros Hrec Hn. revert st. induction indices as [|i indices IH]; intros st Hv Hh Hi; cbn [try_edges].
  { cbn [backtrack d_hops visited]. rewrite Hh, Hv, removelast_last. split; [done|]. split; [set_solver|set_solver]. }
  destruct (Hi i ltac:(left)) as [e He]. rewrite He.
  assert (Hin : forall i0, i0 ∈ indices -> is_Some (edges_of g n !! i0)) by (intros i0 ?; apply Hi; by right).
  destruct (decide (DestinationIp e ∈ visited st)) as [Hvis|Hvis].
  - specialize (IH st Hv Hh Hin). destruct (try_edges rec n (edges_of g n) indices st) as [[] st']; [done|].
    destruct IH as (? & ? & Hno). split_and!; try done. intros i0 e0 l [->|Hi0]%elem_of_cons He0 Hlen Hp; [|by eapply Hno].
    rewrite He in He0. injection He0 as <-. destruct Hp as [Hhd _ _ _ Hav]. rewrite Hv in Hvis.
    destruct l as [|x l]; [done|]. injection Hhd as ->. apply (Hav (DestinationIp e)); [left|done].
  - pose proof (Hrec _ _ Hvis) as Hr. destruct (rec (DestinationIp e) st) as [[] st1]; cbn [dfs_post] in Hr.
    + destruct Hr as (l & Hl & Hp & Hlen). cbn [d_hops]. exists (n :: l). rewrite Hl, Hh, <- app_assoc. split; [done|].
      split; [|simpl; lia]. rewrite Hv in Hp. eapply dfs_path_cons; [by eapply list_elem_of_lookup_2|done|done].
    + destruct Hr as (Hh1 & Hv1 & Hno1). specialize (IH st1). rewrite Hv1, Hh1 in IH. specialize (IH Hv Hh Hin).
      destruct (try_edges rec n (edges_of g n) indices st1) as [[] st']; [done|].
      destruct IH as (? & ? & Hno). split_and!; try done.
      intros i0 e0 l [->|Hi0]%elem_of_cons He0 Hlen Hp; [|by eapply Hno].
      rewrite He in He0. injection He0 as <-. rewrite <- Hv in Hp. by apply (Hno1 l).
Qed.

Lemma Perm_elem c n i : i ∈ Perm c n <-> (i < n)%nat.
Proof. rewrite (Perm_perm c n), elem_of_seq. lia. Qed.

Lemma dfs_ok g target depth_left n st : n ∉ visited st -> dfs_post g target depth_left n st (dfs target g depth_left n st).
Proof.
  revert n st. induction depth_left as [|depth_left IH]; intros n st Hn; cbn [dfs].
  { cbn. split_and!; try done. intros l Hl [Hh _ _ _ _]. destruct l; [done|simpl in Hl; lia]. }
  destruct (String.eqb_spec n target) as [->|Hne].
  { cbn. exists [target]. split_and!; try done; [|simpl; lia].
    constructor; try done; [apply NoDup_singleton|]. intros h Hh. by apply list_elem_of_singleton in Hh as ->. }
  (* a path from [n] goes on over an edge of [n] *)
  assert (Hstep : forall l, dfs_path g target n (visited st) l -> exists e l', l = n :: l' /\ e ∈ edges_of g n /\
    dfs_path g target (DestinationIp e) ({[n]} ∪ visited st) l').
  { intros l [Hh Hl Hlk Hnd Hav]. destruct l as [|x [|y l]]; [done|injection Hh as ->; injection Hl as ->; done|].
    injection Hh as ->. destruct Hlk as [(e & He & <-) Hlk]. exists e, (DestinationIp e :: l). split_and!; try done.
    apply NoDup_cons in Hnd as [Hnn Hnd]. constructor; try done. intros h Hh. specialize (Hav h ltac:(by right)).
    set_solver. }
  destruct (edges_of g n) as [|e0 es] eqn:Ees.
  { cbn. rewrite removelast_last. split_and!; [done|set_solver|]. intros l _ Hp.
    destruct (Hstep l Hp) as (e & l' & _ & He & _). set_solver. }
  rewrite <- Ees. cbn [calls visited d_hops totalLatency].
  set (st2 := mkDfs _ _ _ _). set (idx := Perm _ _).
  pose proof (try_edges_post g target depth_left n (dfs target g depth_left) idx st2 (visited st) (d_hops st) IH Hn eq_refl eq_refl) as Ht.
  assert (Hidx : forall i, i ∈ idx -> is_Some (edges_of g n !! i)) by (intros i Hi%Perm_elem; by apply lookup_lt_is_Some_2).
  specialize (Ht Hidx). destruct (try_edges (dfs target g depth_left) n (edges_of g n) idx st2) as [[] st'].
  - done.
  - destruct Ht as (? & ? & Hno). split_and!; try done. intros l Hlen Hp.
    destruct (Hstep l Hp) as (e & l' & -> & He & Hp'). rewrite <- Ees in He.
    apply list_elem_of_lookup in He as [i Hi]. simpl in Hlen.
    apply (Hno i e l'); [apply Perm_elem; by eapply lookup_lt_Some|done|lia|done].
Qed.

Lemma find_path_ok c start target g limit :
  match fst (dfsRandomPath c start target g limit) with
  | Some p => dfs_path g target start ∅ (hops p) /\ (length (hops p) <= S limit)%nat
  | None => forall l, (length l <= S limit)%nat -> dfs_path g target start ∅ l -> False
  end.
Proof.
  unfold dfsRandomPath. pose proof (dfs_ok g target (S limit) start (mkDfs ∅ [] fzero c) (not_elem_of_empty _)) as Hd.
  destruct (dfs target g (S limit) start _) as [[] st]; cbn in *.
  - destruct Hd as (l & Hl & Hp & Hlen). cbn in Hl. by rewrite Hl.
  - by destruct Hd as (_ & _ & Hno).
Qed.

Definition found_ok (g : adjacency) (start end_ : string) (p : Path) : Prop :=
  dfs_path g end_ start ∅ (hops p) /\ (length (hops p) <= 16)%nat.

Lemma attempts_ok n c start end_ g maxPaths used paths :
  Forall (found_ok g start end_) paths -> NoDup (map (fun p => Join (hops p) "->") paths) ->
  (forall p, p ∈ paths -> Join (hops p) "->" ∈ used) -> (Z.of_nat (length paths) <= Z.max 0 maxPaths)%Z ->
  let '(res, _) := attempts n c start end_ g maxPaths used paths in
  Forall (found_ok g start end_) res /\ NoDup (map (fun p => Join (hops p) "->") res) /\
  (Z.of_nat (length res) <= Z.max 0 maxPaths)%Z /\ exists more, res = paths ++ more.
Proof.
  assert (Hstop : forall paths : list Path, exists more, paths = paths ++ more) by (intros l; exists []; by rewrite app_nil_r).
  revert c used paths. induction n as [|n IH]; intros c used paths HF HN Hu Hl; cbn [attempts]; [by split_and!|].
  destruct (Z.ltb_spec (Z.of_nat (length paths)) maxPaths) as [Hlt|Hge]; [|by split_and!].
  pose proof (find_path_ok c start end_ g 15) as Hp. destruct (dfsRandomPath c start end_ g 15) as [[p|] c1]; cbn [fst] in Hp;
    [|by apply IH]. destruct (decide (Join (hops p) "->" ∈ used)) as [Hin|Hnin]; [by apply IH|].
  specialize (IH c1 ({[Join (hops p) "->"]} ∪ used) (paths ++ [p])).
  destruct (attempts n c1 _ _ _ _ _ (paths ++ [p])) as [res c2].
  destruct IH as (? & ? & ? & more & ->).
  - apply Forall_app. split; [done|]. by apply Forall_singleton.
  - rewrite map_app. apply NoDup_app. split_and!; [done| |apply NoDup_singleton].
    intros x Hx Hs. apply list_elem_of_singleton in Hs. subst x.
    apply list_elem_of_fmap in Hx as (q & Hq & Hqp). apply Hnin. rewrite Hq. by apply Hu.
  - intros q [Hq|Hq%list_elem_of_singleton]%elem_of_app; [specialize (Hu q Hq); set_solver|subst; set_solver].
  - rewrite length_app. simpl. lia.
  - split_and!; try done. exists (p :: more). by rewrite <- app_assoc.
Qed.

(** The first attempt already fails only when there is no path at all. *)
Lemma attempts_nil n c start end_ g maxPaths c1 :
  attempts (S n) c start end_ g maxPaths ∅ [] = ([], c1) -> (0 < maxPaths)%Z ->
  forall l, (length l <= 16)%nat -> dfs_path g end_ start ∅ l -> False.
Proof.
  cbn [attempts]. intros Ea Hm. rewrite (proj2 (Z.ltb_lt (Z.of_nat (length (@nil Path))) maxPaths)) in Ea by (simpl; lia).
  pose proof (find_path_ok c start end_ g 15) as Hf. destruct (dfsRandomPath c start end_ g 15) as [[p|] c2]; cbn [fst] in Hf; [|exact Hf].
  exfalso. destruct (decide (Join (hops p) "->" ∈ ∅)) as [Hin|_]; [by apply not_elem_of_empty in Hin|].
  pose proof (attempts_ok n c2 start end_ g maxPaths ({[Join (hops p) "->"]} ∪ ∅) ([] ++ [p])) as Ha. rewrite Ea in Ha.
  destruct Ha as (_ & _ & _ & more & Hmore).
  - by apply Forall_singleton.
  - apply NoDup_singleton.
  - intros q Hq. apply list_elem_of_singleton in Hq as ->. apply elem_of_union_l, elem_of_singleton_2. done.
  - simpl. lia.
  - done.
Qed.

(** ** Properties *)

(** C17. The candidate search of ONE-WAN, whatever the random numbers: the candidates are at most
    [maxPaths] pairwise different simple paths of at most fifteen hops, and there is none only when
    no such path exists. *)
Theorem randomDFSPaths_correct c start end_ g maxPaths :
  let paths := fst (randomDFSPaths c start end_ g maxPaths) in
  Forall (found_ok g start end_) paths /\ NoDup (map (fun p => Join (hops p) "->") paths) /\
  (Z.of_nat (length paths) <= Z.max 0 maxPaths)%Z /\
  ((0 < maxPaths)%Z -> paths = [] -> forall l, (length l <= 16)%nat -> dfs_path g end_ start ∅ l -> False).
Proof.
  unfold randomDFSPaths.
  pose proof (attempts_ok 100 c start end_ g maxPaths ∅ [] (List.Forall_nil _) (NoDup_nil_2) ltac:(set_solver) ltac:(simpl; lia)) as Ha.
  destruct (attempts 100 c start end_ g maxPaths ∅ []) as [res c1] eqn:Ea. cbn [fst].
  destruct Ha as (HF & HN & Hl & _). pose proof (exchange_sort_perm cost_less res) as Hp. split_and!.
  - by rewrite Hp.
  - apply (NoDup_Permutation_proper _ (map (fun p => Join (hops p) "->") res)); [by apply Permutation_map|done].
  - by rewrite exchange_sort_length.
  - intros Hm Hnil. assert (res = []) as -> by (apply length_zero_iff_nil; by rewrite <- (exchange_sort_length cost_less), Hnil).
    by eapply (attempts_nil 99).
Qed.

Lemma select_paths_sub n c dc selected p : p ∈ fst (select_paths n c dc selected) -> p ∈ dc_paths dc.
Proof.
  revert c selected. induction n as [|n IH]; intros c selected; cbn [select_paths]; [set_solver|].
  set (i := pick_index _ _ _ _). specialize (IH (S c) ({[i]} ∪ selected)).
  destruct (select_paths n (S c) dc _) as [more c']. cbn [fst] in *.
  destruct (dc_paths dc !! i) as [q|] eqn:E; [|done]. cbn [fst].
  intros [->|Hin]%elem_of_cons; [by eapply list_elem_of_lookup_2|by apply IH].
Qed.

Lemma select_all_sub c dcs p : p ∈ fst (select_all c dcs) -> exists dc, dc ∈ dcs /\ p ∈ dc_paths dc.
Proof.
  revert c. induction dcs as [|dc dcs IH]; intros c; cbn [select_all]; [set_solver|].
  pose proof (select_paths_sub (pathsPerDest `min` length (dc_paths dc)) c dc ∅ p) as Hs.
  destruct (select_paths _ c dc ∅) as [ps c1]. specialize (IH c1). destruct (select_all c1 dcs) as [qs c2]. cbn [fst] in *.
  intros [Hp|Hp]%elem_of_app; [exists dc; split; [left|auto]|]. destruct (IH Hp) as (d & ? & ?). exists d. split; [by right|done].
Qed.

Lemma solutions_sub n c load dcs sol : sol ∈ solutions n c load dcs -> exists c', fst sol = fst (select_all c' dcs) /\ snd sol = solution_score load (fst sol).
Proof.
  revert c. induction n as [|n IH]; intros c; cbn [solutions]; [set_solver|].
  destruct (select_all c dcs) as [ps c1] eqn:E. intros [->|Hin]%elem_of_cons; [|by eapply IH]. exists c. cbn. by rewrite E.
Qed.

Lemma best_of_min first rest :
  Forall (fun sol => is_nan (snd sol) = false) (first :: rest) ->
  best_of first rest ∈ first :: rest /\ forall sol, sol ∈ first :: rest -> flt (snd sol) (snd (best_of first rest)) = false.
Proof.
  revert first. induction rest as [|s rest IH]; intros first HF; cbn [best_of foldl].
  { split; [left|]. intros sol Hs. apply list_elem_of_singleton in Hs as ->. apply flt_irrefl. }
  apply Forall_cons in HF as [Hf HF]. apply Forall_cons in HF as [Hs HF].
  set (b := if flt (snd s) (snd first) then s else first).
  assert (Hb : is_nan (snd b) = false) by (unfold b; by case_match).
  destruct (IH b) as [Hin Hmin]; [by constructor|]. fold (best_of b rest). split.
  - apply elem_of_cons in Hin as [->|Hin]; [|by do 2 right]. unfold b. case_match; [right; left|left].
  - assert (Hbb : flt (snd b) (snd (best_of b rest)) = false) by (apply Hmin; left).
    intros sol [->|[->|Hsol]%elem_of_cons]%elem_of_cons; [| |apply Hmin; by right].
    + apply (fge_trans _ (snd b)); [done|done|]. unfold b. case_match; [by apply flt_asym|apply flt_irrefl].
    + apply (fge_trans _ (snd b)); [done|done|]. unfold b. case_match; [apply flt_irrefl|done].
Qed.

(** C18. The stochastic selection, whatever the random numbers: every selected path is one of the
    candidates, and when no score is NaN the selection returned has the least score of the hundred
    that were drawn. *)
Theorem beamSearchSelection_correct os c dcs :
  let sols := solutions numIterations c (edge_load_map (os_edges os)) (with_probs <$> dcs) in
  (forall p, p ∈ beamSearchSelection os c dcs -> exists dc, dc ∈ dcs /\ p ∈ dc_paths dc) /\
  (Forall (fun sol => is_nan (snd sol) = false) sols ->
   exists best, best ∈ sols /\ beamSearchSelection os c dcs = fst best /\
     forall sol, sol ∈ sols -> flt (snd sol) (snd best) = false).
Proof.
  intros sols. unfold beamSearchSelection. fold sols. destruct sols as [|first rest] eqn:Es.
  { exfalso. unfold sols, numIterations in Es. cbn [solutions] in Es. destruct (select_all c _). done. }
  split.
  - intros p Hp. assert (Hin : best_of first rest ∈ sols).
    { rewrite Es. clear. unfold best_of. revert first. induction rest as [|s rest IH]; intros first; cbn [foldl]; [left|].
      specialize (IH (if flt (snd s) (snd first) then s else first)). apply elem_of_cons in IH as [->|?]; [|by do 2 right].
      case_match; [right; left|left]. }
    apply solutions_sub in Hin as (c' & Hc & _). rewrite Hc in Hp. apply select_all_sub in Hp as (dc & Hdc & Hp).
    apply list_elem_of_fmap in Hdc as (dc0 & -> & Hdc). by exists dc0.
  - intros HF. destruct (best_of_min first rest HF) as [Hin Hmin]. exists (best_of first rest). by split_and!.
Qed.
End Solver.

(** A random source for the examples. *)
Definition seq_rand : Rand := {| Perm _ n := seq 0 n; Float64 _ := lit 1 2; Perm_perm _ _ := Permutation_refl _ |}.

Example wan_run :
  @wan_ComputingMulti seq_rand (NewONEWANSolver sample_edges 3) "s" ["t"] =
    WanRoutes [mkInfo ["s"; "t"] (of_Z 10) (of_Z 10)].
Proof. vm_compute. reflexivity. Qed.

Lemma randomDFSPaths_correct_witness :
  let paths := fst (@randomDFSPaths seq_rand 0 "s" "t" (build_graph sample_edges) 3) in
  hops <$> paths = [["s"; "t"]] /\ Forall (found_ok (build_graph sample_edges) "s" "t") paths.
Proof.
  intros paths. split; [vm_compute; reflexivity|].
  exact (proj1 (@randomDFSPaths_correct seq_rand 0 "s" "t" (build_graph sample_edges) 3)).
Defined.

Definition sample_candidates : list destCandidates :=
  [mkDest "t" [mkInfo ["s"; "t"] (of_Z 10) (of_Z 10); mkInfo ["s"; "a"; "t"] (of_Z 2) (of_Z 2)] []].

Lemma beamSearchSelection_correct_witness :
  let sel := @beamSearchSelection seq_rand (NewONEWANSolver sample_edges 3) 0 sample_candidates in
  length sel = 2%nat /\ forall p, p ∈ sel -> exists dc, dc ∈ sample_candidates /\ p ∈ dc_paths dc.
Proof.
  intros sel. split; [vm_compute; reflexivity|].
  exact (proj1 (@beamSearchSelection_correct seq_rand (NewONEWANSolver sample_edges 3) 0 sample_candidates)).
Defined.

End OneWan.
