(* ===== verification/Carousel.v ===== *)
(** * The flow optimisation solver: residual graph and path search
      (control-plane/routing/core-domain/carousel-greed.go)

    The solver keeps a residual graph (capacity scaled down by the load of the far node, flow and
    residual per edge) and searches it depth first for paths within a latency bound.  Iteration over
    a Go map and the random numbers come from a source that is an argument of the definitions. *)

From Stdlib Require Import ZArith Lia SpecFloat.
From stdpp Require Import base list gmap strings sorting.
From S2P Require Import Prelude F64 GoHeap GoStrings GoSort Graph ShortestPath KShortest LiveNet OneWan.
Import Graph ShortestPath KShortest LiveNet.

Module Carousel.

(** Whatever is left open by the language and by package [math/rand]: the [c]-th question is the
    order in which [range] visits the keys of a map, a shuffled slice ([Shuffle]), or [Intn]. *)
Class Chance := {
  range_order : nat -> list string -> list string;
  range_order_perm c l : range_order c l ≡ₚ l;
  Shuffle : nat -> list string -> list string;
  Shuffle_perm c l : Shuffle c l ≡ₚ l;
  Intn : nat -> nat -> nat;
  Intn_lt c n : (0 < n)%nat -> (Intn c n < n)%nat
}.

Record EdgeFlow := mkFlow {
  flow : float64;
  cap : float64;
  thetaA : float64;
  effCap : float64;
  banned : bool;
  residual : float64
}.

(** The solver; [rng] is the [Chance] argument. *)
Record FlowOptimizationSolver := mkFS {
  fs_edges : list Edge;
  fs_nodes : gset string;
  alpha : float64;
  beta : float64;
  capacity : float64;
  flowsPerDest : nat;
  Tu : float64;
  Uhot : float64;
  epsilon : float64;
  thetaLMap : gmap string float64;
  kspK : Z;
  latencyMap : gmap string float64
}.

Definition NewFlowOptimizationSolver (edges : list Edge) : FlowOptimizationSolver :=
  mkFS edges
    (foldl (fun nodes e => {[DestinationIp e]} ∪ ({[SourceIp e]} ∪ nodes)) ∅ edges)
    (of_Z 2) (lit 1 2) fzero 2 (of_Z 60) fzero (lit 1 1000) ∅ 3
    (foldl (fun m e => <[SourceIp e +:+ "->" +:+ DestinationIp e := Latency e]> m) ∅ edges).

(** [map[string]map[string]*EdgeFlow]: every [*EdgeFlow] is stored once, so the graph holds values. *)
Abbreviation resgraph := (gmap string (gmap string EdgeFlow)).

Definition ef_at (g : resgraph) (u v : string) : option EdgeFlow := row ← g !! u; row !! v.

(** [if g[u] != nil && g[u][v] != nil { ... }] with a body that changes the edge. *)
Definition ef_alter (f : EdgeFlow -> EdgeFlow) (g : resgraph) (u v : string) : resgraph := alter (alter f v) u g.

Definition updateResidual (ef : EdgeFlow) : EdgeFlow :=
  mkFlow (flow ef) (cap ef) (thetaA ef) (effCap ef) (banned ef) (fsub (effCap ef) (flow ef)).

Definition getReverseResidual (ef : EdgeFlow) : float64 := flow ef.

Definition set_flow (ef : EdgeFlow) (x : float64) : EdgeFlow :=
  mkFlow x (cap ef) (thetaA ef) (effCap ef) (banned ef) (residual ef).

Definition set_banned (b : bool) (ef : EdgeFlow) : EdgeFlow :=
  mkFlow (flow ef) (cap ef) (thetaA ef) (effCap ef) b (residual ef).

(** ** Parameters of a run *)

Definition computeThetaA (d : FlowOptimizationSolver) (cpuLoad : float64) : float64 :=
  let numerator := fsub cpuLoad (Tu d) in
  let numerator := if flt numerator fzero then fzero else numerator in
  let denominator := fsub (Uhot d) (Tu d) in
  let denominator := if flt denominator (epsilon d) then epsilon d else denominator in
  let U_prime := fdiv numerator denominator in
  let U_prime := if flt fone U_prime then fone else U_prime in
  fsub fone U_prime.

Definition load_less (x y : float64) : bool := flt x y.

(** [computePercentile]; an index out of range panics. *)
Definition computePercentile (d : FlowOptimizationSolver) (percentile : float64) : go float64 :=
  match fs_edges d with
  | [] => Ret fzero
  | _ =>
      let loads := exchange_sort load_less (Load <$> fs_edges d) in
      let n := Z.of_nat (length loads) in
      let index := fmul (fdiv percentile (of_Z 100)) (of_Z (n - 1)) in
      let lowerIndex := to_int index in
      let upperIndex := (lowerIndex + 1)%Z in
      if (n <=? upperIndex)%Z then
        match last loads with Some x => Ret x | None => Panic end
      else if (lowerIndex <? 0)%Z then Panic
      else
        match loads !! Z.to_nat lowerIndex, loads !! Z.to_nat upperIndex with
        | Some lo, Some hi =>
            let fraction := fsub index (of_Z lowerIndex) in
            Ret (fadd lo (fmul fraction (fsub hi lo)))
        | _, _ => Panic
        end
  end.

(** [theta_L(end)]: 1.5 times the average latency of the shortest paths, 100 when the solver returns an error.  The
    solver does not run out of fuel ([thetaL_of_cases]). *)
Definition thetaL_of (d : FlowOptimizationSolver) (start end_ : string) : float64 :=
  match Computing (NewKShortestSolverWithLatency (fs_edges d) (kspK d) true) start end_ with
  | Routes ((_ :: _) as paths) =>
      let total := foldl (fun acc p => fadd acc (snd p)) fzero paths in
      fmul (fdiv total (of_Z (Z.of_nat (length paths)))) (lit 3 2)
  | _ => of_Z 100
  end.

Lemma thetaL_of_cases d start end_ :
  Forall (edge_ok true) (fs_edges d) ->
  match Computing (NewKShortestSolverWithLatency (fs_edges d) (kspK d) true) start end_ with
  | Routes paths => paths <> [] /\
      thetaL_of d start end_ = fmul (fdiv (foldl (fun acc p => fadd acc (snd p)) fzero paths) (of_Z (Z.of_nat (length paths)))) (lit 3 2)
  | StartNotFound | EndNotFound | NoPath => thetaL_of d start end_ = of_Z 100
  | NoFuel => False
  end.
Proof.
  intros HF. unfold thetaL_of. pose proof (Computing_ok (fs_edges d) (kspK d) true start end_ HF) as Hc. cbv zeta in Hc.
  destruct (Computing _ start end_) as [paths| | | |]; try done. destruct Hc as (_ & _ & [Hl _] & _). by destruct paths; [simpl in Hl; lia|].
Qed.

Definition computeThetaLForDestinations (d : FlowOptimizationSolver) (start : string) (ends : list string) : gmap string float64 :=
  foldl (fun m end_ => <[end_ := thetaL_of d start end_]> m) (thetaLMap d) ends.

Definition buildResidualGraphWithCapacity (d : FlowOptimizationSolver) : resgraph :=
  foldl (fun g e =>
           let theta := computeThetaA d (Load e) in
           let eff := fmul theta (capacity d) in
           <[SourceIp e := <[DestinationIp e := mkFlow fzero (capacity d) theta eff false eff]> (default ∅ (g !! SourceIp e))]> g)
    ∅ (fs_edges d).

(** ** Flow along a path *)

(** The pairs [(path[i], path[i+1])]. *)
Fixpoint hop_pairs (l : list string) : list (string * string) :=
  match l with
  | u :: (v :: _) as rest => (u, v) :: hop_pairs rest
  | _ => []
  end.

Definition allocateFlow (g : resgraph) (path : list string) (x : float64) : resgraph :=
  foldl (fun g '(u, v) => ef_alter (fun ef => updateResidual (set_flow ef (fadd (flow ef) x))) g u v) g (hop_pairs path).

Definition release_ef (x : float64) (ef : EdgeFlow) : EdgeFlow :=
  let f := fsub (flow ef) x in
  updateResidual (set_flow ef (if flt f fzero then fzero else f)).

Definition releaseFlow (g : resgraph) (path : list string) (x : float64) : resgraph :=
  foldl (fun g '(u, v) => ef_alter (release_ef x) g u v) g (hop_pairs path).

Definition banEdge (g : resgraph) (u v : string) : resgraph := ef_alter (set_banned true) g u v.

Definition banPathEdges (g : resgraph) (path : list string) : resgraph :=
  foldl (fun g '(u, v) => banEdge g u v) g (hop_pairs path).

Definition unbanAllEdges (g : resgraph) : resgraph := (fun row : gmap string EdgeFlow => set_banned false <$> row) <$> g.

(** ** The search *)

Definition MaxFloat64 : float64 := S754_finite false 9007199254740991 971.

Definition getEdgeLatency (d : FlowOptimizationSolver) (u v : string) : float64 :=
  default MaxFloat64 (latencyMap d !! (u +:+ "->" +:+ v)).

Record edgeInfo := mkEI { to : string; ef_of : EdgeFlow; ei_cost : float64; isRev : bool; revFrom : string }.

Definition bannedPenalty : float64 := of_Z 100.

Definition penalised (ef : EdgeFlow) (c : float64) : float64 := if banned ef then fadd c bannedPenalty else c.

Definition forward_edge (d : FlowOptimizationSolver) (g : resgraph) (u v : string) : option edgeInfo :=
  ef ← ef_at g u v;
  if flt fzero (residual ef) then Some (mkEI v ef (penalised ef (getEdgeLatency d u v)) false "") else None.

Definition backward_edge (g : resgraph) (u v : string) : option edgeInfo :=
  if decide (v = u) then None
  else ef ← ef_at g v u;
       if flt fzero (getReverseResidual ef) then Some (mkEI v ef (penalised ef fzero) true u) else None.

Definition ei_less (x y : edgeInfo) : bool := flt (ei_cost x) (ei_cost y).

Definition swap_at {A} (l : list A) (i j : nat) : list A :=
  match l !! i, l !! j with
  | Some x, Some y => <[i := y]> (<[j := x]> l)
  | _, _ => l      (* not reached: both indices are in range *)
  end.

Section Search.
Context `{Chance}.

(** [getSortedEdges] visits two maps: it asks for two orders, [c] and [c + 1]. *)
Definition getSortedEdges (c : nat) (d : FlowOptimizationSolver) (g : resgraph) (u : string) : list edgeInfo :=
  let outs := map_to_list (default ∅ (g !! u)) in
  exchange_sort ei_less
    (omap (forward_edge d g u) (range_order c (fst <$> outs)) ++
     omap (backward_edge g u) (range_order (S c) (elements (fs_nodes d)))).

(** [for j := len-1; j > 0; j-- { k := rand.Intn(j+1); swap }]. *)
Fixpoint randomized (j : nat) (c : nat) (l : list edgeInfo) : list edgeInfo * nat :=
  match j with
  | O => (l, c)
  | S j' => randomized j' (S c) (swap_at l j (Intn c (S j)))
  end.

Record search_state := mkSS {
  s_visited : gset string;
  s_path : list string;
  bestPath : option (list string);
  bestLatency : float64;
  asked : nat               (* questions to [Chance] so far *)
}.

Definition set_best (st : search_state) (p : list string) (lat : float64) : search_state :=
  mkSS (s_visited st) (s_path st) (Some p) lat (asked st).

Section Dfs.
Context (d : FlowOptimizationSolver) (g : resgraph) (t : string) (thetaL : float64).
Context (usedPaths : gset string) (optimize randomize : bool).

(** Line by line the loop over the edges of a node; [rec] is the recursive call. *)
Fixpoint try_infos (rec : string -> float64 -> search_state -> bool * search_state) (lat : float64)
    (es : list edgeInfo) (found : bool) (st : search_state) : bool * search_state :=
  match es with
  | [] => (found, st)
  | ei :: rest =>
      if decide (to ei ∈ s_visited st) then try_infos rec lat rest found st
      else if optimize && fle (bestLatency st) (fadd lat (ei_cost ei)) then try_infos rec lat rest found st
      else if flt thetaL (fadd lat (ei_cost ei)) then try_infos rec lat rest found st
      else
        let '(ok, st1) := rec (to ei) (fadd lat (ei_cost ei)) st in
        if ok : bool then (if negb optimize then (true, st1) else try_infos rec lat rest true st1)
        else try_infos rec lat rest found st1
  end.

(** At the destination. *)
Definition arrive (u : string) (lat : float64) (st : search_state) : bool * search_state :=
  if fle lat thetaL then
    if optimize then
      (false, if flt lat (bestLatency st) then
                let tempPath := s_path st ++ [u] in
                if decide (Join tempPath "->" ∈ usedPaths) then st else set_best st tempPath lat
              else st)
    else (true, set_best st (s_path st ++ [u]) lat)
  else (false, st).

(** [room] is [maxHops - len(path)]: at 0 the path is full. *)
Fixpoint path_dfs (room : nat) (u : string) (lat : float64) (st : search_state) : bool * search_state :=
  match room with
  | O => (false, st)
  | S room =>
      if String.eqb u t then arrive u lat st
      else
        let st1 := mkSS ({[u]} ∪ s_visited st) (s_path st ++ [u]) (bestPath st) (bestLatency st) (S (S (asked st))) in
        let sorted := getSortedEdges (asked st) d g u in
        let '(es, c) := if randomize then randomized (length sorted - 1) (asked st1) sorted else (sorted, asked st1) in
        let '(found, st2) := try_infos (path_dfs room) lat es false (mkSS (s_visited st1) (s_path st1) (bestPath st1) (bestLatency st1) c) in
        (found, mkSS (s_visited st2 ∖ {[u]}) (removelast (s_path st2)) (bestPath st2) (bestLatency st2) (asked st2))
  end.
End Dfs.

Definition dfsPathSearch (c : nat) (d : FlowOptimizationSolver) (g : resgraph) (s t : string) (thetaL : float64)
    (usedPaths : gset string) (optimize randomize : bool) : option (list string * float64) * nat :=
  let '(_, st) := path_dfs d g t thetaL usedPaths optimize randomize OneWan.maxHops s fzero
                    (mkSS ∅ [] None (fadd thetaL fone) c) in
  (p ← bestPath st; Some (p, bestLatency st), asked st).

Record PathWithInfo := mkPI { pi_path : list string; pathStr : string; dest : string; latency : float64 }.

Definition findFeasiblePathWithLatency (c : nat) (d : FlowOptimizationSolver) (g : resgraph) (s t : string)
    (usedPaths : gset string) (attempt : nat) : option PathWithInfo * nat :=
  match g !! s with
  | None => (None, c)
  | Some _ =>
      let thetaL := default (of_Z 100) (thetaLMap d !! t) in
      let '(r, c1) := if (attempt <=? 1)%nat then dfsPathSearch c d g s t thetaL usedPaths true false
                      else dfsPathSearch c d g s t thetaL usedPaths false true in
      ('(p, lat) ← r; Some (mkPI p (Join p "|") t lat), c1)
  end.
End Search.

(** ** Residual edges and walks *)

(** The edges a search may take: a link with residual capacity, or a link with flow taken backwards. *)
Definition usable (d : FlowOptimizationSolver) (g : resgraph) (u v : string) (c : float64) : Prop :=
  (exists ef, ef_at g u v = Some ef /\ flt fzero (residual ef) = true /\ c = penalised ef (getEdgeLatency d u v)) \/
  (v <> u /\ v ∈ fs_nodes d /\ exists ef, ef_at g v u = Some ef /\ flt fzero (flow ef) = true /\ c = penalised ef fzero).

(** A simple path from [u] to [t] that avoids [V]; [lat] and [lat'] are the latency so far and at the end. *)
Inductive walk (d : FlowOptimizationSolver) (g : resgraph) (t : string) :
    string -> gset string -> float64 -> list string -> float64 -> Prop :=
| walk_end V lat : walk d g t t V lat [t] lat
| walk_hop u V lat v c l lat' :
    u <> t -> v ∉ {[u]} ∪ V -> usable d g u v c -> walk d g t v ({[u]} ∪ V) (fadd lat c) l lat' ->
    walk d g t u V lat (u :: l) lat'.

Definition costs_ok (d : FlowOptimizationSolver) (g : resgraph) : Prop :=
  forall u v c, usable d g u v c -> weight_ok c.

Lemma walk_head d g t u V lat l lat' : walk d g t u V lat l lat' -> exists rest, l = u :: rest.
Proof. destruct 1; eauto. Qed.

Lemma feasible_walk_last d g t u V lat l lat' : walk d g t u V lat l lat' -> last l = Some t.
Proof.
  induction 1 as [|u V lat v c l lat' Hne Hv Hu Hw IH]; [done|].
  destruct (walk_head _ _ _ _ _ _ _ _ Hw) as [rest ->]. done.
Qed.

Lemma walk_simple d g t u V lat l lat' :
  walk d g t u V lat l lat' -> u ∉ V -> NoDup l /\ forall h, h ∈ l -> h ∉ V.
Proof.
  induction 1 as [V lat|u V lat v c l lat' Hne Hv Hu Hw IH]; intros Hn.
  { split; [apply NoDup_singleton|]. intros h Hh. by apply list_elem_of_singleton in Hh as ->. }
  destruct (IH Hv) as [Hnd Hav]. split.
  - apply NoDup_cons. split; [|done]. intros Hin. apply (Hav u Hin). set_solver.
  - intros h [->|Hin]%elem_of_cons; [done|]. specialize (Hav h Hin). set_solver.
Qed.

(** Every hop of a walk is a link of the graph, in one direction or the other. *)
Lemma walk_links d g t u V lat l lat' :
  walk d g t u V lat l lat' -> forall a b, (a, b) ∈ hop_pairs l -> is_Some (ef_at g a b) \/ is_Some (ef_at g b a).
Proof.
  induction 1 as [V lat|u V lat v c l lat' Hne Hv Hu Hw IH]; intros a b Hin; [set_solver|].
  destruct (walk_head _ _ _ _ _ _ _ _ Hw) as [rest ->]. cbn [hop_pairs] in Hin.
  apply elem_of_cons in Hin as [[= -> ->]|Hin]; [|by apply IH].
  destruct Hu as [(ef & -> & _)|(_ & _ & ef & -> & _)]; eauto.
Qed.

(** Latency only grows along a walk. *)
Lemma walk_grows d g t u V lat l lat' :
  costs_ok d g -> walk d g t u V lat l lat' -> weight_ok lat -> weight_ok lat' /\ flt lat' lat = false.
Proof.
  intros Hc. induction 1 as [V lat|u V lat v c l lat' Hne Hv Hu Hw IH]; intros Hl; [split; [done|apply flt_irrefl]|].
  destruct (fadd_ok lat c Hl (Hc _ _ _ Hu)) as (Hs & H1 & _). destruct (IH Hs) as [Hl' H2]. split; [done|].
  apply (fge_trans _ (fadd lat c)); [apply nonneg_not_nan, Hs|done|done].
Qed.

(** *** The edges that are listed *)

Section SearchProofs.
Context `{Chance}.

Lemma list_keys_elem (m : gmap string EdgeFlow) v : v ∈ (fst <$> map_to_list m) <-> is_Some (m !! v).
Proof.
  rewrite list_elem_of_fmap. split.
  - intros ([k x] & -> & Hin). apply elem_of_map_to_list in Hin. eauto.
  - intros [x Hx]. exists (v, x). split; [done|]. by apply elem_of_map_to_list.
Qed.

Lemma getSortedEdges_usable c d g u ei : ei ∈ getSortedEdges c d g u -> usable d g u (to ei) (ei_cost ei).
Proof.
  unfold getSortedEdges. rewrite exchange_sort_perm. intros [Hin|Hin]%elem_of_app; apply list_elem_of_omap in Hin as (v & Hv & Hei).
  - unfold forward_edge in Hei. destruct (ef_at g u v) as [ef|] eqn:E; [|done]. simpl in Hei.
    destruct (flt fzero (residual ef)) eqn:Er; [|done]. injection Hei as <-. left. by exists ef.
  - unfold backward_edge in Hei. case_decide as Hvu; [done|]. destruct (ef_at g v u) as [ef|] eqn:E; [|done]. simpl in Hei.
    destruct (flt fzero (getReverseResidual ef)) eqn:Er; [|done]. injection Hei as <-. right. cbn [to ei_cost].
    rewrite range_order_perm in Hv. apply elem_of_elements in Hv. split_and!; [done|done|]. by exists ef.
Qed.

Lemma usable_listed c d g u v k :
  usable d g u v k -> exists ei, ei ∈ getSortedEdges c d g u /\ to ei = v /\ ei_cost ei = k.
Proof.
  unfold getSortedEdges. intros [(ef & Hef & Hr & ->)|(Hvu & Hn & ef & Hef & Hr & ->)].
  - exists (mkEI v ef (penalised ef (getEdgeLatency d u v)) false ""). split; [|done]. rewrite exchange_sort_perm.
    apply elem_of_app. left. apply list_elem_of_omap. exists v. split.
    + rewrite range_order_perm. apply list_keys_elem. unfold ef_at in Hef. destruct (g !! u) as [row|]; [|done].
      simpl in Hef. simpl. eauto.
    + unfold forward_edge. rewrite Hef. simpl. by rewrite Hr.
  - exists (mkEI v ef (penalised ef fzero) true u). split; [|done]. rewrite exchange_sort_perm.
    apply elem_of_app. right. apply list_elem_of_omap. exists v. split.
    + rewrite range_order_perm. by apply elem_of_elements.
    + unfold backward_edge. rewrite decide_False by done. rewrite Hef. simpl. unfold getReverseResidual. by rewrite Hr.
Qed.

Lemma swap_at_perm {A} (l : list A) i j : swap_at l i j ≡ₚ l.
Proof.
  unfold swap_at. destruct (l !! i) as [x|] eqn:Ei; [|done]. destruct (l !! j) as [y|] eqn:Ej; [|done].
  by apply Permutation_insert_swap.
Qed.

Lemma randomized_perm j c l : fst (randomized j c l) ≡ₚ l.
Proof. revert c l. induction j as [|j IH]; intros c l; cbn [randomized]; [done|]. by rewrite IH, swap_at_perm. Qed.

(** *** The search *)

Section Spec.
Context (d : FlowOptimizationSolver) (g : resgraph) (t : string) (thetaL : float64).
Context (usedPaths : gset string) (optimize randomize : bool).

Definition same_best (st st' : search_state) : Prop := bestPath st' = bestPath st /\ bestLatency st' = bestLatency st.

(** The best path of [st'] is a new one: [P] followed by a walk from [u]. *)
Definition better (P : list string) (room : nat) (u : string) (V : gset string) (lat : float64) (st st' : search_state) : Prop :=
  exists l lat', walk d g t u V lat l lat' /\ (length l <= room)%nat /\ fle lat' thetaL = true /\
    bestPath st' = Some (P ++ l) /\ bestLatency st' = lat' /\
    (optimize = true -> flt lat' (bestLatency st) = true /\ Join (P ++ l) "->" ∉ usedPaths).

Definition progress P room u V lat st st' : Prop := same_best st st' \/ better P room u V lat st st'.

(** What the search says of a walk that it did not take. *)
Definition covered (st' : search_state) (p : list string) (lat' : float64) : Prop :=
  if optimize then Join p "->" ∈ usedPaths \/ flt lat' (bestLatency st') = false else False.

Definition search_post (room : nat) (u : string) (lat : float64) (st : search_state) (r : bool * search_state) : Prop :=
  let '(ok, st') := r in
  s_visited st' = s_visited st /\ s_path st' = s_path st /\
  progress (s_path st) room u (s_visited st) lat st st' /\
  (ok = true -> optimize = false /\ better (s_path st) room u (s_visited st) lat st st') /\
  (costs_ok d g -> weight_ok lat -> optimize = true \/ ok = false -> forall l lat',
     walk d g t u (s_visited st) lat l lat' -> (length l <= room)%nat -> fle lat' thetaL = true ->
     covered st' (s_path st ++ l) lat').

Lemma same_best_refl st : same_best st st.
Proof. done. Qed.

Lemma progress_trans P room u V lat st1 st2 st3 :
  progress P room u V lat st1 st2 -> progress P room u V lat st2 st3 -> progress P room u V lat st1 st3.
Proof.
  intros [[Hp1 Hl1]|H1] [[Hp2 Hl2]|H2].
  - left. split; congruence.
  - right. destruct H2 as (l & lat' & ? & ? & ? & ? & ? & Ho). exists l, lat'. split_and!; try done. by rewrite <- Hl1.
  - right. destruct H1 as (l & lat' & ? & ? & ? & ? & ? & Ho). exists l, lat'. split_and!; (done || congruence).
  - right. destruct H2 as (l & lat' & ? & ? & ? & ? & ? & Ho). exists l, lat'. split_and!; try done.
    intros Hop. destruct (Ho Hop) as [Hlt ?]. split; [|done]. destruct H1 as (l1 & lat1 & _ & _ & _ & _ & Hb & Ho1).
    destruct (Ho1 Hop) as [Hlt1 _]. rewrite Hb in Hlt. by eapply flt_trans.
Qed.

Lemma covered_mono P room u V lat st1 st2 p x :
  progress P room u V lat st1 st2 -> covered st1 p x -> covered st2 p x.
Proof.
  unfold covered. destruct optimize eqn:Eo; [|done]. intros Hp [?|Hx]; [by left|right].
  destruct Hp as [[_ ->]|(l & lat' & _ & _ & _ & _ & -> & Ho)]; [done|]. destruct (Ho Eo) as [Hlt _].
  destruct (flt x lat') eqn:E; [|done]. by rewrite (flt_trans _ _ _ E Hlt) in Hx.
Qed.

Lemma better_hop P room u V lat v c st st' :
  u <> t -> v ∉ {[u]} ∪ V -> usable d g u v c ->
  better (P ++ [u]) room v ({[u]} ∪ V) (fadd lat c) st st' -> better P (S room) u V lat st st'.
Proof.
  intros Hne Hv Hu (l & lat' & Hw & Hlen & Hle & Hb & Hl & Ho). rewrite <- app_assoc in Hb, Ho. exists (u :: l), lat'.
  split_and!; try done; [by eapply walk_hop|simpl; lia].
Qed.

(** A pruned edge leads to no walk that is wanted. *)
Lemma pruned st u V lat v c l lat' p :
  costs_ok d g -> weight_ok lat -> usable d g u v c -> walk d g t v V (fadd lat c) l lat' -> fle lat' thetaL = true ->
  optimize && fle (bestLatency st) (fadd lat c) = true \/ flt thetaL (fadd lat c) = true -> covered st p lat'.
Proof.
  intros Hc Hl Hu Hw Hle Hpr. destruct (fadd_ok lat c Hl (Hc _ _ _ Hu)) as (Hs & _).
  destruct (walk_grows _ _ _ _ _ _ _ _ Hc Hw Hs) as [Hw' Hge]. destruct Hpr as [[Ho Hb]%andb_true_iff|Hth].
  - unfold covered. rewrite Ho. right. destruct (flt lat' (bestLatency st)) eqn:E; [|done].
    rewrite (flt_le_trans _ _ (fadd lat c) (nonneg_not_nan _ (proj2 Hs)) E (fle_not_flt _ _ Hb)) in Hge. done.
  - exfalso. apply fle_not_flt in Hle.
    rewrite (flt_le_trans _ _ lat' (nonneg_not_nan _ (proj2 Hw')) Hth Hge) in Hle. done.
Qed.

Lemma try_infos_post room u lat rec es st V P :
  (forall v x s, v ∉ s_visited s -> search_post room v x s (rec v x s)) ->
  u <> t -> s_visited st = {[u]} ∪ V -> s_path st = P ++ [u] ->
  (forall ei, ei ∈ es -> usable d g u (to ei) (ei_cost ei)) ->
  let '(ok, st') := try_infos thetaL optimize rec lat es false st in
  s_visited st' = s_visited st /\ s_path st' = s_path st /\ progress P (S room) u V lat st st' /\
  (ok = true -> optimize = false /\ better P (S room) u V lat st st') /\
  (costs_ok d g -> weight_ok lat -> optimize = true \/ ok = false -> forall ei l lat', ei ∈ es ->
     to ei ∉ {[u]} ∪ V -> walk d g t (to ei) ({[u]} ∪ V) (fadd lat (ei_cost ei)) l lat' ->
     (length l <= room)%nat -> fle lat' thetaL = true -> covered st' (P ++ u :: l) lat').
Proof.
  intros Hrec Hne. revert st. induction es as [|ei es IH]; intros st Hv HP Hes; cbn [try_infos].
  { split_and!; try done; [by left|]. intros. set_solver. }
  pose proof (Hes ei ltac:(left)) as Hu. assert (Hes' : forall e, e ∈ es -> usable d g u (to e) (ei_cost e)) by (intros; apply Hes; by right).
  assert (Hskip : (forall l lat', costs_ok d g -> weight_ok lat -> to ei ∉ {[u]} ∪ V ->
      walk d g t (to ei) ({[u]} ∪ V) (fadd lat (ei_cost ei)) l lat' -> fle lat' thetaL = true -> covered st (P ++ u :: l) lat') ->
    let '(ok, st') := try_infos thetaL optimize rec lat es false st in
    s_visited st' = s_visited st /\ s_path st' = s_path st /\ progress P (S room) u V lat st st' /\
    (ok = true -> optimize = false /\ better P (S room) u V lat st st') /\
    (costs_ok d g -> weight_ok lat -> optimize = true \/ ok = false -> forall ei0 l lat', ei0 ∈ ei :: es ->
       to ei0 ∉ {[u]} ∪ V -> walk d g t (to ei0) ({[u]} ∪ V) (fadd lat (ei_cost ei0)) l lat' ->
       (length l <= room)%nat -> fle lat' thetaL = true -> covered st' (P ++ u :: l) lat')).
  { intros Hsk. specialize (IH st Hv HP Hes'). destruct (try_infos thetaL optimize rec lat es false st) as [ok st'].
    destruct IH as (? & ? & Hpr & ? & Hcov). split_and!; try done.
    intros Hc Hl Hok ei0 l lat' [->|Hin]%elem_of_cons ????; [|by eapply Hcov]. eapply covered_mono; [done|by apply Hsk]. }
  destruct (decide (to ei ∈ s_visited st)) as [Hvis|Hvis]; [apply Hskip; rewrite Hv in Hvis; intros; done|].
  destruct (optimize && fle (bestLatency st) (fadd lat (ei_cost ei))) eqn:Epr;
    [apply Hskip; intros; eapply pruned; try done; by left|].
  destruct (flt thetaL (fadd lat (ei_cost ei))) eqn:Eth; [apply Hskip; intros; eapply pruned; try done; by right|]. clear Hskip.
  pose proof (Hrec (to ei) (fadd lat (ei_cost ei)) st Hvis) as Hr. destruct (rec (to ei) _ st) as [ok1 st1]. cbn [search_post] in Hr.
  rewrite Hv, HP in Hr. destruct Hr as (Hv1 & HP1 & Hpr1 & Hok1 & Hcov1).
  assert (Hpr : progress P (S room) u V lat st st1).
  { rewrite Hv in Hvis. destruct Hpr1 as [?|Hb]; [by left|right; by eapply better_hop]. }
  destruct ok1.
  { destruct (Hok1 eq_refl) as [-> Hb]. cbn [negb]. split_and!; try done; try congruence.
    - intros _. split; [done|]. rewrite Hv in Hvis. by eapply better_hop.
    - intros _ _ [?|?]; done. }
  specialize (IH st1 ltac:(congruence) ltac:(congruence) Hes').
  destruct (try_infos thetaL optimize rec lat es false st1) as [ok st']. destruct IH as (? & ? & Hpr2 & Hok2 & Hcov2).
  split_and!; try congruence; [by eapply progress_trans| |].
  - intros ->. destruct (Hok2 eq_refl) as [Ho Hb]. split; [done|]. destruct Hb as (l & lat' & ? & ? & ? & ? & ? & _).
    exists l, lat'. split_and!; try done. by rewrite Ho.
  - intros Hc Hl Hok ei0 l lat' [->|Hin]%elem_of_cons Hn Hw Hlen Hle; [|by eapply Hcov2].
    eapply covered_mono; [done|]. change (u :: l) with ([u] ++ l). rewrite (app_assoc P [u] l). apply Hcov1; try done; [|by right].
    apply fadd_ok; [done|by eapply Hc].
Qed.
Lemma path_dfs_post room u lat st :
  u ∉ s_visited st -> search_post room u lat st (path_dfs d g t thetaL usedPaths optimize randomize room u lat st).
Proof.
  revert u lat st. induction room as [|room IH]; intros u lat st Hu; cbn [path_dfs].
  { cbn. split_and!; try done; [by left|]. intros _ _ _ l lat' Hw Hlen. destruct (walk_head _ _ _ _ _ _ _ _ Hw) as [r ->]. simpl in Hlen. lia. }
  destruct (String.eqb_spec u t) as [->|Hne].
  { (* at the destination the only walk is [[t]] *)
    assert (Hinv : forall l lat', walk d g t t (s_visited st) lat l lat' -> l = [t] /\ lat' = lat) by (by inversion 1).
    assert (Hend : walk d g t t (s_visited st) lat [t] lat) by constructor.
    unfold arrive. destruct (fle lat thetaL) eqn:Ele; [|cbn; split_and!; try done; [by left|intros _ _ _ l lat' Hw _ Hle; by destruct (Hinv _ _ Hw) as [-> ->]; congruence]].
    destruct optimize eqn:Eo.
    - destruct (flt lat (bestLatency st)) eqn:Eb; [case_decide as Hused|].
      + cbn. split_and!; try done; [by left|]. intros _ _ _ l lat' Hw _ _. destruct (Hinv _ _ Hw) as [-> ->]. unfold covered. rewrite Eo. by left.
      + cbn. split_and!; try done.
        * right. exists [t], lat. split_and!; try done. simpl. lia.
        * intros _ _ _ l lat' Hw _ _. destruct (Hinv _ _ Hw) as [-> ->]. unfold covered. rewrite Eo. right. apply flt_irrefl.
      + cbn. split_and!; try done; [by left|]. intros _ _ _ l lat' Hw _ _. destruct (Hinv _ _ Hw) as [-> ->]. unfold covered. rewrite Eo. by right.
    - assert (Hb : better (s_path st) (S room) t (s_visited st) lat st (set_best st (s_path st ++ [t]) lat)).
      { exists [t], lat. split_and!; try done; [simpl; lia|]. intros ?; congruence. }
      cbn. split_and!; try done; [by right|]. intros _ _ [?|?]; congruence. }
  set (sorted := getSortedEdges (asked st) d g u). cbn [asked s_visited s_path bestPath bestLatency].
  set (sh := if randomize then _ else _).
  assert (Hes : forall ei, ei ∈ fst sh <-> ei ∈ sorted) by (intros ei; unfold sh; destruct randomize; [by rewrite randomized_perm|done]).
  destruct sh as [es c]. cbn [fst] in Hes. set (st1 := mkSS _ _ _ _ _).
  pose proof (try_infos_post room u lat (path_dfs d g t thetaL usedPaths optimize randomize room) es st1 (s_visited st) (s_path st) IH Hne eq_refl eq_refl) as Ht.
  specialize (Ht ltac:(intros ei Hei%Hes; by eapply getSortedEdges_usable)).
  destruct (try_infos thetaL optimize _ lat es false st1) as [ok st2]. destruct Ht as (Hv2 & HP2 & Hpr & Hok & Hcov).
  cbn. rewrite Hv2, HP2. subst st1. cbn [s_visited s_path] in *. rewrite removelast_last. split_and!; try done.
  - set_solver.
  - intros Hc Hl Hor l lat' Hw Hlen Hle. inversion Hw as [|u' V' lat0 v k l' lat2 _ Hv Hus Hw']; subst; [done|].
    destruct (usable_listed (asked st) _ _ _ _ _ Hus) as (ei & Hei & <- & <-). simpl in Hlen.
    eapply Hcov; try done; [by apply Hes|lia].
Qed.
End Spec.

(** A path from [s] to [t] within the bounds of the search. *)
Definition feasible (d : FlowOptimizationSolver) (g : resgraph) (s t : string) (thetaL : float64) (p : list string) (lat : float64) : Prop :=
  walk d g t s ∅ fzero p lat /\ (length p <= OneWan.maxHops)%nat /\ fle lat thetaL = true.

Lemma dfsPathSearch_sound c d g s t thetaL used optimize randomize p lat :
  fst (dfsPathSearch c d g s t thetaL used optimize randomize) = Some (p, lat) ->
  feasible d g s t thetaL p lat /\ (optimize = true -> Join p "->" ∉ used).
Proof.
  unfold dfsPathSearch. set (st0 := mkSS ∅ [] None (fadd thetaL fone) c).
  pose proof (path_dfs_post d g t thetaL used optimize randomize OneWan.maxHops s fzero st0 (not_elem_of_empty _)) as Hp.
  destruct (path_dfs _ _ _ _ _ _ _ _ s fzero st0) as [ok st]. cbn [search_post] in Hp. destruct Hp as (_ & _ & Hpr & _). cbn [fst].
  destruct Hpr as [[-> _]|(l & lat' & Hw & Hlen & Hle & -> & -> & Ho)]; [done|]. cbn [s_path st0 app s_visited]. intros [= <- <-].
  split; [done|]. intros Hop. by apply Ho.
Qed.

Lemma dfsPathSearch_complete c d g s t thetaL used optimize randomize :
  costs_ok d g ->
  match fst (dfsPathSearch c d g s t thetaL used optimize randomize) with
  | Some (_, lat) => optimize = true -> forall q lat', feasible d g s t thetaL q lat' -> Join q "->" ∉ used -> flt lat' lat = false
  | None => forall q lat', feasible d g s t thetaL q lat' ->
      optimize = true /\ (Join q "->" ∈ used \/ flt lat' (fadd thetaL fone) = false)
  end.
Proof.
  intros Hc. unfold dfsPathSearch. set (st0 := mkSS ∅ [] None (fadd thetaL fone) c).
  pose proof (path_dfs_post d g t thetaL used optimize randomize OneWan.maxHops s fzero st0 (not_elem_of_empty _)) as Hp.
  destruct (path_dfs _ _ _ _ _ _ _ _ s fzero st0) as [ok st]. cbn [search_post] in Hp. destruct Hp as (_ & _ & Hpr & Hok & Hcov). cbn [fst].
  specialize (Hcov Hc weight_ok_zero). destruct (bestPath st) as [p|] eqn:Eb; simpl.
  - intros Hop q lat' (Hw & Hlen & Hle) Hq. specialize (Hcov (or_introl Hop) q lat' Hw Hlen Hle). cbn in Hcov.
    unfold covered in Hcov. rewrite Hop in Hcov. by destruct Hcov.
  - assert (Hs : same_best st0 st) by (destruct Hpr as [?|(l & lat' & _ & _ & _ & ? & _)]; [done|congruence]).
    assert (ok = false) as -> by (destruct ok; [|done]; destruct (Hok eq_refl) as [_ (l & lat' & _ & _ & _ & ? & _)]; congruence).
    intros q lat' (Hw & Hlen & Hle). specialize (Hcov (or_intror eq_refl) q lat' Hw Hlen Hle). unfold covered in Hcov.
    destruct optimize; [|done]. split; [done|]. destruct Hs as [_ Hs]. cbn in Hs, Hcov. by rewrite Hs in Hcov.
Qed.

(** ** Properties *)

(** The path search of the flow optimiser, for any iteration order and any random numbers: a
    path that is found is a simple walk over residual edges of at most thirty nodes within the
    latency bound; when the search optimises, the path is not one of the used ones and no unused
    feasible path is faster; when nothing is found, no feasible path exists, except that the
    optimising search also passes over used paths and over those not below its initial bound. *)
Theorem dfsPathSearch_correct c d g s t thetaL used optimize randomize :
  costs_ok d g ->
  match fst (dfsPathSearch c d g s t thetaL used optimize randomize) with
  | Some (p, lat) =>
      feasible d g s t thetaL p lat /\ NoDup p /\
      (optimize = true -> Join p "->" ∉ used /\
         forall q lat', feasible d g s t thetaL q lat' -> Join q "->" ∉ used -> flt lat' lat = false)
  | None => forall q lat', feasible d g s t thetaL q lat' ->
      optimize = true /\ (Join q "->" ∈ used \/ flt lat' (fadd thetaL fone) = false)
  end.
Proof.
  intros Hc. pose proof (dfsPathSearch_complete c d g s t thetaL used optimize randomize Hc) as Hcomp.
  pose proof (dfsPathSearch_sound c d g s t thetaL used optimize randomize) as Hs.
  destruct (fst (dfsPathSearch c d g s t thetaL used optimize randomize)) as [[p lat]|]; [|done].
  destruct (Hs p lat eq_refl) as [Hf Hu]. split; [done|]. split; [by eapply walk_simple; [apply Hf|apply not_elem_of_empty]|].
  intros Hop. split; [by apply Hu|]. by apply Hcomp.
Qed.
End SearchProofs.

(** A residual edge costs the latency of a link, the penalty of a banned one, or nothing. *)
Lemma penalised_ok ef c : weight_ok c -> weight_ok (penalised ef c).
Proof. unfold penalised. destruct (banned ef); [|done]. intros. apply fadd_ok; [done|]. by split. Qed.

Lemma getEdgeLatency_ok edges u v :
  Forall (fun e => weight_ok (Latency e)) edges -> weight_ok (getEdgeLatency (NewFlowOptimizationSolver edges) u v).
Proof.
  intros HF. unfold getEdgeLatency. cbn [latencyMap NewFlowOptimizationSolver].
  set (k := u +:+ _). assert (Hm : forall m : gmap string float64, (forall x, m !! k = Some x -> weight_ok x) ->
    forall x, foldl (fun m e => <[SourceIp e +:+ "->" +:+ DestinationIp e := Latency e]> m) m edges !! k = Some x -> weight_ok x).
  { induction HF as [|e edges He HF IH]; intros m Hm x; cbn [foldl]; [apply Hm|]. apply IH. intros y.
    rewrite lookup_insert. case_decide; [by intros [= <-]|apply Hm]. }
  destruct (foldl _ ∅ edges !! k) as [x|] eqn:E; [|by split]. simpl. eapply Hm; [|exact E]. intros y. by rewrite lookup_empty.
Qed.

(** With latencies that are non-negative numbers every cost is one. *)
Lemma costs_ok_new edges d g :
  Forall (fun e => weight_ok (Latency e)) edges -> latencyMap d = latencyMap (NewFlowOptimizationSolver edges) -> costs_ok d g.
Proof.
  intros HF Hd u v c [(ef & _ & _ & ->)|(_ & _ & ef & _ & _ & ->)]; apply penalised_ok; [|apply weight_ok_zero].
  unfold getEdgeLatency. rewrite Hd. by apply getEdgeLatency_ok.
Qed.

(** An order for the examples: maps in the order of their keys, no shuffling. *)
Definition no_chance : Chance.
Proof.
  refine {| range_order _ l := l; Shuffle _ l := l; Intn _ n := (n - 1)%nat |}; [done|done|]. intros. lia.
Defined.

Definition link (u v : string) (lat load : Z) : Edge := mkEdge u v (of_Z lat) (of_Z load) (of_Z lat) fzero.

(** Two routes from [s] to [t]. *)
Definition sample_solver : FlowOptimizationSolver :=
  let d := NewFlowOptimizationSolver [link "s" "a" 5 0; link "a" "t" 5 0; link "s" "b" 2 0; link "b" "t" 2 0] in
  mkFS (fs_edges d) (fs_nodes d) (alpha d) (beta d) (of_Z 2) (flowsPerDest d) (Tu d) (of_Z 0) (epsilon d) (thetaLMap d) (kspK d) (latencyMap d).

Lemma dfsPathSearch_correct_witness :
  match fst (@dfsPathSearch no_chance 0 sample_solver (buildResidualGraphWithCapacity sample_solver) "s" "t" (of_Z 20) {["s->b->t"]} true false) with
  | Some (p, lat) => p = ["s"; "a"; "t"] /\ feasible sample_solver (buildResidualGraphWithCapacity sample_solver) "s" "t" (of_Z 20) p lat
  | None => False
  end.
Proof.
  pose proof (@dfsPathSearch_correct no_chance 0 sample_solver (buildResidualGraphWithCapacity sample_solver) "s" "t" (of_Z 20) {["s->b->t"]} true false) as Hs.
  assert (Hr : fst (@dfsPathSearch no_chance 0 sample_solver (buildResidualGraphWithCapacity sample_solver) "s" "t" (of_Z 20) {["s->b->t"]} true false) =
    Some (["s"; "a"; "t"], of_Z 10)) by (vm_compute; reflexivity).
  rewrite Hr in *. split; [done|]. apply Hs.
  eapply costs_ok_new; [|reflexivity]. repeat constructor.
Defined.

End Carousel.
