(* ===== verification/CarouselRun.v ===== *)
(** * The flow optimisation solver: the carousel greedy loop
      (control-plane/routing/core-domain/carousel-greed.go, [ComputingMulti])

    Paths are found for every destination, half of them are released again, and then the oldest path
    is replaced over and over while the best selection seen is kept. *)

From Stdlib Require Import ZArith Lia SpecFloat.
From stdpp Require Import base list gmap strings sorting.
From S2P Require Import Prelude F64 GoHeap GoStrings GoSort Graph ShortestPath KShortest LiveNet OneWan Carousel.
Import Graph ShortestPath KShortest LiveNet Carousel.

Module CarouselRun.

Section Run.
Context `{Chance}.

(** ** PathAccumulator *)

Record PathAccumulator := mkPA { pa_paths : gmap string PathWithInfo; freq : gmap string Z }.

Definition NewPathAccumulator : PathAccumulator := mkPA ∅ ∅.

Definition AddPath (pa : PathAccumulator) (pi : PathWithInfo) : PathAccumulator :=
  mkPA (<[pathStr pi := pi]> (pa_paths pa)) (<[pathStr pi := (default 0 (freq pa !! pathStr pi) + 1)%Z]> (freq pa)).

Definition GetMostFrequent (c : nat) (pa : PathAccumulator) : option PathWithInfo :=
  snd (foldl (fun '(maxCnt, best) k =>
                let n := default 0%Z (freq pa !! k) in
                if (maxCnt <? n)%Z then (n, pa_paths pa !! k) else (maxCnt, best))
         (0%Z, None) (range_order c (fst <$> map_to_list (freq pa)))).

(** ** The objective *)

Definition edge_key_str (uv : string * string) : string := uv.1 +:+ "->" +:+ uv.2.

Definition usage_of (lst : list PathWithInfo) : gmap string Z :=
  foldl (fun m uv => <[edge_key_str uv := (default 0 (m !! edge_key_str uv) + 1)%Z]> m) ∅
    (mbind (fun pi => hop_pairs (pi_path pi)) lst).

Definition congestion_of (g : resgraph) (acc : float64) (uv : string * string) : float64 :=
  match ef_at g uv.1 uv.2 with
  | Some ef => if flt fzero (effCap ef) then fadd acc (fsub fone (fdiv (residual ef) (effCap ef))) else acc
  | None => acc
  end.

Definition pathWeight : float64 := of_Z 10.
Definition diversityWeight : float64 := fone.
Definition latencyWeight : float64 := lit 1 10.
Definition congestionWeight : float64 := fone.

Definition objective (c : nat) (lst : list PathWithInfo) (g : resgraph) : float64 :=
  match lst with
  | [] => fzero
  | _ =>
      let usage := usage_of lst in
      let totalLatency := foldl (fun acc pi => fadd acc (latency pi)) fzero lst in
      let totalCongestion := foldl (congestion_of g) fzero (mbind (fun pi => hop_pairs (pi_path pi)) lst) in
      let diversity := foldl (fun acc k => fadd acc (fdiv fone (of_Z (default 0%Z (usage !! k))))) fzero
                         (range_order c (fst <$> map_to_list usage)) in
      fsub (fsub (fadd (fmul (of_Z (Z.of_nat (length lst))) pathWeight) (fmul diversity diversityWeight))
              (fmul totalLatency latencyWeight))
        (fmul totalCongestion congestionWeight)
  end.

(** ** The state of a run *)

Record work := mkWork {
  resGraph : resgraph;
  allPaths : list PathWithInfo;         (* oldest first *)
  destFlowCount : gmap string Z;
  usedPaths : gset string;
  questions : nat                       (* questions to [Chance] so far *)
}.

Definition pathToString (path : list string) : string := Join path "->".

Definition asking (w : work) (c : nat) : work := mkWork (resGraph w) (allPaths w) (destFlowCount w) (usedPaths w) c.

Definition with_graph (w : work) (g : resgraph) : work := mkWork g (allPaths w) (destFlowCount w) (usedPaths w) (questions w).

Definition count_of (w : work) (e : string) : Z := default 0%Z (destFlowCount w !! e).

(** A new path is pushed back, marked as used, counted, and given one unit of flow. *)
Definition add_path (w : work) (pi : PathWithInfo) : work :=
  mkWork (allocateFlow (resGraph w) (pi_path pi) fone) (allPaths w ++ [pi])
    (<[dest pi := (count_of w (dest pi) + 1)%Z]> (destFlowCount w)) ({[pathToString (pi_path pi)]} ∪ usedPaths w) (questions w).

(** The oldest path is released, uncounted and removed. *)
Definition remove_oldest (w : work) : option (PathWithInfo * work) :=
  match allPaths w with
  | [] => None
  | pi :: rest =>
      Some (pi, mkWork (releaseFlow (resGraph w) (pi_path pi) fone) rest
                  (<[dest pi := (count_of w (dest pi) - 1)%Z]> (destFlowCount w))
                  (usedPaths w ∖ {[pathToString (pi_path pi)]}) (questions w))
  end.

(** The attempts for one destination; [n] is what is left of [maxAttempts]. *)
Fixpoint fill (d : FlowOptimizationSolver) (start end_ : string) (n attemptCount i : nat) (w : work) : work :=
  match n with
  | O => w
  | S n =>
      if (i <? flowsPerDest d)%nat then
        let '(r, c) := findFeasiblePathWithLatency (questions w) d (resGraph w) start end_ (usedPaths w) (S attemptCount) in
        let w1 := asking w c in
        match r with
        | None => w1
        | Some pi =>
            if decide (pathToString (pi_path pi) ∈ usedPaths w) then fill d start end_ n (S attemptCount) i w1
            else fill d start end_ n (S attemptCount) (S i) (add_path w1 pi)
        end
      else w
  end.

Fixpoint fill_all (d : FlowOptimizationSolver) (start : string) (ends : list string) (w : work) : work :=
  match ends with
  | [] => w
  | end_ :: rest => fill_all d start rest (fill d start end_ (flowsPerDest d * 10) 0 0 w)
  end.

Fixpoint release_n (n : nat) (w : work) : work :=
  match n with
  | O => w
  | S n => match remove_oldest w with Some (_, w1) => release_n n w1 | None => w end
  end.

(** The search for a new path over the shuffled destinations; [attempt] is the iteration, from 1. *)
Fixpoint replace_path (d : FlowOptimizationSolver) (start : string) (ends : list string) (attempt : nat)
    (w : work) (pa : PathAccumulator) : work * PathAccumulator :=
  match ends with
  | [] => (w, pa)
  | end_ :: rest =>
      if (Z.of_nat (flowsPerDest d) <=? count_of w end_)%Z then replace_path d start rest attempt w pa
      else
        let '(r, c) := findFeasiblePathWithLatency (questions w) d (resGraph w) start end_ (usedPaths w) attempt in
        let w1 := asking w c in
        match r with
        | None => replace_path d start rest attempt w1 pa
        | Some pi =>
            if decide (pathToString (pi_path pi) ∈ usedPaths w) then replace_path d start rest attempt w1 pa
            else (add_path w1 pi, AddPath pa pi)
        end
  end.

Record best := mkBest { bestPaths : list PathWithInfo; bestScore : float64 }.

(** Bans of one iteration: the edges of the most frequent path and the first edge of the oldest. *)
Definition ban (freqPath : option PathWithInfo) (oldest : PathWithInfo) (g : resgraph) : resgraph :=
  let g1 := match freqPath with Some pi => banPathEdges g (pi_path pi) | None => g end in
  match pi_path oldest with
  | u :: v :: _ => banEdge g1 u v
  | _ => g1
  end.

(** One iteration; [None] when there is no path left. *)
Definition improve (d : FlowOptimizationSolver) (start : string) (ends : list string) (attempt : nat)
    (w : work) (pa : PathAccumulator) (b : best) : option (work * PathAccumulator * best) :=
  match remove_oldest w with
  | None => None
  | Some (oldest, w1) =>
      let w2 := with_graph (asking w1 (S (S (questions w1)))) (ban (GetMostFrequent (questions w1) pa) oldest (resGraph w1)) in
      let '(w3, pa3) := replace_path d start (Shuffle (S (questions w1)) ends) attempt w2 pa in
      let w4 := with_graph (asking w3 (S (questions w3))) (unbanAllEdges (resGraph w3)) in
      let b4 := match allPaths w4 with
                | [] => b
                | _ => let currentScore := objective (questions w3) (allPaths w4) (resGraph w4) in
                       if flt (bestScore b) currentScore then mkBest (allPaths w4) currentScore else b
                end in
      Some (w4, pa3, b4)
  end.

Fixpoint iterate (n : nat) (d : FlowOptimizationSolver) (start : string) (ends : list string) (attempt : nat)
    (w : work) (pa : PathAccumulator) (b : best) : best :=
  match n with
  | O => b
  | S n => match improve d start ends attempt w pa b with
           | None => b
           | Some (w1, pa1, b1) => iterate n d start ends (S attempt) w1 pa1 b1
           end
  end.

Inductive flow_result := FlowRoutes (paths : list PathInfo) | NoDestinations | FlowStartNotFound | NoValidDestinations | NoFeasiblePath.

(** The parameters that a run computes first. *)
Definition prepare (d : FlowOptimizationSolver) (start : string) (validEnds : list string) : go FlowOptimizationSolver :=
  let! Uhot := computePercentile d (of_Z 90) in
  Ret (mkFS (fs_edges d) (fs_nodes d) (alpha d) (beta d) (of_Z (Z.of_nat (length validEnds * flowsPerDest d))) (flowsPerDest d)
         (Tu d) Uhot (epsilon d) (computeThetaLForDestinations d start validEnds) (kspK d) (latencyMap d)).

Definition initial_work (d : FlowOptimizationSolver) (c : nat) : work := mkWork (buildResidualGraphWithCapacity d) [] ∅ ∅ c.

Definition to_info (pi : PathWithInfo) : PathInfo := mkInfo (pi_path pi) (latency pi) (latency pi).

Definition flow_ComputingMulti (c : nat) (d0 : FlowOptimizationSolver) (start : string) (ends : list string) : go flow_result :=
  match ends with
  | [] => Ret NoDestinations
  | _ =>
      if negb (has_node (fs_edges d0) start) then Ret FlowStartNotFound
      else
        let validEnds := List.filter (has_node (fs_edges d0)) ends in
        match validEnds with
        | [] => Ret NoValidDestinations
        | _ =>
            let! d := prepare d0 start validEnds in
            let w := fill_all d start validEnds (initial_work d c) in
            match allPaths w with
            | [] => Ret NoFeasiblePath
            | _ =>
                let pa := foldl AddPath NewPathAccumulator (allPaths w) in
                let b := mkBest (allPaths w) (objective (questions w) (allPaths w) (resGraph w)) in
                let size := of_Z (Z.of_nat (length (allPaths w))) in
                let w1 := release_n (Z.to_nat (to_int (fmul (beta d) size))) (asking w (S (questions w))) in
                let maxIter := Z.to_nat (to_int (fmul (alpha d) size)) in
                Ret (FlowRoutes (to_info <$> bestPaths (iterate maxIter d start validEnds 1 w1 pa b)))
            end
        end
  end.
End Run.

(** ** The residual graph under the flow operations *)

Lemma ef_at_alter f g u v a b :
  ef_at (ef_alter f g u v) a b = if decide ((a, b) = (u, v)) then f <$> ef_at g a b else ef_at g a b.
Proof.
  unfold ef_at, ef_alter. case_decide as Hd.
  - injection Hd as -> ->. rewrite lookup_alter_eq. destruct (g !! u) as [row|]; [|done]. simpl. by rewrite lookup_alter_eq.
  - destruct (decide (a = u)) as [->|Hne]; [|by rewrite lookup_alter_ne by done].
    rewrite lookup_alter_eq. destruct (g !! u) as [row|]; [|done]. simpl. rewrite lookup_alter_ne; [done|]. congruence.
Qed.

(** The same links, with fields that may differ. *)
Definition same_links (g g' : resgraph) : Prop := forall u v, is_Some (ef_at g' u v) <-> is_Some (ef_at g u v).

#[global] Instance same_links_equiv : Equivalence same_links.
Proof.
  split; [by intros g u v|intros g g' H u v; by rewrite (H u v)|intros g1 g2 g3 H1 H2 u v; by rewrite (H2 u v), (H1 u v)].
Qed.

Lemma same_links_alter f g u v : same_links g (ef_alter f g u v).
Proof. intros a b. rewrite ef_at_alter. case_decide; [by rewrite fmap_is_Some|done]. Qed.

Lemma same_links_foldl (f : EdgeFlow -> EdgeFlow) ps g :
  same_links g (foldl (fun g '(u, v) => ef_alter f g u v) g ps).
Proof.
  revert g. induction ps as [|[u v] ps IH]; intros g; cbn [foldl]; [done|].
  etrans; [apply (same_links_alter f g u v)|apply IH].
Qed.

Lemma same_links_unban g : same_links g (unbanAllEdges g).
Proof.
  intros u v. unfold ef_at, unbanAllEdges. rewrite lookup_fmap. destruct (g !! u) as [row|]; [|done]. simpl.
  by rewrite lookup_fmap, fmap_is_Some.
Qed.

Lemma same_links_ban fp oldest g : same_links g (ban fp oldest g).
Proof.
  unfold ban. assert (H1 : same_links g (match fp with Some pi => banPathEdges g (pi_path pi) | None => g end))
    by (destruct fp; [apply same_links_foldl|done]).
  destruct (pi_path oldest) as [|u [|v ?]]; [done|done|]. etrans; [exact H1|apply same_links_alter].
Qed.

(** One pass over pairwise different pairs changes each of them once. *)
Lemma ef_at_foldl f ps g a b :
  NoDup ps -> ef_at (foldl (fun g '(u, v) => ef_alter f g u v) g ps) a b =
    if decide ((a, b) ∈ ps) then f <$> ef_at g a b else ef_at g a b.
Proof.
  revert g. induction ps as [|[u v] ps IH]; intros g Hnd; cbn [foldl]; [by rewrite decide_False by apply not_elem_of_nil|].
  apply NoDup_cons in Hnd as [Hn Hnd]. rewrite (IH _ Hnd), ef_at_alter.
  destruct (decide ((a, b) = (u, v))) as [->|Hne].
  - rewrite (decide_False (P := (u, v) ∈ ps)) by done. by rewrite decide_True by left.
  - destruct (decide ((a, b) ∈ ps)) as [Hin|Hin].
    + by rewrite decide_True by (by right).
    + rewrite decide_False; [done|]. by intros [?|?]%elem_of_cons.
Qed.

Lemma hop_pairs_fst l x y : (x, y) ∈ hop_pairs l -> x ∈ l.
Proof.
  induction l as [|u [|v l] IH]; cbn [hop_pairs]; [set_solver|set_solver|].
  intros [[= -> ->]|Hin]%elem_of_cons; [left|right; by apply IH].
Qed.

Lemma hop_pairs_nodup l : NoDup l -> NoDup (hop_pairs l).
Proof.
  induction l as [|u [|v l] IH]; cbn [hop_pairs]; intros Hnd; [constructor|constructor|].
  apply NoDup_cons in Hnd as [Hn Hnd]. constructor; [|by apply IH]. intros Hin. apply Hn. by eapply hop_pairs_fst.
Qed.

(** ** Flow accounting *)

Definition crosses (u v : string) (pi : PathWithInfo) : bool := bool_decide ((u, v) ∈ hop_pairs (pi_path pi)).

(** How many of the paths use the pair. *)
Definition crossings (u v : string) (l : list PathWithInfo) : nat := length (List.filter (crosses u v) l).

(** The flow of an edge is the number of paths over it; nothing else of the edge has changed but
    the residual and the ban. *)
Definition ef_counts (e0 e : EdgeFlow) (n : nat) : Prop :=
  flow e = of_Z (Z.of_nat n) /\ cap e = cap e0 /\ thetaA e = thetaA e0 /\ effCap e = effCap e0 /\
  (residual e = fsub (effCap e) (flow e) \/ flow e = fzero /\ residual e = effCap e).

Definition flow_ok (g0 g : resgraph) (l : list PathWithInfo) : Prop :=
  forall u v, match ef_at g0 u v, ef_at g u v with
              | Some e0, Some e => ef_counts e0 e (crossings u v l)
              | None, None => True
              | _, _ => False
              end.

(** Counting with floats is exact as far as it is needed. *)
Definition counting_bound : nat := 1000.

Lemma float_counting n :
  (n <= counting_bound)%nat ->
  fadd (of_Z (Z.of_nat n)) fone = of_Z (Z.of_nat (S n)) /\ fsub (of_Z (Z.of_nat (S n))) fone = of_Z (Z.of_nat n) /\
  flt (of_Z (Z.of_nat n)) fzero = false.
Proof.
  assert (Hall : forallb (fun n => bool_decide (fadd (of_Z (Z.of_nat n)) fone = of_Z (Z.of_nat (S n))) &&
    bool_decide (fsub (of_Z (Z.of_nat (S n))) fone = of_Z (Z.of_nat n)) && negb (flt (of_Z (Z.of_nat n)) fzero)) (seq 0 1001) = true)
    by (vm_compute; reflexivity).
  intros Hn. rewrite forallb_forall in Hall. specialize (Hall n). rewrite <- list_elem_of_In, elem_of_seq in Hall.
  specialize (Hall ltac:(unfold counting_bound in Hn; lia)). by bool_prop.
Qed.

Lemma crossings_app u v l pi : crossings u v (l ++ [pi]) = (crossings u v l + if crosses u v pi then 1 else 0)%nat.
Proof. unfold crossings. rewrite List.filter_app, length_app. simpl. by destruct (crosses u v pi). Qed.

Lemma crossings_cons u v l pi : crossings u v (pi :: l) = (crossings u v l + if crosses u v pi then 1 else 0)%nat.
Proof. unfold crossings. simpl. destruct (crosses u v pi); simpl; lia. Qed.

Lemma crossings_le u v l : (crossings u v l <= length l)%nat.
Proof. unfold crossings. induction l as [|pi l IH]; simpl; [lia|]. destruct (crosses u v pi); simpl; lia. Qed.

Lemma flow_ok_allocate g0 g l pi :
  NoDup (pi_path pi) -> (length l <= counting_bound)%nat -> flow_ok g0 g l -> flow_ok g0 (allocateFlow g (pi_path pi) fone) (l ++ [pi]).
Proof.
  intros Hnd Hlen Hf u v. specialize (Hf u v). unfold allocateFlow.
  rewrite ef_at_foldl by (by apply hop_pairs_nodup). rewrite crossings_app. unfold crosses.
  destruct (ef_at g0 u v) as [e0|], (ef_at g u v) as [e|]; try done; case_decide as Hin; try done; simpl.
  - rewrite bool_decide_eq_true_2 by done. destruct Hf as (Hfl & ? & ? & ? & _).
    destruct (float_counting (crossings u v l)) as (Hadd & _); [pose proof (crossings_le u v l); lia|].
    split_and!; try done; [|by left]. simpl. rewrite Hfl, Hadd. do 2 f_equal. lia.
  - rewrite bool_decide_eq_false_2 by done. by rewrite Nat.add_0_r.
Qed.

Lemma flow_ok_release g0 g l pi :
  NoDup (pi_path pi) -> (length l <= counting_bound)%nat -> flow_ok g0 g (pi :: l) -> flow_ok g0 (releaseFlow g (pi_path pi) fone) l.
Proof.
  intros Hnd Hlen Hf u v. specialize (Hf u v). rewrite crossings_cons in Hf. unfold releaseFlow.
  rewrite ef_at_foldl by (by apply hop_pairs_nodup). unfold crosses in Hf.
  destruct (ef_at g0 u v) as [e0|], (ef_at g u v) as [e|]; try done; case_decide as Hin; try done; simpl.
  - rewrite bool_decide_eq_true_2 in Hf by done. destruct Hf as (Hfl & ? & ? & ? & _).
    destruct (float_counting (crossings u v l)) as (_ & Hsub & Hnn); [pose proof (crossings_le u v l); lia|].
    rewrite Nat.add_1_r in Hfl. split_and!; try done; [|by left]. simpl. rewrite Hfl, Hsub. by rewrite Hnn.
  - rewrite bool_decide_eq_false_2 in Hf by done. by rewrite Nat.add_0_r in Hf.
Qed.

(** Bans do not touch the flow. *)
Definition same_flow (e e' : EdgeFlow) : Prop := set_banned false e' = set_banned false e.

Definition same_flows (g g' : resgraph) : Prop := forall u v, option_relation same_flow (fun _ => False) (fun _ => False) (ef_at g u v) (ef_at g' u v).

Lemma flow_ok_same g0 g g' l : same_flows g g' -> flow_ok g0 g l -> flow_ok g0 g' l.
Proof.
  intros Hs Hf u v. specialize (Hs u v). specialize (Hf u v).
  destruct (ef_at g0 u v) as [e0|], (ef_at g u v) as [e|], (ef_at g' u v) as [e'|]; try done.
  destruct e, e'. injection Hs as <- <- <- <- <-. done.
Qed.

#[global] Instance same_flows_preorder : PreOrder same_flows.
Proof.
  split.
  - intros g u v. by destruct (ef_at g u v).
  - intros g1 g2 g3 H1 H2 u v. specialize (H1 u v). specialize (H2 u v).
    destruct (ef_at g1 u v), (ef_at g2 u v), (ef_at g3 u v); try done. cbn in *. unfold same_flow in *. congruence.
Qed.

Lemma same_flows_banEdge g u v : same_flows g (banEdge g u v).
Proof. intros a b. unfold banEdge. rewrite ef_at_alter. case_decide; destruct (ef_at g a b) as [[]|]; done. Qed.

Lemma same_flows_ban fp oldest g : same_flows g (ban fp oldest g).
Proof.
  assert (Hp : forall ps g, same_flows g (foldl (fun g '(u, v) => banEdge g u v) g ps)).
  { intros ps. induction ps as [|[u v] ps IH]; intros g1; cbn [foldl]; [done|]. etrans; [apply (same_flows_banEdge g1 u v)|apply IH]. }
  unfold ban. assert (H1 : same_flows g (match fp with Some pi => banPathEdges g (pi_path pi) | None => g end)) by (destruct fp; [apply Hp|done]).
  destruct (pi_path oldest) as [|u [|v ?]]; [done|done|]. etrans; [exact H1|apply same_flows_banEdge].
Qed.

Lemma ef_at_unban g u v : ef_at (unbanAllEdges g) u v = set_banned false <$> ef_at g u v.
Proof.
  unfold ef_at, unbanAllEdges. rewrite lookup_fmap. destruct (g !! u) as [row|]; [|done]. simpl. by rewrite lookup_fmap.
Qed.

Lemma same_flows_unban g : same_flows g (unbanAllEdges g).
Proof. intros u v. rewrite ef_at_unban. by destruct (ef_at g u v) as [[]|]. Qed.

Definition no_bans (g : resgraph) : Prop := forall u v ef, ef_at g u v = Some ef -> banned ef = false.

Lemma no_bans_unban g : no_bans (unbanAllEdges g).
Proof. intros u v ef. rewrite ef_at_unban. destruct (ef_at g u v) as [e|]; [|done]. by intros [= <-]. Qed.

(** ** The invariant of a run *)

(** What every selected path satisfies: it leads from the start to its destination without visiting
    a node twice, in at most thirty nodes and within the latency bound of the destination; every hop
    is a link in one direction or the other. *)
Record path_ok (d : FlowOptimizationSolver) (g0 : resgraph) (start : string) (ends : list string) (pi : PathWithInfo) : Prop := {
  po_head : head (pi_path pi) = Some start;
  po_last : last (pi_path pi) = Some (dest pi);
  po_dest : dest pi ∈ ends;
  po_simple : NoDup (pi_path pi);
  po_short : (length (pi_path pi) <= OneWan.maxHops)%nat;
  po_fast : fle (latency pi) (default (of_Z 100) (thetaLMap d !! dest pi)) = true;
  po_links u v : (u, v) ∈ hop_pairs (pi_path pi) -> is_Some (ef_at g0 u v) \/ is_Some (ef_at g0 v u)
}.

Definition key_of (pi : PathWithInfo) : string := pathToString (pi_path pi).

Definition bound_for (e : string) (pi : PathWithInfo) : bool := String.eqb (dest pi) e.

(** The paths to a destination. *)
Definition flows_to (e : string) (l : list PathWithInfo) : nat := length (List.filter (bound_for e) l).

Lemma flows_to_app e l pi : flows_to e (l ++ [pi]) = (flows_to e l + if bound_for e pi then 1 else 0)%nat.
Proof. unfold flows_to. rewrite List.filter_app, length_app. simpl. by destruct (bound_for e pi). Qed.

Lemma flows_to_cons e l pi : flows_to e (pi :: l) = (flows_to e l + if bound_for e pi then 1 else 0)%nat.
Proof. unfold flows_to. simpl. destruct (bound_for e pi); simpl; lia. Qed.

Section Invariant.
Context `{Chance}.
Context (d : FlowOptimizationSolver) (g0 : resgraph) (start : string) (ends : list string).

(** As many paths as counting with floats allows. *)
Definition small : Prop := (flowsPerDest d * length ends <= counting_bound)%nat.

(** The bookkeeping agrees with the list of paths. *)
Record run_inv (w : work) : Prop := {
  ri_paths : Forall (path_ok d g0 start ends) (allPaths w);
  ri_keys : NoDup (map key_of (allPaths w));
  ri_used k : k ∈ usedPaths w <-> k ∈ map key_of (allPaths w);
  ri_count e : count_of w e = Z.of_nat (flows_to e (allPaths w));
  ri_links : same_links g0 (resGraph w);
  ri_flow : small -> flow_ok g0 (resGraph w) (allPaths w)
}.

Lemma run_inv_asking w c : run_inv w -> run_inv (asking w c).
Proof. by intros []. Qed.

Lemma run_inv_graph w g : run_inv w -> same_links (resGraph w) g -> same_flows (resGraph w) g -> run_inv (with_graph w g).
Proof. intros [????? Hf] Hg Hs. constructor; try done; [by etrans|]. intros Hsm. by eapply flow_ok_same; [|apply Hf]. Qed.

Lemma find_ok w c e attempt pi :
  run_inv w -> e ∈ ends ->
  fst (findFeasiblePathWithLatency c d (resGraph w) start e (usedPaths w) attempt) = Some pi ->
  path_ok d g0 start ends pi /\ dest pi = e.
Proof.
  intros [_ _ _ _ Hl _] He. unfold findFeasiblePathWithLatency. destruct (resGraph w !! start); [|done].
  set (thetaL := default _ _). set (r := if (attempt <=? 1)%nat then _ else _).
  assert (Hs : forall p lat, fst r = Some (p, lat) -> feasible d (resGraph w) start e thetaL p lat).
  { intros p lat. unfold r. destruct (attempt <=? 1)%nat; intros Hr; by eapply dfsPathSearch_sound. }
  destruct r as [[[p lat]|] c1]; [|done]. cbn. intros [= <-]. destruct (Hs p lat eq_refl) as (Hw & Hlen & Hle).
  split; [|done]. constructor; cbn [pi_path dest latency]; try done.
  - destruct (walk_head _ _ _ _ _ _ _ _ Hw) as [rest ->]. done.
  - by eapply feasible_walk_last.
  - by eapply walk_simple; [exact Hw|apply not_elem_of_empty].
  - intros u v Hin. destruct (walk_links _ _ _ _ _ _ _ _ Hw u v Hin) as [Hi|Hi]; apply Hl in Hi; auto.
Qed.

Lemma run_inv_add w pi :
  run_inv w -> path_ok d g0 start ends pi -> key_of pi ∉ usedPaths w -> (length (allPaths w) <= flowsPerDest d * length ends)%nat ->
  run_inv (add_path w pi).
Proof.
  intros [HP HK HU HC HL HF] Hpi Hn Hlen. constructor; cbn [add_path allPaths usedPaths resGraph].
  - apply Forall_app. split; [done|]. by apply Forall_singleton.
  - rewrite map_app. apply NoDup_app. split_and!; [done| |apply NoDup_singleton].
    intros k Hk Hk'. apply list_elem_of_singleton in Hk' as ->. by apply Hn, HU.
  - intros k. rewrite map_app, elem_of_union, elem_of_app, HU, elem_of_singleton. cbn [map]. rewrite list_elem_of_singleton. unfold key_of. tauto.
  - intros e. unfold count_of at 1. cbn [add_path destFlowCount]. rewrite flows_to_app. unfold bound_for. rewrite lookup_insert. case_decide as Hd.
    + subst e. rewrite String.eqb_refl. simpl. rewrite HC. lia.
    + apply String.eqb_neq in Hd. rewrite Hd. fold (count_of w e). rewrite HC. lia.
  - etrans; [exact HL|]. apply same_links_foldl.
  - intros Hsm. apply flow_ok_allocate; [apply Hpi|unfold small in Hsm; lia|by apply HF].
Qed.

Lemma run_inv_remove w pi w1 :
  run_inv w -> (length (allPaths w) <= flowsPerDest d * length ends)%nat -> remove_oldest w = Some (pi, w1) ->
  run_inv w1 /\ allPaths w = pi :: allPaths w1.
Proof.
  intros [HP HK HU HC HL HF] Hlen. unfold remove_oldest. destruct (allPaths w) as [|q rest] eqn:E; [done|]. intros [= -> <-].
  cbn [map] in HK. apply NoDup_cons in HK as [Hq HK]. apply Forall_cons in HP as [Hpq HP].
  split; [|done]. constructor; cbn [allPaths usedPaths resGraph]; try done.
  - intros k. rewrite elem_of_difference, HU, elem_of_singleton. cbn [map]. rewrite elem_of_cons. fold (key_of pi).
    split; [naive_solver|]. intros Hk. split; [by right|]. intros ->. done.
  - intros e. specialize (HC e). rewrite flows_to_cons in HC. unfold count_of at 1. cbn [destFlowCount].
    unfold bound_for in HC. rewrite lookup_insert. case_decide as Hd.
    + subst e. rewrite String.eqb_refl in HC. simpl. lia.
    + apply String.eqb_neq in Hd. rewrite Hd in HC. fold (count_of w e). lia.
  - etrans; [exact HL|]. apply same_links_foldl.
  - intros Hsm. apply flow_ok_release; [apply Hpq|unfold small in Hsm; simpl in Hlen; lia|by apply HF].
Qed.

(** *** The phases of a run *)

(** At most [lim x] paths to each destination [x], at most [L] in all. *)
Definition within (L : nat) (lim : string -> nat) (w : work) : Prop :=
  (length (allPaths w) <= L)%nat /\ forall x, (flows_to x (allPaths w) <= lim x)%nat.

Definition plus_for (e : string) (n : nat) (lim : string -> nat) (x : string) : nat := (lim x + if String.eqb e x then n else 0)%nat.

Lemma within_mono L L' lim lim' w : (L <= L')%nat -> (forall x, lim x <= lim' x)%nat -> within L lim w -> within L' lim' w.
Proof. intros HL Hl [H1 H2]. split; [lia|]. intros x. specialize (H2 x). specialize (Hl x). lia. Qed.

Lemma within_add L lim w pi i :
  within (L + i) (plus_for (dest pi) i lim) w -> within (L + S i) (plus_for (dest pi) (S i) lim) (add_path w pi).
Proof.
  intros [H1 H2]. split; cbn [add_path allPaths]; [rewrite length_app; simpl; lia|].
  intros x. specialize (H2 x). rewrite flows_to_app. unfold plus_for, bound_for in *. destruct (String.eqb (dest pi) x); lia.
Qed.

Lemma fill_inv e n attempt i w L lim :
  e ∈ ends -> (i <= flowsPerDest d)%nat -> (L + flowsPerDest d <= flowsPerDest d * length ends)%nat ->
  run_inv w -> within (L + i) (plus_for e i lim) w ->
  let w' := fill d start e n attempt i w in
  run_inv w' /\ within (L + flowsPerDest d) (plus_for e (flowsPerDest d) lim) w'.
Proof.
  intros He Hi HL. revert attempt i w Hi. induction n as [|n IH]; intros attempt i w Hi Hw Hin; cbn [fill].
  all: assert (Hend : run_inv w /\ within (L + flowsPerDest d) (plus_for e (flowsPerDest d) lim) w)
    by (split; [done|]; eapply within_mono; [| |exact Hin]; [lia|]; intros x; unfold plus_for; case_match; lia).
  1: exact Hend.
  destruct (Nat.ltb_spec i (flowsPerDest d)) as [Hlt|Hge]; [|exact Hend].
  pose proof (find_ok w (questions w) e (S attempt)) as Hf.
  destruct (findFeasiblePathWithLatency (questions w) d (resGraph w) start e (usedPaths w) (S attempt)) as [[pi|] c]; cbn [fst] in Hf;
    [|split; [by apply run_inv_asking|apply Hend]].
  destruct (Hf pi Hw He eq_refl) as [Hpi Hde].
  case_decide as Hused; [apply IH; [done|by apply run_inv_asking|done]|]. apply IH; [lia| |].
  - apply run_inv_add; [by apply run_inv_asking|done|done|]. destruct Hin as [Hin _]. cbn [asking allPaths]. lia.
  - subst e. by apply within_add.
Qed.

(** How often a destination is named. *)
Definition occurrences (e : string) (l : list string) : nat := length (List.filter (String.eqb e) l).

Lemma fill_all_inv todo w L lim :
  (forall e, e ∈ todo -> e ∈ ends) -> (L + flowsPerDest d * length todo <= flowsPerDest d * length ends)%nat ->
  run_inv w -> within L lim w ->
  let w' := fill_all d start todo w in
  run_inv w' /\ within (L + flowsPerDest d * length todo) (fun x => lim x + flowsPerDest d * occurrences x todo)%nat w'.
Proof.
  revert w L lim. induction todo as [|e todo IH]; intros w L lim Hsub HL Hw Hin; cbn [fill_all].
  { split; [done|]. eapply within_mono; [| |exact Hin]; [lia|]. intros x. lia. }
  simpl length in *. destruct (fill_inv e (flowsPerDest d * 10) 0 0 w L lim) as [Hw1 Hin1]; try done; try lia.
  { apply Hsub. left. }
  { eapply within_mono; [| |exact Hin]; [lia|]. intros x. unfold plus_for. case_match; lia. }
  destruct (IH _ (L + flowsPerDest d)%nat (plus_for e (flowsPerDest d) lim) (fun x Hx => Hsub x ltac:(by right)) ltac:(lia) Hw1 Hin1) as [Hw2 Hin2].
  split; [done|]. eapply within_mono; [| |exact Hin2]; [lia|]. intros x. unfold plus_for, occurrences. simpl.
  rewrite (String.eqb_sym x e). destruct (String.eqb e x); simpl; lia.
Qed.

(** The limits that hold after all destinations were served. *)
Definition limits : work -> Prop := within (flowsPerDest d * length ends) (fun x => flowsPerDest d * occurrences x ends)%nat.

Lemma limits_remove w pi w1 : run_inv w -> limits w -> remove_oldest w = Some (pi, w1) ->
  run_inv w1 /\ limits w1 /\ (length (allPaths w1) < flowsPerDest d * length ends)%nat.
Proof.
  intros Hw [H1 H2] Hr. destruct (run_inv_remove w pi w1 Hw H1 Hr) as [Hw1 Hall]. rewrite Hall in H1, H2. simpl in H1.
  split; [done|]. split; [|lia]. split; [lia|]. intros x. specialize (H2 x). rewrite flows_to_cons in H2. lia.
Qed.

Lemma release_n_inv n w : run_inv w -> limits w -> run_inv (release_n n w) /\ limits (release_n n w).
Proof.
  revert w. induction n as [|n IH]; intros w Hw Hl; cbn [release_n]; [done|].
  destruct (remove_oldest w) as [[pi w1]|] eqn:Er; [|done]. destruct (limits_remove w pi w1 Hw Hl Er) as (Hw1 & Hl1 & _). by apply IH.
Qed.

Lemma occurrences_pos e : e ∈ ends -> (1 <= occurrences e ends)%nat.
Proof.
  unfold occurrences. intros Hin. induction ends as [|x l IH]; [by apply not_elem_of_nil in Hin|]. simpl.
  destruct (String.eqb_spec e x); simpl; [lia|]. apply IH. by apply elem_of_cons in Hin as [?|?].
Qed.

Lemma replace_path_inv todo attempt w pa :
  (forall e, e ∈ todo -> e ∈ ends) -> run_inv w -> limits w -> (length (allPaths w) < flowsPerDest d * length ends)%nat ->
  let '(w', _) := replace_path d start todo attempt w pa in run_inv w' /\ limits w'.
Proof.
  revert w. induction todo as [|e todo IH]; intros w Hsub Hw Hl Hlen; cbn [replace_path]; [done|].
  assert (Hsub' : forall x, x ∈ todo -> x ∈ ends) by (intros; apply Hsub; by right).
  destruct (Z.leb_spec (Z.of_nat (flowsPerDest d)) (count_of w e)) as [Hge|Hlt]; [by apply IH|].
  pose proof (find_ok w (questions w) e attempt) as Hf.
  destruct (findFeasiblePathWithLatency (questions w) d (resGraph w) start e (usedPaths w) attempt) as [[pi|] c]; cbn [fst] in Hf;
    [|apply IH; try done; by apply run_inv_asking].
  destruct (Hf pi Hw (Hsub e ltac:(left)) eq_refl) as [Hpi Hde].
  case_decide as Hused; [apply IH; try done; by apply run_inv_asking|]. split.
  - apply run_inv_add; [by apply run_inv_asking|done|done|]. cbn [asking allPaths]. lia.
  - destruct Hl as [H1 H2]. split; cbn [add_path asking allPaths]; [rewrite length_app; simpl; lia|].
    intros x. specialize (H2 x). rewrite flows_to_app. unfold bound_for. rewrite Hde. destruct (String.eqb_spec e x) as [<-|]; [|lia].
    rewrite (ri_count w Hw) in Hlt. pose proof (occurrences_pos e (Hsub e ltac:(left))). nia.
Qed.

(** One iteration keeps the invariant and the limits and leaves no edge banned. *)
Lemma improve_inv attempt w pa b w' pa' b' :
  run_inv w -> limits w -> improve d start ends attempt w pa b = Some (w', pa', b') ->
  run_inv w' /\ limits w' /\ no_bans (resGraph w') /\ (b' = b \/ bestPaths b' = allPaths w' /\ allPaths w' <> []).
Proof.
  intros Hw Hl. unfold improve. destruct (remove_oldest w) as [[oldest w1]|] eqn:Er; [|done].
  destruct (limits_remove w oldest w1 Hw Hl Er) as (Hw1 & Hl1 & Hlen).
  set (w2 := with_graph _ _). pose proof (replace_path_inv (Shuffle (S (questions w1)) ends) attempt w2 pa) as Hr.
  destruct (replace_path d start _ attempt w2 pa) as [w3 pa3]. destruct Hr as [Hw3 Hl3].
  - intros e. by rewrite Shuffle_perm.
  - apply run_inv_graph; [by apply run_inv_asking|apply same_links_ban|apply same_flows_ban].
  - done.
  - done.
  - intros [= <- <- <-]. split_and!.
    + apply run_inv_graph; [by apply run_inv_asking|apply same_links_unban|apply same_flows_unban].
    + done.
    + apply no_bans_unban.
    + cbn [with_graph asking allPaths]. destruct (allPaths w3) as [|p rest] eqn:Ep; [by left|]. case_match; [right|by left]. split; [done|congruence].
Qed.
End Invariant.

(** ** The whole run *)

Lemma computePercentile_ok d : exists x, computePercentile d (of_Z 90) = Ret x.
Proof.
  unfold computePercentile. destruct (fs_edges d) as [|e0 es] eqn:Ee; [by eexists|]. rewrite <- Ee.
  set (loads := exchange_sort load_less (Load <$> fs_edges d)).
  assert (Hlen : (0 < length loads)%nat) by (unfold loads; rewrite exchange_sort_length, length_fmap, Ee; simpl; lia).
  set (index := fmul _ _). assert (Hi : (0 <= to_int index)%Z).
  { unfold index. change (fdiv (of_Z 90) (of_Z 100)) with (S754_finite false 8106479329266893 (-53)). apply to_int_scaled. lia. }
  destruct (Z.leb_spec (Z.of_nat (length loads)) (to_int index + 1)) as [Hle|Hgt].
  - destruct (last loads) as [x|] eqn:El; [by eexists|]. apply last_None in El. rewrite El in Hlen. simpl in Hlen. lia.
  - destruct (Z.ltb_spec (to_int index) 0) as [|_]; [lia|].
    destruct (lookup_lt_is_Some_2 loads (Z.to_nat (to_int index))) as [lo ->]; [lia|].
    destruct (lookup_lt_is_Some_2 loads (Z.to_nat (to_int index + 1))) as [hi ->]; [lia|]. by eexists.
Qed.

(** The links of the residual graph are the edges; all start without flow and without a ban. *)
Lemma build_links d u v ef :
  ef_at (buildResidualGraphWithCapacity d) u v = Some ef ->
  (exists e, e ∈ fs_edges d /\ SourceIp e = u /\ DestinationIp e = v) /\
  flow ef = fzero /\ banned ef = false /\ residual ef = effCap ef.
Proof.
  unfold buildResidualGraphWithCapacity.
  assert (Hgen : forall es g, (forall ef, ef_at g u v = Some ef -> (exists e, e ∈ fs_edges d /\ SourceIp e = u /\ DestinationIp e = v) /\
      flow ef = fzero /\ banned ef = false /\ residual ef = effCap ef) -> (forall e, e ∈ es -> e ∈ fs_edges d) ->
    forall ef, ef_at (foldl (fun g e => let theta := computeThetaA d (Load e) in let eff := fmul theta (capacity d) in
      <[SourceIp e := <[DestinationIp e := mkFlow fzero (capacity d) theta eff false eff]> (default ∅ (g !! SourceIp e))]> g) g es) u v = Some ef ->
      (exists e, e ∈ fs_edges d /\ SourceIp e = u /\ DestinationIp e = v) /\ flow ef = fzero /\ banned ef = false /\ residual ef = effCap ef).
  { intros es. induction es as [|e es IH]; intros g Hg Hsub; cbn [foldl]; [exact Hg|]. apply IH; [|intros; apply Hsub; by right].
    intros ef'. unfold ef_at. destruct (decide (u = SourceIp e)) as [->|Hu]; [|by rewrite lookup_insert_ne by done; apply Hg].
    rewrite lookup_insert_eq. simpl. destruct (decide (v = DestinationIp e)) as [->|Hv].
    - rewrite lookup_insert_eq. intros [= <-]. split; [exists e; split; [apply Hsub; left|done]|done].
    - rewrite lookup_insert_ne by done. intros Hl. apply Hg. unfold ef_at. destruct (g !! SourceIp e) as [row|]; [done|].
      simpl in Hl. by rewrite lookup_empty in Hl. }
  apply Hgen; [|done]. intros ef'. unfold ef_at. by rewrite lookup_empty.
Qed.

Lemma initial_inv d start ends c : run_inv d (buildResidualGraphWithCapacity d) start ends (initial_work d c).
Proof.
  constructor; cbn [initial_work allPaths usedPaths resGraph]; try done.
  - constructor.
  - intros k. split; [by intros ?%not_elem_of_empty|by intros ?%not_elem_of_nil].
  - intros _ u v. destruct (ef_at _ u v) as [e|] eqn:E; [|done]. apply build_links in E as (_ & Hf & _ & Hr).
    split_and!; try done. by right.
Qed.

Section Reach.
Context `{Chance}.

(** The states that a run goes through once the first paths are chosen. *)
Inductive run_state (d : FlowOptimizationSolver) (start : string) (ends : list string) : work -> Prop :=
| rs_filled c : run_state d start ends (fill_all d start ends (initial_work d c))
| rs_released w n c : run_state d start ends w -> run_state d start ends (release_n n (asking w c))
| rs_improved w attempt pa b w' pa' b' :
    run_state d start ends w -> improve d start ends attempt w pa b = Some (w', pa', b') -> run_state d start ends w'.

Lemma filled_inv d start ends c :
  let w := fill_all d start ends (initial_work d c) in
  run_inv d (buildResidualGraphWithCapacity d) start ends w /\ limits d ends w.
Proof.
  intros w. destruct (fill_all_inv d (buildResidualGraphWithCapacity d) start ends ends (initial_work d c) 0 (fun _ => 0%nat)) as [Hw Hl];
    [done|simpl; lia|apply initial_inv| |].
  - split; [simpl; lia|]. intros x. unfold flows_to. simpl. lia.
  - split; [exact Hw|]. eapply within_mono; [| |exact Hl]; [lia|]. intros x. simpl. lia.
Qed.

Lemma run_state_inv d start ends w :
  run_state d start ends w -> run_inv d (buildResidualGraphWithCapacity d) start ends w /\ limits d ends w.
Proof.
  induction 1 as [c|w n c _ [Hw Hl]|w attempt pa b w' pa' b' _ [Hw Hl] Hi].
  - apply filled_inv.
  - apply release_n_inv; [by apply run_inv_asking|done].
  - destruct (improve_inv _ _ _ _ _ _ _ _ _ _ _ Hw Hl Hi) as (? & ? & _). done.
Qed.

(** ** Properties *)

(** C16. Flow accounting of the flow optimiser, in every state of a run that asks for at most a thousand paths ([flowsPerDest] for every
    named destination), which float64 counts exactly, and whatever the random
    choices: the flow of each edge is exactly the number of selected paths over it, the counters
    and the set of used paths describe the selection, and no destination has more paths than
    [flowsPerDest] for each time it is named. *)
Theorem run_state_accounting d start ends w :
  run_state d start ends w -> (flowsPerDest d * length ends <= counting_bound)%nat ->
  flow_ok (buildResidualGraphWithCapacity d) (resGraph w) (allPaths w) /\
  (forall e, count_of w e = Z.of_nat (flows_to e (allPaths w))) /\
  (forall e, flows_to e (allPaths w) <= flowsPerDest d * occurrences e ends)%nat /\
  (forall k, k ∈ usedPaths w <-> k ∈ map key_of (allPaths w)) /\ NoDup (map key_of (allPaths w)).
Proof.
  intros Hr Hs. destruct (run_state_inv _ _ _ _ Hr) as [[_ HK HU HC _ HF] [_ HL]]. split_and!; try done. by apply HF.
Qed.

Definition selection_ok (d : FlowOptimizationSolver) (start : string) (ends : list string) (l : list PathWithInfo) : Prop :=
  l <> [] /\ Forall (path_ok d (buildResidualGraphWithCapacity d) start ends) l /\ NoDup (map key_of l) /\
  forall e, (flows_to e l <= flowsPerDest d * occurrences e ends)%nat.

Lemma iterate_ok n d start ends attempt w pa b :
  run_inv d (buildResidualGraphWithCapacity d) start ends w -> limits d ends w ->
  selection_ok d start ends (bestPaths b) -> selection_ok d start ends (bestPaths (iterate n d start ends attempt w pa b)).
Proof.
  revert attempt w pa b. induction n as [|n IH]; intros attempt w pa b Hw Hl Hb; cbn [iterate]; [done|].
  destruct (improve d start ends attempt w pa b) as [[[w1 pa1] b1]|] eqn:Ei; [|done].
  destruct (improve_inv _ _ _ _ _ _ _ _ _ _ _ Hw Hl Ei) as (Hw1 & Hl1 & _ & Hb1). apply IH; try done.
  destruct Hb1 as [->|[-> Hne]]; [done|]. split_and!; [done|apply Hw1|apply Hw1|apply Hl1].
Qed.

(** *** Nothing is found *)

Lemma fill_grows d start e n attempt i w : exists more, allPaths (fill d start e n attempt i w) = allPaths w ++ more.
Proof.
  revert attempt i w. induction n as [|n IH]; intros attempt i w; cbn [fill]; [exists []; by rewrite app_nil_r|].
  case_match; [|exists []; by rewrite app_nil_r].
  destruct (findFeasiblePathWithLatency _ _ _ _ _ _ _) as [[pi|] c]; [|exists []; by rewrite app_nil_r].
  case_decide; [apply (IH (S attempt) i (asking w c))|]. destruct (IH (S attempt) (S i) (add_path (asking w c) pi)) as [more Hm].
  exists ([pi] ++ more). rewrite Hm. cbn [add_path asking allPaths]. by rewrite app_assoc.
Qed.

Lemma fill_nil d start e n w :
  (0 < flowsPerDest d)%nat -> usedPaths w = ∅ -> allPaths (fill d start e (S n) 0 0 w) = [] ->
  fst (findFeasiblePathWithLatency (questions w) d (resGraph w) start e ∅ 1) = None /\ exists c, fill d start e (S n) 0 0 w = asking w c.
Proof.
  intros Hd Hu. cbn [fill]. rewrite (proj2 (Nat.ltb_lt 0 (flowsPerDest d)) Hd), Hu.
  destruct (findFeasiblePathWithLatency (questions w) d (resGraph w) start e ∅ 1) as [[pi|] c]; cbn [fst]; [|eauto].
  case_decide as Hin; [by apply not_elem_of_empty in Hin|]. intros Hnil. exfalso.
  destruct (fill_grows d start e n 1 1 (add_path (asking w c) pi)) as [more Hm]. rewrite Hm in Hnil. cbn [add_path asking allPaths] in Hnil.
  by destruct (allPaths w).
Qed.

Lemma fill_all_nil d start todo w :
  (0 < flowsPerDest d)%nat -> usedPaths w = ∅ -> allPaths (fill_all d start todo w) = [] ->
  forall e, e ∈ todo -> exists c, fst (findFeasiblePathWithLatency c d (resGraph w) start e ∅ 1) = None.
Proof.
  intros Hd. revert w. induction todo as [|e todo IH]; intros w Hu Hnil x Hx; [by apply not_elem_of_nil in Hx|]. cbn [fill_all] in Hnil.
  assert (Hgrow : forall todo w, exists more, allPaths (fill_all d start todo w) = allPaths w ++ more).
  { clear. intros todo. induction todo as [|e todo IH]; intros w; cbn [fill_all]; [exists []; by rewrite app_nil_r|].
    destruct (IH (fill d start e (flowsPerDest d * 10) 0 0 w)) as [m1 Hm1]. destruct (fill_grows d start e (flowsPerDest d * 10) 0 0 w) as [m2 Hm2].
    exists (m2 ++ m1). by rewrite Hm1, Hm2, app_assoc. }
  destruct (Hgrow todo (fill d start e (flowsPerDest d * 10) 0 0 w)) as [more Hm]. rewrite Hnil in Hm.
  assert (Hf : allPaths (fill d start e (flowsPerDest d * 10) 0 0 w) = []) by (by destruct (allPaths (fill _ _ _ _ _ _ _))).
  destruct (flowsPerDest d * 10)%nat as [|n] eqn:En; [lia|].
  destruct (fill_nil d start e n w Hd Hu Hf) as [Hnone [c Hc]]. rewrite Hc in Hnil.
  apply elem_of_cons in Hx as [->|Hx]; [eauto|]. by apply (IH (asking w c)).
Qed.

(** The first search for a destination looks at every feasible path of the fresh graph. *)
Lemma find_none c d start e q lat :
  costs_ok d (buildResidualGraphWithCapacity d) -> e <> start ->
  fst (findFeasiblePathWithLatency c d (buildResidualGraphWithCapacity d) start e ∅ 1) = None ->
  feasible d (buildResidualGraphWithCapacity d) start e (default (of_Z 100) (thetaLMap d !! e)) q lat ->
  flt lat (fadd (default (of_Z 100) (thetaLMap d !! e)) fone) = false.
Proof.
  intros Hc Hne. unfold findFeasiblePathWithLatency. set (g := buildResidualGraphWithCapacity d) in *. set (thetaL := default _ _).
  destruct (g !! start) as [row|] eqn:Eg.
  - cbn [Nat.leb]. pose proof (dfsPathSearch_complete c d g start e thetaL ∅ true false Hc) as Hs.
    destruct (dfsPathSearch c d g start e thetaL ∅ true false) as [[[p l]|] c1]; cbn in *; [done|]. intros _ Hf.
    destruct (Hs q lat Hf) as [_ [Hin|?]]; [by apply not_elem_of_empty in Hin|done].
  - intros _ (Hw & _). exfalso. inversion Hw as [|u V l0 v k l lat' _ _ Hus _]; subst; [done|].
    destruct Hus as [(ef & Hef & _)|(_ & _ & ef & Hef & Hfl & _)].
    + unfold ef_at in Hef. by rewrite Eg in Hef.
    + apply build_links in Hef as (_ & Hz & _). by rewrite Hz in Hfl.
Qed.

End Reach.

(** ** Examples *)

(** Random numbers that reverse the order of two edges. *)
Definition zero_chance : Chance.
Proof.
  refine {| range_order _ l := l; Shuffle _ l := l; Intn _ n := 0%nat |}; [done|done|]. intros. lia.
Defined.

Definition diamond : list Edge :=
  [link "s" "a" 5 0; link "a" "b" 1 0; link "b" "t1" 10 0; link "s" "b" 2 0; link "a" "t2" 1 0].

Definition routes_of (r : go flow_result) : list (list string * Z) :=
  match r with Ret (FlowRoutes l) => map (fun p => (Hops p, to_int (Rtt p))) l | _ => [] end.

Lemma run_state_accounting_witness :
  let w := @fill_all no_chance sample_solver "s" ["t"] (initial_work sample_solver 0) in
  map pi_path (allPaths w) = [["s"; "b"; "t"]] /\ flow_ok (buildResidualGraphWithCapacity sample_solver) (resGraph w) (allPaths w).
Proof.
  intros w. split; [vm_compute; reflexivity|].
  apply (@run_state_accounting no_chance sample_solver "s" ["t"] w); [apply (@rs_filled no_chance)|]. apply Nat.leb_le. reflexivity.
Defined.


(** A selected route need not be a path of the network: the search follows a used link
    backwards at no cost, so for these five links it returns the route s, b, a, t2 with latency 3
    although there is no link from b to a. *)
Theorem selected_hop_without_link :
  exists (C : Chance), In (["s"; "b"; "a"; "t2"], 3%Z)
    (routes_of (@flow_ComputingMulti C 0 (NewFlowOptimizationSolver diamond) "s" ["t1"; "t2"])) /\
  ~ exists e, e ∈ diamond /\ SourceIp e = "b" /\ DestinationIp e = "a".
Proof.
  exists zero_chance. split.
  - assert (Hr : routes_of (@flow_ComputingMulti zero_chance 0 (NewFlowOptimizationSolver diamond) "s" ["t1"; "t2"]) =
      [(["s"; "b"; "t1"], 12%Z); (["s"; "a"; "b"; "t1"], 16%Z); (["s"; "b"; "a"; "t2"], 3%Z); (["s"; "a"; "t2"], 6%Z)]) by (vm_compute; reflexivity).
    rewrite Hr. simpl. tauto.
  - intros (e & He & Hs & Hd). unfold diamond in He. repeat (apply elem_of_cons in He as [->|He]; [done|]). by apply not_elem_of_nil in He.
Qed.

End CarouselRun.
