(* ===== verification/Stats.v ===== *)
(** * Aggregated last-mile statistics (control-plane/aggregator/edge.go)

    Every node reports, per city of its users, how many requests it saw and their average round-trip
    time; [rebuildAggregate] turns the last reports into one table with the keys ["city-node"]. *)

From Stdlib Require Import ZArith Lia Ascii.
From stdpp Require Import base list gmap strings.
From S2P Require Import Prelude F64 GoStrings.

Module Stats.

(** [rece.LastCongestion] and [rece.LastTelemetry]. *)
Record LastCongestion := mkLC { Count : Z; SumRT : float64; AvgRT : float64; P95RT : Z }.

Record LastTelemetry := mkLT {
  LastsCongestion : gmap string LastCongestion;
  lt_IP : string;
  lt_Continent : string;
  lt_Country : string;
  lt_City : string
}.

Record GlobalStats := mkStats { nodeLast : gmap string LastTelemetry; edgeAgg : gmap string LastCongestion }.

Definition NewGlobalStats : GlobalStats := mkStats ∅ ∅.

Definition AddOrUpdateNode (g : GlobalStats) (node : LastTelemetry) : GlobalStats :=
  if String.eqb (lt_IP node) "" then g else mkStats (<[lt_IP node := node]> (nodeLast g)) (edgeAgg g).

Definition DelNode (g : GlobalStats) (nodeIP : string) : GlobalStats := mkStats (delete nodeIP (nodeLast g)) (edgeAgg g).

Definition GetAggMap (g : GlobalStats) : gmap string LastCongestion := edgeAgg g.

Definition zeroLC : LastCongestion := mkLC 0 fzero fzero 0.

Definition GetAggValue (g : GlobalStats) (key : string) : LastCongestion := default zeroLC (edgeAgg g !! key).

Definition agg_key (userKey nodeIP : string) : string := userKey +:+ "-" +:+ nodeIP.

Section Rebuild.
Context `{RangeMap}.

(** The pairs that the two nested loops visit. *)
Definition contributions (nodes : gmap string LastTelemetry) : list (string * LastCongestion) :=
  node ← snd <$> range_map nodes;
  (fun kv : string * LastCongestion => (agg_key kv.1 (lt_IP node), kv.2)) <$> range_map (LastsCongestion node).

Definition add_contribution (newAgg : gmap string LastCongestion) (kv : string * LastCongestion) : gmap string LastCongestion :=
  let s := default zeroLC (newAgg !! kv.1) in
  <[kv.1 := mkLC (Count s + Count kv.2) (fadd (SumRT s) (fmul (AvgRT kv.2) (of_Z (Count kv.2)))) (AvgRT s) (P95RT s)]> newAgg.

Definition set_average (s : LastCongestion) : LastCongestion :=
  if (0 <? Count s)%Z then mkLC (Count s) (SumRT s) (fdiv (SumRT s) (of_Z (Count s))) (P95RT s) else s.

(** The table that [rebuildAggregate] makes of the reports it has read. *)
Definition aggregate (nodes : gmap string LastTelemetry) : gmap string LastCongestion :=
  set_average <$> foldl add_contribution ∅ (contributions nodes).

(** [rebuildAggregate] with nothing in between the reading of the reports and the storing of the table. *)
Definition rebuildAggregate (g : GlobalStats) : GlobalStats := mkStats (nodeLast g) (aggregate (nodeLast g)).

(** ** Proofs *)

(** The entry that one report makes. *)
Definition summary (v : LastCongestion) : LastCongestion :=
  set_average (mkLC (Count v) (fadd fzero (fmul (AvgRT v) (of_Z (Count v)))) fzero 0).

(** Reports are filed under the address of their node, which has no dash. *)
Definition stats_ok (g : GlobalStats) : Prop := map_Forall (fun k n => lt_IP n = k /\ has_char "-" k = false) (nodeLast g).

Lemma agg_key_inj c1 ip1 c2 ip2 :
  has_char "-" ip1 = false -> has_char "-" ip2 = false -> agg_key c1 ip1 = agg_key c2 ip2 -> c1 = c2 /\ ip1 = ip2.
Proof.
  intros H1 H2. unfold agg_key.
  assert (Hdash : forall s ip, has_char "-" (s +:+ "-" +:+ ip) = true) by (intros s ip; rewrite !has_char_app; cbn; apply orb_true_r).
  revert c2. induction c1 as [|x c1 IH]; intros [|y c2] Heq.
  - change (String "-" ip1 = String "-" ip2) in Heq. by injection Heq as ->.
  - change (String "-" ip1 = String y (c2 +:+ "-" +:+ ip2)) in Heq. injection Heq as _ Hr. by rewrite Hr, Hdash in H1.
  - change (String x (c1 +:+ "-" +:+ ip1) = String "-" ip2) in Heq. injection Heq as _ Hr. by rewrite <- Hr, Hdash in H2.
  - change (String x (c1 +:+ "-" +:+ ip1) = String y (c2 +:+ "-" +:+ ip2)) in Heq. injection Heq as -> Hr. by destruct (IH c2 Hr) as [-> ->].
Qed.

Lemma elem_of_contributions g key v :
  stats_ok g -> (key, v) ∈ contributions (nodeLast g) <->
    exists ip n city, nodeLast g !! ip = Some n /\ LastsCongestion n !! city = Some v /\ key = agg_key city ip.
Proof.
  intros Hok. unfold contributions. rewrite list_elem_of_bind. split.
  - intros (n & Hin & Hn). apply list_elem_of_fmap in Hin as ([city v'] & [= -> ->] & Hin).
    apply list_elem_of_fmap in Hn as ([ip n'] & -> & Hn). rewrite range_map_perm in Hin. rewrite range_map_perm in Hn.
    apply elem_of_map_to_list in Hin, Hn. destruct (Hok _ _ Hn) as [Hip _]. exists ip, n', city. simpl. by rewrite Hip.
  - intros (ip & n & city & Hn & Hv & ->). exists n. destruct (Hok _ _ Hn) as [Hip _]. split.
    + apply list_elem_of_fmap. exists (city, v). simpl. rewrite Hip. split; [done|]. rewrite range_map_perm. by apply elem_of_map_to_list.
    + apply list_elem_of_fmap. exists (ip, n). split; [done|]. rewrite range_map_perm. by apply elem_of_map_to_list.
Qed.

(** No key is visited twice. *)
Lemma contributions_nodup g : stats_ok g -> NoDup (fst <$> contributions (nodeLast g)).
Proof.
  intros Hok. unfold contributions.
  assert (Hnd : NoDup (fst <$> range_map (nodeLast g))).
  { apply (NoDup_Permutation_proper _ (fst <$> map_to_list (nodeLast g))); [apply fmap_Permutation, range_map_perm|apply NoDup_fst_map_to_list]. }
  assert (Hin : forall kn, kn ∈ range_map (nodeLast g) -> nodeLast g !! kn.1 = Some kn.2).
  { intros [k n]. rewrite range_map_perm. by rewrite elem_of_map_to_list. }
  induction (range_map (nodeLast g)) as [|[ip n] l IH]; [constructor|]. cbn [fmap list_fmap mbind list_bind fst snd] in *.
  apply NoDup_cons in Hnd as [Hn Hnd]. rewrite fmap_app. apply NoDup_app. split_and!.
  - rewrite <- list_fmap_compose. apply (NoDup_Permutation_proper _ ((fun city => agg_key city (lt_IP n)) <$> (fst <$> map_to_list (LastsCongestion n)))).
    + rewrite <- list_fmap_compose. apply fmap_Permutation, range_map_perm.
    + apply NoDup_fmap_2_strong; [|apply NoDup_fst_map_to_list]. intros c1 c2 _ _ Heq.
      destruct (Hok _ _ (Hin (ip, n) ltac:(left))) as [Hip Hd]. simpl in Hip, Hd. rewrite Hip in Heq. by apply agg_key_inj in Heq as [? _].
  - intros key Hk1 Hk2. apply list_elem_of_fmap in Hk1 as ([k1 v1] & -> & Hk1). apply list_elem_of_fmap in Hk1 as ([c1 w1] & [= -> _] & _).
    apply list_elem_of_fmap in Hk2 as ([k2 v2] & Hkk & Hk2). cbn in Hkk. apply list_elem_of_bind in Hk2 as (n2 & Hk2 & Hn2).
    apply list_elem_of_fmap in Hk2 as ([c2 w2] & [= -> _] & _). apply list_elem_of_fmap in Hn2 as ([ip2 n2'] & -> & Hn2). cbn in Hkk.
    destruct (Hok _ _ (Hin (ip, n) ltac:(left))) as [Hip Hd]. destruct (Hok _ _ (Hin (ip2, n2') ltac:(by right))) as [Hip2 Hd2]. simpl in *.
    rewrite Hip, Hip2 in Hkk. apply agg_key_inj in Hkk as [_ <-]; [|done|done]. apply Hn, list_elem_of_fmap. by exists (ip, n2').
  - apply IH; [done|]. intros kn Hkn. apply Hin. by right.
Qed.

Lemma foldl_contributions l m key :
  NoDup (fst <$> l) -> (forall k, k ∈ fst <$> l -> m !! k = None) ->
  foldl add_contribution m l !! key =
    match (list_to_map l : gmap string LastCongestion) !! key with
    | Some v => Some (mkLC (Count v) (fadd fzero (fmul (AvgRT v) (of_Z (Count v)))) fzero 0)
    | None => m !! key
    end.
Proof.
  revert m. induction l as [|[k v] l IH]; intros m Hnd Hm; [done|]. cbn [foldl fmap list_fmap fst] in *.
  apply NoDup_cons in Hnd as [Hn Hnd]. rewrite IH; [|done|].
  - cbn [list_to_map foldr uncurry fst snd]. destruct (decide (k = key)) as [<-|Hne].
    + rewrite (not_elem_of_list_to_map_1 l k) by done. rewrite lookup_insert_eq. unfold add_contribution. cbn [fst snd].
      rewrite lookup_insert_eq, (Hm k) by left. done.
    + rewrite lookup_insert_ne by done. destruct ((list_to_map l : gmap string LastCongestion) !! key); [done|]. unfold add_contribution. cbn. by rewrite lookup_insert_ne.
  - intros k' Hk'. unfold add_contribution. cbn [fst snd]. rewrite lookup_insert_ne by (by intros ->). apply Hm. by right.
Qed.

(** ** Properties *)

Lemma rebuild_lookup g city ip :
  stats_ok g -> has_char "-" ip = false ->
  edgeAgg (rebuildAggregate g) !! agg_key city ip =
    (n ← nodeLast g !! ip; v ← LastsCongestion n !! city; Some (summary v)).
Proof.
  intros Hok Hd. cbn [rebuildAggregate edgeAgg]. unfold aggregate. rewrite lookup_fmap.
  pose proof (contributions_nodup g Hok) as Hnd. rewrite foldl_contributions; [|done|by intros; rewrite lookup_empty].
  destruct ((list_to_map (contributions (nodeLast g)) : gmap string LastCongestion) !! agg_key city ip) as [v|] eqn:E.
  - apply elem_of_list_to_map_2 in E. apply (elem_of_contributions g _ _ Hok) in E as (ip' & n & city' & Hn & Hv & Hk).
    destruct (Hok _ _ Hn) as [_ Hd']. apply agg_key_inj in Hk as [-> ->]; [|done|done]. rewrite Hn. simpl. by rewrite Hv.
  - rewrite lookup_empty. destruct (nodeLast g !! ip) as [n|] eqn:En; [|done]. simpl. destruct (LastsCongestion n !! city) as [v|] eqn:Ev; [|done].
    apply not_elem_of_list_to_map_2 in E. exfalso. apply E, list_elem_of_fmap. exists (agg_key city ip, v). split; [done|].
    apply (elem_of_contributions g _ _ Hok). by exists ip, n, city.
Qed.

(** The aggregated table, for any iteration order: the entry of a city and a node is the summary
    of what that node last reported for the city, and there is none when it reported nothing. *)
Theorem rebuildAggregate_spec g city ip :
  stats_ok g -> has_char "-" ip = false ->
  edgeAgg (rebuildAggregate g) !! agg_key city ip =
    (n ← nodeLast g !! ip; v ← LastsCongestion n !! city; Some (summary v)).
Proof. apply rebuild_lookup. Qed.
End Rebuild.

(** ** Instances *)

Definition sample_stats : GlobalStats :=
  AddOrUpdateNode NewGlobalStats (mkLT {[ "Paris" := mkLC 4 fzero (of_Z 30) 0 ]} "10.0.0.1" "EU" "FR" "Paris").

Lemma rebuildAggregate_spec_witness :
  edgeAgg (@rebuildAggregate key_order sample_stats) !! "Paris-10.0.0.1" = Some (mkLC 4 (of_Z 120) (of_Z 30) 0).
Proof.
  etransitivity; [apply (@rebuildAggregate_spec key_order sample_stats "Paris" "10.0.0.1"); [|reflexivity]|vm_compute; reflexivity].
  apply map_Forall_insert_2; [done|]. apply map_Forall_empty.
Defined.

End Stats.
