(* ===== verification/EdgeDomain.v ===== *)
(** * The last-mile routers (control-plane/routing/edge-domain/)

    Each router ranks the nodes for a user from the telemetry of the nodes and the measured round-trip
    times between the city of the user and the node.  [sort.Slice], [math.Exp] and the order in which
    [range] visits a map are arguments of the definitions. *)

From Stdlib Require Import ZArith Lia SpecFloat.
From stdpp Require Import base list gmap strings sorting.
From S2P Require Import Prelude F64 GoSort Graph LiveNet Stats.
Import Graph LiveNet Stats.

Module EdgeDomain.

(** [routing.EndPoint]. *)
Record EndPoint := mkEnd { ep_IP : string; ep_Port : Z; ep_Provider : string; ep_Continent : string; ep_Country : string; ep_City : string }.

Record nodeScore := mkNS { ns_ip : string; ns_score : float64 }.

Definition score_less (x y : nodeScore) : bool := flt (ns_score x) (ns_score y).
Definition score_number (x : nodeScore) : Prop := is_nan (ns_score x) = false.

Section Routers.
Context `{GoMath} `{RangeMap} `{SortSlice nodeScore score_less score_number}.

(** What every router is built from: telemetry by node, round-trip times by ["city-node"], and the
    public address of this node. *)
Context (nodeTel : gmap string NodeTelemetry) (edgeAgg : gmap string LastCongestion) (local : string).

(** The addresses of all nodes, the local one when there is none. *)
Definition node_ips : list string :=
  match (fun kv => PublicIP (snd kv)) <$> range_map nodeTel with
  | [] => [local]
  | l => l
  end.

Definition GetNodeRT (source : EndPoint) (nodeIP : string) : option LastCongestion :=
  match nodeTel !! nodeIP with
  | None => None
  | Some _ =>
      match edgeAgg !! (ep_City source +:+ "-" +:+ nodeIP) with
      | Some val => Some val
      | None => Some (mkLC 1 fzero (of_Z 50) 0)
      end
  end.

(** [stats.AvgRT] with the default of 500 when there are no stats, and 100 for what is not positive. *)
Definition delay_of (source : EndPoint) (nodeIP : string) : float64 :=
  let avg := match GetNodeRT source nodeIP with
             | Some st => if (Count st =? 0)%Z then of_Z 500 else AvgRT st
             | None => of_Z 500
             end in
  if fle avg fzero then of_Z 100 else avg.

(** The loop over the nodes: nodes without telemetry are skipped. *)
Definition scored (score : string -> NodeTelemetry -> float64) : list nodeScore :=
  omap (fun ip => tel ← nodeTel !! ip; Some (mkNS ip (score ip tel))) node_ips.

(** ** Joint CPU and latency (joint-cpu-latency.go) *)

Record JointRouter := mkJoint { cpuWeight : float64; latencyWeight : float64 }.

Definition NewJointRouter : JointRouter := mkJoint (lit 1 2) (lit 1 2).

Definition SetWeights (r : JointRouter) (cpu lat : float64) : JointRouter :=
  if flt fzero cpu && flt fzero lat then
    let total := fadd cpu lat in mkJoint (fdiv cpu total) (fdiv lat total)
  else if feq cpu fzero && flt fzero lat then mkJoint fzero fone
  else if feq lat fzero && flt fzero cpu then mkJoint fone fzero
  else r.

Definition joint_score (r : JointRouter) (source : EndPoint) (ip : string) (tel : NodeTelemetry) : float64 :=
  let Qk := Usage (Cpu tel) in
  let Qk := if flt Qk fzero then of_Z 100 else Qk in
  fadd (fmul (cpuWeight r) Qk) (fmul (latencyWeight r) (delay_of source ip)).

Definition joint_Computing (r : JointRouter) (source : EndPoint) : list PathInfo :=
  let candidates := scored (joint_score r source) in
  match candidates with
  | [] => []
  | _ => (fun c => mkInfo [ns_ip c] (ns_score c) fzero) <$> sort_slice candidates
  end.

(** ** Lyapunov (lyapunov-opt.go, lyapunov-config.go) *)

Record latencyConfig := mkLat { good : float64; normal : float64; warning : float64 }.

Definition ContinentPairConfigs : gmap string latencyConfig :=
  {[ "Asia-NorthAmerica" := mkLat (of_Z 60) (of_Z 100) (of_Z 150); "NorthAmerica-Asia" := mkLat (of_Z 60) (of_Z 100) (of_Z 150) ]}.

(** The thresholds of pairs that have none of their own. *)
Definition DefaultInterCont : latencyConfig := mkLat (of_Z 60) (of_Z 100) (of_Z 150).
Definition DefaultIntraCont : latencyConfig := mkLat (of_Z 20) (of_Z 40) (of_Z 60).

Definition getLatencyConfig (sourceCont destCont : string) : latencyConfig :=
  match ContinentPairConfigs !! (sourceCont +:+ "-" +:+ destCont) with
  | Some c => c
  | None => if negb (String.eqb sourceCont destCont) then DefaultInterCont else DefaultIntraCont
  end.

Record CPUThresholds := mkThr { Low : float64; Mid : float64; High : float64; SensitivityCPU : float64; HysteresisUp : float64; HysteresisDn : float64 }.

Definition two_core : CPUThresholds := mkThr (of_Z 40) (of_Z 60) (of_Z 80) (of_Z 2) (of_Z 60) (of_Z 40).
Definition four_core : CPUThresholds := mkThr (of_Z 60) (of_Z 80) (of_Z 100) (of_Z 3) (of_Z 80) (of_Z 60).

Definition GetCPUThresholds (logicalCores : Z) : CPUThresholds :=
  if (logicalCores =? 2)%Z then two_core else if (logicalCores =? 4)%Z then four_core else two_core.

Definition sensitivityCPU : float64 := of_Z 2.
Definition sensitivityDelay : float64 := lit 20 100.
Definition defaultV : float64 := fone.
Definition softmaxTemp : float64 := of_Z 2.

Definition computeDelayPenalty (rt : float64) (config : latencyConfig) : float64 :=
  if fle (good config) fzero then Exp (fmul sensitivityDelay (fsub (fdiv rt (of_Z 50)) fone))
  else Exp (fmul sensitivityDelay (fsub (fdiv rt (good config)) fone)).

Definition computeCPUPenalty (Qk : float64) (logicalCores : Z) : float64 :=
  let config := GetCPUThresholds logicalCores in
  let alpha := SensitivityCPU config in
  let alpha := if fle alpha fzero then sensitivityCPU else alpha in
  if fle (Mid config) fzero then Exp (fmul alpha (fsub (fdiv Qk (of_Z 60)) fone))
  else Exp (fmul alpha (fsub (fdiv Qk (Mid config)) fone)).

Definition fabs (x : float64) : float64 := SFabs x.

Definition lyapunov_score (source : EndPoint) (ip : string) (tel : NodeTelemetry) : float64 :=
  let w := fone in
  let Qk := Usage (Cpu tel) in
  let Qk := if flt Qk fzero then fzero else Qk in
  let config := getLatencyConfig (ep_Continent source) (Continent tel) in
  let cpuPenalty := computeCPUPenalty (fadd Qk (fabs (LoadDelta (Cpu tel)))) (LogicalCore (Cpu tel)) in
  let delayPenalty := computeDelayPenalty (delay_of source ip) config in
  fadd (fmul w cpuPenalty) (fmul defaultV delayPenalty).

Definition softmaxProbabilities (candidates : list nodeScore) (temperature : float64) : list float64 :=
  let expScores := (fun c => Exp (fdiv (SFopp (ns_score c)) temperature)) <$> candidates in
  let sumExp := foldl fadd fzero expScores in
  (fun e => if flt fzero sumExp then fdiv e sumExp else fzero) <$> expScores.

Definition lyapunov_Computing (source : EndPoint) : list PathInfo :=
  let candidates := scored (lyapunov_score source) in
  match candidates with
  | [] => []
  | _ =>
      let sorted := sort_slice candidates in
      zip_with (fun c p => mkInfo [ns_ip c] p (ns_score c)) sorted (softmaxProbabilities sorted softmaxTemp)
  end.

(** ** Power of two choices (p2c.go) *)

Definition p2c_load (ip : string) : float64 :=
  match nodeTel !! ip with
  | Some tel => let load := Usage (Cpu tel) in if flt load fzero || feq load fzero then of_Z 100 else load
  | None => of_Z 100
  end.

Definition p2c_Computing : list PathInfo :=
  let weights := (fun ip => (ip, fdiv fone (p2c_load ip))) <$> node_ips in
  let total := foldl (fun acc w => fadd acc (snd w)) fzero weights in
  (fun w => mkInfo [fst w] (fdiv (snd w) total) fzero) <$> weights.

(** ** Moving averages (ewma-based.go) *)

Record EWMARouter := mkEWMA {
  cpuEWMA : gmap string float64;
  latEWMA : gmap string float64;
  cpuAlpha : float64;
  latAlpha : float64;
  lambda : float64
}.

Definition NewEWMARouter : EWMARouter := mkEWMA ∅ ∅ (lit 3 10) (lit 3 10) (lit 1 2).

Definition SetAlpha (r : EWMARouter) (alpha lambda : float64) : EWMARouter := mkEWMA (cpuEWMA r) (latEWMA r) alpha alpha lambda.

(** [X(t) = alpha * x(t) + (1-alpha) * X(t-1)], the first observation as it is. *)
Definition ewma (m : gmap string float64) (alpha : float64) (nodeIP : string) (x : float64) : gmap string float64 :=
  match m !! nodeIP with
  | None => <[nodeIP := x]> m
  | Some current => <[nodeIP := fadd (fmul alpha x) (fmul (fsub fone alpha) current)]> m
  end.

Definition updateEWMACPU (r : EWMARouter) (nodeIP : string) (x : float64) : EWMARouter :=
  mkEWMA (ewma (cpuEWMA r) (cpuAlpha r) nodeIP x) (latEWMA r) (cpuAlpha r) (latAlpha r) (lambda r).

Definition updateEWMALatency (r : EWMARouter) (nodeIP : string) (x : float64) : EWMARouter :=
  mkEWMA (cpuEWMA r) (ewma (latEWMA r) (latAlpha r) nodeIP x) (cpuAlpha r) (latAlpha r) (lambda r).

Definition getCPUEWMA (r : EWMARouter) (nodeIP : string) : float64 := default (of_Z 100) (cpuEWMA r !! nodeIP).
Definition getLatEWMA (r : EWMARouter) (nodeIP : string) : float64 := default (of_Z 500) (latEWMA r !! nodeIP).

(** [GetEWMASummary]: both averages of every node with a CPU average. *)
Definition GetEWMASummary (r : EWMARouter) : gmap string (float64 * float64) :=
  map_imap (fun nodeIP cpuVal => Some (cpuVal, default fzero (latEWMA r !! nodeIP))) (cpuEWMA r).

Definition ewma_cpu (tel : NodeTelemetry) : float64 :=
  let c := Usage (Cpu tel) in if flt c fzero then of_Z 100 else c.

Definition ewma_latency (source : EndPoint) (ip : string) : float64 :=
  let l := match GetNodeRT source ip with
           | Some st => if (0 <? Count st)%Z then AvgRT st else of_Z 100
           | None => of_Z 100
           end in
  if fle l fzero then of_Z 100 else l.

Record ewmaScore := mkES { es_ip : string; es_cpu : float64; es_lat : float64; combined : float64 }.

Definition combined_less (x y : ewmaScore) : bool := flt (combined x) (combined y).

(** The first pass: the averages are updated and read back node by node. *)
Fixpoint ewma_pass (source : EndPoint) (ips : list string) (r : EWMARouter) : list ewmaScore * EWMARouter :=
  match ips with
  | [] => ([], r)
  | ip :: rest =>
      match nodeTel !! ip with
      | None => ewma_pass source rest r
      | Some tel =>
          let r1 := updateEWMACPU r ip (ewma_cpu tel) in
          let cpuEwma := getCPUEWMA r1 ip in
          let r2 := updateEWMALatency r1 ip (ewma_latency source ip) in
          let latEwma := getLatEWMA r2 ip in
          let '(more, r3) := ewma_pass source rest r2 in
          (mkES ip cpuEwma latEwma fzero :: more, r3)
      end
  end.

Definition latencyScale : float64 := fone.

Definition combine (r : EWMARouter) (c : ewmaScore) : ewmaScore :=
  mkES (es_ip c) (es_cpu c) (es_lat c)
    (fadd (fmul (lambda r) (es_cpu c)) (fmul (fsub fone (lambda r)) (fdiv (es_lat c) latencyScale))).

(** The candidates in ascending order of the combined score, weighted by its inverse. *)
Definition ewma_paths (r : EWMARouter) (candidates : list ewmaScore) : list PathInfo :=
  match candidates with
  | [] => []
  | _ =>
      let sorted := exchange_sort combined_less (combine r <$> candidates) in
      let raw := (fun c => if flt fzero (combined c) then fdiv fone (combined c) else fone) <$> sorted in
      let total := foldl fadd fzero raw in
      zip_with (fun c w => mkInfo [es_ip c] (fdiv w total) (combined c)) sorted raw
  end.

Definition ewma_Computing (r : EWMARouter) (source : EndPoint) : list PathInfo * EWMARouter :=
  let '(candidates, r1) := ewma_pass source node_ips r in (ewma_paths r1 candidates, r1).
End Routers.

(** ** Proofs *)

(** The graph files every node under its public address. *)
Definition nodes_ok (nodeTel : gmap string NodeTelemetry) : Prop := map_Forall (fun k n => PublicIP n = k) nodeTel.

Section Proofs.
Context `{GoMath} `{RangeMap} `{SS : SortSlice nodeScore score_less score_number}.
Context (nodeTel : gmap string NodeTelemetry) (edgeAgg : gmap string LastCongestion) (local : string).
Context (Hok : nodes_ok nodeTel).

(** The addresses of the nodes. *)
Definition addresses : list string := fst <$> map_to_list nodeTel.

Lemma ranged_ips : (fun kv : string * NodeTelemetry => PublicIP (snd kv)) <$> range_map nodeTel ≡ₚ addresses.
Proof.
  rewrite (range_map_perm nodeTel). unfold addresses. apply reflexive_eq, list_fmap_ext. intros i [k n] Hi.
  apply list_elem_of_lookup_2, elem_of_map_to_list in Hi. simpl. by apply (map_Forall_lookup_1 _ _ _ _ Hok Hi).
Qed.

Lemma addresses_nodup : NoDup addresses.
Proof. apply NoDup_fst_map_to_list. Qed.

Lemma addresses_elem ip : ip ∈ addresses <-> is_Some (nodeTel !! ip).
Proof.
  unfold addresses. rewrite list_elem_of_fmap. split.
  - intros ([k x] & -> & Hin). apply elem_of_map_to_list in Hin. eauto.
  - intros [x Hx]. exists (ip, x). split; [done|]. by apply elem_of_map_to_list.
Qed.

(** The nodes that the routers rank: all of them; none when there is no telemetry, since the local
    node that stands in has no telemetry either. *)
Lemma node_ips_cases : (node_ips nodeTel local ≡ₚ addresses /\ addresses <> []) \/ (nodeTel = ∅ /\ node_ips nodeTel local = [local]).
Proof.
  unfold node_ips. pose proof ranged_ips as Hr. destruct (_ <$> range_map nodeTel) as [|x l] eqn:E.
  - right. split; [|done]. apply Permutation_nil_l in Hr. unfold addresses in Hr. symmetry in Hr. apply fmap_nil_inv in Hr. by apply map_to_list_empty_iff.
  - left. split; [done|]. intros Hn. rewrite Hn in Hr. by apply Permutation_nil_r in Hr.
Qed.

Lemma scored_spec f : ns_ip <$> scored nodeTel local f ≡ₚ addresses /\
  forall c, c ∈ scored nodeTel local f -> exists tel, nodeTel !! ns_ip c = Some tel /\ ns_score c = f (ns_ip c) tel.
Proof.
  unfold scored. split.
  - destruct node_ips_cases as [[Hp _]|[He ->]].
    + rewrite Hp. apply reflexive_eq. assert (Hall : forall ip, ip ∈ addresses -> is_Some (nodeTel !! ip)) by (intros ip; apply addresses_elem).
      clear Hp. induction addresses as [|ip l IH]; [done|]. cbn [omap list_omap].
      destruct (Hall ip ltac:(left)) as [tel Ht]. rewrite Ht. simpl. f_equal. apply IH. intros; apply Hall; by right.
    + unfold addresses. rewrite He, map_to_list_empty. simpl. by rewrite lookup_empty.
  - intros c Hc. apply list_elem_of_omap in Hc as (ip & _ & Hc). destruct (nodeTel !! ip) as [tel|] eqn:E; [|done].
    injection Hc as <-. by exists tel.
Qed.

Lemma sorted_spec f : ns_ip <$> sort_slice (scored nodeTel local f) ≡ₚ addresses /\
  (forall c, c ∈ sort_slice (scored nodeTel local f) -> exists tel, nodeTel !! ns_ip c = Some tel /\ ns_score c = f (ns_ip c) tel) /\
  (Forall score_number (scored nodeTel local f) -> StronglySorted (le_of score_less) (sort_slice (scored nodeTel local f))).
Proof.
  destruct (scored_spec f) as [Hp Hc]. split_and!.
  - rewrite <- Hp. apply fmap_Permutation, sort_slice_perm.
  - intros c. rewrite sort_slice_perm. apply Hc.
  - apply sort_slice_sorted.
Qed.

Lemma sorted_fmap (f : nodeScore -> PathInfo) (key : PathInfo -> float64) l :
  (forall c, key (f c) = ns_score c) -> StronglySorted (le_of score_less) l ->
  StronglySorted (fun p q => flt (key q) (key p) = false) (f <$> l).
Proof.
  intros Hk. induction 1 as [|c l _ IH HF]; [constructor|]. constructor; [exact IH|]. apply Forall_fmap.
  eapply Forall_impl; [exact HF|]. intros d Hd. cbn. by rewrite !Hk.
Qed.

Lemma length_softmax l t : length (softmaxProbabilities l t) = length l.
Proof. unfold softmaxProbabilities. by rewrite !length_fmap. Qed.

Lemma lyapunov_eq source :
  exists probs, length probs = length (sort_slice (scored nodeTel local (lyapunov_score nodeTel edgeAgg source))) /\
    lyapunov_Computing nodeTel edgeAgg local source =
      zip_with (fun c p => mkInfo [ns_ip c] p (ns_score c)) (sort_slice (scored nodeTel local (lyapunov_score nodeTel edgeAgg source))) probs.
Proof.
  unfold lyapunov_Computing. set (l := scored _ _ _). exists (softmaxProbabilities (sort_slice l) softmaxTemp).
  split; [apply length_softmax|]. destruct l as [|c l']; [|done].
  pose proof (sort_slice_perm (SortSlice := SS) []) as Hp. by apply Permutation_nil_r in Hp as ->.
Qed.

Lemma joint_eq r source :
  joint_Computing nodeTel edgeAgg local r source =
    (fun c => mkInfo [ns_ip c] (ns_score c) fzero) <$> sort_slice (scored nodeTel local (joint_score nodeTel edgeAgg r source)).
Proof.
  unfold joint_Computing. destruct (scored _ _ _) as [|c l']; [|done].
  pose proof (sort_slice_perm (SortSlice := SS) []) as Hp. by apply Permutation_nil_r in Hp as ->.
Qed.

(** A ranking of all nodes by a score, the best first. *)
Definition ranks (score : string -> NodeTelemetry -> float64) (key : PathInfo -> float64) (paths : list PathInfo) : Prop :=
  Hops <$> paths ≡ₚ (fun ip => [ip]) <$> addresses /\
  (forall p, p ∈ paths -> exists ip tel, Hops p = [ip] /\ nodeTel !! ip = Some tel /\ key p = score ip tel) /\
  ((forall ip tel, nodeTel !! ip = Some tel -> is_nan (score ip tel) = false) ->
   StronglySorted (fun p q => flt (key q) (key p) = false) paths).

Lemma scored_numbers f :
  (forall ip tel, nodeTel !! ip = Some tel -> is_nan (f ip tel) = false) -> Forall score_number (scored nodeTel local f).
Proof.
  intros Hn. apply Forall_forall. intros c Hc. destruct (scored_spec f) as [_ Hs]. destruct (Hs c Hc) as (tel & Ht & He).
  unfold score_number. rewrite He. by apply Hn.
Qed.

Lemma lyapunov_ranks source : ranks (lyapunov_score nodeTel edgeAgg source) RawRTT (lyapunov_Computing nodeTel edgeAgg local source).
Proof.
  destruct (lyapunov_eq source) as (probs & Hlen & ->). destruct (sorted_spec (lyapunov_score nodeTel edgeAgg source)) as (Hp & Hc & Hs).
  set (l := sort_slice _) in *. clearbody l. split_and!.
  - rewrite <- Hp. apply reflexive_eq. clear -Hlen. revert probs Hlen. induction l as [|c l IH]; intros [|p probs] Hlen; try done.
    simpl in *. f_equal. apply IH. lia.
  - intros p Hin. apply elem_of_lookup_zip_with_1 in Hin as (i & c & q & -> & Hi & _).
    destruct (Hc c ltac:(by eapply list_elem_of_lookup_2)) as (tel & Ht & He). by exists (ns_ip c), tel.
  - intros Hn. specialize (Hs ltac:(by apply scored_numbers)). clear -Hlen Hs. revert probs Hlen.
    induction Hs as [|c l _ IH HF]; intros [|p probs] Hlen; try (by constructor). simpl in *. constructor; [apply IH; lia|].
    apply Forall_forall. intros x Hx. apply elem_of_lookup_zip_with_1 in Hx as (i & c' & q & -> & Hi & _).
    rewrite Forall_forall in HF. by apply (HF c'), list_elem_of_lookup_2 with i.
Qed.

Lemma joint_ranks source r : ranks (joint_score nodeTel edgeAgg r source) Rtt (joint_Computing nodeTel edgeAgg local r source).
Proof.
  rewrite joint_eq. destruct (sorted_spec (joint_score nodeTel edgeAgg r source)) as (Hp & Hc & Hs). split_and!.
  - rewrite <- Hp, <- !list_fmap_compose. done.
  - intros p Hin. apply list_elem_of_fmap in Hin as (c & -> & Hin). destruct (Hc c Hin) as (tel & Ht & He). by exists (ns_ip c), tel.
  - intros Hn. apply sorted_fmap; [done|]. by apply Hs, scored_numbers.
Qed.

(** ** Moving averages *)

Lemma ewma_pass_fresh source ips r :
  NoDup ips -> (forall ip, ip ∈ ips -> cpuEWMA r !! ip = None /\ latEWMA r !! ip = None) ->
  fst (ewma_pass nodeTel edgeAgg source ips r) =
    omap (fun ip => tel ← nodeTel !! ip; Some (mkES ip (ewma_cpu tel) (ewma_latency nodeTel edgeAgg source ip) fzero)) ips /\
  lambda (snd (ewma_pass nodeTel edgeAgg source ips r)) = lambda r.
Proof.
  revert r. induction ips as [|ip ips IH]; intros r Hnd Hf; cbn [ewma_pass omap list_omap]; [done|].
  apply NoDup_cons in Hnd as [Hn Hnd]. destruct (Hf ip ltac:(left)) as [Hc Hl].
  assert (Hf' : forall x, x ∈ ips -> cpuEWMA r !! x = None /\ latEWMA r !! x = None) by (intros; apply Hf; by right).
  destruct (nodeTel !! ip) as [tel|]; simpl; [|by apply IH].
  set (r2 := updateEWMALatency (updateEWMACPU r ip (ewma_cpu tel)) ip (ewma_latency nodeTel edgeAgg source ip)).
  destruct (IH r2 Hnd) as [H1 H2].
  { intros x Hx. destruct (Hf' x Hx) as [? ?]. assert (x <> ip) by (by intros ->). unfold r2, updateEWMALatency, updateEWMACPU, ewma. cbn [cpuEWMA latEWMA].
    rewrite Hc, Hl. by rewrite !lookup_insert_ne. }
  destruct (ewma_pass nodeTel edgeAgg source ips r2) as [more r3]. cbn [fst snd] in *. rewrite H1, H2. split; [|done]. f_equal.
  unfold r2, getCPUEWMA, getLatEWMA, updateEWMALatency, updateEWMACPU, ewma. cbn [cpuEWMA latEWMA]. rewrite Hc, Hl, !lookup_insert_eq. done.
Qed.

Lemma zip_hops {A} (f : A -> string) (g : A -> float64 -> float64) (h : A -> float64) (l : list A) (ws : list float64) :
  length ws = length l -> Hops <$> zip_with (fun c w => mkInfo [f c] (g c w) (h c)) l ws = (fun c => [f c]) <$> l.
Proof. revert ws. induction l as [|c l IH]; intros [|w ws] Hlen; try done. simpl in *. f_equal. apply IH. lia. Qed.

(** After a request the summary of a new router has every node that was looked at, with the values of
    the request. *)
Theorem ewma_summary source ips r ip :
  NoDup ips -> (forall x, x ∈ ips -> cpuEWMA r !! x = None /\ latEWMA r !! x = None) ->
  GetEWMASummary (snd (ewma_pass nodeTel edgeAgg source ips r)) !! ip =
    match nodeTel !! ip with
    | Some tel => if decide (ip ∈ ips) then Some (ewma_cpu tel, ewma_latency nodeTel edgeAgg source ip) else GetEWMASummary r !! ip
    | None => GetEWMASummary r !! ip
    end.
Proof.
  revert r. induction ips as [|x ips IH]; intros r Hnd Hf; cbn [ewma_pass].
  { destruct (nodeTel !! ip); [|done]. by rewrite decide_False by apply not_elem_of_nil. }
  apply NoDup_cons in Hnd as [Hx Hnd]. destruct (Hf x ltac:(by left)) as [Hc Hl].
  assert (Hf' : forall y, y ∈ ips -> cpuEWMA r !! y = None /\ latEWMA r !! y = None) by (intros; apply Hf; by right).
  destruct (nodeTel !! x) as [tel|] eqn:Ex.
  2: { rewrite IH by done. destruct (nodeTel !! ip) eqn:Ei; [|done]. assert (ip <> x) by congruence.
       destruct (decide (ip ∈ ips)); [rewrite decide_True by (by right)|rewrite decide_False by set_solver]; done. }
  set (r2 := updateEWMALatency (updateEWMACPU r x (ewma_cpu tel)) x (ewma_latency nodeTel edgeAgg source x)).
  assert (H2 : forall y, GetEWMASummary r2 !! y = if decide (y = x) then Some (ewma_cpu tel, ewma_latency nodeTel edgeAgg source x) else GetEWMASummary r !! y).
  { intros y. unfold GetEWMASummary. rewrite !map_lookup_imap. unfold r2, updateEWMALatency, updateEWMACPU, ewma. cbn [cpuEWMA latEWMA]. rewrite Hc, Hl.
    destruct (decide (y = x)) as [->|Hy]; [by rewrite !lookup_insert_eq|by rewrite !lookup_insert_ne]. }
  assert (Hr2 : forall y, y ∈ ips -> cpuEWMA r2 !! y = None /\ latEWMA r2 !! y = None).
  { intros y Hy. destruct (Hf' y Hy) as [? ?]. assert (y <> x) by (by intros ->). unfold r2, updateEWMALatency, updateEWMACPU, ewma. cbn [cpuEWMA latEWMA].
    rewrite Hc, Hl, !lookup_insert_ne by done. done. }
  specialize (IH r2 Hnd Hr2). destruct (ewma_pass nodeTel edgeAgg source ips r2) as [more r3]. cbn [snd] in *. rewrite IH, H2.
  destruct (decide (ip = x)) as [->|Hne].
  - rewrite Ex. cbv iota beta. rewrite (decide_False (P := x ∈ ips)), (decide_True (P := x ∈ x :: ips)) by (done || by left). done.
  - destruct (nodeTel !! ip); [|done]. destruct (decide (ip ∈ ips)); [rewrite decide_True by (by right)|rewrite decide_False by set_solver]; done.
Qed.

Lemma ewma_paths_hops r c : Hops <$> ewma_paths r c ≡ₚ (fun ip => [ip]) <$> (es_ip <$> c).
Proof.
  destruct c as [|c0 cs]; [done|]. set (c := c0 :: cs). change (ewma_paths r c) with
    (let sorted := exchange_sort combined_less (combine r <$> c) in
     let raw := (fun c => if flt fzero (combined c) then fdiv fone (combined c) else fone) <$> sorted in
     zip_with (fun c w => mkInfo [es_ip c] (fdiv w (foldl fadd fzero raw)) (combined c)) sorted raw). cbv zeta.
  rewrite (zip_hops es_ip (fun _ w => fdiv w _) combined) by (by rewrite length_fmap). rewrite <- list_fmap_compose.
  etrans; [apply fmap_Permutation, exchange_sort_perm|]. rewrite <- list_fmap_compose. done.
Qed.

Lemma ips_nodup : NoDup (node_ips nodeTel local).
Proof. destruct node_ips_cases as [[-> _]|[_ ->]]; [apply addresses_nodup|apply NoDup_singleton]. Qed.

Lemma ewma_hops source alpha lam :
  Hops <$> fst (ewma_Computing nodeTel edgeAgg local (SetAlpha NewEWMARouter alpha lam) source) ≡ₚ (fun ip => [ip]) <$> addresses.
Proof.
  unfold ewma_Computing.
  destruct (ewma_pass_fresh source (node_ips nodeTel local) (SetAlpha NewEWMARouter alpha lam) ips_nodup ltac:(done)) as [H1 _].
  destruct (ewma_pass _ _ source _ (SetAlpha _ alpha lam)) as [c r]. cbn [fst] in H1.
  assert (Hc : es_ip <$> c ≡ₚ addresses).
  { rewrite H1. destruct (scored_spec (fun _ _ => fzero)) as [Hp _]. rewrite <- Hp. unfold scored. apply reflexive_eq.
    clear. induction (node_ips nodeTel local) as [|ip l IH]; [done|]. cbn [omap list_omap]. destruct (nodeTel !! ip); simpl; [by f_equal|done]. }
  etrans; [apply ewma_paths_hops|]. by apply fmap_Permutation.
Qed.

Lemma p2c_hops : Hops <$> p2c_Computing nodeTel local = (fun ip => [ip]) <$> node_ips nodeTel local.
Proof. unfold p2c_Computing. by rewrite <- !list_fmap_compose. Qed.

(** The moving-average router does not average: a router is made for every request, so every
    average is the current observation and the smoothing factor has no influence on the result. *)
Theorem ewma_no_history source alpha alpha' lam :
  fst (ewma_Computing nodeTel edgeAgg local (SetAlpha NewEWMARouter alpha lam) source) =
  fst (ewma_Computing nodeTel edgeAgg local (SetAlpha NewEWMARouter alpha' lam) source).
Proof.
  pose proof ips_nodup as Hnd. unfold ewma_Computing.
  destruct (ewma_pass_fresh source (node_ips nodeTel local) (SetAlpha NewEWMARouter alpha lam) Hnd ltac:(done)) as [H1 H2].
  destruct (ewma_pass_fresh source (node_ips nodeTel local) (SetAlpha NewEWMARouter alpha' lam) Hnd ltac:(done)) as [H1' H2'].
  destruct (ewma_pass _ _ source _ (SetAlpha _ alpha lam)) as [c r]. destruct (ewma_pass _ _ source _ (SetAlpha _ alpha' lam)) as [c' r'].
  cbn [fst snd SetAlpha lambda] in *. rewrite <- H1' in H1. subst c'. unfold ewma_paths, combine. by rewrite H2, H2'.
Qed.
End Proofs.

(** ** Instances *)

(** A [sort.Slice] for the examples. *)
Definition slice_sort : SortSlice nodeScore score_less score_number.
Proof.
  refine {| sort_slice := exchange_sort score_less; sort_slice_perm := exchange_sort_perm score_less |}.
  apply exchange_sort_sorted; [intros x y; apply flt_asym|]. intros x y z Hy. apply fge_trans, Hy.
Defined.

Definition node_at (ip : string) (usage : Z) : NodeTelemetry :=
  mkNode ip "gcp" "EU" "FR" "Paris" (of_Z usage) (mkCPU 2 2 (of_Z usage) fzero fzero) [].

Definition two_nodes : gmap string NodeTelemetry := {[ "10.0.0.1" := node_at "10.0.0.1" 80; "10.0.0.2" := node_at "10.0.0.2" 20 ]}.

Lemma two_nodes_ok : nodes_ok two_nodes.
Proof. unfold nodes_ok, two_nodes. apply map_Forall_insert_2; [done|]. by apply map_Forall_singleton. Qed.

Definition sample_source : EndPoint := mkEnd "192.0.2.1" 0 "" "EU" "FR" "Paris".

(** The input of [TestJointRouter_NegativeValues]: an invalid usage counts as 100, and without statistics the round trip is the 50 ms that
    [GetNodeRT] returns with a count of 1, so that the defaults of 500 and 100 do not apply; the score is 75 and not the 300 of the test. *)
Theorem joint_negative_values :
  let nodes := {[ "192.168.1.1" := mkNode "192.168.1.1" "" "Asia" "" "" (of_Z 50) (mkCPU 0 0 (of_Z (-1)) fzero fzero) [] ]} in
  Rtt <$> @joint_Computing key_order slice_sort nodes ∅ "" (SetWeights NewJointRouter (lit 1 2) (lit 1 2)) (mkEnd "" 0 "" "Asia" "" "") = [of_Z 75].
Proof. vm_compute. done. Qed.

(** The input of [TestLyapunovSolver_GetNodeRT]: a city without statistics for the node gets 50 ms, the statistics of the continent (70 in
    the test) are not consulted. *)
Theorem GetNodeRT_no_fallback :
  let nodes := {[ "192.168.1.1" := mkNode "192.168.1.1" "" "Asia" "China" "Shanghai" fzero (mkCPU 0 0 fzero fzero fzero) [] ]} in
  let stats x := mkLC 10 fzero (of_Z x) 0 in
  let table := list_to_map [("Shanghai-192.168.1.1", stats 40%Z); ("Shanghai-Shanghai", stats 50%Z); ("China-China", stats 60%Z); ("Asia-Asia", stats 70%Z); ("Asia-general", stats 80%Z)] in
  AvgRT <$> GetNodeRT nodes table (mkEnd "" 0 "" "Asia" "China" "Shanghai") "192.168.1.1" = Some (of_Z 40) /\
  AvgRT <$> GetNodeRT nodes table (mkEnd "" 0 "" "Asia" "Japan" "Tokyo") "192.168.1.1" = Some (of_Z 50).
Proof. split; vm_compute; done. Qed.

Lemma ewma_no_history_witness :
  fst (@ewma_Computing key_order two_nodes ∅ "" (SetAlpha NewEWMARouter fone (lit 1 2)) sample_source) =
  fst (@ewma_Computing key_order two_nodes ∅ "" (SetAlpha NewEWMARouter fzero (lit 1 2)) sample_source).
Proof. exact (@ewma_no_history key_order two_nodes ∅ "" two_nodes_ok sample_source fone fzero (lit 1 2)). Defined.

End EdgeDomain.
