(* ===== verification/Routing.v ===== *)
(** * Dispatch of routing requests (control-plane/routing/routing.go)

    A request names its algorithm; the solver for it is built from the current graph and statistics
    and called through an interface, which is nil for an unknown name. *)

From Stdlib Require Import ZArith Lia SpecFloat Ascii.
From stdpp Require Import base list gmap strings pretty sorting.
From S2P Require Import Prelude F64 GoHeap GoStrings GoSort Graph ShortestPath KShortest LiveNet OneWan Carousel CarouselRun Stats EdgeDomain.
Import Graph ShortestPath KShortest LiveNet OneWan Carousel CarouselRun Stats EdgeDomain.

Module Routing.

(** [RoutingInfo], or an answer that is never given because the solver runs out of fuel. *)
Inductive routing_info := Routing (paths : list PathInfo) | NoAnswer.

(** ** One destination *)

(** [ComputingMiddleInterface]: the dynamic types behind [Operate]; [None] is the nil interface. *)
Inductive middle_solver := MKShortest (ks : KShortestSolver) | MLiveStyle (ls : LiveStyleSolver).

Definition InitMiddleInterface `{RangeMap} (g : GraphManager) (algorithm : string) : option middle_solver :=
  if String.eqb algorithm "k_shortest" then Some (MKShortest (NewKShortestSolver (GetEdges g) 3))
  else if String.eqb algorithm "live_style" then Some (MLiveStyle (NewLiveStyleSolver (GetEdges g) 2))
  else None.

Definition middle_Computing (s : middle_solver) (start end_ : string) : routing_info :=
  match s with
  | MKShortest ks =>
      match Computing ks start end_ with
      | Routes l => Routing ((fun p => mkInfo (fst p) (snd p) fzero) <$> l)
      | NoFuel => NoAnswer
      | _ => Routing []
      end
  | MLiveStyle ls =>
      match live_Computing ls start end_ with
      | LiveRoutes l => Routing l
      | LiveNoFuel => NoAnswer
      | _ => Routing []
      end
  end.

(** A method call through a nil interface panics. *)
Definition MiddleRouting `{RangeMap} (g : GraphManager) (sourceIP destIP algorithm : string) : go routing_info :=
  match InitMiddleInterface g algorithm with
  | None => Panic
  | Some s => Ret (middle_Computing s sourceIP destIP)
  end.

(** ** Many destinations *)

Inductive multi_solver := MOneWan (os : ONEWANSolver) | MCarousel (d : FlowOptimizationSolver).

Definition InitMiddleMultiInterface `{RangeMap} (g : GraphManager) (algorithm : string) : option multi_solver :=
  if String.eqb algorithm "onewan_multi" then Some (MOneWan (NewONEWANSolver (GetEdges g) 10))
  else if String.eqb algorithm "carousel-greedy" then Some (MCarousel (NewFlowOptimizationSolver (GetEdges g)))
  else None.

Section Multi.
Context `{RangeMap} `{Rand} `{Chance}.

Definition MiddleRoutingMulti (g : GraphManager) (start : string) (ends : list string) (algorithm : string) : go (list PathInfo) :=
  match InitMiddleMultiInterface g algorithm with
  | None => Ret []
  | Some (MOneWan os) => Ret (match wan_ComputingMulti os start ends with WanRoutes l => l | _ => [] end)
  | Some (MCarousel d) => let! r := flow_ComputingMulti 0 d start ends in
                          Ret (match r with FlowRoutes l => l | _ => [] end)
  end.
End Multi.

(** ** The last mile *)

Inductive last_solver := LLyapunov | LJoint (r : JointRouter) | LP2C | LEWMA (r : EWMARouter).

Definition InitLastInterface (algorithm : string) (cpu lat : float64) : option last_solver :=
  if String.eqb algorithm "lyapunov" then Some LLyapunov
  else if String.eqb algorithm "latency_only" then Some (LJoint (SetWeights NewJointRouter fzero fone))
  else if String.eqb algorithm "cpu_only" then Some (LJoint (SetWeights NewJointRouter fone fzero))
  else if String.eqb algorithm "joint_cpu_latency" then
    Some (LJoint (if fle fzero cpu && fle fzero lat then SetWeights NewJointRouter cpu lat else NewJointRouter))
  else if String.eqb algorithm "p2c" then Some LP2C
  else if String.eqb algorithm "ewma_based" then
    Some (LEWMA (if fle fzero cpu && fle fzero lat then SetAlpha NewEWMARouter cpu lat else NewEWMARouter))
  else None.

Section Last.
Context `{GoMath} `{RangeMap} `{SortSlice nodeScore score_less score_number}.

(** [util.GetIPInfo]: country, city and continent of an address, or an error. *)
Context (GetIPInfo : string -> option (string * string * string)) (local : string).

Definition last_Computing (nodeTel : gmap string NodeTelemetry) (edgeAgg : gmap string LastCongestion) (s : last_solver) (source : EndPoint) : list PathInfo :=
  match s with
  | LLyapunov => lyapunov_Computing nodeTel edgeAgg local source
  | LJoint r => joint_Computing nodeTel edgeAgg local r source
  | LP2C => p2c_Computing nodeTel local
  | LEWMA r => fst (ewma_Computing nodeTel edgeAgg local r source)
  end.

Definition LastRouting (g : GraphManager) (a : GlobalStats) (source : EndPoint) (algorithm : string) (cpu lat : float64) : go (list PathInfo) :=
  match GetIPInfo (ep_IP source) with
  | None => Ret []
  | Some (country, city, continent) =>
      let source := mkEnd (ep_IP source) (ep_Port source) (ep_Provider source) continent country city in
      match InitLastInterface algorithm cpu lat with
      | None => Panic
      | Some s => Ret (last_Computing (GetNodes g) (GetAggMap a) s source)
      end
  end.
End Last.

(** ** Proofs *)

Definition name_ok (s : string) : Prop := s <> "" /\ no_arrow s.

(** Reports that make sense: addresses are not empty and hold no [>], latencies are not negative. *)
Definition names_ok (op : graph_op) : Prop :=
  match op with
  | Report node => name_ok (PublicIP node) /\ Forall (fun v => name_ok (TargetIP v) /\ weight_ok (AverageLatency v)) (LinksCongestion node)
  | Remove _ => True
  end.

Definition edge_names (e : Edge) : Prop := name_ok (SourceIp e) /\ name_ok (DestinationIp e) /\ weight_ok (Latency e).

Definition graph_names (g : GraphManager) : Prop := map_Forall (fun _ e => edge_names e) (edges g).

Lemma name_ok_port ip port : name_ok ip -> name_ok (ip +:+ ":" +:+ pretty (port : Z)).
Proof.
  intros [Hne Hna]. split; [by destruct ip|]. unfold no_arrow in *. rewrite !has_char_app, Hna.
  rewrite pretty_Z_char; [done| |done]. intros n. unfold pretty_N_char. by repeat case_match.
Qed.

Section Graphs.
Context `{GoMath} `{RangeMap}.

Lemma add_link_names node g v :
  name_ok (PublicIP node) -> name_ok (TargetIP v) -> weight_ok (AverageLatency v) -> graph_names g -> graph_names (add_link node g v).
Proof.
  intros Hn Hv Hl Hg. unfold add_link. destruct (link_edge g node v) as [[[[in_ out] r] load]|] eqn:E; [|done].
  assert (Hio : name_ok in_ /\ name_ok out).
  { unfold link_edge in E. case_match; [injection E as <- <- _ _; split; [done|by apply name_ok_port]|].
    destruct (nodes g !! TargetIP v); [|done]. injection E as <- <- _ _. done. }
  apply map_Forall_insert_2; [|done]. destruct (edges g !! edge_key in_ out) as [old|] eqn:Eo; [by apply (Hg _ _ Eo)|]. by destruct Hio.
Qed.

Lemma apply_op_names g op : names_ok op -> graph_names g -> graph_names (apply_op g op).
Proof.
  destruct op as [node|id]; cbn [apply_op names_ok]; intros Hop Hg.
  - destruct Hop as [Hn Hl]. unfold AddNode.
    assert (Hg0 : graph_names (mkGraph (edges g) (<[PublicIP node := node]> (nodes g)))) by exact Hg.
    revert Hg0. generalize (mkGraph (edges g) (<[PublicIP node := node]> (nodes g))) as g0.
    induction Hl as [|v l [Hv Hlat] Hl IH]; intros g0 Hg0; [done|]. by apply IH, add_link_names.
  - intros k e He. cbn [RemoveNode edges] in He. apply map_lookup_filter_Some in He as [He _]. by apply (Hg _ _ He).
Qed.

Lemma ops_ok ops :
  Forall (fun op => op_ok op /\ names_ok op) ops ->
  graph_ok (foldl apply_op NewGraphManager ops) /\ graph_names (foldl apply_op NewGraphManager ops).
Proof.
  assert (Hg0 : graph_ok NewGraphManager /\ graph_names NewGraphManager).
  { split; [constructor; cbn; intros ?? He; by apply lookup_empty_Some in He|apply map_Forall_empty]. }
  revert Hg0. generalize NewGraphManager. induction ops as [|op ops IH]; intros g [Hg Hn] Hops; [done|].
  apply Forall_cons in Hops as [[Ho Hna] Hops]. cbn [foldl]. apply IH; [|done]. split; [|by apply apply_op_names].
  destruct op; [by apply AddNode_ok|by apply RemoveNode_ok].
Qed.

Lemma graph_edges_ok g : graph_ok g -> graph_names g -> Forall (fun e => edge_ok false e /\ weight_ok (Latency e)) (GetEdges g).
Proof.
  intros Hg Hn. unfold GetEdges. apply Forall_fmap, Forall_forall. intros [k e] He. rewrite range_map_perm in He. apply elem_of_map_to_list in He.
  destruct (ok_edges _ Hg _ _ He) as (_ & Hw & _). destruct (Hn _ _ He) as ([? ?] & [? ?] & ?). done.
Qed.

(** What a route request over the graph [g] may be answered: routes only for an algorithm that exists. *)
Definition middle_answer (g : GraphManager) (start end_ algorithm : string) (answer : go routing_info) : Prop :=
  let es := GetEdges g in
  let absent s := forall e, e ∈ es -> SourceIp e <> s /\ DestinationIp e <> s in
  match answer with
  | Panic => algorithm <> "k_shortest" /\ algorithm <> "live_style"
  | Ret NoAnswer => False
  | Ret (Routing paths) =>
      (algorithm = "k_shortest" /\
       Forall (fun p => simple_path (build_graph es) start end_ (Hops p)) paths /\ NoDup (Hops <$> paths) /\
       (length paths <= 3)%nat /\ StronglySorted (fun p q => flt (Rtt q) (Rtt p) = false) paths /\
       (paths = [] -> absent start \/ absent end_ \/ cut_off (NewKShortestSolver es 3) (build_graph es) start end_ ∅ ∅)) \/
      (algorithm = "live_style" /\
       Forall (fun p => simple_path (build_graph es) start end_ (Hops p) /\ (length (Hops p) <= 11)%nat) paths /\ NoDup (Hops <$> paths) /\
       (length paths <= 2)%nat /\ StronglySorted (fun p q => flt (RawRTT q) (RawRTT p) = false) paths /\
       (paths = [] -> absent start \/ absent end_ \/ cut_off (NewKShortestSolver es 5) (build_graph es) start end_ ∅ ∅ \/
          exists candidates, yensAlgorithm (NewKShortestSolver es 5) start end_ (build_graph es) = Paths candidates /\
            Forall (fun p => (11 < length (hops p))%nat) candidates))
  end.

Lemma k_shortest_ok g start end_ :
  graph_ok g -> graph_names g -> middle_answer g start end_ "k_shortest" (MiddleRouting g start end_ "k_shortest").
Proof.
  intros Hg Hn. pose proof (graph_edges_ok g Hg Hn) as He. unfold middle_answer, MiddleRouting, InitMiddleInterface. cbn [String.eqb Ascii.eqb Bool.eqb].
  pose proof (Computing_ok (GetEdges g) 3 false start end_ (Forall_impl _ _ _ He (fun e => @proj1 _ _))) as Hc.
  change (NewKShortestSolverWithLatency (GetEdges g) 3 false) with (NewKShortestSolver (GetEdges g) 3) in Hc. cbv zeta in Hc |- *.
  assert (Hnil : forall P, P -> Forall (fun p => simple_path (build_graph (GetEdges g)) start end_ (Hops p)) [] /\ NoDup (Hops <$> []) /\
    (length (@nil PathInfo) <= 3)%nat /\ StronglySorted (fun p q => flt (Rtt q) (Rtt p) = false) [] /\ (@nil PathInfo = [] -> P))
    by (intros P HP; split_and!; [constructor|constructor|simpl; lia|constructor|done]).
  cbn [middle_Computing]. destruct (Computing (NewKShortestSolver (GetEdges g) 3) start end_) as [l| | | |]; try done; left; (split; [done|]); try (apply Hnil; auto).
  destruct Hc as (HF & HN & Hlen & Hs). change (ks_k (NewKShortestSolver (GetEdges g) 3)) with 3%nat in Hlen. split_and!.
  - apply Forall_fmap. eapply Forall_impl; [exact HF|]. done.
  - rewrite <- list_fmap_compose. exact HN.
  - rewrite length_fmap. lia.
  - clear -Hs. induction Hs as [|r l Hs IH Hr]; [constructor|]. rewrite fmap_cons. constructor; [done|]. by apply Forall_fmap.
  - intros Hl. apply fmap_nil_inv in Hl as ->. simpl in Hlen. lia.
Qed.

(** The routes that the LiveNet solver selects are among its candidates. *)
Lemma live_selected (P : list string -> Prop) candidates l rest :
  Forall (fun p => P (hops p)) candidates -> NoDup (hops <$> candidates) ->
  l ++ rest ≡ₚ path_info <$> List.filter (fun p => (length (hops p) <=? 11)%nat) candidates ->
  Forall (fun p => P (Hops p) /\ (length (Hops p) <= 11)%nat) l /\ NoDup (Hops <$> l).
Proof.
  intros HF HN Hp. split.
  - apply Forall_forall. intros x Hx. assert (Hin : x ∈ path_info <$> List.filter (fun p => (length (hops p) <=? 11)%nat) candidates) by (rewrite <- Hp; apply elem_of_app; by left).
    apply list_elem_of_fmap in Hin as (p & -> & Hin). apply list_elem_of_In, filter_In in Hin as [Hin Hl]. rewrite Forall_forall in HF. cbn. bool_prop.
    split; [by apply HF, list_elem_of_In|done].
  - apply (fmap_Permutation Hops) in Hp. rewrite fmap_app, <- list_fmap_compose in Hp. change (Hops ∘ path_info) with hops in Hp.
    assert (Hnd : NoDup (hops <$> List.filter (fun p => (length (hops p) <=? 11)%nat) candidates)).
    { clear -HN. induction candidates as [|p c IH]; [constructor|]. rewrite fmap_cons in HN. apply NoDup_cons in HN as [Hn HN]. cbn. case_match; [|by apply IH].
      rewrite fmap_cons. apply NoDup_cons. split; [|by apply IH]. intros (q & Hq & Hin)%list_elem_of_fmap. apply Hn. rewrite Hq. apply list_elem_of_fmap_2.
      by apply list_elem_of_In, filter_In, proj1, list_elem_of_In in Hin. }
    rewrite <- Hp in Hnd. by apply NoDup_app in Hnd as [? _].
Qed.

Lemma live_style_ok g start end_ :
  graph_ok g -> graph_names g -> middle_answer g start end_ "live_style" (MiddleRouting g start end_ "live_style").
Proof.
  intros Hg Hn. pose proof (graph_edges_ok g Hg Hn) as He. unfold middle_answer, MiddleRouting, InitMiddleInterface. cbn [String.eqb Ascii.eqb Bool.eqb].
  pose proof (live_Computing_ok (GetEdges g) 2 start end_ He) as Hc. cbv zeta in Hc |- *.
  change (ls_k (NewLiveStyleSolver (GetEdges g) 2)) with 2%nat in Hc.
  assert (Hnil : forall P, P -> Forall (fun p => simple_path (build_graph (GetEdges g)) start end_ (Hops p) /\ (length (Hops p) <= 11)%nat) [] /\ NoDup (Hops <$> []) /\
    (length (@nil PathInfo) <= 2)%nat /\ StronglySorted (fun p q => flt (RawRTT q) (RawRTT p) = false) [] /\ (@nil PathInfo = [] -> P))
    by (intros P HP; split_and!; [constructor|constructor|simpl; lia|constructor|done]).
  cbn [middle_Computing]. destruct (live_Computing (NewLiveStyleSolver (GetEdges g) 2) start end_) as [l| | | |]; try done; right; (split; [done|]); try (apply Hnil; auto).
  destruct Hc as (candidates & rest & Hy & HF & HN & Hlen & Hp & Hl & Hs & _).
  destruct (live_selected (simple_path (build_graph (GetEdges g)) start end_) candidates l rest HF HN Hp) as [H1 H2]. split_and!; [done|done|lia|done|].
  intros ->. right; right; right. exists candidates. split; [done|]. cbn [length] in Hl. assert (Hz : length (List.filter (fun p => (length (hops p) <=? 11)%nat) candidates) = 0%nat) by lia.
  clear -Hz. induction candidates as [|p c IH]; [constructor|]. cbn in Hz. destruct (Nat.leb_spec (length (hops p)) 11); [done|]. constructor; [done|by apply IH].
Qed.

Lemma MiddleRouting_ok g start end_ algorithm :
  graph_ok g -> graph_names g -> middle_answer g start end_ algorithm (MiddleRouting g start end_ algorithm).
Proof.
  intros Hg Hn. destruct (String.eqb_spec algorithm "k_shortest") as [->|Hk]; [by apply k_shortest_ok|].
  destruct (String.eqb_spec algorithm "live_style") as [->|Hl]; [by apply live_style_ok|].
  unfold MiddleRouting, InitMiddleInterface. by rewrite (proj2 (String.eqb_neq _ _) Hk), (proj2 (String.eqb_neq _ _) Hl).
Qed.

(** ** Properties *)

(** From reports to routes: after any sequence of node reports with measured values and of
    removals, a request is always answered.  For [k_shortest] the answer lists at most three
    pairwise different simple paths over the links of the graph, in order of non-decreasing cost,
    and is empty only when an end point is on no link or is cut off; for [live_style] it lists at
    most two different simple paths of at most ten hops, in order of non-decreasing round trip.  Only a
    request for an algorithm that does not exist panics. *)
Theorem MiddleRouting_correct ops start end_ algorithm :
  Forall (fun op => op_ok op /\ names_ok op) ops ->
  let g := foldl apply_op NewGraphManager ops in
  middle_answer g start end_ algorithm (MiddleRouting g start end_ algorithm).
Proof. intros Hok g. destruct (ops_ok ops Hok) as [Hg Hn]. exact (MiddleRouting_ok g start end_ algorithm Hg Hn). Qed.
End Graphs.

Section LastProofs.
Context `{GoMath} `{RangeMap} `{SS : SortSlice nodeScore score_less score_number}.
Context (GetIPInfo : string -> option (string * string * string)) (local : string).

Definition last_algorithms : list string := ["lyapunov"; "latency_only"; "cpu_only"; "joint_cpu_latency"; "p2c"; "ewma_based"].

Lemma SetAlpha_default : exists a l, NewEWMARouter = SetAlpha NewEWMARouter a l.
Proof. by exists (lit 3 10), (lit 1 2). Qed.

Lemma last_solver_hops nodeTel edgeAgg s source algorithm cpu lat :
  nodes_ok nodeTel -> nodeTel <> ∅ -> InitLastInterface algorithm cpu lat = Some s ->
  Hops <$> last_Computing local nodeTel edgeAgg s source ≡ₚ (fun ip => [ip]) <$> addresses nodeTel.
Proof.
  intros Hok Hne. unfold InitLastInterface. repeat case_match; intros [= <-]; cbn [last_Computing]; try (apply joint_ranks, Hok).
  - apply lyapunov_ranks, Hok.
  - rewrite p2c_hops. apply fmap_Permutation. destruct (node_ips_cases nodeTel local Hok) as [[? _]|[? _]]; done.
  - apply ewma_hops, Hok.
  - destruct SetAlpha_default as (a & l & ->). apply ewma_hops, Hok.
Qed.

End LastProofs.

(** ** Instances *)

Definition hops_of (r : go routing_info) : list (list string) := match r with Ret (Routing l) => Hops <$> l | _ => [] end.

Definition one_report : list graph_op := [Report (sample_node 75)].

Lemma one_report_ok : Forall (fun op => op_ok op /\ names_ok op) one_report.
Proof.
  constructor; [|constructor]. split; [apply sample_report_ok|]. split; [done|]. constructor; [|constructor]. by vm_compute.
Qed.

Lemma MiddleRouting_correct_witness :
  let g := foldl (@apply_op toy_math) NewGraphManager one_report in
  hops_of (@MiddleRouting key_order g "10.0.0.1" "10.0.0.9:8080" "k_shortest") = [["10.0.0.1"; "10.0.0.9:8080"]] /\
  @MiddleRouting key_order g "10.0.0.1" "10.0.0.9:8080" "k_shortest" <> Panic.
Proof.
  intros g. split; [vm_compute; reflexivity|]. intros Hp.
  pose proof (@MiddleRouting_correct toy_math key_order one_report "10.0.0.1" "10.0.0.9:8080" "k_shortest" one_report_ok) as Hc.
  cbv zeta in Hc. fold g in Hc. rewrite Hp in Hc. by destruct Hc.
Defined.

Definition known_user (ip : string) : option (string * string * string) := Some ("FR", "Paris", "EU").


End Routing.
