(* ===== verification/Server.v ===== *)
(** * The client-facing servers (data-proxy/server/: tcp-server.go, udp-server.go, routing.go, handler.go)

    What a proxy does with a client connection: read one request line, find a route (in a cache with a
    deadline, refreshed in the background), hand the request to the aggregator and wait for the
    response.  A handler is a function from the shared state and what the environment does (bytes
    read, times, answers) to the new state and the list of its actions in order; [Panic] is a crash of
    the process, since no goroutine recovers. *)

From Stdlib Require Import ZArith Lia SpecFloat Ascii String.
From stdpp Require Import base list gmap strings.
From S2P Require Import Prelude GoStrings F64 Packet Tunnel Disaggregator Aggregator.
Import TunnelPacket ReqID Aggregator.

Module Server.

Local Open Scope Z_scope.

(** ** Data *)

Record PathInfo := mkPath { p_Hops : list string; p_Rtt : float64; p_RawRTT : float64 }.

Abbreviation RoutingInfo := (list PathInfo).

(** What the control plane answered; the message is only logged. *)
Record RoutingResponse := mkResponse { Code : Z; rr_Data : RoutingInfo }.

Record routingInfo := mkRI { ri_info : RoutingInfo; ri_deadline : Z }.

Definition second : Z := 1000 * millisecond.
Definition routeTimeout : Z := second.
Definition proxyTimeout : Z := 10 * second.
Definition accessWindow : Z := 5 * second.

(** The package variables a handler shares with the others. *)
Record globals := mkGlobals {
  routingMap : gmap Z routingInfo;
  accessLogMap : gmap string Z;
  reqSeq : Z
}.

Inductive action :=
| LogAccess (clientIP : string) (reqID : Z) (connRtMs : float64)
| StartRefresh (port : Z)               (* go func() { GetRoutingFromControlPlane ... } *)
| Register (reqID : Z)                  (* disaggregator.GlobalDisagg.Register *)
| AddToBatch (msg : aggregatorMsg)      (* aggregator.GlobalAggRequest.AddToBatch *)
| WriteClient (data : bytes)
| Cleanup (reqID : Z)                   (* the function that Register returned *)
| DirectOrigin (addr : string) (data : bytes)
| CloseConn.

(** How the wait on the channel ends. *)
Inductive reply := Response (data : bytes) | ChanClosed | TimedOut.

(** ** Reading from a client

    A connection is the list of what its [Read] calls return, then EOF or an error.  A
    [bufio.Reader] keeps what it has read beyond the line. *)

Definition newline : Z := 10.

Fixpoint cut_line (l : bytes) : option (bytes * bytes) :=
  match l with
  | [] => None
  | b :: rest =>
      if b =? newline then Some ([b], rest)
      else match cut_line rest with
           | Some (line, more) => Some (b :: line, more)
           | None => None
           end
  end.

(** [reader.ReadBytes('\n')] with [buf] in the reader: the line, what stays in the reader and the
    reads still to come. *)
Fixpoint ReadBytes (buf : bytes) (chunks : list bytes) : option (bytes * bytes * list bytes) :=
  match cut_line buf with
  | Some (line, left_) => Some (line, left_, chunks)
  | None =>
      match chunks with
      | [] => None
      | c :: rest => ReadBytes (buf ++ c) rest
      end
  end.

(** ** The round trip of a connection *)

(** What the kernel says of a connection: it is not a TCP connection, there is no raw connection, the
    raw connection is closed, the system call fails or gives nothing; or the smoothed round trip in microseconds. *)
Inductive tcp_socket := NotTCPConn | NoSyscallConn | ControlFails | SockoptFails | NilInfo | TCPInfo (rtt : Z).

(** On Linux; elsewhere every connection is answered like [NotTCPConn].  Milliseconds, -1 is an error. *)
Definition getTCPRTT (conn : tcp_socket) : float64 :=
  match conn with
  | TCPInfo rtt => fdiv (of_Z rtt) (of_Z 1000)
  | _ => of_Z (-1)
  end.

Definition getTCPRTT_stub (conn : tcp_socket) : float64 := of_Z (-1).

(** ** The access log *)

Definition shouldLogAccess (m : gmap string Z) (clientIP : string) (now : Z) : gmap string Z * bool :=
  match m !! clientIP with
  | None => (<[clientIP := now]> m, true)
  | Some lastTime => if accessWindow <=? now - lastTime then (<[clientIP := now]> m, true) else (m, false)
  end.

(** ** Routes *)

(** [resp] is [None] when the request could not be made, sent, read or decoded. *)
Definition GetRoutingFromControlPlane (TestPathMap : gmap Z string) (public : string)
    (resp : option RoutingResponse) (port : Z) : RoutingInfo :=
  let remote := match resp with
                | None => []
                | Some r => if Code r =? 200 then rr_Data r else []
                end in
  match TestPathMap !! port with
  | Some path =>
      let hops := Split path "," in
      match hops with
      | h :: _ :: _ => if String.eqb h public then [mkPath hops fzero fzero] else remote
      | _ => remote
      end
  | None => remote
  end.

Definition store_route (m : gmap Z routingInfo) (port : Z) (info : RoutingInfo) (now : Z) : gmap Z routingInfo :=
  <[port := mkRI info (now + routeTimeout)]> m.

(** The route of a port: fetched when there is none, else the cached one, with a refresh in the
    background when its deadline has passed.  [fetched] is what the control plane answers now. *)
Definition lookup_route (m : gmap Z routingInfo) (port : Z) (fetched : RoutingInfo) (check store_ : Z) :
    RoutingInfo * gmap Z routingInfo * list action :=
  match m !! port with
  | None => (fetched, store_route m port fetched store_, [])
  | Some ri => if ri_deadline ri <? check then (ri_info ri, m, [StartRefresh port]) else (ri_info ri, m, [])
  end.

(** The first path with more than two hops, else the first path. *)
Definition choose_path (routing : RoutingInfo) : option PathInfo :=
  match List.find (fun p => (2 <? length (p_Hops p))%nat) routing with
  | Some p => Some p
  | None => head routing
  end.

(** The loop over the hops: the addresses, and the port of the last hop that has one. *)
Fixpoint split_hops (hs : list string) (port_ : string) : list string * string :=
  match hs with
  | [] => ([], port_)
  | h :: rest =>
      let '(h1, port1) :=
        (if Contains h ":" then
           match Split h ":" with
           | a :: b :: _ => (a, b)
           | _ => (h, port_)          (* not reached: the separator occurs *)
           end
         else (h, port_)) in
      let '(hops, p) := split_hops rest port1 in (h1 :: hops, p)
  end.

Section Handlers.
Context `{IPv6Parser}.

(** The message for a path; [pathInfo.Hops[1]] panics when there is no second hop. *)
Definition request_msg (emerge : bool) (protocol : string) (pathInfo : PathInfo) (reqID : Z) (data : bytes) : go aggregatorMsg :=
  match p_Hops pathInfo !! 1%nat with
  | None => Panic
  | Some h1 =>
      let '(hops, port_) := split_hops (p_Hops pathInfo) "" in
      Ret (mkMsg emerge (Join hops ",") protocol (ParseUint16 port_) hops (HopIPToNet h1) reqID data)
  end.

(** What the environment contributes to one request. *)
Record env := mkEnvt {
  e_conn : tcp_socket;         (* what the kernel says of the connection *)
  e_access : Z;                (* the time of shouldLogAccess *)
  e_check : Z;                 (* the time compared with the deadline *)
  e_store : Z;                 (* the time the fetched route is stored *)
  e_fetched : RoutingInfo;     (* what GetRoutingFromControlPlane returns *)
  e_reply : reply;
  e_origin : option (list bytes)  (* a direct connection to the origin: None when the dial fails, else what it sends *)
}.

Definition next_id (g : globals) (clientIP : string) : globals * Z :=
  let '(seq, id) := GenShortReqID (reqSeq g) (HopIPToNet clientIP) in
  (mkGlobals (routingMap g) (accessLogMap g) seq, id).

Definition log_access (g : globals) (clientIP : string) (reqID : Z) (e : env) : globals * list action :=
  let tcpRTT := getTCPRTT (e_conn e) in
  if flt fzero tcpRTT then
    let '(m, logged) := shouldLogAccess (accessLogMap g) clientIP (e_access e) in
    (mkGlobals (routingMap g) m (reqSeq g), if logged : bool then [LogAccess clientIP reqID tcpRTT] else [])
  else (g, []).

(** The write is attempted even after the channel was closed, with no bytes. *)
Definition answer (r : reply) : list action :=
  match r with
  | Response d => [WriteClient d]
  | ChanClosed => [WriteClient []]
  | TimedOut => []
  end.

(** What happens when the wait ends: [handleConnection] defers the removal of the waiter to its end, after the write;
    [handleConnectionKeepAlive] ([kept]) removes it before it writes. *)
Definition end_wait (kept : bool) (reqID : Z) (r : reply) : list action :=
  if kept then Cleanup reqID :: answer r else answer r ++ [Cleanup reqID].

(** From the request line to the end of the wait, which the two TCP handlers have in common but for [end_wait]: the new state, the actions, and whether the
    request was handed to the aggregator. *)
Definition exchange (kept : bool) (g : globals) (clientIP : string) (port reqID : Z) (data : bytes) (e : env) :
    go (globals * list action * bool) :=
  let '(g1, log) := log_access g clientIP reqID e in
  let '(routeInfo, m, refresh) := lookup_route (routingMap g1) port (e_fetched e) (e_check e) (e_store e) in
  let g2 := mkGlobals m (accessLogMap g1) (reqSeq g1) in
  match choose_path routeInfo with
  | None => Ret (g2, log ++ refresh, false)
  | Some pathInfo =>
      let! msg := request_msg false "tcp" pathInfo reqID data in
      Ret (g2, log ++ refresh ++ [Register reqID; AddToBatch msg] ++ end_wait kept reqID (e_reply e), true)
  end.

Definition handleConnection (g : globals) (clientIP : string) (port : Z) (chunks : list bytes) (e : env) :
    go (globals * list action) :=
  let '(g1, reqID) := next_id g clientIP in
  match ReadBytes [] chunks with
  | None => Ret (g1, [CloseConn])
  | Some (data, _, _) =>
      let! (g2, acts, _) := exchange false g1 clientIP port reqID data e in
      Ret (g2, acts ++ [CloseConn])
  end.

(** The loop of a kept-alive connection: each round makes a new reader, so what the previous one
    had buffered is gone.  A round comes with its environment and the time of its last check. *)
Fixpoint keepalive_loop (g : globals) (clientIP : string) (port reqID connDeadline : Z) (chunks : list bytes)
    (rounds : list (env * Z)) : go (globals * list action) :=
  match rounds with
  | [] => Ret (g, [])                    (* still waiting for the next line *)
  | (e, now) :: rest =>
      match ReadBytes [] chunks with
      | None => Ret (g, [CloseConn])
      | Some (data, _, chunks') =>
          match data with
          | [] => Ret (g, [CloseConn])
          | _ =>
              let! (g1, acts, served) := exchange true g clientIP port reqID data e in
              if served : bool then
                let '(g2, reqID') := next_id g1 clientIP in
                if connDeadline <? now then Ret (g2, acts ++ [CloseConn])
                else let! (g3, more) := keepalive_loop g2 clientIP port reqID' connDeadline chunks' rest in
                     Ret (g3, acts ++ more)
              else Ret (g1, acts ++ [CloseConn])
          end
      end
  end.

Definition handleConnectionKeepAlive (g : globals) (clientIP : string) (port keepAliveTime connStart : Z)
    (chunks : list bytes) (rounds : list (env * Z)) : go (globals * list action) :=
  let '(g1, reqID) := next_id g clientIP in
  keepalive_loop g1 clientIP port reqID (connStart + keepAliveTime) chunks rounds.

(** Asking the origin directly over TCP ([written]: the write succeeds): the line it answers is
    passed on. *)
Definition directOriginProxy (originAddr : string) (data : bytes) (written : bool) (e : env) : list action * bool :=
  match e_origin e with
  | None => ([], false)
  | Some reads =>
      if negb written then ([DirectOrigin originAddr data], false)
      else match ReadBytes [] reads with
           | None => ([DirectOrigin originAddr data], false)
           | Some (resp, _, _) => ([DirectOrigin originAddr data; WriteClient resp], true)
           end
  end.

(** The same over UDP: one datagram each way; the result of the write is ignored. *)
Definition DirectOriginProxy (originAddr : string) (data : bytes) (e : env) : list action :=
  match e_origin e with
  | None => []
  | Some [] => [DirectOrigin originAddr data]
  | Some (resp :: _) => [DirectOrigin originAddr data; WriteClient (take (Z.to_nat 65535) resp)]
  end.

Definition udp_answer (r : reply) : list action :=
  match r with
  | Response d => [WriteClient d]
  | ChanClosed | TimedOut => []
  end.

(** A datagram: [allowed] is the verdict of the rate limiter.  Paths of at most two hops are served by
    the origin directly. *)
Definition handleUDPConnection (g : globals) (clientIP : string) (port : Z) (data : bytes) (allowed : bool) (e : env) :
    go (globals * list action) :=
  if negb allowed then Ret (g, [])
  else
    let '(g1, reqID) := next_id g clientIP in
    let '(routeInfo, m, refresh) := lookup_route (routingMap g1) port (e_fetched e) (e_check e) (e_store e) in
    let g2 := mkGlobals m (accessLogMap g1) (reqSeq g1) in
    match routeInfo with
    | [] => Ret (g2, refresh)
    | pathInfo :: _ =>
        if (length (p_Hops pathInfo) <=? 2)%nat then
          match last (p_Hops pathInfo) with
          | None => Panic
          | Some originAddr => Ret (g2, refresh ++ DirectOriginProxy originAddr data e)
          end
        else
          let! msg := request_msg true "udp" pathInfo reqID data in
          Ret (g2, refresh ++ [Register reqID; AddToBatch msg] ++ udp_answer (e_reply e) ++ [Cleanup reqID])
    end.
End Handlers.

(** ** Proofs *)

Definition submitted (acts : list action) : list aggregatorMsg :=
  omap (fun a => match a with AddToBatch m => Some m | _ => None end) acts.

Definition registered (acts : list action) : list Z :=
  omap (fun a => match a with Register id => Some id | _ => None end) acts.

(** A trace in which every waiter is registered before its request is handed over, and is removed before anything else
    happens but at most one write to the client, before or after the removal. *)
Inductive bracketed : list action -> Prop :=
| br_nil : bracketed []
| br_log ip id rt l : bracketed l -> bracketed (LogAccess ip id rt :: l)
| br_refresh port l : bracketed l -> bracketed (StartRefresh port :: l)
| br_direct addr d ans l :
    (ans = [] \/ exists d, ans = [WriteClient d]) -> bracketed l -> bracketed (DirectOrigin addr d :: ans ++ l)
| br_close : bracketed [CloseConn]
| br_request msg before after l :
    (before ++ after = [] \/ exists d, before ++ after = [WriteClient d]) -> bracketed l ->
    bracketed (Register (m_userID msg) :: AddToBatch msg :: before ++ Cleanup (m_userID msg) :: after ++ l).

#[local] Hint Constructors bracketed : core.

Lemma submitted_app l1 l2 : submitted (l1 ++ l2) = submitted l1 ++ submitted l2.
Proof. apply omap_app. Qed.

Lemma registered_app l1 l2 : registered (l1 ++ l2) = registered l1 ++ registered l2.
Proof. apply omap_app. Qed.

(** A path the TCP handlers can use. *)
Definition usable (r : RoutingInfo) : Prop := exists p, choose_path r = Some p /\ (2 <= length (p_Hops p))%nat.

Definition cache_usable (g : globals) (port : Z) : Prop :=
  forall ri, routingMap g !! port = Some ri -> usable (ri_info ri).

Section Proofs.
Context `{IPv6Parser}.

Lemma request_msg_fields emerge protocol p reqID data msg :
  request_msg emerge protocol p reqID data = Ret msg -> m_userID msg = reqID /\ m_data msg = data.
Proof. unfold request_msg. case_scrut; [|done]. destruct (split_hops _ _). by intros [= <-]. Qed.

Lemma request_msg_panic emerge protocol p reqID data :
  request_msg emerge protocol p reqID data = Panic <-> (length (p_Hops p) < 2)%nat.
Proof.
  unfold request_msg. destruct (p_Hops p !! 1%nat) eqn:E.
  - apply lookup_lt_Some in E. destruct (split_hops _ _). split; [done|lia].
  - apply lookup_ge_None in E. split; [lia|done].
Qed.

Lemma answer_shape r : answer r = [] \/ exists d, answer r = [WriteClient d].
Proof. destruct r; simpl; eauto. Qed.

Lemma udp_answer_shape r : udp_answer r = [] \/ exists d, udp_answer r = [WriteClient d].
Proof. destruct r; simpl; eauto. Qed.

(** The passive actions before a request. *)
Lemma preamble_bracketed g ip id e m port f c s l :
  bracketed l -> bracketed (snd (log_access g ip id e) ++ snd (lookup_route m port f c s) ++ l).
Proof.
  intros Hl. unfold log_access, lookup_route, shouldLogAccess.
  repeat (case_match; simplify_eq/=); auto.
Qed.

Lemma log_access_same g ip id e :
  routingMap (fst (log_access g ip id e)) = routingMap g /\ reqSeq (fst (log_access g ip id e)) = reqSeq g /\
  submitted (snd (log_access g ip id e)) = [] /\ registered (snd (log_access g ip id e)) = [].
Proof. unfold log_access. repeat (case_match; simplify_eq/=); auto. Qed.

(** The round trip that the kernel gives is positive in milliseconds when it is in microseconds, and no
    other answer is. *)
Lemma getTCPRTT_pos conn : flt fzero (getTCPRTT conn) = match conn with TCPInfo rtt => 0 <? rtt | _ => false end.
Proof.
  destruct conn as [| | | | |rtt]; try reflexivity. cbn [getTCPRTT]. destruct (Z.ltb_spec 0 rtt) as [Hr|Hr].
  - destruct (of_Z_pos rtt) as (Hv & Hp & He); [lia|]. by apply thousandth_pos.
  - destruct rtt as [|p|p]; [reflexivity|lia|]. unfold of_Z at 1. cbn [binary_normalize]. unfold binary_round.
    destruct (shl_align _ _ _) as [m' e']. pose proof (round_aux_sign true (Zpos m') e' loc_Exact ltac:(lia)) as Hs.
    destruct (binary_round_aux _ _ _ _ _ _) as [[]|[]| |[] mx ex]; try done.
    pose proof (fdiv_sign true mx ex false 8796093022208000 (-43)) as Hd. change (of_Z 1000) with (S754_finite false 8796093022208000 (-43)).
    by destruct (fdiv _ _) as [[]|[]| |[]].
Qed.

(** A request is logged exactly when the kernel knows a round trip of its connection and its client was
    not logged within the window, and then with that round trip. *)
Theorem log_access_spec g clientIP reqID e :
  snd (log_access g clientIP reqID e) =
    match e_conn e with
    | TCPInfo rtt =>
        if (0 <? rtt) && match accessLogMap g !! clientIP with Some t => accessWindow <=? e_access e - t | None => true end
        then [LogAccess clientIP reqID (fdiv (of_Z rtt) (of_Z 1000))] else []
    | _ => []
    end.
Proof.
  unfold log_access. rewrite getTCPRTT_pos. destruct (e_conn e) as [| | | | |rtt]; try done. destruct (0 <? rtt); [|done]. unfold shouldLogAccess.
  destruct (accessLogMap g !! clientIP) as [t|]; [|done]. by destruct (accessWindow <=? e_access e - t).
Qed.

Lemma lookup_route_passive m port f c s :
  submitted (snd (lookup_route m port f c s)) = [] /\ registered (snd (lookup_route m port f c s)) = [].
Proof. unfold lookup_route. repeat (case_match; simplify_eq/=); auto. Qed.

Lemma exchange_bracketed kept g ip port id data e g' acts served l :
  exchange kept g ip port id data e = Ret (g', acts, served) -> bracketed l -> bracketed (acts ++ l).
Proof.
  unfold exchange. intros Hx Hl.
  pose proof (preamble_bracketed g ip id e (routingMap (fst (log_access g ip id e))) port (e_fetched e) (e_check e) (e_store e)) as Hp.
  destruct (log_access g ip id e) as [g1 log]. cbn [fst snd] in Hp.
  destruct (lookup_route _ _ _ _ _) as [[r m] refresh]. cbn [snd] in Hp.
  destruct (choose_path r) as [p|].
  - apply go_bind_Ret in Hx as (msg & Hm & [= <- <- <-]). apply request_msg_fields in Hm as [<- _].
    rewrite <- !app_assoc. apply Hp. cbn [app]. unfold end_wait. destruct kept; cbn [app].
    + apply (br_request msg [] (answer (e_reply e))); [apply answer_shape|done].
    + rewrite <- app_assoc. apply (br_request msg (answer (e_reply e)) []); [rewrite app_nil_r; apply answer_shape|done].
  - injection Hx as <- <- <-. rewrite <- app_assoc. by apply Hp.
Qed.

(** One round on a usable route hands over its request. *)
Lemma exchange_served kept g ip port id data e :
  usable (e_fetched e) -> cache_usable g port ->
  exists g' acts msg, exchange kept g ip port id data e = Ret (g', acts, true) /\ cache_usable g' port /\
    reqSeq g' = reqSeq g /\ submitted acts = [msg] /\ registered acts = [id] /\ m_userID msg = id /\ m_data msg = data.
Proof.
  intros Hf Hc. unfold exchange.
  destruct (log_access_same g ip id e) as (Hm & Hs & Hsub & Hreg).
  destruct (log_access g ip id e) as [g1 log]. cbn [fst snd] in *. rewrite Hm.
  pose proof (lookup_route_passive (routingMap g) port (e_fetched e) (e_check e) (e_store e)) as [Hsub2 Hreg2].
  assert (Hu : let '(r, m, _) := lookup_route (routingMap g) port (e_fetched e) (e_check e) (e_store e) in
               usable r /\ (forall ri, m !! port = Some ri -> usable (ri_info ri))).
  { unfold lookup_route, store_route. destruct (routingMap g !! port) as [ri|] eqn:E.
    - destruct (ri_deadline ri <? e_check e); split; auto.
    - split; [done|]. intros ri. rewrite lookup_insert_eq. by intros [= <-]. }
  destruct (lookup_route _ _ _ _ _) as [[r m] refresh]. cbn [snd] in *.
  destruct Hu as [(p & -> & Hp) Hm'].
  destruct (request_msg false "tcp" p id data) as [msg|] eqn:Er; [|apply request_msg_panic in Er; lia].
  pose proof (request_msg_fields _ _ _ _ _ _ Er) as [Hid Hd]. cbn [go_bind].
  eexists _, _, msg. split; [done|]. split; [done|]. split; [done|].
  rewrite !submitted_app, !registered_app, Hsub, Hsub2, Hreg, Hreg2.
  unfold end_wait. destruct kept, (e_reply e); simpl; by rewrite ?Hid.
Qed.

Lemma ReadBytes_line c rest : cut_line c = Some (c, []) -> ReadBytes [] (c :: rest) = Some (c, [], rest).
Proof. intros Hc. cbn [ReadBytes cut_line app]. destruct rest; cbn [ReadBytes]; by rewrite Hc. Qed.

Lemma exchange_registered kept g ip port id data e g' acts :
  exchange kept g ip port id data e = Ret (g', acts, true) -> registered acts = [id].
Proof.
  unfold exchange. destruct (log_access_same g ip id e) as (_ & _ & _ & Hreg). destruct (log_access g ip id e) as [g1 log]. cbn [fst snd] in *.
  pose proof (lookup_route_passive (routingMap g1) port (e_fetched e) (e_check e) (e_store e)) as [_ Hreg2].
  destruct (lookup_route _ _ _ _ _) as [[r m] refresh]. cbn [snd] in *. destruct (choose_path r) as [p|]; [|done].
  intros (msg & _ & [= <- <-])%go_bind_Ret. rewrite !registered_app, Hreg, Hreg2. unfold end_wait. by destruct kept, (e_reply e).
Qed.

(** The loop ends with the connection closed, unless it waits for a line after as many requests as it had rounds. *)
Lemma keepalive_bracketed ip port dl rounds : forall g id chunks g' acts,
  keepalive_loop g ip port id dl chunks rounds = Ret (g', acts) ->
  bracketed acts /\ (last acts = Some CloseConn \/ length (registered acts) = length rounds).
Proof.
  induction rounds as [|[e now] rounds IH]; intros g id chunks g' acts; cbn [keepalive_loop]; [intros [= <- <-]; auto|].
  destruct (ReadBytes [] chunks) as [[[line l1] chunks']|]; [|intros [= <- <-]; auto].
  destruct line; [intros [= <- <-]; auto|]. intros ([[g1 a] sv] & Hx & Hk)%go_bind_Ret.
  pose proof (fun l => exchange_bracketed _ _ _ _ _ _ _ _ _ _ l Hx) as Hb.
  destruct sv; [|injection Hk as <- <-; split; [auto|left; by rewrite last_snoc]]. destruct (next_id g1 ip) as [g2 id'].
  destruct (dl <? now); [injection Hk as <- <-; split; [auto|left; by rewrite last_snoc]|].
  apply go_bind_Ret in Hk as ([g3 more] & Hk & [= <- <-]). destruct (IH _ _ _ _ _ Hk) as [Hm Hl]. split; [auto|]. destruct Hl as [Hl|Hl].
  - left. by rewrite last_app, Hl.
  - right. rewrite registered_app, (exchange_registered _ _ _ _ _ _ _ _ _ Hx). cbn. by rewrite Hl.
Qed.

(** A request crashes its handler when the chosen path has no second hop. *)
Lemma exchange_panics kept g ip port id data e :
  exchange kept g ip port id data e = Panic <->
  exists p, choose_path (lookup_route (routingMap g) port (e_fetched e) (e_check e) (e_store e)).1.1 = Some p /\ (length (p_Hops p) < 2)%nat.
Proof.
  unfold exchange. destruct (log_access_same g ip id e) as (Hm & _). destruct (log_access g ip id e) as [g1 log]. cbn [fst] in *. rewrite Hm.
  destruct (lookup_route _ _ _ _ _) as [[r m] refresh]. cbn [fst]. destruct (choose_path r) as [p|]; [|naive_solver].
  pose proof (request_msg_panic false "tcp" p id data) as Hp. destruct (request_msg false "tcp" p id data); naive_solver.
Qed.

Lemma cut_line_ne l line more : cut_line l = Some (line, more) -> line <> [].
Proof. destruct l as [|b l]; [done|]. cbn [cut_line]. repeat case_match; naive_solver. Qed.

Lemma ReadBytes_ne buf chunks line more rest : ReadBytes buf chunks = Some (line, more, rest) -> line <> [].
Proof.
  revert buf. induction chunks as [|c chunks IH]; intros buf; cbn [ReadBytes]; destruct (cut_line buf) as [[l1 m1]|] eqn:E; try done;
    try (intros [= <- _ _]; by eapply cut_line_ne). apply IH.
Qed.

Lemma next_id_spec g ip :
  fits 64 (reqSeq g + 1) ->
  next_id g ip = (mkGlobals (routingMap g) (accessLogMap g) (reqSeq g + 1), id_of (HopIPToNet ip) (reqSeq g + 1)).
Proof.
  intros Hf. unfold next_id, id_of. replace (reqSeq g + 1 - 1) with (reqSeq g) by lia.
  unfold GenShortReqID. by rewrite (wrap_id 64) by done.
Qed.

Definition ids_from (ip : bytes) (seq : Z) (n : nat) : list Z := id_of ip <$> seqZ seq (Z.of_nat n).

Lemma ids_from_nodup ip seq n :
  Forall (fits 8) ip -> length ip = 4%nat -> 0 <= seq -> seq + Z.of_nat n <= 2 ^ 64 -> Z.of_nat n <= 2 ^ 24 ->
  NoDup (ids_from ip seq n).
Proof.
  intros Hb Hl H0 H64 Hn. apply NoDup_fmap_2_strong; [|apply NoDup_seqZ].
  intros x y Hx Hy He. apply elem_of_seqZ in Hx, Hy.
  by apply (id_of_unique ip x y); try done; unfold fits; lia.
Qed.

Lemma keepalive_loop_serves ip port dl : forall lines g rounds,
  Forall (fun c => cut_line c = Some (c, [])) lines -> (length lines < length rounds)%nat ->
  Forall (fun r => usable (e_fetched (fst r)) /\ snd r <= dl) rounds -> cache_usable g port ->
  fits 64 (reqSeq g) -> reqSeq g + Z.of_nat (length lines) < 2 ^ 64 ->
  exists g' acts, keepalive_loop g ip port (id_of (HopIPToNet ip) (reqSeq g)) dl lines rounds = Ret (g', acts ++ [CloseConn]) /\
    m_data <$> submitted acts = lines /\ m_userID <$> submitted acts = registered acts /\
    registered acts = ids_from (HopIPToNet ip) (reqSeq g) (length lines) /\ bracketed (acts ++ [CloseConn]).
Proof.
  induction lines as [|c lines IH]; intros g [|[e now] rounds] Hl Hn Hr Hc Hf Hs; simpl in Hn; try lia.
  - exists g, []. simpl. auto.
  - apply Forall_cons in Hl as [Hl0 Hl]. apply Forall_cons in Hr as [[Hu Hnow] Hr]. cbn [fst snd length] in *.
    cbn [keepalive_loop]. rewrite ReadBytes_line by done. destruct c as [|b c]; [done|].
    destruct (exchange_served true g ip port (id_of (HopIPToNet ip) (reqSeq g)) (b :: c) e Hu Hc) as (g1 & acts & msg & Hx & Hc1 & Hs1 & Hsub & Hreg & Hid & Hd).
    rewrite Hx. cbn [go_bind]. rewrite next_id_spec by (unfold fits in *; rewrite Hs1; lia).
    rewrite (proj2 (Z.ltb_ge dl now)) by lia.
    edestruct (IH (mkGlobals (routingMap g1) (accessLogMap g1) (reqSeq g1 + 1)) rounds) as (g' & acts' & Hk & Hd' & Hid' & Hr' & Hb');
      try done; [lia|cbn [reqSeq]; unfold fits in *; lia|cbn [reqSeq]; lia|].
    cbn [reqSeq] in *. rewrite Hk. cbn [go_bind]. exists g', (acts ++ acts').
    rewrite submitted_app, registered_app, Hsub, Hreg, !fmap_app, Hd', Hid', Hr', Hs1, <- !app_assoc. simpl. rewrite Hd, Hid.
    split; [done|]. split; [done|]. split; [done|].
    split; [|by eapply exchange_bracketed].
    unfold ids_from. rewrite (seqZ_cons (reqSeq g)) by lia. rewrite fmap_cons. do 3 f_equal; lia.
Qed.



(** C33. Which requests crash the proxy.  [handleConnection]: exactly those that are read completely and for which the chosen path, the
    first of the route with more than two hops or else its first, has fewer than two hops.  A round of the loop of [handleConnectionKeepAlive]: exactly when its line
    is read completely and the chosen path has fewer than two hops, or when its request is served within the lifetime of the
    connection and a later round crashes.  The UDP handler: exactly the datagrams that the limiter
    lets pass and for which the first path has no hop at all. *)
Theorem handler_panics g ip port chunks e :
  let route := (lookup_route (routingMap g) port (e_fetched e) (e_check e) (e_store e)).1.1 in
  let bad := exists p, choose_path route = Some p /\ (length (p_Hops p) < 2)%nat in
  (handleConnection g ip port chunks e = Panic <-> ReadBytes [] chunks <> None /\ bad) /\
  (forall reqID connDeadline now rest,
     keepalive_loop g ip port reqID connDeadline chunks ((e, now) :: rest) = Panic <->
     exists line more chunks', ReadBytes [] chunks = Some (line, more, chunks') /\
       (bad \/ now <= connDeadline /\ exists g1 acts, exchange true g ip port reqID line e = Ret (g1, acts, true) /\
          keepalive_loop (next_id g1 ip).1 ip port (next_id g1 ip).2 connDeadline chunks' rest = Panic)) /\
  (forall data allowed, handleUDPConnection g ip port data allowed e = Panic <->
   allowed = true /\ exists p rest, route = p :: rest /\ p_Hops p = []).
Proof.
  intros route bad. split_and!.
  - unfold handleConnection. pose proof (fun id line => exchange_panics false (next_id g ip).1 ip port id line e) as Hx.
    change (routingMap (next_id g ip).1) with (routingMap g) in Hx. destruct (next_id g ip) as [g1 id]. cbn [fst] in Hx.
    destruct (ReadBytes [] chunks) as [[[line l1] l2]|]; [|split; [done|by intros [? _]]]. specialize (Hx id line). fold route bad in Hx. clearbody bad.
    destruct (exchange false g1 ip port id line e) as [[[g2 acts] sv]|]; cbn [go_bind]; naive_solver.
  - intros reqID dl now rest. cbn [keepalive_loop]. destruct (ReadBytes [] chunks) as [[[line l1] chunks']|] eqn:Er; [|split; [done|by intros (? & ? & ? & ? & _)]].
    pose proof (ReadBytes_ne _ _ _ _ _ Er) as Hne. destruct line as [|b line]; [done|]. pose proof (exchange_panics true g ip port reqID (b :: line) e) as Hx.
    fold route bad in Hx. clearbody bad. destruct (exchange true g ip port reqID (b :: line) e) as [[[g1 acts] sv]|] eqn:Ex; cbn [go_bind]; [|naive_solver].
    assert (Hb : ~ bad) by (intros Hb; apply Hx in Hb; done). destruct sv; [|split; [done|intros (? & ? & ? & [= <- <- <-] & [?|(_ & ? & ? & He & _)]); [done|by rewrite Ex in He]]]. destruct (next_id g1 ip) as [g2 id'] eqn:En.
    destruct (Z.ltb_spec dl now).
    + split; [done|]. intros (? & ? & ? & [= <- <- <-] & [?|[? _]]); [done|lia].
    + destruct (keepalive_loop g2 ip port id' dl chunks' rest) as [[g3 more]|] eqn:Ek; cbn [go_bind].
      * split; [done|]. intros (? & ? & ? & [= <- <- <-] & [?|(_ & g4 & acts4 & Hg4 & Hk)]); [done|]. rewrite Ex in Hg4. injection Hg4 as <- <-.
        rewrite En in Hk. cbn [fst snd] in Hk. congruence.
      * split; [|done]. intros _. exists (b :: line), l1, chunks'. split; [done|]. right. split; [lia|]. exists g1, acts. split; [done|]. by rewrite En.
  - intros data allowed. unfold handleUDPConnection. destruct allowed; cbn [negb]; [|naive_solver].
    change (routingMap g) with (routingMap (next_id g ip).1) in route. destruct (next_id g ip) as [g1 id]. cbn [fst] in route. clear bad. subst route.
    destruct (lookup_route _ _ _ _ _) as [[r m] refresh]. cbn [fst]. destruct r as [|p rest]; [naive_solver|].
    destruct (length (p_Hops p) <=? 2)%nat eqn:El.
    + destruct (last (p_Hops p)) eqn:Ela; [|apply last_None in Ela; naive_solver].
      split; [done|]. intros (_ & p' & rest' & [= <- <-] & Hn). by rewrite Hn in Ela.
    + bool_prop. pose proof (request_msg_panic true "udp" p id data) as Hp.
      destruct (request_msg true "udp" p id data); [|exfalso; assert (length (p_Hops p) < 2)%nat by tauto; lia].
      split; [done|]. intros (_ & p' & rest' & [= <- <-] & Hn). rewrite Hn in El. simpl in El. lia.
Qed.
End Proofs.

(** ** Concrete runs *)

Definition route3 : RoutingInfo := [mkPath ["10.0.0.1"; "10.0.0.2"; "10.0.0.3:8080"] fzero fzero].
Definition hello : bytes := [104; 105; 10].
Definition idle : globals := mkGlobals ∅ ∅ 0.
Definition round_ (t : Z) : env * Z := (mkEnvt NotTCPConn t t t route3 (Response hello) None, t).


(** A client that pipelines loses requests: with two lines in one segment the second stays in
    the reader that is thrown away, and the proxy reports the end of the stream after the first. *)
Theorem pipelined_request_lost :
  exists g' acts, @handleConnectionKeepAlive no_ipv6 idle "192.0.2.7" 8080 (30 * second) 0 [hello ++ hello] [round_ 1; round_ 2; round_ 3] =
    Ret (g', acts ++ [CloseConn]) /\ m_data <$> submitted acts = [hello].
Proof. eexists _, [_; _; _; _]. split; vm_compute; reflexivity. Qed.

(** A failed refresh replaces a good route: the answer to a failed call of the control plane is
    an empty routing and not nil, so it is cached, and the requests that follow are dropped. *)
Theorem failed_refresh_drops_route :
  let g := mkGlobals (store_route ∅ 8080 route3 0) ∅ 0 in
  let failed := GetRoutingFromControlPlane ∅ "10.0.0.1" None 8080 in
  let g' := mkGlobals (store_route (routingMap g) 8080 failed (2 * second)) ∅ 0 in
  (exists g1 acts, @handleConnection no_ipv6 g "192.0.2.7" 8080 [hello] (fst (round_ (2 * second))) = Ret (g1, acts) /\
     StartRefresh 8080 ∈ acts /\ m_data <$> submitted acts = [hello]) /\
  (exists g1, @handleConnection no_ipv6 g' "192.0.2.7" 8080 [hello] (fst (round_ (2 * second))) = Ret (g1, [CloseConn])).
Proof.
  split.
  - eexists _, _. split; [vm_compute; reflexivity|]. split; [by left|]. vm_compute. reflexivity.
  - eexists. vm_compute. reflexivity.
Qed.
End Server.
