(* ===== verification/Listeners.v ===== *)
(** * Listeners and rate limits (data-proxy/server/: server-manager.go, tcp-server.go, udp-server.go,
    rate-limiter.go)

    - [Listeners]: the tables of open ports, the management requests that start and stop servers,
      and the admission of connections;
    - [RateLimiter]: one token bucket per port and client address. *)

From Stdlib Require Import ZArith Lia Ascii String.
From stdpp Require Import base list gmap strings relations.
From S2P Require Import Prelude ModuleConfig GoStrings.

Module Listeners.

Local Open Scope Z_scope.

(** ** Data *)

Inductive proto := TCP | UDP.

#[global] Instance proto_eq_dec : EqDecision proto.
Proof. solve_decision. Defined.

(** The dynamic type behind [listenerMap[port]] and the socket it holds. *)
Record listener := mkListener { l_proto : proto; l_sock : nat }.

Record servers := mkServers {
  listenerMap : gmap Z listener;
  portMap : gmap Z bool;
  opened : gset nat               (* sockets of the process that are open *)
}.

Definition no_servers : servers := mkServers ∅ ∅ ∅.

(** ** Starting and stopping

    [listen] is the result of [net.Listen] or [net.ListenUDP]: a new socket or an error. *)

Definition put_listener (pr : proto) (port : Z) (sock : nat) (s : servers) : servers :=
  mkServers (<[port := mkListener pr sock]> (listenerMap s)) (<[port := true]> (portMap s)) ({[sock]} ∪ opened s).

Definition tcp_StartServerWithMgr (port : Z) (listen : option nat) (s : servers) : servers * bool :=
  match listen with
  | None => (s, false)
  | Some sock => (put_listener TCP port sock s, true)
  end.

Definition udp_StartServerWithMgr (port : Z) (listen : option nat) (s : servers) : servers * bool :=
  match listen with
  | None => (s, false)
  | Some sock => (put_listener UDP port sock s, true)
  end.

Definition close_port (port : Z) (l : listener) (s : servers) : servers :=
  mkServers (delete port (listenerMap s)) (delete port (portMap s)) (opened s ∖ {[l_sock l]}).

(** The assertion [listener_.(net.Listener)] panics on a [*net.UDPConn].  [closeErr] is the error of
    [Close].  Returns whether the call reports success. *)
Definition tcp_StopServer (port : Z) (closeErr : bool) (s : servers) : go (servers * bool) :=
  match listenerMap s !! port with
  | None => Ret (s, true)
  | Some l => if bool_decide (l_proto l = TCP) then Ret (close_port port l s, negb closeErr) else Panic
  end.

(** The two-result assertion fails on a missing or a TCP listener, and nothing happens. *)
Definition udp_StopServer (port : Z) (closeErr : bool) (s : servers) : go (servers * bool) :=
  match listenerMap s !! port with
  | None => Ret (s, true)
  | Some l => if bool_decide (l_proto l = UDP) then Ret (close_port port l s, negb closeErr) else Ret (s, true)
  end.

(** The start of the accept loop: the socket it will accept from.  The assertion panics when the
    port has no listener or a datagram socket. *)
Definition tcp_StartServerRun (port : Z) (s : servers) : go (option nat) :=
  match listenerMap s !! port with
  | Some l => if bool_decide (l_proto l = TCP) then Ret (Some (l_sock l)) else Panic
  | None => Panic
  end.

Definition udp_StartServerRun (port : Z) (s : servers) : go (option nat) :=
  match listenerMap s !! port with
  | Some l => if bool_decide (l_proto l = UDP) then Ret (Some (l_sock l)) else Ret None
  | None => Ret None
  end.

(** [ServerMap[protocol].Operate]: the interface that both servers implement. *)
Record ServerFuncs := mkFuncs {
  StartServerWithMgr : Z -> option nat -> servers -> servers * bool;
  StartServerRun : Z -> servers -> go (option nat);
  StopServer : Z -> bool -> servers -> go (servers * bool)
}.

Definition ServerMap (pr : proto) : ServerFuncs :=
  match pr with
  | TCP => mkFuncs tcp_StartServerWithMgr tcp_StartServerRun tcp_StopServer
  | UDP => mkFuncs udp_StartServerWithMgr udp_StartServerRun udp_StopServer
  end.

(** ** The management interface *)

Definition StatusOK : Z := 200.
Definition StatusBadRequest : Z := 400.
Definition StatusConflict : Z := 409.
Definition StatusInternalServerError : Z := 500.

(** The query parameters of both requests: the port and the protocol, or a bad request. *)
Definition parse_query (portStr protocol : string) : option (Z * proto) :=
  if String.eqb portStr "" then None
  else match Atoi portStr with
       | None => None
       | Some port => if String.eqb protocol "tcp" then Some (port, TCP)
                      else if String.eqb protocol "udp" then Some (port, UDP) else None
       end.

(** The first half of POST /tcp/start: the port is taken or not. *)
Definition start_check (portStr protocol : string) (s : servers) : Z + (Z * proto) :=
  match parse_query portStr protocol with
  | None => inl StatusBadRequest
  | Some (port, pr) => if default false (portMap s !! port) then inl StatusConflict else inr (port, pr)
  end.

(** The second half: bind, then run the server in a goroutine. *)
Definition start_bind (port : Z) (pr : proto) (listen : option nat) (s : servers) : servers * Z :=
  let '(s1, ok) := StartServerWithMgr (ServerMap pr) port listen s in
  (s1, if ok : bool then StatusOK else StatusInternalServerError).

Definition list_ports (s : servers) : list Z := fst <$> map_to_list (portMap s).

(** DELETE /tcp/stop; a panic is turned into a response by the framework, the deferred unlock has
    run and the state is as before. *)
Definition http_stop (portStr protocol : string) (closeErr : bool) (s : servers) : go (servers * Z) :=
  match parse_query portStr protocol with
  | None => Ret (s, StatusBadRequest)
  | Some (port, pr) =>
      let! (s1, ok) := StopServer (ServerMap pr) port closeErr s in
      Ret (s1, if ok : bool then StatusOK else StatusInternalServerError)
  end.

(** ** Admission of connections *)

Definition longConnLimit : Z := 512.
Definition maxPendingConns : Z := 100000.
Definition udpWorkerCount : Z := 100.

(** Long connections being served, short ones in the queue, datagrams being served. *)
Record load := mkLoad { longConns : Z; connChan : list nat; udpBusy : Z }.

Inductive verdict := Served | Queued | Refused.

Definition accept (keepAlive : bool) (conn : nat) (l : load) : load * verdict :=
  if keepAlive then
    if longConns l <? longConnLimit then (mkLoad (longConns l + 1) (connChan l) (udpBusy l), Served)
    else (l, Refused)
  else
    if Z.of_nat (length (connChan l)) <? maxPendingConns then (mkLoad (longConns l) (connChan l ++ [conn]) (udpBusy l), Queued)
    else (l, Refused).

(** What happens to the load: a connection is accepted, a long one ends, a worker takes a short one,
    a datagram passes the semaphore (which blocks while it is full) or is done. *)
Inductive load_step : load -> load -> Prop :=
| ls_accept k c l : load_step l (fst (accept k c l))
| ls_long_end l : 0 < longConns l -> load_step l (mkLoad (longConns l - 1) (connChan l) (udpBusy l))
| ls_take n c q u : load_step (mkLoad n (c :: q) u) (mkLoad n q u)
| ls_datagram l : udpBusy l < udpWorkerCount -> load_step l (mkLoad (longConns l) (connChan l) (udpBusy l + 1))
| ls_datagram_end l : 0 < udpBusy l -> load_step l (mkLoad (longConns l) (connChan l) (udpBusy l - 1)).

(** ** Interleavings of management requests

    A start request checks the port and binds later; in between other requests run. *)
Record mgr := mkMgr { st : servers; checked : list (Z * proto); last_sock : nat }.

Inductive mgr_step : mgr -> mgr -> Prop :=
| ms_check m portStr protocol port pr :
    start_check portStr protocol (st m) = inr (port, pr) ->
    mgr_step m (mkMgr (st m) ((port, pr) :: checked m) (last_sock m))
| ms_bind m port pr rest bound :
    checked m ≡ₚ (port, pr) :: rest ->
    mgr_step m (mkMgr (fst (start_bind port pr (if bound : bool then Some (S (last_sock m)) else None) (st m))) rest
                  (S (last_sock m)))
| ms_stop m portStr protocol closeErr s' code :
    http_stop portStr protocol closeErr (st m) = Ret (s', code) ->
    mgr_step m (mkMgr s' (checked m) (last_sock m)).

Definition mgr_init : mgr := mkMgr no_servers [] 0.

(** ** Proofs *)

(** The two tables agree, and every listener's socket is open and no other port's. *)
Record tables_ok (m : mgr) : Prop := {
  to_ports p : portMap (st m) !! p = (fun _ => true) <$> listenerMap (st m) !! p;
  to_open p l : listenerMap (st m) !! p = Some l -> l_sock l ∈ opened (st m);
  to_fresh n : n ∈ opened (st m) -> (n <= last_sock m)%nat;
  to_inj p q l k : listenerMap (st m) !! p = Some l -> listenerMap (st m) !! q = Some k -> l_sock l = l_sock k -> p = q
}.

Lemma tables_init : tables_ok mgr_init.
Proof. constructor; simpl; try done; set_solver. Qed.

Lemma tables_put m port pr rest :
  tables_ok m -> tables_ok (mkMgr (put_listener pr port (S (last_sock m)) (st m)) rest (S (last_sock m))).
Proof.
  intros [Hp Ho Hf Hi].
  assert (Hold : forall p l, listenerMap (st m) !! p = Some l -> l_sock l <> S (last_sock m)).
  { intros p l Hl He. apply Ho, Hf in Hl. lia. }
  constructor; simpl.
  - intros p. rewrite !lookup_insert. case_decide; [done|apply Hp].
  - intros p l. rewrite lookup_insert. case_decide; [intros [= <-]; set_solver|]. intros Hl. apply Ho in Hl. set_solver.
  - intros n Hn. apply elem_of_union in Hn as [Hn|Hn]; [apply elem_of_singleton in Hn; lia|]. apply Hf in Hn. lia.
  - intros p q l k. rewrite !lookup_insert. repeat case_decide; intros H1 H2 He; simplify_eq/=; try done.
    + by apply Hold in H2.
    + by apply Hold in H1.
    + by eapply Hi.
Qed.

Lemma tables_bind m port pr bound rest :
  tables_ok m ->
  tables_ok (mkMgr (fst (start_bind port pr (if bound : bool then Some (S (last_sock m)) else None) (st m))) rest (S (last_sock m))).
Proof. intros Hm. destruct bound, pr; try (by apply tables_put); destruct Hm; constructor; simpl; auto. Qed.

Lemma tables_close m port l :
  tables_ok m -> listenerMap (st m) !! port = Some l ->
  tables_ok (mkMgr (close_port port l (st m)) (checked m) (last_sock m)).
Proof.
  intros [Hp Ho Hf Hi] Hl. constructor; simpl.
  - intros p. rewrite !lookup_delete. case_decide; [done|apply Hp].
  - intros p k. rewrite lookup_delete. case_decide as Hd; [done|]. intros Hk. apply elem_of_difference. split; [by eapply Ho|].
    intros Hs. apply elem_of_singleton in Hs. apply Hd. by eapply Hi.
  - intros n Hn. apply Hf. set_solver.
  - intros p q k1 k2. rewrite !lookup_delete. repeat case_decide; try done. apply Hi.
Qed.

Lemma StopServer_cases pr port ce s s' ok :
  StopServer (ServerMap pr) port ce s = Ret (s', ok) ->
  s' = s \/ exists l, listenerMap s !! port = Some l /\ s' = close_port port l s.
Proof.
  destruct pr; cbn; unfold tcp_StopServer, udp_StopServer; repeat case_match; intros [=]; subst; eauto.
Qed.

Lemma tables_step m m' : mgr_step m m' -> tables_ok m -> tables_ok m'.
Proof.
  intros [m1|m1|m1 portStr protocol ce s' code H] Hm.
  - destruct Hm. by constructor.
  - by apply tables_bind.
  - unfold http_stop in H. destruct (parse_query portStr protocol) as [[port pr]|]; [|injection H as <- <-; by destruct Hm].
    apply go_bind_Ret in H as ([s1 ok] & Hs & [= <- <-]). apply StopServer_cases in Hs as [->|(l & Hl & ->)]; [by destruct Hm|].
    by apply tables_close.
Qed.

(** C34. In every interleaving of management requests the two tables agree: the ports reported are
    exactly those with a listener, each once, and the listeners hold open sockets of their own. *)
Theorem tables_agree m :
  rtc mgr_step mgr_init m ->
  (forall p, p ∈ list_ports (st m) <-> is_Some (listenerMap (st m) !! p)) /\ NoDup (list_ports (st m)) /\
  (forall p l, listenerMap (st m) !! p = Some l -> l_sock l ∈ opened (st m)) /\
  (forall p q l k, listenerMap (st m) !! p = Some l -> listenerMap (st m) !! q = Some k -> l_sock l = l_sock k -> p = q).
Proof.
  intros Hr. assert (Hm : tables_ok m).
  { revert m Hr. apply (rtc_ind_r tables_ok mgr_init); [apply tables_init|]. intros; by eapply tables_step. }
  destruct Hm as [Hp Ho _ Hi]. split_and!; [|apply NoDup_fst_map_to_list|done|done].
  intros p. unfold list_ports. rewrite list_elem_of_fmap. split.
  - intros ([q b] & -> & Hq). apply elem_of_map_to_list in Hq. cbn [fst]. rewrite Hp in Hq.
    destruct (listenerMap (st m) !! q); [eauto|done].
  - intros [l Hl]. exists (p, true). split; [done|]. apply elem_of_map_to_list. by rewrite Hp, Hl.
Qed.

(** Every answer to a stop request: a port is closed and forgotten only by a request for the
    protocol of its listener.  A request for the other protocol crashes the handler when the
    listener is a datagram socket, and is acknowledged although the server goes on when it is not. *)
Theorem http_stop_spec portStr protocol closeErr s :
  match parse_query portStr protocol with
  | None => http_stop portStr protocol closeErr s = Ret (s, StatusBadRequest)
  | Some (port, pr) =>
      match listenerMap s !! port with
      | None => http_stop portStr protocol closeErr s = Ret (s, StatusOK)
      | Some l =>
          if bool_decide (l_proto l = pr) then
            exists code, http_stop portStr protocol closeErr s = Ret (close_port port l s, code)
          else match pr with
               | TCP => http_stop portStr protocol closeErr s = Panic
               | UDP => http_stop portStr protocol closeErr s = Ret (s, StatusOK)
               end
      end
  end.
Proof.
  unfold http_stop. destruct (parse_query portStr protocol) as [[port pr]|]; [|done].
  destruct (listenerMap s !! port) as [l|] eqn:E; destruct pr; cbn; unfold tcp_StopServer, udp_StopServer; rewrite E;
    repeat case_bool_decide; simpl; eauto.
Qed.

Definition load_ok (l : load) : Prop :=
  0 <= longConns l <= longConnLimit /\ Z.of_nat (length (connChan l)) <= maxPendingConns /\ 0 <= udpBusy l <= udpWorkerCount.

Lemma load_ok_step l l' : load_step l l' -> load_ok l -> load_ok l'.
Proof.
  unfold load_ok, longConnLimit, maxPendingConns, udpWorkerCount.
  intros [[] c l0|l0|n c q u|l0|l0]; unfold accept, longConnLimit, maxPendingConns, udpWorkerCount in *.
  - destruct (Z.ltb_spec (longConns l0) 512); simpl; lia.
  - destruct (Z.ltb_spec (Z.of_nat (length (connChan l0))) 100000); cbn [fst longConns connChan udpBusy]; [|lia].
    rewrite length_app. cbn [length]. lia.
  - simpl. lia.
  - cbn [longConns connChan udpBusy length]. lia.
  - simpl. lia.
  - simpl. lia.
Qed.

(** Admission: whatever arrives, at most 512 long connections, 100000 queued connections and 100
    datagrams are held at a time, and a connection is refused only at its limit. *)
Theorem load_bounded l k c :
  rtc load_step (mkLoad 0 [] 0) l ->
  0 <= longConns l <= longConnLimit /\ Z.of_nat (length (connChan l)) <= maxPendingConns /\ 0 <= udpBusy l <= udpWorkerCount /\
  (snd (accept k c l) = Refused ->
   (if k then longConns l = longConnLimit else Z.of_nat (length (connChan l)) = maxPendingConns) /\ fst (accept k c l) = l).
Proof.
  intros Hr. assert (Hl : load_ok l).
  { revert l Hr. apply (rtc_ind_r load_ok (mkLoad 0 [] 0)); [by repeat split|]. intros; by eapply load_ok_step. }
  destruct Hl as (H1 & H2 & H3). split; [done|]. split; [done|]. split; [done|]. unfold accept.
  destruct k; case_match; try done; bool_prop; intros _; (split; [lia|done]).
Qed.

(** ** Concrete runs *)

(** The check and the bind of a start request are not one step: a TCP and a UDP request for the
    same port both pass the check, the second bind overwrites the first, and the first server can
    no longer be stopped: its socket is open and in no table. *)
Theorem concurrent_starts_leak :
  exists m, rtc mgr_step mgr_init m /\ checked m = [] /\ exists n, n ∈ opened (st m) /\ forall p l, listenerMap (st m) !! p = Some l -> l_sock l <> n.
Proof.
  eexists. split.
  - eapply rtc_l; [eapply (ms_check _ "53" "tcp"); reflexivity|].
    eapply rtc_l; [eapply (ms_check _ "53" "udp"); reflexivity|].
    eapply rtc_l; [eapply (ms_bind _ 53 TCP [(53, UDP)] true); simpl; apply perm_swap|].
    eapply rtc_l; [eapply (ms_bind _ 53 UDP [] true); reflexivity|]. apply rtc_refl.
  - split; [done|]. exists 1%nat. split; [vm_compute; reflexivity|].
    intros p l. simpl. rewrite !lookup_insert. repeat case_decide; intros; by simplify_eq/=.
Qed.

Definition one_server : mgr := mkMgr (fst (start_bind 8080 TCP (Some 1%nat) no_servers)) [] 1.

Lemma tables_agree_witness : list_ports (st one_server) = [8080] /\ 8080 ∈ list_ports (st one_server).
Proof.
  split; [reflexivity|].
  assert (Hr : rtc mgr_step mgr_init one_server).
  { eapply rtc_l; [eapply (ms_check _ "8080" "tcp"); reflexivity|].
    eapply rtc_l; [eapply (ms_bind _ 8080 TCP [] true); reflexivity|]. apply rtc_refl. }
  destruct (tables_agree one_server Hr) as (H & _). apply H. by exists (mkListener TCP 1).
Defined.

Lemma load_bounded_witness : longConns (fst (accept true 3 (mkLoad 0 [] 0))) <= longConnLimit.
Proof.
  destruct (load_bounded (fst (accept true 3 (mkLoad 0 [] 0))) true 4) as (H & _).
  - eapply rtc_l; [apply (ls_accept true 3)|]. apply rtc_refl.
  - exact (proj2 H).
Defined.
End Listeners.

Module RateLimiter.

Local Open Scope Z_scope.

(** [golang.org/x/time/rate]: a bucket for a rate and a burst, and [Allow] at a time. *)
Class Limiters := {
  limiter : Type;
  NewLimiter : Z -> Z -> limiter;
  Allow_at : Z -> limiter -> bool * limiter
}.

Definition minute : Z := 60 * 1000 * 1000000.

(** What the limiter is asked to do: a request of a client at a port, the cleanup timer of a port. *)
Inductive event := Req (port : Z) (ip : string) (now : Z) | Tick (port : Z) (now : Z).

Section Limiter.
Context `{Limiters} (config : ModuleConfig.RateLimit).

Record IPLimiter := mkIL { il_limiter : limiter; il_lastSeen : Z }.

(** Clients by address; the channel that stops the cleanup goroutine is [stopCh]. *)
Record PortLimiters := mkPL { pl_limiters : gmap string IPLimiter; pl_stopped : bool }.

(** [globalRL.portLimiters]. *)
Abbreviation GlobalRateLimiter := (gmap Z PortLimiters).

Definition InitRateLimiter : GlobalRateLimiter := ∅.

(** [GetLimiter]: the client's bucket, made when the port or the client is new, with its last use.
    The result is a pointer: [Allow] changes the bucket in place, so the entry is returned too. *)
Definition GetLimiter (g : GlobalRateLimiter) (port : Z) (ip : string) (now : Z) : GlobalRateLimiter * limiter :=
  let pl := default (mkPL ∅ false) (g !! port) in
  let lim := match pl_limiters pl !! ip with
             | Some il => il_limiter il
             | None => NewLimiter (ModuleConfig.QPS config) (ModuleConfig.Burst config)
             end in
  (<[port := mkPL (<[ip := mkIL lim now]> (pl_limiters pl)) (pl_stopped pl)]> g, lim).

Definition set_limiter (g : GlobalRateLimiter) (port : Z) (ip : string) (lim : limiter) : GlobalRateLimiter :=
  alter (fun pl => mkPL (alter (fun il => mkIL lim (il_lastSeen il)) ip (pl_limiters pl)) (pl_stopped pl)) port g.

Definition Allow (g : GlobalRateLimiter) (port : Z) (ip : string) (now : Z) : GlobalRateLimiter * bool :=
  let '(g1, lim) := GetLimiter g port ip now in
  let '(ok, lim') := Allow_at now lim in
  (set_limiter g1 port ip lim', ok).

(** A client not seen for more than the interval. *)
Definition idle (now : Z) (il : IPLimiter) : bool := ModuleConfig.CleanInterval config * minute <? now - il_lastSeen il.

(** One tick of [cleanupLoop]; the loop runs from the first request of the port until it is stopped. *)
Definition cleanup (g : GlobalRateLimiter) (port : Z) (now : Z) : GlobalRateLimiter :=
  alter (fun pl => if pl_stopped pl then pl
                   else mkPL (filter (fun kv => idle now (snd kv) = false) (pl_limiters pl)) false) port g.

(** A turn of the goroutine that [GetLimiter] started for a port: [time.NewTicker] panics for an interval that is not positive. *)
Definition cleanupLoop (g : GlobalRateLimiter) (port : Z) (now : Z) : go GlobalRateLimiter :=
  match g !! port with
  | None => Ret g
  | Some _ => if ModuleConfig.CleanInterval config * minute <=? 0 then Panic else Ret (cleanup g port now)
  end.

(** [close(pl.stopCh)] for every port; closing twice panics. *)
Definition Stop (g : GlobalRateLimiter) : go GlobalRateLimiter :=
  if existsb (fun kv => pl_stopped (snd kv)) (map_to_list g) then Panic
  else Ret ((fun pl => mkPL (pl_limiters pl) true) <$> g).

(** A run and its verdicts, each with the client it is for. *)
Fixpoint run (g : GlobalRateLimiter) (evs : list event) : go (list (Z * string * bool)) :=
  match evs with
  | [] => Ret []
  | Req port ip now :: rest =>
      let '(g1, ok) := Allow g port ip now in
      let! out := run g1 rest in Ret ((port, ip, ok) :: out)
  | Tick port now :: rest => let! g1 := cleanupLoop g port now in run g1 rest
  end.

(** ** Specification: one client with a bucket of its own *)

Definition client_allow (c : option IPLimiter) (now : Z) : option IPLimiter * bool :=
  let lim := match c with Some il => il_limiter il | None => NewLimiter (ModuleConfig.QPS config) (ModuleConfig.Burst config) end in
  let '(ok, lim') := Allow_at now lim in (Some (mkIL lim' now), ok).

Definition client_tick (c : option IPLimiter) (now : Z) : option IPLimiter :=
  match c with Some il => if idle now il then None else c | None => None end.

(** The client sees its own requests and the timer of its port only. *)
Fixpoint client_run (port : Z) (ip : string) (c : option IPLimiter) (evs : list event) : list bool :=
  match evs with
  | [] => []
  | Req p i now :: rest =>
      if bool_decide (p = port /\ i = ip) then
        let '(c1, ok) := client_allow c now in ok :: client_run port ip c1 rest
      else client_run port ip c rest
  | Tick p now :: rest => client_run port ip (if bool_decide (p = port) then client_tick c now else c) rest
  end.

(** ** Proofs *)

Definition client (g : GlobalRateLimiter) (port : Z) (ip : string) : option IPLimiter :=
  g !! port ≫= fun pl => pl_limiters pl !! ip.

Definition running (g : GlobalRateLimiter) : Prop := map_Forall (fun _ pl => pl_stopped pl = false) g.

Lemma Allow_client g p i now port ip :
  client (fst (Allow g p i now)) port ip =
    if bool_decide (p = port /\ i = ip) then fst (client_allow (client g port ip) now) else client g port ip.
Proof.
  unfold Allow, GetLimiter, client_allow, client, set_limiter.
  set (pl := default (mkPL ∅ false) (g !! p)).
  assert (Hpl : forall i', pl_limiters pl !! i' = g !! p ≫= fun pl => pl_limiters pl !! i').
  { intros i'. subst pl. by destruct (g !! p). }
  case_bool_decide as Hd.
  - destruct Hd as [-> ->]. rewrite <- Hpl. destruct (Allow_at now _) as [ok lim'] eqn:E. cbn [fst].
    rewrite lookup_alter_eq, lookup_insert_eq. simpl. rewrite lookup_alter_eq, lookup_insert_eq. simpl. done.
  - destruct (Allow_at now _) as [ok lim']. cbn [fst].
    destruct (decide (p = port)) as [->|Hp].
    + assert (i <> ip) by naive_solver. rewrite lookup_alter_eq, lookup_insert_eq. simpl.
      rewrite lookup_alter_ne, lookup_insert_ne by done. apply Hpl.
    + by rewrite lookup_alter_ne, lookup_insert_ne by done.
Qed.

Lemma Allow_verdict g port ip now : snd (Allow g port ip now) = snd (client_allow (client g port ip) now).
Proof.
  unfold Allow, GetLimiter, client_allow, client. destruct (g !! port) as [pl|]; simpl; [|by destruct (Allow_at _ _)].
  by destruct (Allow_at _ _).
Qed.

Lemma Allow_running g p i now : running g -> running (fst (Allow g p i now)).
Proof.
  intros Hr. unfold Allow, GetLimiter, set_limiter. destruct (Allow_at _ _). cbn [fst]. intros k pl.
  destruct (decide (p = k)) as [->|]; [|rewrite lookup_alter_ne, lookup_insert_ne by done; apply Hr].
  rewrite lookup_alter_eq, lookup_insert_eq. intros [= <-]. simpl. destruct (g !! k) eqn:E; [by eapply Hr|done].
Qed.

Lemma cleanup_client g p now port ip :
  running g ->
  client (cleanup g p now) port ip = if bool_decide (p = port) then client_tick (client g port ip) now else client g port ip.
Proof.
  intros Hr. unfold client, cleanup, client_tick. case_bool_decide as Hp; [subst p|by rewrite lookup_alter_ne].
  rewrite lookup_alter_eq. destruct (g !! port) as [pl|] eqn:E; [|done]. simpl.
  rewrite (Hr port pl E). cbn [pl_limiters].
  destruct (pl_limiters pl !! ip) as [il|] eqn:Ei.
  - destruct (idle now il) eqn:Hi.
    + apply map_lookup_filter_None. right. intros x Hx. simpl. rewrite Ei in Hx. injection Hx as <-. by rewrite Hi.
    + apply map_lookup_filter_Some. by split.
  - apply map_lookup_filter_None. by left.
Qed.

Lemma cleanup_running g p now : running g -> running (cleanup g p now).
Proof.
  intros Hr k pl. unfold cleanup. destruct (decide (p = k)) as [->|]; [|rewrite lookup_alter_ne by done; apply Hr].
  rewrite lookup_alter_eq. destruct (g !! k) as [pl0|] eqn:E; [|done]. simpl. intros [= <-]. by rewrite (Hr k pl0 E).
Qed.

Definition verdicts_for (port : Z) (ip : string) (out : list (Z * string * bool)) : list bool :=
  omap (fun v => if bool_decide (v.1.1 = port /\ v.1.2 = ip) then Some v.2 else None) out.

Lemma verdicts_cons port ip p i ok out :
  verdicts_for port ip ((p, i, ok) :: out) =
    if bool_decide (p = port /\ i = ip) then ok :: verdicts_for port ip out else verdicts_for port ip out.
Proof. unfold verdicts_for. simpl. by case_bool_decide. Qed.

Lemma cleanupLoop_client g p now g' port ip :
  running g -> cleanupLoop g p now = Ret g' ->
  running g' /\ client g' port ip = if bool_decide (p = port) then client_tick (client g port ip) now else client g port ip.
Proof.
  intros Hr. unfold cleanupLoop. destruct (g !! p) as [pl|] eqn:E.
  - case_match; [done|]. intros [= <-]. split; [by apply cleanup_running|by apply cleanup_client].
  - intros [= <-]. split; [done|]. case_bool_decide as Hp; [subst p|done]. unfold client. by rewrite E.
Qed.

Lemma run_client evs : forall g port ip,
  running g ->
  match run g evs with
  | Ret out => verdicts_for port ip out = client_run port ip (client g port ip) evs
  | Panic => ModuleConfig.CleanInterval config <= 0
  end.
Proof.
  induction evs as [|[p i now|p now] evs IH]; intros g port ip Hr; [done| |].
  - cbn [run client_run]. pose proof (Allow_client g p i now port ip) as Hc. pose proof (Allow_running g p i now Hr) as Hr1.
    pose proof (Allow_verdict g p i now) as Hv. destruct (Allow g p i now) as [g1 ok]. cbn [fst snd] in *.
    specialize (IH g1 port ip Hr1). destruct (run g1 evs) as [out|]; cbn [go_bind]; [|done].
    rewrite verdicts_cons, IH, Hc. case_bool_decide as Hd; [|done].
    destruct Hd as [-> ->]. rewrite Hv. by destruct (client_allow _ _).
  - cbn [run client_run]. destruct (cleanupLoop g p now) as [g1|] eqn:Ec; cbn [go_bind].
    + destruct (cleanupLoop_client g p now g1 port ip Hr Ec) as [Hr1 <-]. by apply IH.
    + unfold cleanupLoop, minute in Ec. destruct (g !! p); [|done]. case_match; [|done]. bool_prop. lia.
Qed.


(** With such an interval the first request of a port crashes the proxy as soon as the goroutine it starts runs. *)
Theorem limiter_interval_panics port ip now now' :
  ModuleConfig.CleanInterval config <= 0 -> run InitRateLimiter [Req port ip now; Tick port now'] = Panic.
Proof.
  intros Hi. cbn [run]. unfold Allow, GetLimiter, set_limiter. destruct (Allow_at _ _) as [ok lim]. unfold cleanupLoop.
  rewrite lookup_alter_eq, lookup_insert_eq. cbn [fmap option_fmap option_map]. rewrite (proj2 (Z.leb_le _ _)); [done|]. unfold minute. lia.
Qed.
End Limiter.
End RateLimiter.
