(* ===== verification/AcceptLoop.v ===== *)
(** * The accept loops (data-proxy/server/tcp-server.go, udp-server.go)

    [StartServerRun] of both servers as a goroutine on the socket that it read from the listener table:
    one iteration of its [for] loop at a time, beside the management requests of [Listeners] that close
    sockets.  An [Accept] or a read waits on an open socket and fails at once on a closed one. *)

From Stdlib Require Import ZArith Lia.
From stdpp Require Import base list gmap strings relations.
From S2P Require Import Prelude GoStrings GoChan Listeners.
Import Listeners.

Module AcceptLoop.

Local Open Scope Z_scope.

(** ** The servers *)

Record TCPServer := mkTCPServer { keepAlive : bool; keepAliveTime : Z }.

Definition defaultKeepAliveTime : Z := 30 * 1000000000.

Definition NewTCPServer (keepAlive : bool) (keepAliveTime : Z) : TCPServer :=
  mkTCPServer keepAlive (if keepAliveTime =? 0 then defaultKeepAliveTime else keepAliveTime).

(** The server behind [InitServerInterface("tcp")]. *)
Definition tcp_server : TCPServer := NewTCPServer false 0.

(** ** One iteration *)

(** The load of the process, the connections or datagrams that the socket has received, those that the loop
    has taken with what became of them, a datagram that waits for the semaphore, and the number of errors logged. *)
Record loop := mkLoop { l_load : load; incoming : list nat; taken : list (nat * verdict); held : option nat; errors : nat }.

(** [open]: whether the socket is open when [Accept] is called. *)
Definition tcp_iteration (t : TCPServer) (open : bool) (p : loop) : outcome loop :=
  if negb open then Next (mkLoop (l_load p) (incoming p) (taken p) (held p) (S (errors p)))
  else match incoming p with
       | [] => Blocked
       | conn :: rest =>
           let '(l, v) := accept (keepAlive t) conn (l_load p) in
           Next (mkLoop l rest (taken p ++ [(conn, v)]) (held p) (errors p))
       end.

(** A datagram is read, then the semaphore is taken; the read and the wait are steps of their own. *)
Definition udp_iteration (open : bool) (p : loop) : outcome loop :=
  match held p with
  | Some d =>
      if udpBusy (l_load p) <? udpWorkerCount then
        Next (mkLoop (mkLoad (longConns (l_load p)) (connChan (l_load p)) (udpBusy (l_load p) + 1)) (incoming p) (taken p ++ [(d, Served)]) None (errors p))
      else Blocked
  | None =>
      if negb open then Next (mkLoop (l_load p) (incoming p) (taken p) None (S (errors p)))
      else match incoming p with
           | [] => Blocked
           | d :: rest => Next (mkLoop (l_load p) rest (taken p) (Some d) (errors p))
           end
  end.

(** The loop of a server of the protocol; there is no way out of it. *)
Definition iteration (pr : proto) (open : bool) : loop -> outcome loop :=
  match pr with TCP => tcp_iteration tcp_server open | UDP => udp_iteration open end.

Fixpoint loop_times (f : loop -> outcome loop) (n : nat) (p : loop) : outcome loop :=
  match n with
  | O => Next p
  | S n => obind (f p) (loop_times f n)
  end.

(** ** Proofs *)

Lemma closed_iteration pr n p : held p = None ->
  loop_times (iteration pr false) n p = Next (mkLoop (l_load p) (incoming p) (taken p) None (n + errors p)).
Proof.
  revert p. induction n as [|n IH]; intros [l i t h e] Hh; cbn [held] in Hh; subst h; [done|]. cbn [loop_times].
  assert (Hs : iteration pr false (mkLoop l i t None e) = Next (mkLoop l i t None (S e))) by (by destruct pr).
  rewrite Hs. cbn [obind]. rewrite IH by done. cbn [l_load incoming taken errors]. do 2 f_equal. lia.
Qed.

(** A socket that was closed is never open again: new sockets have new numbers. *)
Lemma closed_step m m' n : mgr_step m m' -> (n <= last_sock m)%nat -> n ∉ opened (st m) -> (n <= last_sock m')%nat /\ n ∉ opened (st m').
Proof.
  intros [m1|m1 port pr rest bound Hc|m1 portStr protocol ce s' code Hs] Hn Hc'; [done| |].
  - cbn [last_sock st]. split; [lia|]. destruct pr, bound; cbn; try done; rewrite not_elem_of_union, not_elem_of_singleton; (split; [lia|done]).
  - cbn [last_sock st]. split; [done|]. unfold http_stop in Hs. destruct (parse_query portStr protocol) as [[port pr]|]; [|by injection Hs as <- <-].
    apply go_bind_Ret in Hs as ([s1 ok] & Hs & [= <- <-]). apply StopServer_cases in Hs as [->|(l & _ & ->)]; [done|].
    cbn [close_port opened]. set_solver.
Qed.

Lemma closed_for_good m m' n : rtc mgr_step m m' -> (n <= last_sock m)%nat -> n ∉ opened (st m) -> n ∉ opened (st m').
Proof. induction 1 as [|m1 m2 m3 Hs Hr IH]; intros Hn Hc; [done|]. destruct (closed_step _ _ _ Hs Hn Hc). by apply IH. Qed.

(** What a stop request leaves behind: the loop of the server that was stopped, which reads the socket that
    is closed now, never ends and never waits again.  In every later state of the tables, whatever is
    requested, it runs as many iterations as it gets time for, and all they do is log an error each. *)
Theorem stopped_loop_spins m portStr protocol closeErr s' code port pr l m' :
  rtc mgr_step mgr_init m -> parse_query portStr protocol = Some (port, pr) -> listenerMap (st m) !! port = Some l -> l_proto l = pr ->
  http_stop portStr protocol closeErr (st m) = Ret (s', code) -> rtc mgr_step (mkMgr s' (checked m) (last_sock m)) m' ->
  forall n p, held p = None ->
    loop_times (iteration pr (bool_decide (l_sock l ∈ opened (st m')))) n p = Next (mkLoop (l_load p) (incoming p) (taken p) None (n + errors p)).
Proof.
  intros Hr Hq Hl Hpr Hs Hr' n p Hh. assert (Hm : tables_ok m).
  { clear -Hr. revert m Hr. apply (rtc_ind_r tables_ok mgr_init); [apply tables_init|]. intros; by eapply tables_step. }
  pose proof (http_stop_spec portStr protocol closeErr (st m)) as Hspec. rewrite Hq, Hl, bool_decide_eq_true_2 in Hspec by done.
  destruct Hspec as (code' & Hspec). rewrite Hs in Hspec. injection Hspec as -> ->.
  assert (Hc : l_sock l ∉ opened (st m')).
  { eapply closed_for_good; [exact Hr'| |].
    - cbn [last_sock]. apply (to_fresh m Hm), (to_open m Hm port l Hl).
    - cbn. set_solver. }
  rewrite bool_decide_eq_false_2 by done. by apply closed_iteration.
Qed.

(** While its socket is open the loop of the TCP server waits exactly when no connection has arrived;
    it takes the connections in their order of arrival, each once, and hands every one of them to the pool or
    refuses it: the server is made for short connections, so none is ever served by a goroutine of its own. *)
Theorem open_loop_takes n p :
  match loop_times (tcp_iteration tcp_server true) n p with
  | Next p' => n = length (take n (incoming p)) /\ incoming p' = drop n (incoming p) /\ errors p' = errors p /\
               exists vs, taken p' = taken p ++ zip (take n (incoming p)) vs /\ length vs = n /\ Forall (fun v => v = Queued \/ v = Refused) vs
  | Blocked => (length (incoming p) < n)%nat
  | Panics => False
  end.
Proof.
  revert p. induction n as [|n IH]; intros p.
  - cbn [loop_times take drop zip_with]. split_and!; try done. exists []. by rewrite app_nil_r.
  - cbn [loop_times]. unfold tcp_iteration. cbn [negb]. destruct (incoming p) as [|c rest] eqn:E; [cbn; lia|].
    destruct (accept (keepAlive tcp_server) c (l_load p)) as [l v] eqn:Ea. cbn [obind].
    assert (Hv : v = Queued \/ v = Refused) by (unfold accept, tcp_server, NewTCPServer in Ea; cbn [keepAlive] in Ea; case_match; injection Ea as <- <-; auto).
    specialize (IH (mkLoop l rest (taken p ++ [(c, v)]) (held p) (errors p))). cbn [incoming taken errors] in IH.
    destruct (loop_times _ n _) as [p'| |]; [|cbn; lia|done]. destruct IH as (Hn & Hi & He & vs & Ht & Hl & Hf).
    cbn [take drop length]. split_and!; [lia|done|done|]. exists (v :: vs). split_and!; [|cbn; lia|by constructor].
    rewrite Ht, <- app_assoc. done.
Qed.

(** A server on port 8080 that was started and is stopped. *)
Lemma stopped_loop_spins_witness :
  let m := mkMgr (fst (start_bind 8080 TCP (Some 1%nat) no_servers)) [] 1 in
  forall n, loop_times (iteration TCP false) n (mkLoop (mkLoad 0 [] 0) [] [] None 0) = Next (mkLoop (mkLoad 0 [] 0) [] [] None (n + 0)).
Proof.
  intros m n. assert (Hc : bool_decide (1%nat ∈ opened (close_port 8080 (mkListener TCP 1) (st m))) = false) by (vm_compute; reflexivity).
  rewrite <- Hc. apply (stopped_loop_spins m "8080" "tcp" false (close_port 8080 (mkListener TCP 1) (st m)) 200 8080 TCP (mkListener TCP 1)
    (mkMgr (close_port 8080 (mkListener TCP 1) (st m)) [] 1)); try reflexivity.
  eapply rtc_l; [apply (ms_check mgr_init "8080" "tcp" 8080 TCP eq_refl)|]. eapply rtc_once.
  exact (ms_bind (mkMgr no_servers [(8080, TCP)] 0) 8080 TCP [] true (Permutation_refl _)).
Defined.
End AcceptLoop.
