(* ===== verification/BackSourcer.v ===== *)
(** * Requests to the origin (data-proxy/backsourcer/)

    - [BackSourcer]: what the egress proxy does with a task: ask the origin and send the answer back
      along the reversed path ([doOriginRequest]), over TCP or UDP;
    - [ConnPool]: the pool of idle TCP connections (tcp_pool.go). *)

From Stdlib Require Import ZArith Lia Ascii String.
From stdpp Require Import base list list_tactics gmap strings relations.
From S2P Require Import Prelude GoStrings Packet Tunnel Aggregator Server.
Import TunnelPacket TunnelHandler Aggregator.

Module BackSourcer.

Local Open Scope Z_scope.

(** ** Talking to the origin

    [dialed], [written]: whether the calls succeed; [reads]: what the reads of the connection
    return until it ends. *)

Definition tcp_DoRequest (dialed written : bool) (reads : list bytes) : option bytes :=
  if negb dialed then None
  else if negb written then None
  else match Server.ReadBytes [] reads with
       | Some (resp, _, _) => Some resp
       | None => None
       end.

(** One read into a buffer of 65535 bytes. *)
Definition udp_DoRequest (dialed written : bool) (reads : list bytes) : option bytes :=
  if negb dialed then None
  else if negb written then None
  else match reads with
       | d :: _ => Some (take (Z.to_nat 65535) d)
       | [] => None
       end.

(** ** The way back *)

(** The non-zero addresses of the path, last first, without the origin. *)
Definition response_hops (HopIP : list Z) : list bytes :=
  match Uint32ToIP <$> filter (fun ip => ip <> 0) (reverse HopIP) with
  | _ :: (_ :: _) as rest => rest
  | hops => hops
  end.

(** [resp] is the result of [DoRequest].  [hops[1]] panics when fewer than two addresses are left. *)
Definition doOriginRequest (task : BackSourceTask) (resp : option bytes) : go (option aggregatorMsg) :=
  match resp with
  | None | Some [] => Ret None
  | Some data =>
      let hops := response_hops (t_HopIP task) in
      let hopStrs := ip_string <$> hops in
      match hops !! 1%nat with
      | None => Panic
      | Some nextHop => Ret (Some (mkMsg false (Join hopStrs ",") "" 0 hopStrs nextHop (t_UserID task) data))
      end
  end.

(** Which tasks crash a worker (and with it the proxy): those of a packet with fewer than three
    non-zero addresses, as soon as the origin answers. *)
Theorem doOriginRequest_panic task resp :
  doOriginRequest task resp = Panic <->
  (exists b d, resp = Some (b :: d)) /\ (length (filter (fun ip => ip <> 0%Z) (t_HopIP task)) < 3)%nat.
Proof.
  assert (Hlen : length (Uint32ToIP <$> filter (fun ip => ip <> 0) (reverse (t_HopIP task))) =
                 length (filter (fun ip => ip <> 0) (t_HopIP task))).
  { rewrite length_fmap. apply Permutation_length. by rewrite reverse_Permutation. }
  unfold doOriginRequest, response_hops. rewrite <- Hlen.
  destruct resp as [[|b d]|]; [naive_solver| |naive_solver].
  destruct (Uint32ToIP <$> _) as [|x [|y [|z l]]]; cbn [length lookup list_lookup];
    [naive_solver lia..|]. split; [done|]. intros [_ ?]. lia.
Qed.
End BackSourcer.

Module ConnPool.

Local Open Scope Z_scope.

(** ** Data

    Connections are numbered in the order they are dialled.  [closed_conns] lists what was closed,
    a connection as often as it was. *)

Record pooledConn := mkPC { pc_conn : nat; pc_created : Z; pc_lastUsed : Z }.

Record TCPConnPool := mkPool {
  pools : gmap string (list pooledConn);
  closed_conns : list nat
}.

Definition NewTCPConnPool : TCPConnPool := mkPool ∅ [].

Section Pool.
Context (maxIdle maxLifetime : Z).

(** ** Operations *)

Definition expired (now : Z) (pc : pooledConn) : bool :=
  (maxLifetime <? now - pc_lastUsed pc) || (maxLifetime * 2 <? now - pc_created pc).

(** [cleanup] for one address: the expired connections are closed, an empty list is dropped. *)
Definition cleanup_addr (now : Z) (p : TCPConnPool) (addr : string) : TCPConnPool :=
  match pools p !! addr with
  | None => p
  | Some lst =>
      let live := filter (fun pc => expired now pc = false) lst in
      let dead := filter (fun pc => expired now pc = true) lst in
      mkPool (match live with [] => delete addr (pools p) | _ => <[addr := live]> (pools p) end)
             (closed_conns p ++ (pc_conn <$> dead))
  end.

(** [addrs]: the order in which the map is visited. *)
Definition cleanup (now : Z) (addrs : list string) (p : TCPConnPool) : TCPConnPool :=
  foldl (cleanup_addr now) p addrs.

(** The loop of [Get] over the list of an address: close what was idle for too long, take the first
    that was not. *)
Fixpoint take_live (now : Z) (lst : list pooledConn) : list nat * option pooledConn * list pooledConn :=
  match lst with
  | [] => ([], None, [])
  | pc :: rest =>
      if maxLifetime <? now - pc_lastUsed pc then
        let '(dead, got, left_) := take_live now rest in (pc_conn pc :: dead, got, left_)
      else ([], Some pc, rest)
  end.

(** [Get]; [dial] is the connection a dial would make, if it succeeds. *)
Definition Get (now : Z) (addr : string) (dial : option nat) (p : TCPConnPool) : TCPConnPool * option nat :=
  let lst := default [] (pools p !! addr) in
  let '(dead, got, left_) := take_live now lst in
  let p1 := mkPool (<[addr := left_]> (pools p)) (closed_conns p ++ dead) in
  match got with
  | Some pc => (p1, Some (pc_conn pc))
  | None => (p1, dial)
  end.

Definition close_conn (c : nat) (p : TCPConnPool) : TCPConnPool := mkPool (pools p) (closed_conns p ++ [c]).

Definition Put (now : Z) (addr : string) (conn : nat) (healthy : bool) (p : TCPConnPool) : TCPConnPool :=
  match pools p !! addr with
  | None => close_conn conn p
  | Some lst =>
      if negb healthy || (maxIdle <=? Z.of_nat (length lst)) then close_conn conn p
      else mkPool (<[addr := mkPC conn now now :: lst]> (pools p)) (closed_conns p)
  end.

Definition idle_conns (p : TCPConnPool) : list nat := mbind (fun kv => pc_conn <$> snd kv) (map_to_list (pools p)).

Definition Close (p : TCPConnPool) : TCPConnPool := mkPool ∅ (closed_conns p ++ idle_conns p).

(** [DoRequest]: the pool after it and the line that was read. *)
Definition DoRequest (now now2 : Z) (addr : string) (dial : option nat) (written : bool) (reads : list bytes)
    (p : TCPConnPool) : TCPConnPool * option bytes :=
  match Get now addr dial p with
  | (p1, None) => (p1, None)
  | (p1, Some conn) =>
      if negb written then (Put now2 addr conn false p1, None)
      else match Server.ReadBytes [] reads with
           | None => (Put now2 addr conn false p1, None)
           | Some (line, _, _) => (Put now2 addr conn true p1, Some line)
           end
  end.

(** ** The pool and its clients

    [in_use]: the connections that [Get] handed out; [dialled]: how many were made. *)
Record system := mkSys { pool : TCPConnPool; in_use : list nat; dialled : nat }.

Inductive step : system -> system -> Prop :=
| st_reuse s now addr p c :
    Get now addr None (pool s) = (p, Some c) -> step s (mkSys p (c :: in_use s) (dialled s))
| st_dial s now addr p :
    Get now addr (Some (dialled s)) (pool s) = (p, Some (dialled s)) -> Get now addr None (pool s) = (p, None) ->
    step s (mkSys p (dialled s :: in_use s) (S (dialled s)))
| st_dial_failed s now addr p : Get now addr None (pool s) = (p, None) -> step s (mkSys p (in_use s) (dialled s))
| st_put s now addr c healthy rest :
    in_use s ≡ₚ c :: rest -> step s (mkSys (Put now addr c healthy (pool s)) rest (dialled s))
| st_cleanup s now addrs : step s (mkSys (cleanup now addrs (pool s)) (in_use s) (dialled s))
| st_close s : step s (mkSys (Close (pool s)) (in_use s) (dialled s)).

Definition start : system := mkSys NewTCPConnPool [] 0.

(** ** Proofs *)

(** The idle connections when one list of the map is replaced. *)
Lemma idle_insert p addr lst cl :
  idle_conns (mkPool (<[addr := lst]> (pools p)) cl) ≡ₚ (pc_conn <$> lst) ++ idle_conns (mkPool (delete addr (pools p)) cl).
Proof.
  unfold idle_conns. cbn [pools]. rewrite <- insert_delete_eq.
  rewrite map_to_list_insert by apply lookup_delete_eq. done.
Qed.

Lemma idle_lookup p addr :
  idle_conns p ≡ₚ (pc_conn <$> default [] (pools p !! addr)) ++ idle_conns (mkPool (delete addr (pools p)) (closed_conns p)).
Proof.
  destruct (pools p !! addr) as [lst|] eqn:E.
  - rewrite <- (idle_insert p addr lst (closed_conns p)). unfold idle_conns. cbn [pools]. by rewrite insert_id.
  - unfold idle_conns. cbn [pools]. by rewrite delete_id.
Qed.

Lemma take_live_split now lst :
  let '(dead, got, left_) := take_live now lst in
  pc_conn <$> lst ≡ₚ dead ++ (pc_conn <$> option_list got) ++ (pc_conn <$> left_) /\ (length left_ <= length lst)%nat.
Proof.
  induction lst as [|pc lst IH]; [done|]. cbn [take_live].
  destruct (maxLifetime <? now - pc_lastUsed pc).
  - destruct (take_live now lst) as [[dead got] left_]. destruct IH as [IH Hl].
    rewrite fmap_cons, IH. split; [done|simpl; lia].
  - split; [done|simpl; lia].
Qed.

Lemma Get_account now addr dial p p' r :
  Get now addr dial p = (p', r) ->
  (exists c, r = Some c /\ snd (Get now addr None p) = r /\ idle_conns p ++ closed_conns p ≡ₚ c :: idle_conns p' ++ closed_conns p') \/
  (snd (Get now addr None p) = None /\ r = dial /\ idle_conns p ++ closed_conns p ≡ₚ idle_conns p' ++ closed_conns p').
Proof.
  unfold Get. pose proof (take_live_split now (default [] (pools p !! addr))) as Ht.
  destruct (take_live _ _) as [[dead got] left_]. destruct Ht as [Ht _]. destruct got as [pc|]; intros [= <- <-].
  - left. exists (pc_conn pc). split; [done|]. split; [done|]. rewrite (idle_lookup p addr), Ht, (idle_insert p addr left_).
    cbn [closed_conns option_list fmap list_fmap]. solve_Permutation.
  - right. split; [done|]. split; [done|]. rewrite (idle_lookup p addr), Ht, (idle_insert p addr left_).
    cbn [closed_conns option_list fmap list_fmap]. solve_Permutation.
Qed.
Lemma Put_account now addr c healthy p :
  idle_conns (Put now addr c healthy p) ++ closed_conns (Put now addr c healthy p) ≡ₚ c :: idle_conns p ++ closed_conns p.
Proof.
  unfold Put. destruct (pools p !! addr) as [lst|] eqn:E.
  - case_match; unfold close_conn; cbn [closed_conns].
    + change (idle_conns (mkPool (pools p) _)) with (idle_conns p). solve_Permutation.
    + rewrite idle_insert, (idle_lookup p addr), E. cbn [default]. rewrite fmap_cons. cbn [pc_conn]. solve_Permutation.
  - unfold close_conn. cbn [closed_conns]. change (idle_conns (mkPool (pools p) _)) with (idle_conns p). solve_Permutation.
Qed.

Lemma filter_split now lst :
  pc_conn <$> lst ≡ₚ (pc_conn <$> filter (fun pc => expired now pc = false) lst) ++
                     (pc_conn <$> filter (fun pc => expired now pc = true) lst).
Proof.
  induction lst as [|pc lst IH]; [done|]. rewrite !filter_cons, fmap_cons, IH.
  destruct (expired now pc); simpl; [by rewrite Permutation_middle|done].
Qed.

Lemma cleanup_addr_account now p addr :
  idle_conns (cleanup_addr now p addr) ++ closed_conns (cleanup_addr now p addr) ≡ₚ idle_conns p ++ closed_conns p.
Proof.
  unfold cleanup_addr. destruct (pools p !! addr) as [lst|] eqn:E; [|done]. cbn [closed_conns].
  rewrite (idle_lookup p addr), E. cbn [default]. rewrite (filter_split now lst).
  destruct (filter (fun pc => expired now pc = false) lst) as [|pc live].
  - unfold idle_conns. cbn [pools fmap list_fmap app]. solve_Permutation.
  - rewrite idle_insert. solve_Permutation.
Qed.

Lemma cleanup_account now addrs p :
  idle_conns (cleanup now addrs p) ++ closed_conns (cleanup now addrs p) ≡ₚ idle_conns p ++ closed_conns p.
Proof.
  unfold cleanup. revert p. induction addrs as [|a addrs IH]; intros p; [done|]. cbn [foldl]. by rewrite IH, cleanup_addr_account.
Qed.

(** What holds of every list of the pool: it is not longer than allowed, and a connection is filed
    with the same time twice. *)
Definition list_ok (lst : list pooledConn) : Prop :=
  Z.of_nat (length lst) <= Z.max 0 maxIdle /\ Forall (fun pc => pc_created pc = pc_lastUsed pc) lst.

Definition lists_ok (p : TCPConnPool) : Prop := map_Forall (fun _ => list_ok) (pools p).

Lemma list_ok_sub l1 l2 : l1 `sublist_of` l2 -> list_ok l2 -> list_ok l1.
Proof.
  intros Hs [Hl Hf]. split; [apply sublist_length in Hs; lia|]. apply Forall_forall. intros x Hx.
  rewrite Forall_forall in Hf. apply Hf. eapply elem_of_submseteq; [done|]. by apply sublist_submseteq.
Qed.

Lemma filter_sublist (P : pooledConn -> Prop) `{forall x, Decision (P x)} l : filter P l `sublist_of` l.
Proof. induction l as [|x l IH]; [constructor|]. rewrite filter_cons. case_decide; by constructor. Qed.

Lemma take_live_sublist now lst : (take_live now lst).2 `sublist_of` lst.
Proof.
  induction lst as [|pc lst IH]; [constructor|]. cbn [take_live]. case_match; [|by constructor].
  destruct (take_live now lst) as [[dead got] left_]. by constructor.
Qed.

Lemma lists_ok_lookup p addr : lists_ok p -> list_ok (default [] (pools p !! addr)).
Proof. intros Hp. destruct (pools p !! addr) eqn:E; [by eapply Hp|]. split; [simpl; lia|constructor]. Qed.

Lemma lists_ok_insert p addr lst cl : lists_ok p -> list_ok lst -> lists_ok (mkPool (<[addr := lst]> (pools p)) cl).
Proof. intros Hp Hl. by apply map_Forall_insert_2. Qed.

Lemma Get_lists_ok now addr dial p : lists_ok p -> lists_ok (fst (Get now addr dial p)).
Proof.
  intros Hp. unfold Get. pose proof (take_live_sublist now (default [] (pools p !! addr))) as Hs.
  destruct (take_live _ _) as [[dead got] left_]. apply list_ok_sub in Hs; [|by apply lists_ok_lookup].
  destruct got; by apply lists_ok_insert.
Qed.

Lemma Put_lists_ok now addr c healthy p : lists_ok p -> lists_ok (Put now addr c healthy p).
Proof.
  intros Hp. unfold Put. destruct (pools p !! addr) as [lst|] eqn:E; [|done]. case_match; [done|].
  apply lists_ok_insert; [done|]. destruct (Hp addr lst E) as [Hl Hf]. bool_prop.
  split; [cbn [length]; lia|by constructor].
Qed.

Lemma cleanup_lists_ok now addrs p : lists_ok p -> lists_ok (cleanup now addrs p).
Proof.
  unfold cleanup. revert p. induction addrs as [|a addrs IH]; intros p Hp; [done|]. cbn [foldl]. apply IH.
  unfold cleanup_addr. destruct (pools p !! a) as [lst|] eqn:E; [|done].
  pose proof (list_ok_sub _ _ (filter_sublist (fun pc => expired now pc = false) lst) (Hp a lst E)) as Hl.
  destruct (filter _ lst); [|by apply lists_ok_insert]. by apply map_Forall_delete.
Qed.

(** ** The invariant *)

Record system_ok (s : system) : Prop := {
  so_account : in_use s ++ idle_conns (pool s) ++ closed_conns (pool s) ≡ₚ seq 0 (dialled s);
  so_lists : lists_ok (pool s)
}.

Lemma system_ok_step s s' : step s s' -> system_ok s -> system_ok s'.
Proof.
  intros Hst [Ha Hl]. destruct Hst as [s now addr p c Hg|s now addr p Hg Hn|s now addr p Hg|s now addr c healthy rest Hu|s now addrs|s];
    constructor; cbn [pool in_use dialled].
  - apply Get_account in Hg as [(? & [= <-] & _ & Hp)|(_ & [=] & _)]. rewrite <- Ha, Hp. solve_Permutation.
  - by pose proof (Get_lists_ok now addr None (pool s) Hl) as Hk; rewrite Hg in Hk.
  - rewrite seq_S, <- Ha. apply Get_account in Hn as [(? & [=] & _)|(_ & _ & Hp)]. rewrite Hp. solve_Permutation.
  - by pose proof (Get_lists_ok now addr None (pool s) Hl) as Hk; rewrite Hn in Hk.
  - rewrite <- Ha. apply Get_account in Hg as [(? & [=] & _)|(_ & _ & Hp)]. by rewrite Hp.
  - by pose proof (Get_lists_ok now addr None (pool s) Hl) as Hk; rewrite Hg in Hk.
  - rewrite <- Ha, Hu, Put_account. solve_Permutation.
  - by apply Put_lists_ok.
  - by rewrite cleanup_account.
  - by apply cleanup_lists_ok.
  - rewrite <- Ha. unfold Close. cbn [closed_conns]. unfold idle_conns at 1. cbn [pools]. rewrite map_to_list_empty. simpl. solve_Permutation.
  - apply map_Forall_empty.
Qed.

Lemma reachable_ok s : rtc step start s -> system_ok s.
Proof.
  revert s. apply (rtc_ind_r system_ok start).
  - constructor; [done|apply map_Forall_empty].
  - intros; by eapply system_ok_step.
Qed.

(** Every branch of [DoRequest] gives the connection back or closes it. *)
Theorem DoRequest_account now now2 addr dial written reads p p' r :
  DoRequest now now2 addr dial written reads p = (p', r) ->
  idle_conns p' ++ closed_conns p' ≡ₚ
    (if snd (Get now addr None p) then [] else option_list dial) ++ idle_conns p ++ closed_conns p.
Proof.
  unfold DoRequest. destruct (Get now addr dial p) as [p1 o] eqn:Hg.
  assert (Ha : option_list o ++ idle_conns p1 ++ closed_conns p1 ≡ₚ
    (if snd (Get now addr None p) then [] else option_list dial) ++ idle_conns p ++ closed_conns p).
  { by apply Get_account in Hg as [(c & -> & Hn & Hp)|(Hn & -> & Hp)]; rewrite Hn, Hp. }
  destruct o as [c|]; [|by intros [= <- <-]]. cbn [option_list app] in Ha.
  repeat case_match; intros [= <- <-]; by rewrite Put_account.
Qed.

(** C36. The connection pool, in every sequence of operations: each connection that was dialled is in
    use by one client, idle in the pool or closed, and exactly one of these, once; no address has
    more idle connections than allowed; and a connection that is handed out again is open and used
    by nobody else. *)
Theorem pool_accounts s :
  rtc step start s ->
  in_use s ++ idle_conns (pool s) ++ closed_conns (pool s) ≡ₚ seq 0 (dialled s) /\
  (forall addr lst, pools (pool s) !! addr = Some lst -> Z.of_nat (length lst) <= Z.max 0 maxIdle) /\
  (forall now addr p c, Get now addr None (pool s) = (p, Some c) -> c ∉ in_use s /\ c ∉ closed_conns p /\ c ∉ idle_conns p).
Proof.
  intros Hr. apply reachable_ok in Hr as [Ha Hl]. split; [done|]. split; [intros addr lst Hlst; by apply (Hl addr lst)|].
  intros now addr p c Hg. pose proof (NoDup_seq 0 (dialled s)) as Hnd. rewrite <- Ha in Hnd.
  apply Get_account in Hg as [(? & [= <-] & _ & Hp)|(_ & [=] & _)]. rewrite Hp in Hnd.
  apply NoDup_app in Hnd as (_ & H1 & H2). apply NoDup_cons in H2 as [H2 _]. rewrite elem_of_app in H2.
  split; [|tauto]. intros Hc. apply (H1 c Hc). by left.
Qed.

(** The second bound of the cleanup has no effect: a connection is filed with the current time as
    its creation time whenever it is put back, so it expires exactly when it was idle for longer
    than [maxLifetime], however old it is. *)
Theorem created_bound_is_dead s now addr lst pc :
  rtc step start s -> 0 <= maxLifetime -> pools (pool s) !! addr = Some lst -> pc ∈ lst ->
  expired now pc = (maxLifetime <? now - pc_lastUsed pc).
Proof.
  intros Hr%reachable_ok Hm Hlst Hpc. destruct (so_lists _ Hr addr lst Hlst) as [_ Hf]. rewrite Forall_forall in Hf. unfold expired. rewrite (Hf pc Hpc).
  destruct (Z.ltb_spec maxLifetime (now - pc_lastUsed pc)); [done|]. simpl. apply Z.ltb_ge. lia.
Qed.
End Pool.

(** ** A concrete run: a connection is dialled, put back and idle. *)

Definition origin : string := "10.0.0.3:8080".
Definition one_idle : system := mkSys (mkPool {[ origin := [mkPC 0 7 7] ]} []) [] 1.

Lemma one_idle_reachable : rtc (step 20 300) start one_idle.
Proof.
  eapply rtc_l; [by eapply (st_dial 20 300 start 0 origin)|].
  eapply rtc_l; [by eapply (st_put 20 300 _ 7 origin 0%nat true [])|]. apply rtc_refl.
Qed.

Lemma pool_accounts_witness : idle_conns (pool one_idle) = [0%nat] /\ Get 300 10 origin None (pool one_idle) = (mkPool {[ origin := [] ]} [], Some 0%nat) /\
  0%nat ∉ in_use one_idle.
Proof.
  split; [reflexivity|]. split; [reflexivity|].
  destruct (pool_accounts 20 300 one_idle one_idle_reachable) as (_ & _ & H).
  apply (H 10 origin (mkPool {[ origin := [] ]} []) 0%nat). reflexivity.
Defined.

Lemma created_bound_is_dead_witness : expired 300 308 (mkPC 0 7 7) = (300 <? 308 - 7).
Proof.
  apply (created_bound_is_dead 20 300 one_idle 308 origin [mkPC 0 7 7] (mkPC 0 7 7)).
  - apply one_idle_reachable.
  - lia.
  - reflexivity.
  - by left.
Defined.
End ConnPool.
