(* ===== verification/BackPool.v ===== *)
(** * The workers of the back-sourcer (data-proxy/backsourcer/backsourcer.go)

    [NewBackSourcerWithProtocol], [startWorkers], [Submit] and [Close]: a buffered channel of tasks
    that a number of goroutines serve with [doOriginRequest]. *)

From Stdlib Require Import ZArith Lia.
From stdpp Require Import base list gmap strings list_tactics.
From S2P Require Import Prelude GoStrings GoChan Packet Tunnel Aggregator BackSourcer.
Import TunnelPacket TunnelHandler Aggregator BackSourcer WorkerPool.

Module BackPool.

Local Open Scope Z_scope.

#[global] Instance BackSourceTask_eq_dec : EqDecision BackSourceTask.
Proof. solve_decision. Defined.

Definition taskQueueSize : Z := 100000.
Definition backWorkerCount : Z := 100.

(** The goroutines and channel, what the requests that are finished returned, in the order in which
    they finished, and the answers handed to [GlobalAggResponse.AddToBatch]. *)
Record backSourcer := mkBS {
  workers : pool BackSourceTask;
  outcomes : list (BackSourceTask * option bytes);
  responses : list aggregatorMsg
}.

(** [NewBackSourcer]; [BackWorkerCount] is the configured number. *)
Definition NewBackSourcer (BackWorkerCount : Z) : backSourcer :=
  mkBS (start (Z.to_nat (if BackWorkerCount <=? 0 then backWorkerCount else BackWorkerCount)) taskQueueSize) [] [].

(** [Close] closes the channel and then waits for [drained]. *)
Inductive bevent := SubmitTask (t : BackSourceTask) | TakeTask | Finish (t : BackSourceTask) (resp : option bytes) | Close.

Definition lift (b : backSourcer) (o : outcome (pool BackSourceTask)) (outs : list (BackSourceTask * option bytes)) (msgs : list aggregatorMsg) : outcome backSourcer :=
  match o with
  | Next p => Next (mkBS p (outcomes b ++ outs) (responses b ++ msgs))
  | Blocked => Blocked
  | Panics => Panics
  end.

Definition back_step (b : backSourcer) (e : bevent) : outcome backSourcer :=
  match e with
  | SubmitTask t => lift b (fire (workers b) (Send t)) [] []
  | TakeTask => lift b (fire (workers b) Recv) [] []
  | Finish t resp =>
      match fire (workers b) (Done t) with
      | Next p => match doOriginRequest t resp with
                  | Ret msg => lift b (Next p) [(t, resp)] (option_list msg)
                  | Panic => Panics
                  end
      | o => lift b o [] []
      end
  | Close => lift b (fire (workers b) CloseChan) [] []
  end.

Fixpoint back_run (b : backSourcer) (evs : list bevent) : outcome backSourcer :=
  match evs with
  | [] => Next b
  | e :: evs => match back_step b e with Next b' => back_run b' evs | Blocked => Blocked | Panics => Panics end
  end.

(** ** Proofs *)

Definition submitted (evs : list bevent) : list BackSourceTask := omap (fun e => match e with SubmitTask t => Some t | _ => None end) evs.

(** The message for a finished request. *)
Definition answer (o : BackSourceTask * option bytes) : list aggregatorMsg :=
  match doOriginRequest o.1 o.2 with Ret (Some msg) => [msg] | _ => [] end.

(** What a message says: for whom, what, and over which hops. *)
Definition said (msg : aggregatorMsg) : Z * bytes * list string := (m_userID msg, m_data msg, m_hops msg).

(** What is owed for a finished request: when the origin answered with data, the data for the id of the request,
    over the addresses of its path in reverse without the origin. *)
Definition owed (o : BackSourceTask * option bytes) : option (Z * bytes * list string) :=
  match o.2 with
  | Some (x :: d) => Some (t_UserID o.1, x :: d, ip_string <$> (Uint32ToIP <$> tail (filter (fun ip => ip <> 0) (reverse (t_HopIP o.1)))))
  | _ => None
  end.

Lemma doOriginRequest_said t resp msg : doOriginRequest t resp = Ret msg -> said <$> option_list msg = option_list (owed (t, resp)).
Proof.
  unfold doOriginRequest, owed, response_hops. cbn [fst snd]. destruct resp as [[|x d]|]; [by intros [= <-]| |by intros [= <-]].
  destruct (filter (fun ip => ip <> 0) (reverse (t_HopIP t))) as [|a [|b [|c l]]]; try done. by intros [= <-].
Qed.

(** The channel operation of a step. *)
Definition op_of (e : bevent) : op BackSourceTask :=
  match e with SubmitTask t => Send t | TakeTask => Recv | Finish t _ => Done t | Close => CloseChan end.

Lemma back_step_Next b e b' :
  back_step b e = Next b' -> exists p, fire (workers b) (op_of e) = Next p /\ workers b' = p /\
    match e with
    | Finish t resp => outcomes b' = outcomes b ++ [(t, resp)] /\ responses b' = responses b ++ answer (t, resp)
    | _ => outcomes b' = outcomes b /\ responses b' = responses b
    end.
Proof.
  destruct e as [t| |t resp|]; cbn [back_step op_of]; destruct (fire (workers b) _) as [p| |]; cbn [lift]; try done; intros Hx;
    try (injection Hx as <-; cbn; rewrite !app_nil_r; eauto).
  exists p. split; [done|]. unfold answer. cbn [fst snd]. destruct (doOriginRequest t resp) as [[msg|]|]; [injection Hx as <-; done|injection Hx as <-; cbn; by rewrite app_nil_r|done].
Qed.

(** What is true of a back-sourcer to which the tasks [ts] were submitted. *)
Record back_ok (n : nat) (ts : list BackSourceTask) (b : backSourcer) : Prop := {
  bk_acc : accounts ts (workers b);
  bk_size : size (workers b) = n;
  bk_cap : cap (workers b) = taskQueueSize;
  bk_out : (outcomes b).*1 = finished (workers b);
  bk_said : said <$> responses b = omap owed (outcomes b)
}.

Lemma back_step_ok n ts b e b' : back_ok n ts b -> back_step b e = Next b' -> back_ok n (ts ++ submitted [e]) b'.
Proof.
  intros [Ha Hs Hc Ho Hr] Hstep. destruct (back_step_Next b e b' Hstep) as (p & Hf & <- & He).
  destruct (fire_accounts ts (workers b) (op_of e) _ Ha Hf) as (Ha' & Hs' & Hc').
  assert (Hsub : submitted [e] = sent [op_of e]) by (by destruct e). rewrite Hsub. constructor; [done|congruence|congruence| |].
  - destruct e as [t| |t resp|]; cbn [op_of fire] in Hf; destruct He as [-> _]; repeat case_match; try done; injection Hf as <-; cbn; try done.
    rewrite fmap_app. by rewrite Ho.
  - destruct e as [t| |t resp|]; destruct He as [-> ->]; try done. rewrite fmap_app, omap_app, Hr. f_equal. cbn [back_step] in Hstep. cbn [op_of] in Hf. rewrite Hf in Hstep.
    destruct (doOriginRequest t resp) as [msg|] eqn:Ed; [|done]. unfold answer. cbn [fst snd]. rewrite Ed.
    pose proof (doOriginRequest_said t resp msg Ed) as Hsaid. destruct msg; cbn in *; by rewrite Hsaid; destruct (owed (t, resp)).
Qed.

Lemma back_run_ok n ts b evs b' : back_ok n ts b -> back_run b evs = Next b' -> back_ok n (ts ++ submitted evs) b'.
Proof.
  revert ts b. induction evs as [|e evs IH]; intros ts b Hb; cbn [back_run]; [intros [= <-]; by rewrite app_nil_r|].
  destruct (back_step b e) as [b1| |] eqn:E; [|done..]. intros Hr. pose proof (IH _ _ (back_step_ok _ _ _ _ _ Hb E) Hr) as Hx.
  rewrite <- app_assoc in Hx. replace (submitted (e :: evs)) with (submitted [e] ++ submitted evs); [done|]. unfold submitted. cbn. by destruct e.
Qed.

Lemma back_ok_new n : back_ok (size (workers (NewBackSourcer n))) [] (NewBackSourcer n).
Proof. constructor; [by apply accounts_start|done..]. Qed.

(** An origin that does not answer lets every worker go on. *)
Lemma back_follows b os p :
  Forall (fun o => is_work o = true) os -> fires (workers b) os = Next p ->
  exists evs b', Forall (fun e => match e with TakeTask | Finish _ None => True | _ => False end) evs /\ back_run b evs = Next b' /\ workers b' = p.
Proof.
  intros Hw. revert b. induction Hw as [|o os Ho Hos IH]; intros b; cbn [fires].
  { intros [= <-]. by exists [], b. }
  destruct (fire (workers b) o) as [p1| |] eqn:Ef; [|done..]. intros Hf. destruct o as [| |t|]; try done.
  - destruct (IH (mkBS p1 (outcomes b ++ []) (responses b ++ [])) Hf) as (evs & b' & He & Hr & Hp). exists (TakeTask :: evs), b'.
    split; [by constructor|]. split; [|done]. cbn [back_run back_step]. by rewrite Ef.
  - destruct (IH (mkBS p1 (outcomes b ++ [(t, None)]) (responses b ++ [])) Hf) as (evs & b' & He & Hr & Hp). exists (Finish t None :: evs), b'.
    split; [by constructor|]. split; [|done]. cbn [back_run back_step]. by rewrite Ef.
Qed.

(** ** Properties *)

(** C23. The back-sourcer's workers: in any order of submissions, workers and answers in which no worker panics (one does when a request with fewer than three
    addresses is answered with data), every submitted
    task is exactly one of queued, with a worker, or finished, at most [BackWorkerCount] (100 by
    default) are with workers, and the messages handed to the response aggregator are, in the order in which the requests finished, one for
    every finished request that its origin answered with data, and none for another: with the id of the request, the data of the answer and
    the hops of the request in reverse without the origin.  After [Close] a submission panics, and the workers can always go on until [Close] returns, at which
    point every task is finished. *)
Theorem back_workers n evs b :
  back_run (NewBackSourcer n) evs = Next b ->
  let p := workers b in
  queue p ++ running p ++ (outcomes b).*1 ≡ₚ submitted evs /\
  (length (running p) <= Z.to_nat (if (n <=? 0)%Z then 100 else n))%nat /\
  said <$> responses b = omap owed (outcomes b) /\
  (closed p = true -> forall t, back_step b (SubmitTask t) = Panics) /\
  exists evs' b', Forall (fun e => match e with TakeTask | Finish _ None => True | _ => False end) evs' /\
    back_run b evs' = Next b' /\ queue (workers b') = [] /\ running (workers b') = [] /\ (outcomes b').*1 ≡ₚ submitted evs.
Proof.
  intros Hr p. pose proof (back_run_ok _ _ _ _ _ (back_ok_new n) Hr) as Hb. cbn [app] in Hb. pose proof Hb as [Ha Hs _ Ho Hre]. destruct Ha as [Ht _ Hl]. split_and!.
  - by rewrite Ho.
  - rewrite Hs in Hl. exact Hl.
  - done.
  - intros Hc t. cbn [back_step fire]. unfold p in Hc. by rewrite Hc.
  - destruct (can_drain (workers b)) as (os & p' & Hw & Hf & Hq & Hru & _).
    { rewrite Hs. cbn. unfold backWorkerCount. destruct (Z.leb_spec n 0); lia. }
    destruct (back_follows b os p' Hw Hf) as (evs' & b' & He & Hr' & Hp). exists evs', b'. split_and!; [done|done|by rewrite Hp|by rewrite Hp|].
    destruct (back_run_ok _ _ _ _ _ Hb Hr') as [[Ht' _ _] _ _ Ho' _]. rewrite Hp, Hq, Hru in Ht'. cbn [app] in Ht'. rewrite Ho', Hp, Ht'.
    assert (Hn : submitted evs' = []) by (clear -He; induction He as [|e evs He Hes IH]; [done|]; unfold submitted in *; cbn; by destruct e).
    by rewrite Hn, app_nil_r.
Qed.

Lemma back_workers_witness :
  let t := mkTask [1; 2; 3; 0] 80 7 "10.0.0.9:80" [10] in
  exists b, back_run (NewBackSourcer 0) [SubmitTask t; SubmitTask t; TakeTask; Finish t (Some [65; 10])] = Next b /\ length (responses b) = 1%nat /\
    said <$> responses b = [(7, [65; 10], ["0.0.0.2"; "0.0.0.1"])].
Proof.
  intros t. destruct (back_run (NewBackSourcer 0) [SubmitTask t; SubmitTask t; TakeTask; Finish t (Some [65; 10])]) as [b| |] eqn:E;
    [|vm_compute in E; discriminate E|vm_compute in E; discriminate E].
  destruct (back_workers 0 _ b E) as (_ & _ & Hre & _). exists b. split; [done|]. rewrite Hre.
  vm_compute in E. injection E as <-. split; reflexivity.
Defined.
End BackPool.
