(* ===== verification/AggregatorRoute.v ===== *)
(** * Which way the aggregator sends (data-proxy/aggregator/aggregator.go)

    The batches of a worker are filed by routing key.  This file shows that any property of a packet
    header that the messages of a key agree on is kept by the worker and holds of every packet it
    sends, and instantiates it: the packets of a key carry the key's path, port and protocol, and go
    to the path's second address. *)

From Stdlib Require Import ZArith Lia.
From stdpp Require Import base list gmap strings.
From S2P Require Import Prelude GoStrings GoChan Packet Tunnel GoHeap Aggregator AggregatorSteps.
Import TunnelPacket TunnelHandler Aggregator AggregatorSteps.

Module AggregatorRoute.

Local Open Scope Z_scope.

Lemma AppendUserPacket_header p uid d p' ok : AppendUserPacket p uid d = Ret (p', ok) -> same_header p p'.
Proof.
  unfold AppendUserPacket. case_match; [by intros [= <- <-]|].
  intros Hx. repeat (apply go_bind_Ret in Hx as (? & _ & Hx)). by injection Hx as <- <-.
Qed.

Lemma SerializeHead_header p p' : SerializeHead p = Ret p' -> same_header p p'.
Proof. unfold SerializeHead. case_scrut; intros [=]; by subst. Qed.

Lemma same_header_trans p q r : same_header p q -> same_header q r -> same_header p r.
Proof. unfold same_header. intuition congruence. Qed.

Section Header.
Context `{IPv6Parser}.

(** A property of the headers sent for a key to a next hop. *)
Context (P : string -> bytes -> Packet -> Prop).
Context (P_header : forall k n p q, same_header p q -> P k n p -> P k n q).

Definition store_ok (st : gmap nat Batch) : Prop :=
  forall id b, st !! id = Some b -> P (b_RoutingKey b) (b_NextHop b) (b_pkt b).

Definition msg_header_ok (msg : aggregatorMsg) : Prop :=
  forall size p, msg_packet size msg = Ret p -> P (m_routingKey msg) (m_nextHop msg) p.

Definition send_ok (s : sendInfo) : Prop :=
  exists q subs, Parse (s_p s) (Z.of_nat (length (s_p s))) = Ret (inr (q, subs)) /\ P (s_routingKey s) (s_next s) q.

Lemma store_ok_insert st id b : store_ok st -> P (b_RoutingKey b) (b_NextHop b) (b_pkt b) -> store_ok (<[id := b]> st).
Proof. intros Hs Hb i b'. rewrite lookup_insert_Some. intros [[_ <-]|[_ ?]]; [done|by eapply Hs]. Qed.

Lemma schedule_ok w id b dl : store_ok (store w) -> P (b_RoutingKey b) (b_NextHop b) (b_pkt b) -> store_ok (store (schedule w id b dl)).
Proof. intros Hs Hb. unfold schedule. destruct (b_heapItem b); cbn [store]; by apply store_ok_insert. Qed.

Section Msg.
Context (msg : aggregatorMsg) (Hmsg : msg_header_ok msg).

Lemma new_batch_header size now b :
  new_batch size now msg = Ret b ->
  P (b_RoutingKey b) (b_NextHop b) (b_pkt b) /\ b_RoutingKey b = m_routingKey msg /\ b_NextHop b = m_nextHop msg.
Proof. unfold new_batch. intros (p & Hp & [= <-])%go_bind_Ret. cbn. split; [by eapply Hmsg|done]. Qed.

Lemma add_batches_header size now n : forall w w' ids,
  add_batches n size now msg w = Ret (w', ids) -> store_ok (store w) -> store_ok (store w').
Proof.
  induction n as [|n IH]; intros w w' ids; cbn [add_batches]; [by intros [= <- <-]|].
  intros (b & Hb & Hx)%go_bind_Ret Hs. apply go_bind_Ret in Hx as ([w2 ids2] & Ha & [= <- <-]).
  eapply IH; [exact Ha|]. cbn [store]. apply store_ok_insert; [done|]. by eapply new_batch_header.
Qed.

Lemma find_batch_header cfg now w w' oid :
  find_batch cfg now w msg = Ret (w', oid) -> store_ok (store w) -> store_ok (store w').
Proof.
  unfold find_batch. case_match; [by intros [= <- <-]|]. case_match; [by intros [= <- <-]|].
  intros ([w1 ids] & Ha & [= <- _])%go_bind_Ret. cbn [store]. by eapply add_batches_header.
Qed.

Lemma append_msg_header cfg now w id b w' :
  append_msg cfg now w id b msg = Ret w' -> store_ok (store w) -> P (b_RoutingKey b) (b_NextHop b) (b_pkt b) ->
  store_ok (store w').
Proof.
  unfold append_msg. intros ([p ok] & Hp & Hx)%go_bind_Ret Hs Hb.
  assert (Hh : same_header (b_pkt b) p).
  { destruct (_ && _); [injection Hp as <- _; by repeat split|by eapply AppendUserPacket_header]. }
  destruct ok.
  - injection Hx as <-. apply schedule_ok; [done|]. cbn. by eapply P_header.
  - apply go_bind_Ret in Hx as (b_ & Hb_ & Hx). apply go_bind_Ret in Hx as ([p_ ok_] & Hp_ & [= <-]).
    destruct (new_batch_header _ _ _ Hb_) as [HP _]. apply schedule_ok.
    + cbn [store]. by apply store_ok_insert.
    + cbn. eapply P_header; [by eapply AppendUserPacket_header|done].
Qed.

Lemma send_direct_header size out :
  24 <= size < 24 + 2 ^ 16 -> fits 16 (m_port msg) -> valid_sub (msg_sub msg) ->
  send_direct size msg = Ret out -> Forall send_ok out.
Proof.
  intros Hs Hport Hv. unfold send_direct.
  destruct (msg_packet_Rep size msg Hs Hport) as (p & Hm & HR & Hb & _). rewrite Hm. cbn [go_bind].
  pose proof HR as (_ & Hwp & _). unfold HeaderSize in Hwp. cbn in Hwp.
  destruct (decide (24 + sub_size (msg_sub msg) <= size)) as [Hd|Hd].
  - destruct (Rep_append p [] (msg_sub msg) HR) as (p1 & Ha & HR1 & Hh1 & _ & Hl1); [apply Hv|lia|].
    cbn [UserID Data msg_sub] in Ha. rewrite Ha. cbn [go_bind].
    destruct (wire_Rep p1 [msg_sub msg] HR1) as (p2 & buf & -> & Hwire & Hne & _ & _ & q & Hq & Hh2); [by constructor|done|].
    cbn [go_bind]. rewrite Hwire. cbn [go_bind]. intros [= <-]. unfold flush. destruct buf as [|x buf]; [done|].
    constructor; [|constructor]. exists q, [msg_sub msg]. split; [done|]. cbn [s_routingKey s_next].
    apply (P_header _ _ p q); [by eapply same_header_trans|by eapply Hmsg].
  - rewrite AppendUserPacket_full by (unfold msg_sub in *; lia). cbn [go_bind]. by intros [= <-].
Qed.

Lemma handleMsg_header cfg now w w' out :
  cfg_ok cfg -> msg_ok msg -> winv (BufferSize cfg) w -> store_ok (store w) ->
  handleMsg cfg now w msg = Ret (w', out) -> store_ok (store w') /\ Forall send_ok out.
Proof.
  intros Hc (Hp & Hv & Hsz) Hw Hs. unfold handleMsg.
  destruct (is_direct cfg msg || m_emerge msg) eqn:Ed.
  - intros (o & Ho & [= <- <-])%go_bind_Ret. split; [done|]. eapply send_direct_header; [|done|done|done].
    case_match; [|exact Hc]. unfold sub_size, msg_sub, HeaderSize in *. cbn [Data] in *. lia.
  - intros ([w1 oid] & Hf & Hx)%go_bind_Ret. pose proof (find_batch_header _ _ _ _ _ Hf Hs) as Hs1.
    destruct oid as [id|]; [|by injection Hx as <- <-].
    destruct (store w1 !! id) as [b|] eqn:Hb; [|done]. apply go_bind_Ret in Hx as (w2 & Ha & [= <- <-]).
    split; [|constructor]. eapply append_msg_header; [done|done|by eapply Hs1].
Qed.
End Msg.

Lemma flush_item_header size now st it b st' out :
  st !! it_batch it = Some b -> batch_ok size b -> b_heapItem b <> None -> store_ok st ->
  flush_item now st it = Ret (st', out) -> store_ok st' /\ Forall send_ok out.
Proof.
  intros Hb [HR Hv Hs _ Hl] Hi Hst. unfold flush_item. rewrite Hb.
  destruct (wire_Rep _ _ HR Hv (Hl Hi)) as (p & buf & Hser & Hw & Hne & HR' & Hb' & q & Hq & Hh).
  rewrite Hser. cbn [go_bind]. rewrite Hw. cbn [go_bind]. intros [= <- <-]. split.
  - apply store_ok_insert; [done|]. cbn. eapply P_header; [|by eapply Hst].
    pose proof (SerializeHead_header _ _ Hser). unfold same_header in *. by cbn.
  - unfold flush. destruct buf; [done|]. constructor; [|constructor]. eexists q, _. split; [exact Hq|]. cbn.
    eapply P_header; [exact Hh|]. by eapply Hst.
Qed.

Lemma flush_items_header size now items : forall st st' out,
  NoDup (map it_batch items) ->
  (forall it, it ∈ items -> exists b, st !! it_batch it = Some b /\ batch_ok size b /\ b_heapItem b = Some it) ->
  store_ok st -> flush_items now st items = Ret (st', out) -> store_ok st' /\ Forall send_ok out.
Proof.
  induction items as [|it items IH]; intros st st' out Hnd Hin Hst; cbn [flush_items].
  { intros [= <- <-]. by split. }
  cbn [map] in Hnd. apply NoDup_cons in Hnd as [Hni Hnd]. destruct (Hin it) as (b & Hb & Hok & Hi); [left|].
  intros ([st1 out1] & H1 & Hx)%go_bind_Ret. apply go_bind_Ret in Hx as ([st2 out2] & H2 & [= <- <-]).
  destruct (flush_item_spec size now st it b Hb Hok) as (b' & out' & Hf & _); [by rewrite Hi|].
  destruct (flush_item_header size now st it b st1 out1 Hb Hok) as [Hs1 Ho1]; try done; [by rewrite Hi|].
  rewrite H1 in Hf. injection Hf as -> _.
  destruct (IH (<[it_batch it := b']> st) st2 out2 Hnd) as [Hs2 Ho2]; [|done|done|split; [done|by apply Forall_app]].
  intros it' Hit. destruct (Hin it') as (b1 & Hb1 & ?); [by right|]. exists b1. rewrite lookup_insert_ne; [done|].
  intros He. apply Hni. rewrite He. by apply list_elem_of_fmap_2.
Qed.

Lemma checkTimeout_header size now w w' out :
  winv size w -> store_ok (store w) -> checkTimeout now w = Ret (w', out) -> store_ok (store w') /\ Forall send_ok out.
Proof.
  intros Hw Hs. unfold checkTimeout.
  pose proof (pop_expired_spec now (length (heap w)) (heap w) (w_heap _ _ Hw) (le_n _)) as Hpop.
  destruct (pop_expired _ now (heap w)) as [xs h]. destruct Hpop as (_ & Hp & _).
  pose proof (expired_batches size w xs h Hw Hp) as Hnd. rewrite map_app in Hnd. apply NoDup_app in Hnd as (Hnx & _).
  intros ([st out0] & Hf & [= <- <-])%go_bind_Ret. cbn [store]. eapply flush_items_header; [done| |done|done].
  intros it Hit. destruct (w_sched _ _ Hw it) as (b & Hb & Hi); [rewrite Hp; apply elem_of_app; by left|].
  exists b. split_and!; try done. by eapply Hw.
Qed.

(** Eviction only removes batches. *)
Lemma evict_header now keys w w' : evictStaleBatches now w keys = Ret w' -> store_ok (store w) -> store_ok (store w').
Proof.
  revert w. induction keys as [|k keys IH]; intros w; cbn [evictStaleBatches]; [by intros [= ->]|].
  intros (w1 & H1 & Hx)%go_bind_Ret Hs. apply (IH w1 Hx). unfold evict_key in H1. repeat case_match; try (injection H1 as <-; done).
  apply go_bind_Ret in H1 as (h & _ & [= <-]). cbn [store]. intros id b. rewrite lookup_foldr_delete'. case_decide; [done|]. apply Hs.
Qed.

Definition event_header_ok (e : event) : Prop := match e with Msg _ msg => msg_header_ok msg | Tick _ => True end.

Lemma run_header cfg evs : forall w w' out,
  cfg_ok cfg -> Forall event_ok evs -> Forall event_header_ok evs -> winv (BufferSize cfg) w -> store_ok (store w) ->
  run cfg w evs = Ret (w', out) -> Forall send_ok out.
Proof.
  induction evs as [|e evs IH]; intros w w' out Hc He Hh Hw Hs; cbn [run]; [by intros [= <- <-]|].
  apply Forall_cons in He as [He Hes]. apply Forall_cons in Hh as [Hh Hhs].
  intros ([w1 out1] & H1 & Hx)%go_bind_Ret. apply go_bind_Ret in Hx as ([w2 out2] & H2 & [= <- <-]).
  destruct (step_spec cfg w e Hc He Hw) as (w1' & out1' & H1' & Hw1 & _). rewrite H1 in H1'. injection H1' as <- <-.
  assert (Hstep : store_ok (store w1) /\ Forall send_ok out1).
  { destruct e as [now msg|now]; [by apply (handleMsg_header msg Hh cfg now w)|by apply (checkTimeout_header (BufferSize cfg) now w)]. }
  destruct Hstep as [Hs1 Ho1]. apply Forall_app. split; [done|]. by eapply IH.
Qed.

(** ** The goroutines of a worker *)

(** The message that the message goroutine has in hand. *)
Definition hand_header (h : handler) : Prop :=
  match h with HLookup msg | HMake msg | HBatch msg _ | HJoin msg _ => msg_header_ok msg | _ => True end.

Definition worker_header (g : gworker) : Prop := store_ok (store (base g)) /\ hand_header (pc g).

Lemma take_msg_header cfg g msg g' out :
  cfg_ok cfg -> msg_ok msg -> msg_header_ok msg -> worker_header g -> take_msg cfg g msg = Ret (g', out) -> worker_header g' /\ Forall send_ok out.
Proof.
  intros Hc (Hp & Hv & Hsz) Hm [Hs Hh]. unfold take_msg. destruct (is_direct cfg msg || m_emerge msg) eqn:Ed; [|intros [= <- <-]; by repeat split].
  intros (o & Ho & [= <- <-])%go_bind_Ret. split; [done|]. eapply send_direct_header; [exact Hm| |done|done|exact Ho].
  case_match; [|exact Hc]. unfold sub_size, msg_sub, HeaderSize in *. cbn [Data] in *. lia.
Qed.

Lemma put_header g id b : store_ok (store (base g)) -> (forall b0, store (base g) !! id = Some b0 -> P (b_RoutingKey b) (b_NextHop b) (b_pkt b)) -> store_ok (store (base (put g id b))).
Proof. intros Hs Hb. unfold put. destruct (store (base g) !! id) as [b0|]; [|done]. cbn. apply store_ok_insert; [done|by apply (Hb b0)]. Qed.

Lemma try_append_header b msg p ok : try_append b msg = Ret (p, ok) -> same_header (b_pkt b) p.
Proof. unfold try_append. case_match; [intros [= <- _]; by repeat split|by eapply AppendUserPacket_header]. Qed.

Lemma work_header cfg now g g' : worker_header g -> work cfg now g = Next g' -> worker_header g'.
Proof.
  intros [Hs Hh]. unfold work. destruct (pc g) as [|msg|msg|msg id|msg id|id|id it] eqn:Hpc; cbn [hand_header] in Hh; [done|..].
  - intros [= <-]. split; [done|]. cbn. by case_match.
  - unfold make_batches. destruct (go_bind _ _) as [[w' oid]|] eqn:Hm; [|done]. intros [= <-]. split; [|by destruct oid]. cbn.
    apply go_bind_Ret in Hm as ([w1 ids] & Ha & Hx). case_match; injection Hx as <- _; [done|]. cbn [store]. by eapply (add_batches_header msg).
  - destruct (get g id) as [b|] eqn:Hb; [|done]. destruct (try_append b msg) as [[p [|]]|] eqn:Hp; [| |done].
    + intros [= <-]. apply try_append_header in Hp. split; [|cbn; by destruct (b_heapItem b)]. apply (put_header g id (set_pkt b p) Hs).
      intros b0 Hb0. rewrite (get_store _ _ _ Hb0) in Hb. injection Hb as <-. cbn. eapply P_header; [exact Hp|by eapply Hs].
    + destruct (new_batch _ now msg) as [b_|] eqn:Hn; [|done]. intros [= <-]. split; [|done]. cbn. apply store_ok_insert; [done|].
      by eapply (new_batch_header msg).
  - destruct (store (base g) !! id) as [b|] eqn:Hb; [|done]. destruct (AppendUserPacket _ _ _) as [[p ok]|] eqn:Hp; [|done]. intros [= <-]. split; [|done]. cbn.
    apply store_ok_insert; [done|]. cbn. eapply P_header; [by eapply AppendUserPacket_header|by eapply Hs].
  - intros [= <-]. by split.
  - destruct (store (base g) !! id) as [b|] eqn:Hb; [|done]. intros [= <-]. split; [|done]. cbn. apply store_ok_insert; [done|]. cbn. by eapply Hs.
Qed.

Lemma gstep_header cfg g e g' out :
  cfg_ok cfg -> ginv cfg g -> worker_header g -> gstep cfg g e = Next (g', out) -> worker_header g' /\ Forall send_ok out.
Proof.
  intros Hc Hg Hw. pose proof Hw as [Hs Hh]. destruct e as [now|now| |now keys| |]; cbn [gstep]; rewrite ?quietly_Next.
  - intros [Hx ->]. split; [by eapply work_header|constructor].
  - intros [Hx ->]. split; [|constructor]. unfold pop_timer in Hx. destruct (expired g); [|done]. destruct (pop_expired _ _ _). by injection Hx as <-.
  - unfold flush_next. destruct (expired g) as [|it rest] eqn:Ee; [done|]. destruct (holds (pc g) (it_batch it)) eqn:Eh; [done|].
    destruct (flush_item _ _ it) as [[st o]|] eqn:Hf; [|done]. intros [= <- <-].
    destruct (popped_ready cfg g it rest Hg Ee Eh) as (b & Hb & Hi & Hok).
    destruct (flush_item_header (BufferSize cfg) (tnow g) (store (base g)) it b st o Hb Hok) as [Hs' Ho]; [by rewrite Hi|done|done|]. by repeat split.
  - intros [Hx ->]. split; [|constructor]. unfold snapshot in Hx. repeat case_match; try done; by injection Hx as <-.
  - intros [Hx ->]. split; [|constructor]. unfold read_age in Hx. repeat case_match; try done; by injection Hx as <-.
  - intros [Hx ->]. split; [|constructor]. unfold evict_route in Hx. repeat case_match; try done; injection Hx as <-; [|done]. split; [|done]. cbn.
    intros id b [Hb _]%map_lookup_filter_Some. by eapply Hs.
Qed.
End Header.
End AggregatorRoute.
