(* ===== verification/Proxy.v ===== *)
(** * The data path end to end

    The components of the data proxy put together: the request that a client handler hands to the
    aggregator ([Server]) travels in the aggregator's packets over the tunnels ([Tunnel]) to the
    egress proxy, which asks the origin ([BackSourcer]); the answer travels back the same way to the
    waiter of the request. *)

From Stdlib Require Import ZArith Lia Ascii String.
From stdpp Require Import base list gmap strings pretty.
From S2P Require Import Prelude GoStrings F64 Packet Tunnel GoHeap Aggregator Server BackSourcer AggregatorRoute.
Import TunnelPacket TunnelHandler Aggregator AggregatorRoute BackSourcer.

Module Proxy.

Local Open Scope Z_scope.

(** ** Addresses *)

(** An IPv4 address that is not 0.0.0.0. *)
Definition addr_ok (b : bytes) : Prop := length b = 4%nat /\ Forall (fits 8) b /\ be b <> 0.

#[global] Instance addr_ok_dec b : Decision (addr_ok b).
Proof. unfold addr_ok. apply _. Defined.

Lemma addr_bytes b : addr_ok b -> exists x y z w, b = [x; y; z; w] /\ fits 8 x /\ fits 8 y /\ fits 8 z /\ fits 8 w.
Proof.
  intros (Hl & Hb & _). destruct b as [|x [|y [|z [|w [|]]]]]; try discriminate Hl.
  do 4 (apply Forall_cons in Hb as [? Hb]). by exists x, y, z, w.
Qed.

Lemma Uint32ToIP_be b : addr_ok b -> Uint32ToIP (be b) = b.
Proof.
  intros (x & y & z & w & -> & Hx & Hy & Hz & Hw)%addr_bytes. unfold Uint32ToIP, put_u32, be, wrap, fits in *. simpl.
  rewrite !Z.shiftr_div_pow2 by lia. change (2 ^ 24) with 16777216. change (2 ^ 16) with 65536. change (2 ^ 8) with 256 in *.
  apply (f_equal2 cons); [|apply (f_equal2 cons); [|apply (f_equal2 cons); [|apply (f_equal2 cons); [|done]]]];
    Z.to_euclidean_division_equations; lia.
Qed.

(** The characters of a numeral. *)
Lemma numeral_char (c : ascii) (z : Z) : c ∈ [","; ":"; "."]%char -> has_char c (pretty z) = false.
Proof.
  intros Hc. rewrite !elem_of_cons, elem_of_nil in Hc.
  apply pretty_Z_char; [|naive_solver]. intros n. unfold pretty_N_char.
  destruct Hc as [->|[->|[->|[]]]]; repeat case_match; reflexivity.
Qed.

Lemma ip_string_char c b : addr_ok b -> c ∈ [","; ":"]%char -> has_char c (ip_string b) = false.
Proof.
  intros (x & y & z & w & -> & _)%addr_bytes Hc. cbn [ip_string].
  assert (Hn : forall q : Z, has_char c (pretty q) = false) by (intros; apply numeral_char; set_solver).
  assert (Hd : has_char c "." = false).
  { rewrite !elem_of_cons, elem_of_nil in Hc. by destruct Hc as [->|[->|[]]]. }
  by rewrite !has_char_app, !Hn, !Hd.
Qed.

(** A printed address is parsed as the address. *)
Lemma HopIPToNet_string `{IPv6Parser} b : addr_ok b -> HopIPToNet (ip_string b) = b.
Proof.
  intros (x & y & z & w & -> & Hx & Hy & Hz & Hw)%addr_bytes. unfold HopIPToNet, ParseIP.
  assert (Hn : forall c (q : Z), c ∈ [","; ":"; "."]%char -> has_char c (pretty q) = false) by apply numeral_char.
  cbn [ip_string]. rewrite first_sep_dot by (apply Hn; set_solver).
  change (pretty x +:+ "." +:+ pretty y +:+ "." +:+ pretty z +:+ "." +:+ pretty w)
    with (Join [pretty x; pretty y; pretty z; pretty w] ".").
  unfold parseIPv4. rewrite (Split_Join _ "." "."); [|constructor|done|repeat constructor; apply Hn; set_solver].
  rewrite !ip_field_pretty by done. cbn [Ascii.eqb Bool.eqb]. reflexivity.
Qed.
(** ** Routes *)

Record route := mkRoute { r_path : list bytes; r_port : Z; r_proto : string }.

Definition words (r : route) : list Z := be <$> r_path r.

Definition r_next (r : route) : bytes := r_path r !!! 1%nat.

(** A path from the ingress over at least one more proxy to the origin. *)
Definition request_route (r : route) : Prop :=
  (3 <= length (r_path r) <= 4)%nat /\ Forall addr_ok (r_path r) /\ r_port r <> 0.

(** A path from the egress back to the ingress. *)
Definition response_route (r : route) : Prop :=
  (2 <= length (r_path r) <= 4)%nat /\ Forall addr_ok (r_path r) /\ r_port r = 0.

(** The message is for this route. *)
Definition on_route (r : route) (msg : aggregatorMsg) : Prop :=
  m_hops msg = ip_string <$> r_path r /\ m_nextHop msg = r_next r /\ m_port msg = r_port r /\ m_protocol msg = r_proto r.

Definition proto_byte (protocol : string) : Z := if String.eqb protocol "tcp" then 6 else 17.

(** The header of the packets of a route. *)
Definition route_header (r : route) (next : bytes) (p : Packet) : Prop :=
  next = r_next r /\ HopPos p = 1 /\ HopIP p = pad4 (words r) /\ Port p = r_port r /\ Protocol p = proto_byte (r_proto r).

(** A worker serves many routes: [tbl] is the route of a key, and the messages of a key agree on it. *)
Definition event_on (ok : route -> Prop) (tbl : string -> route) (e : event) : Prop :=
  match e with
  | Msg _ msg => ok (tbl (m_routingKey msg)) /\ on_route (tbl (m_routingKey msg)) msg
  | Tick _ => True
  end.

(** What a packet does at the proxy that consumes it. *)
Definition effects (fuel : nat) (s : sendInfo) : list effect :=
  match transit fuel (be (s_next s)) (s_p s) with
  | Ret (Some (_, effs)) => effs
  | _ => []
  end.

(** What a message is to become: a task at the egress, a delivery at the ingress. *)
Definition task_of (r : route) (s : SubPacket) : BackSourceTask :=
  mkTask (pad4 (words r)) (r_port r) (UserID s)
    (JoinHostPort (ip_string (List.last (r_path r) [])) (pretty (r_port r))) (Data s).

Definition request_effect (r : route) (s : SubPacket) : effect :=
  Submit (if String.eqb (r_proto r) "tcp" then "tcp" else "udp") (task_of r s).

Definition response_effect (r : route) (s : SubPacket) : effect := Deliver (UserID s) (Data s).

Section Routes.
Context `{IPv6Parser}.

Lemma set_hop p i b : addr_ok b -> 0 <= i < 4 -> HopIP (SetHopIP p i (HopIPToNet (ip_string b))) = <[Z.to_nat i := be b]> (HopIP p).
Proof.
  intros Hb Hi. rewrite HopIPToNet_string by done. unfold SetHopIP, MaxHops.
  rewrite (proj2 (Z.ltb_ge i 0)), (proj2 (Z.leb_gt 4 i)) by lia. cbn [orb].
  destruct (addr_bytes _ Hb) as (x & y & z & w & -> & _). done.
Qed.

(** The header of a packet made for a message of the route. *)
Lemma msg_packet_header r msg size p :
  (length (r_path r) <= 4)%nat -> Forall addr_ok (r_path r) -> on_route r msg ->
  msg_packet size msg = Ret p -> route_header r (m_nextHop msg) p.
Proof.
  intros Hl Ha (Hh & Hn & Hp & Hpr) Hm. unfold msg_packet in Hm. apply go_bind_Ret in Hm as (p0 & H0 & [= <-]).
  unfold route_header, proto_byte. rewrite <- Hp, <- Hpr. split; [done|].
  assert (Hz : HopIP p0 = replicate 4 0) by (unfold NewPacket in H0; case_match; [done|]; by injection H0 as <-).
  unfold SetHopPos, MaxHops, SetProtocol, SetPort. cbn [Z.leb Z.ltb Z.compare Pos.compare Pos.compare_cont andb HopPos HopIP Port Protocol].
  split; [done|]. split; [|done]. rewrite Hh. unfold words.
  destruct (r_path r) as [|a0 [|a1 [|a2 [|a3 [|]]]]]; [..|simpl in Hl; lia];
    repeat (apply Forall_cons in Ha as [? Ha]); cbn [fmap list_fmap set_hops];
    rewrite ?set_hop by (done || lia); rewrite Hz; reflexivity.
Qed.

Section Run.
Context (ok : route -> Prop) (tbl : string -> route).
Context (ok_path : forall r, ok r -> (length (r_path r) <= 4)%nat /\ Forall addr_ok (r_path r)).
Context (fuel : nat) (eff : route -> SubPacket -> effect).
Context (arrives : forall r raw subs,
  ok r -> carries raw 1 (pad4 (words r)) (r_port r) (proto_byte (r_proto r)) subs ->
  exists node, transit fuel (be (r_next r)) raw = Ret (Some (node, eff r <$> subs))).

Definition tagged_effect (ks : string * SubPacket) : effect := eff (tbl (fst ks)) (snd ks).

(** The header of the packets of a key. *)
Definition key_header (k : string) (n : bytes) (p : Packet) : Prop := ok (tbl k) /\ route_header (tbl k) n p.

Lemma key_header_same k n p q : same_header p q -> key_header k n p -> key_header k n q.
Proof. intros (Hpos & Hhops & Hport & Hproto) [Hok Hhd]. split; [done|]. unfold route_header in *. intuition congruence. Qed.

Lemma key_header_msg msg : ok (tbl (m_routingKey msg)) -> on_route (tbl (m_routingKey msg)) msg -> msg_header_ok key_header msg.
Proof. intros Hok Hmsg size p Hm. split; [done|]. destruct (ok_path _ Hok). by eapply msg_packet_header. Qed.

(** A packet of the worker turns into the effects of the messages it carries. *)
Lemma send_effects s : send_ok key_header s -> effects fuel s = tagged_effect <$> carried s.
Proof.
  intros (q & subs & Hq & Hok & Hn & Hpos & Hhops & Hport & Hproto). unfold effects, carried. rewrite Hq, Hn.
  destruct (arrives (tbl (s_routingKey s)) (s_p s) subs Hok) as (node & ->); [by exists q|].
  unfold tagged. rewrite <- list_fmap_compose. done.
Qed.

Lemma sends_effects out : Forall (send_ok key_header) out -> mbind (effects fuel) out = tagged_effect <$> mbind carried out.
Proof.
  induction 1 as [|s out Hs Hs' IH]; [done|]. cbn [mbind list_bind] in *. rewrite fmap_app, <- IH. f_equal. by apply send_effects.
Qed.

(** What a run of the worker brings about, as a multiset. *)
Lemma run_effects cfg evs :
  cfg_ok cfg -> Forall event_ok evs -> Forall (event_on ok tbl) evs ->
  exists w out, run cfg new_worker evs = Ret (w, out) /\
    mbind (effects fuel) out ++ (tagged_effect <$> all_pending (store w)) ≡ₚ tagged_effect <$> mbind (accepted cfg) evs.
Proof.
  intros Hc He Hon. destruct (run_spec cfg new_worker evs Hc He (winv_new _)) as (w & out & Hr & Hw & Hp).
  exists w, out. split; [done|]. rewrite sends_effects.
  - rewrite <- fmap_app. apply fmap_Permutation. rewrite Hp. cbn [store new_worker].
    unfold all_pending. rewrite map_to_list_empty. cbn [mbind list_bind]. by rewrite app_nil_r.
  - eapply run_header; [exact key_header_same|exact Hc|exact He| |apply winv_new| |exact Hr].
    + eapply Forall_impl; [exact Hon|]. intros [now msg|now]; [|done]. intros [? ?]. by apply key_header_msg.
    + intros id b. cbn. by rewrite lookup_empty.
Qed.
End Run.
End Routes.
(** ** Requests and responses *)

Lemma words_nonzero path : Forall addr_ok path -> Forall (fun ip => ip <> 0) (be <$> path).
Proof. intros Ha. apply Forall_fmap. eapply Forall_impl; [exact Ha|]. by intros b (_ & _ & ?). Qed.

Lemma proto_byte_17 pr : (proto_byte pr =? 17) = negb (String.eqb pr "tcp").
Proof. unfold proto_byte. by destruct (String.eqb pr "tcp"). Qed.

Lemma request_arrives r raw subs :
  request_route r -> carries raw 1 (pad4 (words r)) (r_port r) (proto_byte (r_proto r)) subs ->
  exists node, transit 2 (be (r_next r)) raw = Ret (Some (node, request_effect r <$> subs)).
Proof.
  intros (Hl & Ha & Hport) Hc. pose proof (words_nonzero _ Ha) as Hnz.
  unfold words, request_effect, task_of in *. destruct r as [path port pr]. cbn [r_path r_port r_proto] in *.
  assert (Hlast : forall o, o ∈ path -> Uint32ToIP (be o) = o).
  { intros o Ho. rewrite Forall_forall in Ha. by apply Uint32ToIP_be, Ha. }
  assert (Hpr : (if proto_byte pr =? 17 then "udp" else "tcp") = (if String.eqb pr "tcp" then "tcp" else "udp")).
  { rewrite proto_byte_17. by destruct (String.eqb pr "tcp"). }
  destruct path as [|a0 [|a1 [|a2 [|a3 [|]]]]]; simpl in Hl; try lia.
  - change (r_next _) with a1. eexists. erewrite (request_reaches_origin raw (be a0) (be a1) [] (be a2)) by (done || simpl; lia).
    rewrite Hpr, Hlast by set_solver. done.
  - change (r_next _) with a1. eexists. erewrite (request_reaches_origin raw (be a0) (be a1) [be a2] (be a3)) by (done || simpl; lia).
    rewrite Hpr, Hlast by set_solver. done.
Qed.

Lemma response_arrives r raw subs :
  response_route r -> carries raw 1 (pad4 (words r)) (r_port r) (proto_byte (r_proto r)) subs ->
  exists node, transit 3 (be (r_next r)) raw = Ret (Some (node, response_effect r <$> subs)).
Proof.
  intros (Hl & Ha & Hport) Hc. pose proof (words_nonzero _ Ha) as Hnz.
  unfold words, response_effect in *. destruct r as [path port pr]. cbn [r_path r_port r_proto] in *. subst port.
  destruct path as [|a0 [|a1 [|a2 [|a3 [|]]]]]; simpl in Hl; try lia; eexists.
  - change (r_next _) with a1. by erewrite (response_reaches_ingress raw (be a0) (be a1) []) by (done || simpl; lia).
  - change (r_next _) with a1. by erewrite (response_reaches_ingress raw (be a0) (be a1) [be a2]) by (done || simpl; lia).
  - change (r_next _) with a1. by erewrite (response_reaches_ingress raw (be a0) (be a1) [be a2; be a3]) by (done || simpl; lia).
Qed.

Lemma request_path r : request_route r -> (length (r_path r) <= 4)%nat /\ Forall addr_ok (r_path r).
Proof. intros (? & ? & _). split; [lia|done]. Qed.

Lemma response_path r : response_route r -> (length (r_path r) <= 4)%nat /\ Forall addr_ok (r_path r).
Proof. intros (? & ? & _). split; [lia|done]. Qed.

Section EndToEnd.
Context `{IPv6Parser}.

(** ** From a path of the control plane to a message *)

(** The hops as the control plane gives them: addresses, the last one with the port of the origin. *)
Definition path_strings (path : list bytes) (port : Z) : list string :=
  match path with
  | [] => []
  | _ => (ip_string <$> removelast path) ++ [ip_string (List.last path []) +:+ ":" +:+ pretty port]
  end.

Lemma split_hops_plain hs : forall port_ rest,
  Forall (fun h => has_char ":" h = false) hs ->
  Server.split_hops (hs ++ rest) port_ = let '(hops, p) := Server.split_hops rest port_ in (hs ++ hops, p).
Proof.
  induction hs as [|h hs IH]; intros port_ rest Hh; cbn [app]; [by destruct (Server.split_hops rest port_)|].
  apply Forall_cons in Hh as [Hh0 Hh]. cbn [Server.split_hops]. unfold Contains. rewrite Hh0, IH by done.
  by destruct (Server.split_hops rest port_).
Qed.

Lemma split_hops_path path port :
  path <> [] -> Forall addr_ok path -> Server.split_hops (path_strings path port) "" = (ip_string <$> path, pretty port).
Proof.
  intros Hne Ha. destruct (exists_last Hne) as (l & o & ->). apply Forall_app in Ha as [Hl Ho].
  apply Forall_cons in Ho as [Ho _]. unfold path_strings. destruct (l ++ [o]) eqn:E; [by destruct l|]. rewrite <- E. clear E.
  rewrite removelast_last, last_last. rewrite split_hops_plain.
  2: { apply Forall_fmap. eapply Forall_impl; [exact Hl|]. intros b Hb. apply ip_string_char; [done|set_solver]. }
  cbn [Server.split_hops]. unfold Contains.
  assert (Hc : has_char ":" (ip_string o +:+ ":" +:+ pretty port) = true).
  { rewrite !has_char_app. cbn. by rewrite orb_true_r. }
  rewrite Hc. change (ip_string o +:+ ":" +:+ pretty port) with (Join [ip_string o; pretty port] ":").
  rewrite (Split_Join _ ":" ":"); [|constructor|done|].
  - by rewrite fmap_app.
  - repeat constructor; [apply ip_string_char; [done|set_solver]|apply numeral_char; set_solver].
Qed.

(** The request of a client on a path with at least one proxy between ingress and origin. *)
Lemma request_msg_route path port emerge protocol rtt raw id data :
  (3 <= length path)%nat -> Forall addr_ok path -> fits 16 port ->
  exists msg, Server.request_msg emerge protocol (Server.mkPath (path_strings path port) rtt raw) id data = Ret msg /\
    on_route (mkRoute path port protocol) msg /\ m_routingKey msg = Join (ip_string <$> path) "," /\
    m_userID msg = id /\ m_data msg = data /\ m_emerge msg = emerge.
Proof.
  intros Hl Ha Hp. unfold Server.request_msg. cbn [Server.p_Hops].
  rewrite split_hops_path by (done || (intros ->; simpl in Hl; lia)).
  assert (H1 : path_strings path port !! 1%nat = Some (ip_string (path !!! 1%nat))).
  { destruct path as [|a0 [|a1 [|a2 path]]]; simpl in Hl; try lia. done. }
  rewrite H1. eexists. split; [done|]. unfold on_route, r_next. cbn [r_path r_port r_proto m_hops m_nextHop m_port m_protocol].
  split_and!; try done; [|by apply ParseUint16_pretty].
  destruct path as [|a0 [|a1 [|a2 path]]]; simpl in Hl; try lia. apply HopIPToNet_string.
  apply Forall_cons in Ha as [_ Ha]. by apply Forall_cons in Ha as [? _].
Qed.

(** The answer of the origin goes back along the path without the origin. *)
Lemma response_msg_route path port protocol s data :
  (3 <= length path <= 4)%nat -> Forall addr_ok path -> data <> [] ->
  exists msg, doOriginRequest (task_of (mkRoute path port protocol) s) (Some data) = Ret (Some msg) /\
    on_route (mkRoute (tail (reverse path)) 0 "") msg /\ m_routingKey msg = Join (ip_string <$> tail (reverse path)) "," /\
    m_userID msg = UserID s /\ m_data msg = data.
Proof.
  intros Hl Ha Hd. assert (Hr : response_hops (pad4 (be <$> path)) = tail (reverse path)).
  { pose proof (words_nonzero _ Ha) as Hnz. unfold response_hops.
    destruct path as [|a0 [|a1 [|a2 [|a3 [|]]]]]; simpl in Hl; try lia;
      repeat (apply Forall_cons in Ha as [? Ha]); repeat (apply Forall_cons in Hnz as [? Hnz]);
      change (reverse (pad4 _)) with (reverse [be a0; be a1; be a2; 0]) || change (reverse (pad4 _)) with (reverse [be a0; be a1; be a2; be a3]);
      cbn [reverse rev_append]; rewrite !filter_cons, filter_nil; repeat case_decide; try done;
      cbn [fmap list_fmap]; rewrite !Uint32ToIP_be by done; reflexivity. }
  unfold doOriginRequest. destruct data as [|b d]; [done|]. cbn [task_of t_HopIP t_UserID].
  unfold words. cbn [r_path]. rewrite Hr.
  assert (H1 : exists n, tail (reverse path) !! 1%nat = Some n /\ r_next (mkRoute (tail (reverse path)) 0 "") = n).
  { destruct path as [|a0 [|a1 [|a2 [|a3 [|]]]]]; simpl in Hl; try lia; by eexists. }
  destruct H1 as (n & -> & Hn). eexists. split; [done|]. by split_and!.
Qed.

(** ** One request and its response *)

Definition timeout (cfg : Config) : Z := BatchTimeoutMs cfg * millisecond.

(** A message that fits a buffer, sent by a worker that is ticked when its batch is due. *)
Lemma one_message (ok : route -> Prop) r fuel eff cfg t msg :
  (forall r, ok r -> (length (r_path r) <= 4)%nat /\ Forall addr_ok (r_path r)) ->
  (forall r raw subs, ok r -> carries raw 1 (pad4 (words r)) (r_port r) (proto_byte (r_proto r)) subs ->
     exists node, transit fuel (be (r_next r)) raw = Ret (Some (node, eff r <$> subs))) ->
  cfg_ok cfg -> ok r -> on_route r msg -> fits 16 (r_port r) -> valid_sub (msg_sub msg) ->
  24 + sub_size (msg_sub msg) <= BufferSize cfg ->
  exists w out, run cfg new_worker [Msg t msg; Tick (t + timeout cfg)] = Ret (w, out) /\
    mbind (effects fuel) out = [eff r (msg_sub msg)].
Proof.
  intros Hpath Harr Hc Hok Hon Hp Hv Hs.
  assert (Hm : msg_ok msg) by (split_and!; [destruct Hon as (_ & _ & -> & _); done|done|unfold cfg_ok in Hc; lia]).
  destruct (run_effects ok (fun _ => r) Hpath fuel eff Harr cfg [Msg t msg; Tick (t + timeout cfg)]) as (w & out & Hr & Heff);
    [done|by apply Forall_cons_2; [|repeat constructor]|by apply Forall_cons_2; [|repeat constructor]|].
  destruct (late_tick_drains cfg [Msg t msg] (t + timeout cfg)) as (w' & out' & Hr' & Hpend & _); [done|by apply Forall_cons_2; [|constructor]| |].
  { intros t0 m0 Hin. apply list_elem_of_singleton in Hin as [= -> ->]. unfold timeout. lia. }
  cbn [app] in Hr'. rewrite Hr in Hr'. injection Hr' as <- <-. exists w, out. split; [done|].
  rewrite Hpend in Heff. cbn [fmap list_fmap] in Heff. rewrite app_nil_r in Heff.
  assert (Hacc : accepts cfg msg = true) by (unfold accepts; rewrite (proj2 (Z.leb_le _ _) Hs); apply orb_true_r).
  cbn [mbind list_bind accepted app] in Heff. rewrite Hacc in Heff. cbn in Heff. by apply Permutation_singleton_r in Heff.
Qed.

Lemma back_route_ok path :
  (3 <= length path <= 4)%nat -> Forall addr_ok path -> response_route (mkRoute (tail (reverse path)) 0 "").
Proof.
  intros Hl Ha. destruct path as [|a0 [|a1 [|a2 [|a3 [|]]]]]; simpl in Hl; try lia;
    (split; [cbn; lia|]); (split; [|done]); apply Forall_tail; by apply Forall_reverse.
Qed.

End EndToEnd.

(** ** Concrete routes *)

Definition sample_path : list bytes := [[10; 0; 0; 1]; [10; 0; 0; 2]; [10; 0; 0; 3]; [10; 0; 0; 9]].
Definition sample_route : route := mkRoute sample_path 8080 "tcp".
Definition sample_config : Config := mkConfig 1400 50 ∅.
Definition route_msg (r : route) (id : Z) (data : bytes) : aggregatorMsg :=
  mkMsg false (Join (ip_string <$> r_path r) ",") (r_proto r) (r_port r) (ip_string <$> r_path r) (r_next r) id data.
Lemma route_msg_ok r id data :
  fits 16 (r_port r) -> bool_decide (valid_sub (mkSub id data) /\ sub_size (mkSub id data) < 2 ^ 16) = true ->
  msg_ok (route_msg r id data).
Proof. intros Hp Hb. apply bool_decide_eq_true in Hb as [? ?]. by split_and!. Qed.

Lemma sample_addrs : Forall addr_ok sample_path.
Proof. apply (bool_decide_unpack _). vm_compute. exact I. Qed.

End Proxy.
