(* ===== verification/ProxyPool.v ===== *)
(** * The data path of whole proxies

    [Proxy] follows what one worker of the aggregator sends.  Here the aggregator has all its
    goroutines ([AggregatorPool]). *)

From Stdlib Require Import ZArith Lia Ascii String.
From stdpp Require Import base list gmap strings list_tactics.
From S2P Require Import Prelude GoStrings GoChan F64 Packet Tunnel GoHeap Aggregator AggregatorSteps AggregatorPool Server BackSourcer AggregatorRoute Proxy.
Import WorkerPool TunnelPacket TunnelHandler Aggregator AggregatorSteps AggregatorPool AggregatorRoute BackSourcer Proxy.

Module ProxyPool.

Local Open Scope Z_scope.

Section Pool.
Context `{IPv6Parser}.

(** ** The headers of the packets *)

Section Header.
Context (P : string -> bytes -> Packet -> Prop).
Context (P_header : forall k n p q, same_header p q -> P k n p -> P k n q).

(** Every packet of the aggregator, sent or not, has a header as its key demands. *)
Record headers (a : aggregator) : Prop := {
  hd_msgs : Forall (msg_header_ok P) (inputChan a);
  hd_nodes : Forall (fun n => worker_header P (core n) /\ Forall (send_ok P) (outMsg n ++ outTick n ++ inFlight n)) (nodes a);
  hd_sent : Forall (send_ok P) (sent a ++ failed a)
}.

Definition pevent_header (e : pevent) : Prop := match e with AddToBatch msg => msg_header_ok P msg | _ => True end.

Lemma headers_set a ch i n se fa :
  headers a -> Forall (msg_header_ok P) ch -> worker_header P (core n) -> Forall (send_ok P) (outMsg n ++ outTick n ++ inFlight n) ->
  Forall (send_ok P) (se ++ fa) -> headers (mkAggregator ch (<[i := n]> (nodes a)) (sendCap a) se fa).
Proof. intros [_ Hn _] Hc Hs Ho Hse. constructor; [done| |done]. by apply Forall_insert. Qed.

Lemma step_headers cfg a e a' :
  cfg_ok cfg -> agg_ok cfg a -> pevent_header e -> headers a -> pool_step cfg a e = Next a' -> headers a'.
Proof.
  intros Hc Ha He Hh. pose proof Ha as [_ Hm Hns]. pose proof Hh as [Hhm Hhn Hhs].
  destruct e as [msg|i|i e|i|i|i s ok]; cbn [pool_step].
  { case_match; [|done]. intros [= <-]. constructor; [|done|done]. apply Forall_app. split; [done|by constructor]. }
  1: destruct (inputChan a) as [|msg rest] eqn:Ec; [done|].
  all: destruct (nodes a !! i) as [[g oM oT fl]|] eqn:En; [|done].
  all: pose proof (Forall_lookup_1 _ _ _ _ Hns En) as [Hg _]; pose proof (Forall_lookup_1 _ _ _ _ Hhn En) as [Hst Hout];
    cbn [core outMsg outTick inFlight] in Hg, Hst, Hout; rewrite !Forall_app in Hout; destruct Hout as (HoM & HoT & Hfl).
  - destruct oM; [|done]. destruct (pc g) eqn:Hpc; try done. destruct (take_msg cfg g msg) as [[g' out]|] eqn:Eh; [|done]. intros [= <-].
    apply Forall_cons in Hm as [Hm _]. apply Forall_cons in Hhm as [Hhm Hhms].
    destruct (take_msg_header P P_header cfg g msg g' out Hc Hm Hhm Hst Eh) as [Hst' Hout].
    apply headers_set; [done|done|done| |done]. cbn. by rewrite !Forall_app.
  - destruct (busy oT e); [done|]. intros ([g' out] & Hs & [= <-])%obind_Next.
    destruct (gstep_header P P_header cfg g e g' out Hc Hg Hst Hs) as [Hst' Hout].
    apply headers_set; [done|done|done| |done]. cbn. by rewrite !Forall_app.
  - destruct oM as [|s oM]; [done|]. case_match; [|done]. intros [= <-]. apply Forall_cons in HoM as [Hs HoM].
    apply headers_set; [done|done|done| |done]. cbn. rewrite !Forall_app, Forall_singleton. done.
  - destruct oT as [|s oT]; [done|]. destruct (expired g); [|done]. case_match; [|done]. intros [= <-]. apply Forall_cons in HoT as [Hs HoT].
    apply headers_set; [done|done|done| |done]. cbn. rewrite !Forall_app, Forall_singleton. done.
  - destruct (remove_first s fl) as [fl'|] eqn:Er; [|done]. intros [= <-]. apply remove_first_Perm in Er. rewrite Er in Hfl.
    apply Forall_cons in Hfl as [Hs Hfl]. apply Forall_app in Hhs as [Hse Hfa].
    apply headers_set; [done|done|done|cbn; by rewrite !Forall_app|]. destruct ok; rewrite !Forall_app, ?Forall_singleton; done.
Qed.

Lemma run_headers cfg a evs a' :
  cfg_ok cfg -> agg_ok cfg a -> Forall pevent_ok evs -> Forall pevent_header evs -> headers a -> pool_run cfg a evs = Next a' -> headers a'.
Proof.
  intros Hc Ha He. revert a Ha. induction He as [|e evs He Hes IH]; intros a Ha Hhd Hh; cbn [pool_run]; [by intros [= <-]|].
  apply Forall_cons in Hhd as [Hhd Hhds]. destruct (pool_step cfg a e) as [a1| |] eqn:Es; [|done..]. apply IH; [|done|].
  - by destruct (proj2 (step_accounted cfg a e a1 Hc Ha He) Es).
  - by eapply step_headers.
Qed.

Lemma headers_new num count : headers (NewAggregator num count).
Proof. constructor; cbn; [done| |done]. apply Forall_replicate. split; [|done]. split; [|done]. intros id b. cbn. by rewrite lookup_empty. Qed.
End Header.

(** ** What the packets bring about *)

(** The message goes along the route [r] and is filed under its hops. *)
Definition route_key (r : route) : string := Join (ip_string <$> r_path r) ",".

Definition msg_on (r : route) (msg : aggregatorMsg) : Prop := m_routingKey msg = route_key r /\ on_route r msg.

Definition pevent_on (ok : route -> Prop) (e : pevent) : Prop :=
  match e with AddToBatch msg => exists r, ok r /\ msg_on r msg | _ => True end.

(** The header of the packets filed under a key: that of a route that the key may stand for.  The key
    names the hops only, so the messages of a key may differ in port and protocol, and a packet has
    those of the message it was made for. *)
Definition link_header (link : string -> route -> Prop) (k : string) (n : bytes) (p : Packet) : Prop := exists r, link k r /\ route_header r n p.

Lemma link_header_same link k n p q : same_header p q -> link_header link k n p -> link_header link k n q.
Proof. intros (Hpos & Hhops & Hport & Hproto) (r & Hl & Hh). exists r. split; [done|]. unfold route_header in *. intuition congruence. Qed.

Lemma link_header_msg (link : string -> route -> Prop) r msg :
  (length (r_path r) <= 4)%nat -> Forall addr_ok (r_path r) -> link (m_routingKey msg) r -> on_route r msg -> msg_header_ok (link_header link) msg.
Proof. intros Hl Ha Hk Hon size p Hm. exists r. split; [done|]. by eapply msg_packet_header. Qed.

End Pool.
End ProxyPool.
