(* ===== verification/Network.v ===== *)
(** * A network of proxies

    Any number of proxies, each with its request aggregator, its back-sourcers, its response aggregator
    and its stream handlers, put together as main.go and the tunnels put them together.  A step is a
    step of one component; packets travel hop by hop, and every send, of an aggregator or of a handler
    that forwards, can fail.  The theorems follow every request to its origin and every answer to the
    proxy the request came from. *)

From Stdlib Require Import ZArith Lia Ascii String.
From stdpp Require Import base list gmap strings list_tactics.
From S2P Require Import Prelude GoStrings GoChan F64 Packet Tunnel GoHeap Aggregator AggregatorPool Server BackSourcer BackPool AggregatorRoute Proxy ProxyPool Disaggregator.
Import WorkerPool TunnelPacket TunnelHandler Aggregator AggregatorPool AggregatorRoute BackSourcer BackPool Proxy ProxyPool.

Module Network.

Local Open Scope Z_scope.

(** ** State *)

(** The goroutine that handles a stream: the delivery it is in the middle of, between the lookup of the
    waiter and the send on its channel, and what it does after that. *)
Record handler := mkHandler { pending : option (nat * (Z * bytes)); todo : list effect }.

Record proxy := mkProxy {
  addr : Z;
  reqs : aggregator;           (* GlobalAggRequest *)
  streams : list bytes;        (* packets that have come in and are not handled yet *)
  handlers : list handler;     (* the goroutines that handle packets: they submit, deliver or forward *)
  tcp : backSourcer;           (* BackSourcerMap["tcp"] *)
  udp : backSourcer;           (* BackSourcerMap["udp"] *)
  resps : aggregator;          (* GlobalAggResponse *)
  disagg : Disagg.state;       (* GlobalDisagg *)
  delivered : list effect;     (* the calls of GlobalDisagg.Deliver *)
  dropped : list (Z * bytes)   (* packets whose forwarding failed, and where they should have gone *)
}.

(** The numbers that the configuration gives to all proxies. *)
Record sizes := mkSizes { AggWorkerNum : Z; AggWorkerCount : Z; BackWorkerCount : Z }.

Definition new_proxy (z : sizes) (a : Z) : proxy :=
  mkProxy a (NewAggregator (AggWorkerNum z) (AggWorkerCount z)) [] [] (NewBackSourcer (BackWorkerCount z)) (NewBackSourcer (BackWorkerCount z))
    (NewAggregator (AggWorkerNum z) (AggWorkerCount z)) Disagg.init [] [].

(** [BackSourcerMap[proto]] *)
Definition back_of (proto : string) (p : proxy) : option backSourcer :=
  if String.eqb proto "tcp" then Some (tcp p) else if String.eqb proto "udp" then Some (udp p) else None.

Definition set_reqs (p : proxy) (a : aggregator) : proxy :=
  mkProxy (addr p) a (streams p) (handlers p) (tcp p) (udp p) (resps p) (disagg p) (delivered p) (dropped p).
Definition set_resps (p : proxy) (a : aggregator) : proxy :=
  mkProxy (addr p) (reqs p) (streams p) (handlers p) (tcp p) (udp p) a (disagg p) (delivered p) (dropped p).
Definition set_streams (p : proxy) (l : list bytes) : proxy :=
  mkProxy (addr p) (reqs p) l (handlers p) (tcp p) (udp p) (resps p) (disagg p) (delivered p) (dropped p).
Definition set_handlers (p : proxy) (l : list handler) : proxy :=
  mkProxy (addr p) (reqs p) (streams p) l (tcp p) (udp p) (resps p) (disagg p) (delivered p) (dropped p).
Definition set_back (proto : string) (p : proxy) (b : backSourcer) : proxy :=
  if String.eqb proto "tcp" then mkProxy (addr p) (reqs p) (streams p) (handlers p) b (udp p) (resps p) (disagg p) (delivered p) (dropped p)
  else mkProxy (addr p) (reqs p) (streams p) (handlers p) (tcp p) b (resps p) (disagg p) (delivered p) (dropped p).
Definition set_disagg (p : proxy) (d : Disagg.state) : proxy :=
  mkProxy (addr p) (reqs p) (streams p) (handlers p) (tcp p) (udp p) (resps p) d (delivered p) (dropped p).
Definition add_delivered (p : proxy) (e : effect) : proxy :=
  mkProxy (addr p) (reqs p) (streams p) (handlers p) (tcp p) (udp p) (resps p) (disagg p) (delivered p ++ [e]) (dropped p).
Definition drop_packet (p : proxy) (next : Z) (pkt : bytes) : proxy :=
  mkProxy (addr p) (reqs p) (streams p) (handlers p) (tcp p) (udp p) (resps p) (disagg p) (delivered p) (dropped p ++ [(next, pkt)]).

Definition set_handler (p : proxy) (k : nat) (h : handler) : proxy := set_handlers p (<[k := h]> (handlers p)).

(** ** Steps *)

Inductive nevent :=
| Req (i : nat) (e : pevent)                          (* the request aggregator of proxy i *)
| Resp (i : nat) (e : pevent)                         (* its response aggregator; messages come from its back-sourcers *)
| Receive (i k : nat)                                 (* the k-th stream of proxy i gets to its handler *)
| Act (i k : nat) (ok : bool)                         (* its k-th handler goes on; ok: a packet that it forwards is sent *)
| Take (i : nat) (proto : string)                     (* a worker of a back-sourcer takes a task *)
| Answer (i : nat) (proto : string) (t : BackSourceTask) (resp : option bytes)
| Client (i : nat) (e : Disagg.cevent).               (* the handler of a client registers, receives or cleans up *)

Section Steps.
Context `{IPv6Parser}.
Context (cfg : Config).

(** A packet that [SendPacket] has sent to a proxy of the network. *)
Definition deliver_packet (ns : list proxy) (node : Z) (pkt : bytes) : outcome (list proxy) :=
  match list_find (fun p => addr p = node) ns with
  | Some (j, p) => Next (<[j := set_streams p (streams p ++ [pkt])]> ns)
  | None => Blocked
  end.

Definition with_proxy (ns : list proxy) (i : nat) (f : proxy -> outcome proxy) : outcome (list proxy) :=
  match ns !! i with
  | Some p => let? p' := f p in Next (<[i := p']> ns)
  | None => Blocked
  end.

Definition landing (e : pevent) (ns : list proxy) : outcome (list proxy) :=
  match e with SendDone _ s true => deliver_packet ns (be (s_next s)) (s_p s) | _ => Next ns end.

(** [HandleQUICPacket] decides what to do with a packet. *)
Definition receive_packet (p : proxy) (k : nat) : outcome proxy :=
  match streams p !! k with
  | None => Blocked
  | Some pkt =>
      match HandleQUICPacket pkt with
      | Panic => Panics
      | Ret effs => Next (set_handlers (set_streams p (delete k (streams p))) (handlers p ++ [mkHandler None effs]))
      end
  end.

(** The next thing that the [k]-th handler does, apart from the sending of a packet, with [rest] to do
    after it.  [Deliver] looks the waiter up; when there is one, the send on its channel comes next. *)
Definition perform (p : proxy) (k : nat) (eff : effect) (rest : list effect) : outcome proxy :=
  match eff with
  | Submit proto t =>
      match back_of proto p with
      | Some b => let? b' := back_step b (SubmitTask t) in Next (set_handler (set_back proto p b') k (mkHandler None rest))
      | None => Panics
      end
  | Deliver id d =>
      let waiter := Disagg.waiters (disagg p) !! id in
      Next (set_handler (set_disagg (add_delivered p eff) (Disagg.Deliver_lookup (disagg p) id d)) k
              (mkHandler ((fun ch => (ch, (id, d))) <$> waiter) rest))
  | TunnelHandler.Send _ _ => Next (set_handler p k (mkHandler None rest))
  end.

(** The send on the channel of the waiter: it waits while the channel is full and panics when the
    waiter has closed it. *)
Definition send_waiter (p : proxy) (k : nat) (ch : nat) (m : Z * bytes) (rest : list effect) : outcome proxy :=
  let? d := Disagg.send_step (disagg p) ch m in Next (set_handler (set_disagg p d) k (mkHandler None rest)).

(** The sending of a packet that is forwarded: it reaches the next proxy, or it is lost. *)
Definition forward (eff : effect) (ok : bool) (i : nat) (ns : list proxy) : outcome (list proxy) :=
  match eff with
  | TunnelHandler.Send next pkt =>
      if ok then deliver_packet ns next pkt
      else match ns !! i with Some p => Next (<[i := drop_packet p next pkt]> ns) | None => Blocked end
  | _ => Next ns
  end.

(** A worker ends a request; a message for the response aggregator waits for room in its channel. *)
Definition finish (p : proxy) (proto : string) (b : backSourcer) (t : BackSourceTask) (resp : option bytes) : outcome proxy :=
  let? b' := back_step b (Finish t resp) in
  match answer (t, resp) with
  | msg :: _ => let? a := pool_step cfg (resps p) (AddToBatch msg) in Next (set_resps (set_back proto p b') a)
  | [] => Next (set_back proto p b')
  end.

Definition with_back (ns : list proxy) (i : nat) (proto : string) (f : proxy -> backSourcer -> outcome proxy) : outcome (list proxy) :=
  with_proxy ns i (fun p => match back_of proto p with Some b => f p b | None => Blocked end).

Definition net_step (ns : list proxy) (e : nevent) : outcome (list proxy) :=
  match e with
  | Req i e =>
      let? ns' := with_proxy ns i (fun p => let? a := pool_step cfg (reqs p) e in Next (set_reqs p a)) in landing e ns'
  | Resp _ (AddToBatch _) => Blocked
  | Resp i e =>
      let? ns' := with_proxy ns i (fun p => let? a := pool_step cfg (resps p) e in Next (set_resps p a)) in landing e ns'
  | Receive i k => with_proxy ns i (fun p => receive_packet p k)
  | Act i k ok =>
      match ns !! i ≫= (fun p => handlers p !! k) with
      | None | Some (mkHandler None []) => Blocked
      | Some (mkHandler (Some (ch, m)) rest) => with_proxy ns i (fun p => send_waiter p k ch m rest)
      | Some (mkHandler None (eff :: rest)) => let? ns' := with_proxy ns i (fun p => perform p k eff rest) in forward eff ok i ns'
      end
  | Take i proto => with_back ns i proto (fun p b => let? b' := back_step b TakeTask in Next (set_back proto p b'))
  | Answer i proto t resp => with_back ns i proto (fun p b => finish p proto b t resp)
  | Client i e => with_proxy ns i (fun p => let? d := Disagg.client_step (disagg p) e in Next (set_disagg p d))
  end.

Fixpoint net_run (ns : list proxy) (evs : list nevent) : outcome (list proxy) :=
  match evs with
  | [] => Next ns
  | e :: evs => let? ns' := net_step ns e in net_run ns' evs
  end.
End Steps.

(** ** Where messages land *)

(** The proxy that consumes the packets of a route. *)
Definition egress (r : route) : Z := be (List.last (removelast (r_path r)) []).
Definition ingress_back (r : route) : Z := be (List.last (r_path r) []).

Lemma transit_S fuel node pkt :
  transit (S fuel) node pkt =
    (let! effs := HandleQUICPacket pkt in match effs with [TunnelHandler.Send next pkt'] => transit fuel next pkt' | _ => Ret (Some (node, effs)) end).
Proof. done. Qed.

Lemma transit_more fuel node pkt x : transit fuel node pkt = Ret (Some x) -> transit (S fuel) node pkt = Ret (Some x).
Proof.
  revert node pkt. induction fuel as [|fuel IH]; intros node pkt; [done|]. intros Hx. rewrite <- Hx. rewrite transit_S in Hx. rewrite (transit_S (S fuel)), (transit_S fuel).
  destruct (HandleQUICPacket pkt) as [[|[] [|]]|]; try done. cbn [go_bind] in *. by rewrite (IH _ _ Hx).
Qed.

(** Where the messages of a packet on its way to [node] end up, and as what. *)
Definition flight (node : Z) (pkt : bytes) : list (Z * effect) :=
  match transit 3 node pkt with
  | Ret (Some (node, effs)) => pair node <$> effs
  | _ => []
  end.

Definition landed (s : sendInfo) : list (Z * effect) := flight (be (s_next s)) (s_p s).

(** The proxies that the packet comes to on its way. *)
Fixpoint visits (fuel : nat) (node : Z) (pkt : bytes) : list Z :=
  match fuel with
  | O => []
  | S fuel => node :: match HandleQUICPacket pkt with Ret [TunnelHandler.Send next pkt'] => visits fuel next pkt' | _ => [] end
  end.

Lemma visits_more fuel node pkt x : transit fuel node pkt = Ret (Some x) -> visits (S fuel) node pkt = visits fuel node pkt.
Proof.
  revert node pkt. induction fuel as [|fuel IH]; intros node pkt; [done|]. rewrite transit_S. intros Hx.
  change (visits (S (S fuel)) node pkt) with (node :: match HandleQUICPacket pkt with Ret [TunnelHandler.Send next pkt'] => visits (S fuel) next pkt' | _ => [] end).
  change (visits (S fuel) node pkt) with (node :: match HandleQUICPacket pkt with Ret [TunnelHandler.Send next pkt'] => visits fuel next pkt' | _ => [] end).
  f_equal. destruct (HandleQUICPacket pkt) as [[|[] [|]]|]; try done. cbn [go_bind] in Hx. by apply IH.
Qed.

Lemma request_visits raw ingress p1 path origin port proto subs :
  let full := ingress :: p1 :: path ++ [origin] in
  (length path <= 1)%nat -> Forall (fun ip => ip <> 0) full -> port <> 0 -> carries raw 1 (pad4 full) port proto subs ->
  visits 3 p1 raw = p1 :: path.
Proof.
  intros full Hlen Hnz Hport Hc. destruct path as [|p2 [|]]; [| |simpl in Hlen; lia]; cbn in full; subst full; repeat (apply Forall_cons in Hnz as [? Hnz]);
    destruct (Handle_carries _ _ _ _ _ _ Hc) as (h & _ & He); [done|lia|lia| |done|lia|lia|]; cbn [visits]; rewrite He; eval_hops.
  - by destruct subs as [|? [|]].
  - apply carries_advance in Hc; [|lia]. destruct (Handle_carries _ _ _ _ _ _ Hc) as (h2 & _ & He2); [done|lia|lia|].
    rewrite He2. eval_hops. by destruct subs as [|? [|]].
Qed.

Lemma response_visits raw egress p1 path proto subs :
  let full := egress :: p1 :: path in
  (length path <= 2)%nat -> Forall (fun ip => ip <> 0) full -> carries raw 1 (pad4 full) 0 proto subs ->
  visits 3 p1 raw = p1 :: path.
Proof.
  intros full Hlen Hnz Hc. destruct path as [|p2 [|p3 [|]]]; [| | |simpl in Hlen; lia]; cbn in full; subst full; repeat (apply Forall_cons in Hnz as [? Hnz]);
    repeat (
      let h := fresh "h" in let He := fresh "He" in
      destruct (Handle_carries _ _ _ _ _ _ Hc) as (h & _ & He); [done|lia|lia|];
      try (apply carries_advance in Hc; [|lia]);
      try change (1 + 1) with 2 in Hc; try change (2 + 1) with 3 in Hc;
      cbn [visits]; rewrite He; clear He; eval_hops; try (by destruct subs as [|? [|]])).
Qed.

(** The proxies that a network consists of, or any others that routes may name. *)
Section Known.
Context (known : Z -> Prop).

Definition request_ok (r : route) : Prop := request_route r /\ Forall (fun b => known (be b)) (removelast (r_path r)).
Definition response_ok (r : route) : Prop := response_route r /\ Forall (fun b => known (be b)) (tail (r_path r)).

(** A request can be answered over the proxies it came. *)
Lemma back_ok r : request_ok r -> Forall (fun b => known (be b)) (tail (tail (reverse (r_path r)))).
Proof.
  intros [(Hl & _) Hk]. destruct r as [path port pr]. cbn [r_path] in *.
  destruct path as [|a0 [|a1 [|a2 [|a3 [|]]]]]; simpl in Hl; try lia; simpl in Hk; repeat (apply Forall_cons in Hk as [? Hk]);
    unfold reverse; cbn; by repeat constructor.
Qed.

(** The packet gets somewhere, over known proxies. *)
Definition packet_ok (node : Z) (pkt : bytes) : Prop := (exists x, transit 3 node pkt = Ret (Some x)) /\ Forall known (visits 3 node pkt).

(** What an action of a handler of the proxy [a] comes to. *)
Definition entry (a : Z) (eff : effect) : list (Z * effect) :=
  match eff with TunnelHandler.Send next pkt => flight next pkt | _ => [(a, eff)] end.

Definition action_ok (eff : effect) : Prop := match eff with TunnelHandler.Send next pkt => packet_ok next pkt | _ => True end.

Definition is_task (eff : effect) : bool := match eff with Submit _ _ => true | _ => false end.
Definition is_delivery (eff : effect) : Prop := match eff with Deliver _ _ => True | _ => False end.
Definition no_send (eff : effect) : Prop := match eff with TunnelHandler.Send _ _ => False | _ => True end.

(** The handler forwards the packet, or it submits, or it delivers. *)
Lemma handler_effects pkt effs :
  HandleQUICPacket pkt = Ret effs -> (exists next pkt', effs = [TunnelHandler.Send next pkt']) \/ Forall (fun eff => is_task eff = true) effs \/ Forall is_delivery effs.
Proof.
  unfold HandleQUICPacket. cbv zeta.
  repeat (match goal with
          | |- go_bind ?m _ = _ -> _ => destruct m; cbn [go_bind]; [|discriminate]
          | |- (if ?b then _ else _) = _ -> _ => destruct b
          | |- match ?x with _ => _ end = _ -> _ => destruct x
          end); try discriminate; intros [= <-]; try (by left; eauto); right; try (by left).
  all: try (right; constructor; [done|]; apply Forall_forall; intros eff (s' & -> & _)%list_elem_of_fmap; done).
  all: left; constructor; [done|]; apply Forall_forall; intros eff (s' & -> & _)%list_elem_of_fmap; done.
Qed.

Lemma tasks_no_send effs : Forall (fun eff => is_task eff = true) effs \/ Forall is_delivery effs -> Forall no_send effs.
Proof. intros [Hf|Hf]; (eapply Forall_impl; [exact Hf|]); by intros []. Qed.

(** The goroutine of a handler: it delivers, or it is not in a delivery and submits or forwards. *)
Definition handler_ok (h : handler) : Prop :=
  Forall action_ok (todo h) /\
  (Forall is_delivery (todo h) \/
   pending h = None /\ (Forall (fun eff => is_task eff = true) (todo h) \/ exists next pkt, todo h = [TunnelHandler.Send next pkt])).

Lemma entries_no_send a effs : Forall no_send effs -> mbind (entry a) effs = pair a <$> effs /\ Forall action_ok effs.
Proof.
  induction 1 as [|eff effs He _ [IH1 IH2]]; [done|]. cbn [mbind list_bind fmap list_fmap]. rewrite IH1.
  by destruct eff; split; try done; constructor.
Qed.

(** Handling a packet changes where it is, not where it ends up. *)
Lemma handle_flight a pkt :
  packet_ok a pkt -> exists effs, HandleQUICPacket pkt = Ret effs /\ mbind (entry a) effs = flight a pkt /\ Forall action_ok effs.
Proof.
  intros [[x Hx] Hv]. unfold flight. rewrite Hx. rewrite transit_S in Hx. cbn [visits] in Hv. destruct (HandleQUICPacket pkt) as [effs|] eqn:Hh; [|done].
  exists effs. split; [done|].
  destruct (handler_effects pkt effs Hh) as [(next & pkt' & ->)|Hn%tasks_no_send].
  - cbn [go_bind] in Hx. pose proof (visits_more _ _ _ _ Hx) as Hm. apply transit_more in Hx. cbn [mbind list_bind entry]. unfold flight. rewrite Hx, app_nil_r.
    split; [done|]. apply Forall_singleton. split; [by exists x|]. apply Forall_cons in Hv as [_ Hv]. by rewrite Hm.
  - destruct (entries_no_send a effs Hn) as [-> Ha]. split; [|done]. cbn [go_bind] in Hx. destruct effs as [|[] [|]]; cbn in *; try (by injection Hx as <-).
    by apply Forall_cons in Hn as [[] _].
Qed.


(** Packets with the headers of a route land at its end, over known proxies. *)
Definition route_lands (ok : route -> Prop) (node : route -> Z) (eff : route -> SubPacket -> effect) : Prop :=
  forall r raw subs, ok r -> carries raw 1 (pad4 (words r)) (r_port r) (proto_byte (r_proto r)) subs ->
    transit 3 (be (r_next r)) raw = Ret (Some (node r, eff r <$> subs)) /\ Forall known (visits 3 (be (r_next r)) raw).

Lemma request_lands : route_lands request_ok egress request_effect.
Proof.
  intros r raw subs [Hr Hk] Hc. destruct (request_arrives r raw subs Hr Hc) as [node Ht]. pose proof Hr as (Hl & Ha & Hport).
  pose proof (words_nonzero _ Ha) as Hnz. apply transit_more in Ht. rewrite Ht. unfold egress, words in *. clear Hr. destruct r as [path port pr]. cbn [r_path r_port r_proto] in *.
  destruct path as [|a0 [|a1 [|a2 [|a3 [|]]]]]; simpl in Hl; try lia; change (r_next _) with a1 in Ht.
  - rewrite (transit_more 2 _ _ _ (request_reaches_origin raw (be a0) (be a1) [] (be a2) port _ subs ltac:(simpl; lia) Hnz Hport Hc)) in Ht. injection Ht as <-.
    split; [done|]. change (r_next _) with a1. erewrite (request_visits raw (be a0) (be a1) [] (be a2)) by (done || simpl; lia). simpl in Hk. repeat (apply Forall_cons in Hk as [? Hk]). by repeat constructor.
  - rewrite (transit_more 2 _ _ _ (request_reaches_origin raw (be a0) (be a1) [be a2] (be a3) port _ subs ltac:(simpl; lia) Hnz Hport Hc)) in Ht. injection Ht as <-.
    split; [done|]. change (r_next _) with a1. erewrite (request_visits raw (be a0) (be a1) [be a2] (be a3)) by (done || simpl; lia). simpl in Hk. repeat (apply Forall_cons in Hk as [? Hk]). by repeat constructor.
Qed.

Lemma response_lands : route_lands response_ok ingress_back response_effect.
Proof.
  intros r raw subs [Hr Hk] Hc. destruct (response_arrives r raw subs Hr Hc) as [node Ht]. pose proof Hr as (Hl & Ha & Hport).
  pose proof (words_nonzero _ Ha) as Hnz. rewrite Ht. unfold ingress_back, words in *. clear Hr. destruct r as [path port pr]. cbn [r_path r_port r_proto] in *. subst port.
  destruct path as [|a0 [|a1 [|a2 [|a3 [|]]]]]; simpl in Hl; try lia; change (r_next _) with a1 in Ht.
  - erewrite (response_reaches_ingress raw (be a0) (be a1) []) in Ht by (done || simpl; lia). injection Ht as <-. split; [done|]. change (r_next _) with a1.
    erewrite (response_visits raw (be a0) (be a1) []) by (done || simpl; lia). simpl in Hk. repeat (apply Forall_cons in Hk as [? Hk]). by repeat constructor.
  - erewrite (response_reaches_ingress raw (be a0) (be a1) [be a2]) in Ht by (done || simpl; lia). injection Ht as <-. split; [done|]. change (r_next _) with a1.
    erewrite (response_visits raw (be a0) (be a1) [be a2]) by (done || simpl; lia). simpl in Hk. repeat (apply Forall_cons in Hk as [? Hk]). by repeat constructor.
  - erewrite (response_reaches_ingress raw (be a0) (be a1) [be a2; be a3]) in Ht by (done || simpl; lia). injection Ht as <-. split; [done|]. change (r_next _) with a1.
    erewrite (response_visits raw (be a0) (be a1) [be a2; be a3]) by (done || simpl; lia). simpl in Hk. repeat (apply Forall_cons in Hk as [? Hk]). by repeat constructor.
Qed.


End Known.

Definition request_at (r : route) (s : SubPacket) : Z * effect := (egress r, request_effect r s).
Definition response_at (r : route) (s : SubPacket) : Z * effect := (ingress_back r, response_effect r s).

(** Messages with their routing keys, by the table of the routes. *)
Definition by_key (tbl : string -> route) (f : route -> SubPacket -> Z * effect) (ks : string * SubPacket) : Z * effect := f (tbl ks.1) ks.2.

(** The effects of messages, each on a route that its key may stand for. *)
Definition effect_of (link : string -> route -> Prop) (f : route -> SubPacket -> Z * effect) (x : Z * effect) (ks : string * SubPacket) : Prop :=
  exists r, link ks.1 r /\ x = f r ks.2.

Lemma packet_lands known (ok : route -> Prop) link (node : route -> Z) (eff : route -> SubPacket -> effect) s :
  route_lands known ok node eff -> (forall k r, link k r -> ok r) -> send_ok (link_header link) s ->
  packet_ok known (be (s_next s)) (s_p s) /\ Forall2 (effect_of link (fun r s => (node r, eff r s))) (landed s) (carried s).
Proof.
  intros Hl Hlink (q & subs & Hq & r & Hr & Hn & Hpos & Hhops & Hport & Hproto).
  destruct (Hl r (s_p s) subs (Hlink _ _ Hr)) as [Ht Hv]; [by exists q|]. rewrite <- Hn in Ht, Hv. unfold landed, flight, carried. rewrite Hq, Ht.
  split; [split; [by eexists|done]|]. unfold tagged. rewrite <- !list_fmap_compose. apply Forall2_fmap, Forall_Forall2_diag, Forall_true.
  intros sub. by exists r.
Qed.

(** Where the key stands for one route. *)
Lemma effects_by_key (link : string -> route -> Prop) tbl f l ks :
  (forall k r, link k r -> r = tbl k) -> Forall2 (effect_of link f) l ks -> l = by_key tbl f <$> ks.
Proof. intros Hl. induction 1 as [|x k l ks (r & Hr & ->) _ IH]; [done|]. rewrite fmap_cons, <- IH. by rewrite (Hl _ _ Hr). Qed.

(** The back-sourcer answers along the reversed path, under a key that names the path. *)
Definition key_route `{IPv6Parser} (k : string) : route := mkRoute (HopIPToNet <$> Split k ",") 0 "".

Lemma key_route_key `{IPv6Parser} path : path <> [] -> Forall addr_ok path -> key_route (Join (ip_string <$> path) ",") = mkRoute path 0 "".
Proof.
  intros Hne Ha. unfold key_route. rewrite (Split_Join _ "," ","); [|constructor|by destruct path|].
  - f_equal. rewrite <- list_fmap_compose. rewrite <- (list_fmap_id path) at 2. apply Forall_fmap_ext_1. eapply Forall_impl; [exact Ha|].
    intros b Hb. by apply HopIPToNet_string.
  - apply Forall_fmap. eapply Forall_impl; [exact Ha|]. intros b Hb. apply ip_string_char; [done|set_solver].
Qed.

(** The task of a request, and its answer. *)
Lemma answer_task `{IPv6Parser} r s d :
  request_route r -> d <> [] ->
  exists msg, answer (task_of r s, Some d) = [msg] /\ msg_sub msg = mkSub (UserID s) d /\ m_port msg = 0 /\
    key_route (m_routingKey msg) = mkRoute (tail (reverse (r_path r))) 0 "" /\
    response_route (key_route (m_routingKey msg)) /\ on_route (key_route (m_routingKey msg)) msg.
Proof.
  intros (Hl & Ha & _) Hd. destruct r as [path port pr]. cbn [r_path] in *.
  destruct (response_msg_route path port pr s d) as (msg & Hm & Hon & Hk & Hu & Hdata); [done..|].
  pose proof (back_route_ok path Hl Ha) as Hback. exists msg. unfold answer. cbn [fst snd]. rewrite Hm.
  assert (Hb : key_route (m_routingKey msg) = mkRoute (tail (reverse path)) 0 "").
  { rewrite Hk. destruct Hback as (Hl' & Ha' & _). apply key_route_key; [|done]. intros Hn. cbn [r_path] in Hl'. rewrite Hn in Hl'. simpl in Hl'. lia. }
  rewrite Hb. split_and!; try done; [unfold msg_sub; by rewrite Hu, Hdata|apply Hon].
Qed.


(** ** Ledgers

    What the proxies hold is followed with three lists: the messages of the request aggregators, those
    of the response aggregators, and everything that packets have brought about. *)

Section Ledger.
Context `{IPv6Parser}.
Context (cfg : Config) (known : Z -> Prop) (asked : route -> Prop).
Context (asked_known : forall r, asked r -> request_ok known r).

(** The routes of the requests filed under a key have its hops; an answer has the route of its key. *)
Definition request_link (k : string) (r : route) : Prop := asked r /\ k = route_key r.
Definition response_link (k : string) (r : route) : Prop := response_ok known r /\ r = key_route k.

Definition tasks (b : backSourcer) : list BackSourceTask := queue (workers b) ++ running (workers b) ++ finished (workers b).

Definition task_effects (proto : string) (b : backSourcer) : list effect := Submit proto <$> tasks b.

(** What is in packets: not handled yet, about to be acted on, or lost on the way. *)
Definition travelling (p : proxy) : list (Z * effect) :=
  mbind (flight (addr p)) (streams p) ++ mbind (fun h => mbind (entry (addr p)) (todo h)) (handlers p) ++ mbind (fun x => flight x.1 x.2) (dropped p).

Definition ledger (p : proxy) : list (Z * effect) :=
  travelling p ++ (pair (addr p) <$> (task_effects "tcp" (tcp p) ++ task_effects "udp" (udp p) ++ delivered p)).

Definition packets (p : proxy) : list sendInfo := sent (reqs p) ++ sent (resps p).

(** The responses that the aggregator of the proxy accepts. *)
Definition answers (p : proxy) : list (string * SubPacket) := mbind (msg_accepted cfg) (responses (tcp p) ++ responses (udp p)).

Record back_inv (b : backSourcer) : Prop := {
  bi_open : closed (workers b) = false;
  bi_out : (outcomes b).*1 = finished (workers b);
  bi_resp : responses b = mbind answer (outcomes b)
}.

Definition delivery (eff : effect) : option (Z * bytes) := match eff with Deliver id d => Some (id, d) | _ => None end.

(** The disaggregator of a proxy that has not panicked: its sends in progress are those of the handlers,
    and everything that was taken up was delivered. *)
Record disagg_ok (hs : list handler) (d : Disagg.state) (calls : list effect) : Prop := {
  do_reach : Disagg.reachable d;
  do_alive : Disagg.crashed d = false;
  do_inflight : omap pending hs ≡ₚ Disagg.inflight d;
  do_taken : Disagg.taken d ⊆+ omap delivery calls
}.

Record proxy_ok (p : proxy) : Prop := {
  po_reqs : agg_ok cfg (reqs p);
  po_resps : agg_ok cfg (resps p);
  po_req_headers : headers (link_header request_link) (reqs p);
  po_resp_headers : headers (link_header response_link) (resps p);
  po_tcp : back_inv (tcp p);
  po_udp : back_inv (udp p);
  po_streams : Forall (packet_ok known (addr p)) (streams p);
  po_handlers : Forall (handler_ok known) (handlers p);
  po_delivered : Forall is_delivery (delivered p);
  po_disagg : disagg_ok (handlers p) (disagg p) (delivered p)
}.

(** What a step of one proxy does: [new] requests, [out] packets leave and have not arrived. *)
Record local (p p' : proxy) (new : list (string * SubPacket)) (out : list (Z * effect)) (lossless : bool) : Prop := {
  lo_ok : proxy_ok p';
  lo_addr : addr p' = addr p;
  lo_req : exists lost, total cfg (reqs p') ++ lost ≡ₚ total cfg (reqs p) ++ new /\ (lossless = true -> lost = []);
  lo_resp : exists lost, total cfg (resps p') ++ answers p ++ lost ≡ₚ total cfg (resps p) ++ answers p' /\ (lossless = true -> lost = []);
  lo_ledger : ledger p' ++ out ++ mbind landed (packets p) ≡ₚ ledger p ++ mbind landed (packets p')
}.

Definition launched (e : pevent) : list sendInfo := match e with SendDone _ s true => [s] | _ => [] end.

Lemma pool_step_sent a e a' : pool_step cfg a e = Next a' -> sent a' = sent a ++ launched e.
Proof.
  destruct e as [msg|i|i e|i|i|i s ok]; cbn [pool_step launched]; intros Hs; rewrite ?app_nil_r; repeat case_match; try done;
    try (apply obind_Next in Hs as ([g out] & _ & Hs)); injection Hs as <-; cbn; by rewrite ?app_nil_r.
Qed.

Lemma req_local p e a' :
  cfg_ok cfg -> proxy_ok p -> pevent_ok e -> pevent_on asked e ->
  pool_step cfg (reqs p) e = Next a' -> local p (set_reqs p a') (added cfg [e]) (mbind landed (launched e)) (negb (is_eviction e)).
Proof.
  intros Hc [Ha Ha' Hh Hh' Ht Hu] He Hon Hs. destruct (proj2 (step_accounted cfg _ e a' Hc Ha He) Hs) as (Hok & _ & _ & Hacc).
  constructor; [constructor; try done|done|exact Hacc|by exists []; rewrite app_nil_r|].
  - cbn. eapply step_headers; [exact (link_header_same request_link)|exact Hc|exact Ha| |exact Hh|exact Hs].
    destruct e; try done. destruct Hon as (r & Hr & Hk & Hon). destruct (asked_known r Hr) as [Hrr _]. destruct (request_path _ Hrr). cbn. by apply (link_header_msg _ r).
  - unfold ledger, travelling, packets. cbn. rewrite (pool_step_sent _ _ _ Hs), !bind_app. solve_Permutation.
Qed.

Lemma resp_local p e a' :
  cfg_ok cfg -> proxy_ok p -> pevent_ok e -> match e with AddToBatch _ => False | _ => True end ->
  pool_step cfg (resps p) e = Next a' -> local p (set_resps p a') [] (mbind landed (launched e)) (negb (is_eviction e)).
Proof.
  intros Hc [Ha Ha' Hh Hh' Ht Hu] He Hn Hs. destruct (proj2 (step_accounted cfg _ e a' Hc Ha' He) Hs) as (Hok & _ & _ & lost & Hp & Hl).
  assert (Hadd : added cfg [e] = []) by (by destruct e). rewrite Hadd, app_nil_r in Hp.
  constructor; [constructor; try done|done|exists []; by rewrite !app_nil_r|exists lost; split; [|done]|].
  - cbn. eapply step_headers; [exact (link_header_same response_link)|exact Hc|exact Ha'| |exact Hh'|exact Hs]. by destruct e.
  - change (answers (set_resps p a')) with (answers p). cbn [resps set_resps]. rewrite <- Hp. solve_Permutation.
  - unfold ledger, travelling, packets. cbn. rewrite (pool_step_sent _ _ _ Hs), !bind_app. solve_Permutation.
Qed.

(** *** Back-sourcers *)

Lemma back_step_inv b e b' : back_inv b -> e <> Close -> back_step b e = Next b' ->
  back_inv b' /\ tasks b' ≡ₚ tasks b ++ submitted [e] /\
  responses b' = responses b ++ match e with Finish t resp => answer (t, resp) | _ => [] end.
Proof.
  intros [Ho Hout Hr] Hne Hs. destruct (back_step_Next b e b' Hs) as (p & Hf & Hp & He). pose proof (fire_tasks _ _ _ Hf) as Ht.
  unfold tasks. rewrite Hp. split; [|split; [|by destruct e; destruct He as [_ ->]; rewrite ?app_nil_r]].
  - constructor.
    + rewrite Hp. destruct e; try done; cbn [op_of fire] in Hf; repeat case_match; try done; injection Hf as <-; done.
    + rewrite Hp. destruct e as [t| |t resp|]; try done; cbn [op_of fire] in Hf; destruct He as [-> _]; repeat case_match; try done; injection Hf as <-; cbn; try done.
      by rewrite fmap_app, Hout.
    + destruct e as [t| |t resp|]; destruct He as [-> ->]; try done. rewrite Hr, bind_app. cbn [mbind list_bind]. by rewrite app_nil_r.
  - rewrite Ht. by destruct e.
Qed.

(** Replacing a back-sourcer of a proxy. *)
Lemma back_local p proto b b' extra_tasks extra_answers :
  proxy_ok p -> back_of proto p = Some b -> back_inv b' -> tasks b' ≡ₚ tasks b ++ extra_tasks -> responses b' = responses b ++ extra_answers ->
  proxy_ok (set_back proto p b') /\ ledger (set_back proto p b') ≡ₚ ledger p ++ (pair (addr p) <$> (Submit proto <$> extra_tasks)) /\
  answers (set_back proto p b') ≡ₚ answers p ++ mbind (msg_accepted cfg) extra_answers /\
  addr (set_back proto p b') = addr p /\ reqs (set_back proto p b') = reqs p /\ resps (set_back proto p b') = resps p.
Proof.
  intros [Ha Ha' Hh Hh' Ht Hu Hst Har Hde] Hb Hi Hta Hre. unfold back_of, set_back, ledger, answers, task_effects in *.
  destruct (String.eqb_spec proto "tcp") as [->|]; [|destruct (String.eqb_spec proto "udp") as [->|]; [|done]]; injection Hb as <-;
    cbn [handlers tcp udp addr delivered disagg reqs resps]; rewrite Hta, Hre;
    (split; [by constructor|]); (split; [rewrite !fmap_app; solve_Permutation|]); (split; [rewrite !bind_app; solve_Permutation|done]).
Qed.

(** *** Steps of one proxy *)

Lemma local_back p proto b b' extra_tasks out :
  proxy_ok p -> back_of proto p = Some b -> back_inv b' -> tasks b' ≡ₚ tasks b ++ extra_tasks -> responses b' = responses b ->
  out ≡ₚ (pair (addr p) <$> (Submit proto <$> extra_tasks)) ->
  forall q, ledger p ++ out ≡ₚ ledger q -> addr p = addr q -> reqs p = reqs q -> resps p = resps q -> answers p = answers q ->
  local q (set_back proto p b') [] [] true.
Proof.
  intros Hp Hb Hi Ht Hr Hout q Hl Ha Hre Hrs Han.
  destruct (back_local p proto b b' extra_tasks [] Hp Hb Hi Ht) as (Hok & Hled & Hans & Had & Hrq & Hrp); [by rewrite app_nil_r|].
  constructor; [done|congruence| | |].
  - exists []. by rewrite Hrq, Hre, !app_nil_r.
  - exists []. split; [|done]. cbn in Hans. rewrite app_nil_r in Hans. by rewrite Hans, Hrp, Hrs, Han, app_nil_r.
  - unfold packets. rewrite Hrq, Hrp, Hre, Hrs, Hled, <- Hout. cbn [app]. by rewrite Hl.
Qed.

(** The [k]-th handler goes on. *)
Lemma omap_insert {A B} (f : A -> option B) l k x : l !! k = Some x ->
  exists r, omap f l ≡ₚ option_list (f x) ++ r /\ forall y, omap f (<[k := y]> l) ≡ₚ option_list (f y) ++ r.
Proof.
  revert k. induction l as [|z l IH]; intros [|k] Hk; [done..| |]; cbn in Hk.
  - injection Hk as ->. exists (omap f l). split; [cbn; by destruct (f x)|]. intros y. cbn. by destruct (f y).
  - destruct (IH k Hk) as (r & H1 & H2). exists (option_list (f z) ++ r). split.
    + cbn. destruct (f z); cbn; rewrite H1; solve_Permutation.
    + intros y. cbn [insert list_insert]. specialize (H2 y). cbn. destruct (f z); cbn; unfold insert in H2; rewrite H2; solve_Permutation.
Qed.

Lemma handler_rest eff rest : handler_ok known (mkHandler None (eff :: rest)) -> action_ok known eff /\ handler_ok known (mkHandler None rest) /\
  (is_delivery eff -> forall o, handler_ok known (mkHandler o rest)).
Proof.
  intros [[Ha Hr]%Forall_cons_1 Hk]. cbn [todo pending] in *. split; [done|]. split.
  - split; [done|]. cbn. destruct Hk as [Hk|[_ [Hk|(n & b & [= _ ->])]]]; [apply Forall_cons_1 in Hk as [_ ?]; by left|apply Forall_cons_1 in Hk as [_ ?]; right; split; [done|by left]|by left].
  - intros Hd o. split; [done|]. cbn. left. destruct Hk as [Hk|[_ [Hk|(n & b & [= -> _])]]]; [by apply Forall_cons_1 in Hk as [_ ?]|apply Forall_cons_1 in Hk as [? _]; by destruct eff|done].
Qed.

Lemma handler_ledger p k h h' :
  handlers p !! k = Some h -> ledger (set_handler p k h') ++ mbind (entry (addr p)) (todo h) ≡ₚ ledger p ++ mbind (entry (addr p)) (todo h').
Proof.
  intros Hk. unfold ledger, travelling. cbn [addr streams handlers dropped tcp udp delivered set_handler set_handlers].
  destruct (bind_insert (fun h => mbind (entry (addr p)) (todo h)) (handlers p) k h h' Hk) as (r & -> & ->). solve_Permutation.
Qed.

Lemma set_handler_ok p k h h' :
  proxy_ok p -> handlers p !! k = Some h -> handler_ok known h' -> pending h' = pending h -> proxy_ok (set_handler p k h').
Proof.
  intros [Ha Ha' Hh Hh' Ht Hu Hst Har Hde Hdi] Hk Hok Hpe. constructor; try done.
  - by apply Forall_insert.
  - destruct Hdi as [H1 H2 H3 H4]. constructor; try done. cbn. rewrite <- H3. destruct (omap_insert pending _ _ _ Hk) as (r & Hr & Hr'). by rewrite Hr, Hr', Hpe.
Qed.

Lemma set_handler_back proto p b k h : set_handler (set_back proto p b) k h = set_back proto (set_handler p k h) b.
Proof. unfold set_back. by case_match. Qed.

Lemma back_of_inv p proto b : proxy_ok p -> back_of proto p = Some b -> back_inv b.
Proof. intros [] Hb. unfold back_of in Hb. repeat case_match; try done; by injection Hb as <-. Qed.

Lemma receive_local p k p' : proxy_ok p -> receive_packet p k <> Panics /\ (receive_packet p k = Next p' -> local p p' [] [] true).
Proof.
  intros Hp. unfold receive_packet. destruct (streams p !! k) as [pkt|] eqn:Ek; [|done]. pose proof Hp as [Ha Ha' Hh Hh' Ht Hu Hst Har Hde Hdi].
  destruct (handle_flight known (addr p) pkt (Forall_lookup_1 _ _ _ _ Hst Ek)) as (effs & He & Hf & Hok). rewrite He. split; [done|]. intros [= <-].
  constructor; [constructor; try done|done|by exists []; rewrite !app_nil_r|by exists []; rewrite !app_nil_r|].
  - by apply Forall_delete.
  - apply Forall_app. split; [done|]. apply Forall_singleton. split; [done|]. cbn.
    destruct (handler_effects pkt effs He) as [Hx|[Hx|Hx]]; [right; split; [done|by right]|right; split; [done|by left]|by left].
  - destruct Hdi as [H1 H2 H3 H4]. constructor; try done. cbn. rewrite omap_app, H3. cbn. by rewrite app_nil_r.
  - unfold ledger, travelling, packets. cbn. rewrite (delete_Permutation _ _ _ Ek) at 2. cbn [mbind list_bind]. rewrite !bind_app. cbn [mbind list_bind todo].
    rewrite Hf, app_nil_r. solve_Permutation.
Qed.

(** What an action leaves to be sent. *)
Definition sending_out (a : Z) (eff : effect) : list (Z * effect) := match eff with TunnelHandler.Send _ _ => entry a eff | _ => [] end.

(** The lookup of [Deliver]. *)
Lemma lookup_disagg_ok hs d calls k rest id data :
  disagg_ok hs d calls -> hs !! k = Some (mkHandler None rest) ->
  forall rest', disagg_ok (<[k := mkHandler ((fun ch => (ch, (id, data))) <$> Disagg.waiters d !! id) rest']> hs) (Disagg.Deliver_lookup d id data) (calls ++ [Deliver id data]).
Proof.
  intros [H1 H2 H3 H4] Hk rest'. destruct (omap_insert pending _ _ _ Hk) as (r & Hr & Hr'). constructor.
  - eapply rtc_r; [exact H1|apply Disagg.step_lookup].
  - unfold Disagg.Deliver_lookup. by case_match.
  - rewrite Hr'. rewrite Hr in H3. cbn in H3 |- *. unfold Disagg.Deliver_lookup. destruct (Disagg.waiters d !! id); cbn; by rewrite H3.
  - rewrite Disagg.taken_lookup, omap_app. apply submseteq_app; [done|]. cbn. case_match; [done|apply submseteq_nil_l].
Qed.

Lemma perform_local p k eff rest p' :
  proxy_ok p -> handlers p !! k = Some (mkHandler None (eff :: rest)) -> perform p k eff rest = Next p' -> local p p' [] (sending_out (addr p) eff) true.
Proof.
  intros Hp Hk. set (q := set_handler p k (mkHandler None rest)). pose proof (Forall_lookup_1 _ _ _ _ (po_handlers _ Hp) Hk) as Hh.
  destruct (handler_rest _ _ Hh) as (_ & Hrest & Hdel). pose proof (set_handler_ok p k _ _ Hp Hk Hrest eq_refl) as Hqok. fold q in Hqok.
  assert (Hq : ledger q ++ entry (addr p) eff ≡ₚ ledger p).
  { pose proof (handler_ledger p k _ (mkHandler None rest) Hk) as Hl. cbn [todo mbind list_bind] in Hl. fold q in Hl.
    apply (Permutation_app_inv_r (mbind (entry (addr p)) rest)). rewrite <- app_assoc. exact Hl. }
  destruct eff as [proto t|next pkt|id d]; cbn [perform sending_out entry] in *.
  - destruct (back_of proto p) as [b|] eqn:Eb; [|done]. intros (b' & Hs & [= <-])%obind_Next. rewrite set_handler_back. fold q.
    change (back_of proto p) with (back_of proto q) in Eb.
    destruct (back_step_inv b (SubmitTask t) b' (back_of_inv q proto b Hqok Eb) ltac:(done) Hs) as (Hi & Ht & Hr).
    rewrite app_nil_r in Hr. by eapply (local_back q proto b b' [t] [(addr p, Submit proto t)]).
  - intros [= <-]. fold q. constructor; [done|done|by exists []; rewrite !app_nil_r|by exists []; rewrite !app_nil_r|]. by rewrite app_assoc, Hq.
  - intros [= <-]. constructor; [|done|by exists []; rewrite !app_nil_r|by exists []; rewrite !app_nil_r|].
    { destruct Hp as [Ha Ha' Hhd Hhd' Ht Hu Hst Har Hde Hdi]. constructor; try done.
      - apply Forall_insert; [done|]. by apply Hdel.
      - apply Forall_app. split; [done|]. by apply Forall_singleton.
      - by eapply lookup_disagg_ok. }
    unfold packets. cbn [reqs resps set_handler set_handlers set_disagg add_delivered]. rewrite <- Hq. unfold ledger, travelling, q.
    cbn [addr streams handlers dropped tcp udp delivered set_handler set_handlers set_disagg add_delivered].
    destruct (bind_insert (fun h => mbind (entry (addr p)) (todo h)) (handlers p) k _ (mkHandler None rest) Hk) as (r & Hr & ->).
    destruct (bind_insert (fun h => mbind (entry (addr p)) (todo h)) (handlers p) k _ (mkHandler ((fun ch => (ch, (id, d))) <$> Disagg.waiters (disagg p) !! id) rest) Hk) as (r' & Hr' & ->).
    rewrite Hr' in Hr. apply Permutation_app_inv_l in Hr. rewrite Hr. cbn [todo]. rewrite !fmap_app. cbn. solve_Permutation.
Qed.

(** The send on the waiter's channel. *)
Lemma send_waiter_local p k ch m rest :
  proxy_ok p -> handlers p !! k = Some (mkHandler (Some (ch, m)) rest) ->
  (send_waiter p k ch m rest = Panics <-> Disagg.chan_closed (disagg p) ch = true) /\
  forall p', send_waiter p k ch m rest = Next p' -> local p p' [] [] true.
Proof.
  intros Hp Hk. pose proof (po_disagg _ Hp) as [H1 H2 H3 H4]. destruct (omap_insert pending _ _ _ Hk) as (r & Hr & Hr').
  assert (Hin : (ch, m) ∈ Disagg.inflight (disagg p)) by (rewrite <- H3, Hr; left). unfold send_waiter. split.
  - rewrite <- (Disagg.send_step_panics _ _ m H1 H2 Hin). by destruct (Disagg.send_step _ _ _).
  - intros p' (d & Hs & [= <-])%obind_Next. destruct (Disagg.send_step_Next _ _ _ _ Hs) as (Hst & Hc & Hi & Ht).
    constructor; [|done|by exists []; rewrite !app_nil_r|by exists []; rewrite !app_nil_r|].
    + pose proof (Forall_lookup_1 _ _ _ _ (po_handlers _ Hp) Hk) as Hh. destruct Hp as [Ha Ha' Hhd Hhd' Htc Hu Hstr Har Hde Hdi]. constructor; try done.
      * apply Forall_insert; [done|]. destruct Hh as [Hh1 [Hh2|[Hh2 _]]]; [split; [done|by left]|done].
      * constructor; [by eapply rtc_r|done| |by rewrite Ht]. cbn. rewrite Hr'. rewrite Hr, Hi in H3. cbn in H3 |- *. by apply Permutation_cons_inv in H3.
    + unfold packets. cbn [reqs resps set_handler set_handlers set_disagg app]. apply Permutation_app_tail. apply (Permutation_app_inv_r (mbind (entry (addr p)) rest)).
      exact (handler_ledger p k _ (mkHandler None rest) Hk).
Qed.

Lemma client_local p e d : proxy_ok p -> Disagg.client_step (disagg p) e = Next d -> local p (set_disagg p d) [] [] true.
Proof.
  intros Hp Hs. destruct (Disagg.client_step_spec _ _ _ Hs) as (Hst & Hc & Hi & Ht). destruct Hp as [Ha Ha' Hh Hh' Htc Hu Hstr Har Hde [H1 H2 H3 H4]].
  constructor; [|done|by exists []; rewrite !app_nil_r|by exists []; rewrite !app_nil_r|done]. constructor; try done.
  constructor; cbn; [by eapply rtc_r|congruence|by rewrite Hi|by rewrite Ht].
Qed.

Lemma take_local p proto b b' :
  proxy_ok p -> back_of proto p = Some b -> back_step b TakeTask = Next b' -> local p (set_back proto p b') [] [] true.
Proof.
  intros Hp Hb Hs. destruct (back_step_inv b TakeTask b' (back_of_inv p proto b Hp Hb) ltac:(done) Hs) as (Hi & Ht & Hr). rewrite app_nil_r in Hr.
  eapply (local_back p proto b b' [] []); try done. by rewrite app_nil_r.
Qed.

(** The task of a request on some route. *)
Definition task_ok (t : BackSourceTask) : Prop := exists r s, request_ok known r /\ t = task_of r s.

Definition resp_ok (t : BackSourceTask) (resp : option bytes) : Prop :=
  forall d, resp = Some d -> valid_sub (mkSub (t_UserID t) d) /\ sub_size (mkSub (t_UserID t) d) < 2 ^ 16.

(** The message made of an answer can be handed to the response aggregator. *)
Lemma answer_ok t resp :
  task_ok t -> resp_ok t resp ->
  answer (t, resp) = [] \/ exists msg, answer (t, resp) = [msg] /\ msg_ok msg /\ msg_header_ok (link_header response_link) msg.
Proof.
  intros (r & s & Hr & ->) Hok. destruct resp as [[|x d]|]; [by left| |by left]. right.
  destruct (answer_task r s (x :: d) (proj1 Hr) ltac:(done)) as (msg & Ha & Hsub & Hport & Hb & Hresp & Hon). exists msg. split; [done|].
  destruct (Hok (x :: d) eq_refl) as [Hv Hs]. destruct (response_path _ Hresp). split; [|eapply link_header_msg; [done|done|split; [split; [done|]|done]|done]; rewrite Hb; by apply back_ok].
  split; [rewrite Hport; unfold fits; lia|]. rewrite Hsub. done.
Qed.

Lemma answer_no_panic t resp : task_ok t -> doOriginRequest t resp <> Panic.
Proof.
  intros (r & s & [(Hl & Ha & _) _] & ->) Hp. apply doOriginRequest_panic in Hp as [(x & d & ->) Hlen]. cbn [t_HopIP task_of] in Hlen.
  pose proof (words_nonzero _ Ha) as Hnz. unfold words in Hlen. destruct (r_path r) as [|a0 [|a1 [|a2 [|a3 [|]]]]]; simpl in Hl; try lia;
    repeat (apply Forall_cons in Hnz as [? Hnz]);
    (change (pad4 _) with [be a0; be a1; be a2; 0] in Hlen || change (pad4 _) with [be a0; be a1; be a2; be a3] in Hlen);
    rewrite !filter_cons in Hlen; repeat case_decide; try done; simpl in Hlen; lia.
Qed.

Lemma finish_local p proto b t resp p' :
  cfg_ok cfg -> proxy_ok p -> back_of proto p = Some b -> task_ok t -> resp_ok t resp ->
  finish cfg p proto b t resp = Next p' -> local p p' [] [] true.
Proof.
  intros Hc Hp Hb Ht Hr (b' & Hs & Hx)%obind_Next.
  destruct (back_step_inv b (Finish t resp) b' (back_of_inv p proto b Hp Hb) ltac:(done) Hs) as (Hi & Hta & Hre). cbn [submitted omap list_omap] in Hta. rewrite app_nil_r in Hta.
  destruct (answer_ok t resp Ht Hr) as [Ha|(msg & Ha & Hm & Hh)]; rewrite Ha in Hx, Hre.
  { injection Hx as <-. rewrite app_nil_r in Hre. eapply (local_back p proto b b' [] []); try done; by rewrite app_nil_r. }
  apply obind_Next in Hx as (a & Hadd & [= <-]).
  destruct (back_local p proto b b' [] [msg] Hp Hb Hi) as (Hok & Hled & Hans & Had & Hrq & Hrp); [by rewrite app_nil_r|done|].
  cbn [fmap list_fmap] in Hled. rewrite app_nil_r in Hled. pose proof (po_resps _ Hp) as Har.
  destruct (proj2 (step_accounted cfg _ (AddToBatch msg) a Hc Har Hm) Hadd) as (Hoka & _ & _ & lost & Hpa & Hll).
  pose proof (step_headers _ (link_header_same response_link) cfg _ (AddToBatch msg) a Hc Har Hh (po_resp_headers _ Hp) Hadd) as Hha.
  constructor; [by destruct Hok|done|by exists []; cbn; rewrite Hrq, !app_nil_r| |].
  - exists lost. split; [|done]. change (answers (set_resps (set_back proto p b') a)) with (answers (set_back proto p b')). rewrite Hans. cbn [resps set_resps].
    unfold added in Hpa. cbn [mbind list_bind] in Hpa |- *. rewrite (Permutation_app_comm (answers p)), app_assoc, Hpa. solve_Permutation.
  - unfold packets. cbn [reqs resps set_resps]. rewrite Hrq, (pool_step_sent _ _ _ Hadd). cbn [launched]. rewrite app_nil_r.
    change (ledger (set_resps (set_back proto p b') a)) with (ledger (set_back proto p b')). by rewrite Hled.
Qed.

(** *** The whole network *)

Definition arrivals (p : proxy) : list (Z * effect) := mbind landed (packets p).

(** The books of the network: [rs] are the requests accepted so far, [out] is on its way. *)
Record balance (rs : list (string * SubPacket)) (lossless : bool) (ns : list proxy) (out : list (Z * effect)) : Prop := {
  ba_ok : Forall proxy_ok ns;
  ba_req : exists lost, mbind (fun p => total cfg (reqs p)) ns ++ lost ≡ₚ rs /\ (lossless = true -> lost = []);
  ba_resp : exists lost, mbind (fun p => total cfg (resps p)) ns ++ lost ≡ₚ mbind answers ns /\ (lossless = true -> lost = []);
  ba_ledger : mbind ledger ns ++ out ≡ₚ mbind arrivals ns
}.

Lemma local_balance rs l ns i p p' new out l' :
  balance rs l ns [] -> ns !! i = Some p -> local p p' new out l' -> balance (rs ++ new) (l && l') (<[i := p']> ns) out.
Proof.
  intros [Hok (lost1 & Hq & Hl1) (lost2 & Hr & Hl2) Hb] Hp [Ho Ha (lo1 & Hlq & Hll1) (lo2 & Hlr & Hll2) Hlb]. rewrite app_nil_r in Hb. constructor.
  - by apply Forall_insert.
  - destruct (bind_insert (fun p => total cfg (reqs p)) ns i p p' Hp) as (rest & Hx & Hx'). exists (lost1 ++ lo1). split.
    + rewrite Hx'. cbn beta. rewrite <- Hq, Hx.
      transitivity ((total cfg (reqs p') ++ lo1) ++ rest ++ lost1); [solve_Permutation|]. rewrite Hlq. solve_Permutation.
    + intros [H1 H2]%andb_true_iff. by rewrite Hl1, Hll1.
  - destruct (bind_insert (fun p => total cfg (resps p)) ns i p p' Hp) as (rest & Hx & Hx').
    destruct (bind_insert answers ns i p p' Hp) as (rest' & Hy & Hy'). exists (lost2 ++ lo2). split.
    + rewrite Hx', Hy'. rewrite Hx, Hy in Hr. apply (Permutation_app_inv_l (total cfg (resps p))). cbn beta in *.
      transitivity ((total cfg (resps p) ++ answers p') ++ rest'); [|solve_Permutation]. rewrite <- Hlr.
      transitivity (total cfg (resps p') ++ lo2 ++ (total cfg (resps p) ++ rest) ++ lost2); [solve_Permutation|].
      transitivity (total cfg (resps p') ++ lo2 ++ (answers p ++ rest')); [|solve_Permutation].
      rewrite <- Hr. solve_Permutation.
    + intros [H1 H2]%andb_true_iff. by rewrite Hl2, Hll2.
  - destruct (bind_insert ledger ns i p p' Hp) as (rest & Hx & Hx'). destruct (bind_insert arrivals ns i p p' Hp) as (rest' & Hy & Hy').
    rewrite Hx', Hy'. rewrite Hx, Hy in Hb. unfold arrivals in Hb at 1. unfold arrivals at 1.
    apply (Permutation_app_inv_l (ledger p)). transitivity ((ledger p ++ mbind landed (packets p')) ++ rest'); [|solve_Permutation].
    rewrite <- Hlb. transitivity (ledger p' ++ out ++ (ledger p ++ rest)); [solve_Permutation|]. rewrite Hb. solve_Permutation.
Qed.

Lemma bind_insert_same {B} (f : proxy -> list B) ns j p p' : ns !! j = Some p -> f p' = f p -> mbind f (<[j := p']> ns) = mbind f ns.
Proof.
  intros Hj Hf. revert j Hj. induction ns as [|q ns IH]; intros [|j] Hj; [done..| |]; cbn in Hj.
  - injection Hj as ->. cbn [insert list_insert mbind list_bind]. by rewrite Hf.
  - cbn [insert list_insert mbind list_bind]. f_equal. by apply IH.
Qed.

(** What is on its way comes to a proxy. *)
Lemma landing_balance rs l ns j p p' out :
  balance rs l ns out -> ns !! j = Some p -> proxy_ok p' -> reqs p' = reqs p -> resps p' = resps p -> answers p' = answers p ->
  ledger p' ≡ₚ ledger p ++ out -> balance rs l (<[j := p']> ns) [].
Proof.
  intros [Hok Hq Hr Hb] Hj Hp' Hrq Hrs Han Hled. constructor.
  - by apply Forall_insert.
  - rewrite (bind_insert_same (fun p => total cfg (reqs p)) _ _ p); [done..|by rewrite Hrq].
  - rewrite (bind_insert_same (fun p => total cfg (resps p)) _ _ p), (bind_insert_same answers _ _ p); [done..|by rewrite Hrs].
  - rewrite (bind_insert_same arrivals _ _ p); [|done|by unfold arrivals, packets; rewrite Hrq, Hrs]. rewrite <- Hb.
    destruct (bind_insert ledger ns j p p' Hj) as (rest & -> & ->). rewrite Hled. solve_Permutation.
Qed.

Lemma deliver_balance rs l ns node pkt ns' :
  packet_ok known node pkt -> balance rs l ns (flight node pkt) -> deliver_packet ns node pkt = Next ns' -> balance rs l ns' [].
Proof.
  intros Hok Hb Hd. unfold deliver_packet in Hd. destruct (list_find _ ns) as [[j p]|] eqn:Ef; [|done]. injection Hd as <-.
  apply list_find_Some in Ef as (Hj & Ha & _). cbn beta in Ha. pose proof (Forall_lookup_1 _ _ _ _ (ba_ok _ _ _ _ Hb) Hj) as Hp.
  eapply landing_balance; [exact Hb|exact Hj| |done..|].
  - destruct Hp. constructor; try done. apply Forall_app. split; [done|]. apply Forall_singleton. by cbn; rewrite Ha.
  - unfold ledger, travelling. cbn. rewrite bind_app, Ha. cbn [mbind list_bind]. rewrite app_nil_r. solve_Permutation.
Qed.

Lemma forward_balance rs l ns i p eff ok :
  action_ok known eff -> ns !! i = Some p -> balance rs l ns (sending_out (addr p) eff) ->
  forward eff ok i ns <> Panics /\ forall ns', forward eff ok i ns = Next ns' -> balance rs l ns' [].
Proof.
  intros Hok Hi Hb. destruct eff as [proto t|next pkt|id d]; cbn [forward sending_out entry] in *; [by split; [|intros ns' [= <-]]| |by split; [|intros ns' [= <-]]].
  destruct ok; [split; [unfold deliver_packet; repeat case_match; done|intros ns'; by apply deliver_balance]|].
  rewrite Hi. split; [done|]. intros ns' [= <-]. eapply landing_balance; [exact Hb|exact Hi| |done..|].
  - by destruct (Forall_lookup_1 _ _ _ _ (ba_ok _ _ _ _ Hb) Hi).
  - unfold ledger, travelling. cbn. rewrite bind_app. cbn [mbind list_bind fst snd]. rewrite app_nil_r. solve_Permutation.
Qed.

Lemma Forall2_elem {A B} (R : A -> B -> Prop) l k x : Forall2 R l k -> x ∈ l -> exists y, y ∈ k /\ R x y.
Proof.
  intros Hf [i Hi]%list_elem_of_lookup. destruct (Forall2_lookup_l _ _ _ _ _ Hf Hi) as (y & Hy & Hr). exists y. split; [by eapply list_elem_of_lookup_2|done].
Qed.

(** The packets that an aggregator has sent end where its messages belong. *)
Lemma sends_land (rok : route -> Prop) link node eff out :
  route_lands known rok node eff -> (forall k r, link k r -> rok r) -> Forall (send_ok (link_header link)) out ->
  Forall2 (effect_of link (fun r s => (node r, eff r s))) (mbind landed out) (mbind carried out).
Proof.
  intros Hl Hk. induction 1 as [|s out Hs Hout IH]; [constructor|]. cbn [mbind list_bind] in *. apply Forall2_app; [|done].
  by destruct (packet_lands known rok link node eff s Hl Hk Hs).
Qed.

Lemma request_link_known k r : request_link k r -> request_ok known r.
Proof. intros [? _]. by apply asked_known. Qed.

Lemma response_link_ok k r : response_link k r -> response_ok known r.
Proof. by intros [? _]. Qed.

Lemma requests_land a : headers (link_header request_link) a -> Forall2 (effect_of request_link request_at) (mbind landed (sent a)) (mbind carried (sent a)).
Proof. intros [_ _ Hq]. apply Forall_app in Hq as [Hq _]. exact (sends_land _ _ egress request_effect _ (request_lands known) request_link_known Hq). Qed.

Lemma responses_land a : headers (link_header response_link) a -> mbind landed (sent a) = by_key key_route response_at <$> mbind carried (sent a).
Proof.
  intros [_ _ Hq]. apply Forall_app in Hq as [Hq _]. apply (effects_by_key response_link); [by intros k r [_ ?]|].
  exact (sends_land _ _ ingress_back response_effect _ (response_lands known) response_link_ok Hq).
Qed.

(** Everything in the ledgers is a request at its egress or a response at its ingress. *)
Lemma ledger_effect rs l ns a eff :
  balance rs l ns [] -> (a, eff) ∈ mbind ledger ns ->
  (exists r s, asked r /\ (a, eff) = request_at r s) \/ (exists k s, (a, eff) = response_at (key_route k) s).
Proof.
  intros [Hok _ _ Hb] Hin. rewrite app_nil_r in Hb. rewrite Hb in Hin. apply list_elem_of_bind in Hin as (p & Hin & Hp).
  unfold arrivals, packets in Hin. rewrite bind_app, elem_of_app in Hin. rewrite Forall_forall in Hok. destruct (Hok p Hp) as [_ _ Hq Hr _ _ _ _ _ _]. destruct Hin as [Hin|Hin].
  - left. destruct (Forall2_elem _ _ _ _ (requests_land _ Hq) Hin) as (ks & _ & r & [Ha _] & ->). by exists r, ks.2.
  - right. rewrite (responses_land _ Hr) in Hin. apply list_elem_of_fmap in Hin as ([k sub] & -> & _). by exists k, sub.
Qed.

Definition requests (evs : list nevent) : list (string * SubPacket) :=
  mbind (fun e => match e with Req _ e => added cfg [e] | _ => [] end) evs.

Definition evicts (e : nevent) : bool := match e with Req _ e | Resp _ e => is_eviction e | _ => false end.

(** Requests are on routes of the table, over known proxies; answers of origins fit the length fields. *)
Definition nevent_ok (e : nevent) : Prop :=
  match e with
  | Req _ e => pevent_ok e /\ pevent_on asked e
  | Resp _ e => pevent_ok e
  | Answer _ _ t resp => resp_ok t resp
  | _ => True
  end.

(** An eviction of an aggregator that comes between the two sections of a flush ([pool_races]); a send to a
    waiter that has cleaned up since it was looked up. *)
Definition net_races (ns : list proxy) (e : nevent) : bool :=
  match e with
  | Req i e => match ns !! i with Some p => pool_races (reqs p) e | None => false end
  | Resp i e => match ns !! i with Some p => pool_races (resps p) e | None => false end
  | Act i k _ =>
      match ns !! i with
      | Some p => match handlers p !! k with Some (mkHandler (Some (ch, _)) _) => Disagg.chan_closed (disagg p) ch | _ => false end
      | None => false
      end
  | _ => false
  end.

(** One step keeps the books, and panics only in such a race. *)
Definition good_step (rs : list (string * SubPacket)) (l : bool) (ns : list proxy) (e : nevent) : Prop :=
  (net_step cfg ns e = Panics <-> net_races ns e = true) /\ forall ns', net_step cfg ns e = Next ns' -> balance (rs ++ requests [e]) (l && negb (evicts e)) ns' [].

Lemma landing_good rs l ns e :
  balance rs l ns (mbind landed (launched e)) ->
  (forall s, s ∈ launched e -> packet_ok known (be (s_next s)) (s_p s)) ->
  landing e ns <> Panics /\ forall ns', landing e ns = Next ns' -> balance rs l ns' [].
Proof.
  intros Hb Hs. destruct e as [| | | | |i s []]; cbn [landing launched] in *; try (split; [done|]; by intros ns' [= <-]).
  cbn [mbind list_bind] in Hb. rewrite app_nil_r in Hb. split; [unfold deliver_packet; repeat case_match; done|].
  intros ns'. apply deliver_balance; [|done]. apply Hs. set_solver.
Qed.

Lemma headers_transit (rok : route -> Prop) link node eff a s :
  route_lands known rok node eff -> (forall k r, link k r -> rok r) -> headers (link_header link) a -> s ∈ sent a -> packet_ok known (be (s_next s)) (s_p s).
Proof.
  intros Hl Hk [_ _ Hh] Hs. apply Forall_app in Hh as [Hh _]. rewrite Forall_forall in Hh.
  by destruct (packet_lands known rok link node eff s Hl Hk (Hh s Hs)).
Qed.

Lemma no_race (o : outcome (list proxy)) {A} (a : A) (P : Prop) : o <> Panics /\ P -> (o = Panics <-> Next a = Panics) /\ P.
Proof. intros [? ?]. done. Qed.

Lemma req_good rs l ns i e : cfg_ok cfg -> balance rs l ns [] -> nevent_ok (Req i e) -> good_step rs l ns (Req i e).
Proof.
  intros Hc Hb [He Hon]. unfold good_step. cbn [net_step net_races]. unfold with_proxy. destruct (ns !! i) as [p|] eqn:Ep; [|done].
  pose proof (Forall_lookup_1 _ _ _ _ (ba_ok _ _ _ _ Hb) Ep) as Hp. destruct (step_accounted cfg (reqs p) e (reqs p) Hc (po_reqs _ Hp) He) as [<- _].
  destruct (pool_step cfg (reqs p) e) as [a| |] eqn:Es; cbn [obind]; [|done..]. apply no_race.
  pose proof (req_local p e a Hc Hp He Hon Es) as Hlo. pose proof (local_balance _ _ _ _ _ _ _ _ _ Hb Ep Hlo) as Hb'.
  unfold requests. cbn [mbind list_bind]. rewrite app_nil_r. eapply landing_good; [exact Hb'|].
  intros s Hs. eapply (headers_transit (request_ok known) request_link egress request_effect a); [exact (request_lands known)|exact request_link_known|apply (po_req_headers _ (lo_ok _ _ _ _ _ Hlo))|].
  rewrite (pool_step_sent _ _ _ Es). apply elem_of_app. by right.
Qed.

Lemma resp_good rs l ns i e : cfg_ok cfg -> balance rs l ns [] -> nevent_ok (Resp i e) -> good_step rs l ns (Resp i e).
Proof.
  intros Hc Hb He. unfold good_step. destruct (match e with AddToBatch _ => true | _ => false end) eqn:Ee; [destruct e; try done; cbn [net_step net_races]; by destruct (ns !! i)|].
  assert (Hstep : net_step cfg ns (Resp i e) = (let? ns' := with_proxy ns i (fun p => let? a := pool_step cfg (resps p) e in Next (set_resps p a)) in landing e ns'))
    by (by destruct e). rewrite Hstep. cbn [net_races]. unfold with_proxy. destruct (ns !! i) as [p|] eqn:Ep; [|done].
  pose proof (Forall_lookup_1 _ _ _ _ (ba_ok _ _ _ _ Hb) Ep) as Hp. destruct (step_accounted cfg (resps p) e (resps p) Hc (po_resps _ Hp) He) as [<- _].
  destruct (pool_step cfg (resps p) e) as [a| |] eqn:Es; cbn [obind]; [|done..]. apply no_race.
  pose proof (resp_local p e a Hc Hp He ltac:(by destruct e) Es) as Hlo. pose proof (local_balance _ _ _ _ _ _ _ _ _ Hb Ep Hlo) as Hb'.
  change (requests [Resp i e]) with (@nil (string * SubPacket)). eapply landing_good; [exact Hb'|].
  intros s Hs. eapply (headers_transit (response_ok known) response_link ingress_back response_effect a); [exact (response_lands known)|exact response_link_ok|apply (po_resp_headers _ (lo_ok _ _ _ _ _ Hlo))|].
  rewrite (pool_step_sent _ _ _ Es). apply elem_of_app. by right.
Qed.

(** A step of one proxy that involves no packet. *)
Lemma quiet_good rs l ns i (f : proxy -> outcome proxy) :
  balance rs l ns [] -> (forall p, ns !! i = Some p -> f p <> Panics /\ forall p', f p = Next p' -> local p p' [] [] true) ->
  (with_proxy ns i f = Panics <-> false = true) /\ forall ns', with_proxy ns i f = Next ns' -> balance (rs ++ []) (l && negb false) ns' [].
Proof.
  intros Hb Hf. unfold with_proxy. destruct (ns !! i) as [p|] eqn:Ep; [|done]. destruct (Hf p eq_refl) as [Hn Hl].
  destruct (f p) as [p'| |]; cbn [obind]; [|done..]. split; [done|]. intros ns' [= <-]. eapply local_balance; [exact Hb|exact Ep|]. by apply Hl.
Qed.

Lemma ledger_elem ns i p x : ns !! i = Some p -> x ∈ ledger p -> x ∈ mbind ledger ns.
Proof. intros Hp Hx. apply list_elem_of_bind. exists p. split; [done|]. by eapply list_elem_of_lookup_2. Qed.

Lemma task_in_ledger p proto b t : back_of proto p = Some b -> t ∈ tasks b -> (addr p, Submit proto t) ∈ ledger p.
Proof.
  intros Hbk Ht. unfold ledger. apply elem_of_app. right. apply list_elem_of_fmap. exists (Submit proto t). split; [done|].
  rewrite !elem_of_app. unfold back_of, task_effects in *.
  destruct (String.eqb_spec proto "tcp") as [->|]; [injection Hbk as <-; left; by apply list_elem_of_fmap_2|].
  destruct (String.eqb_spec proto "udp") as [->|]; [injection Hbk as <-; right; left; by apply list_elem_of_fmap_2|done].
Qed.

(** The tasks of a back-sourcer are those of requests. *)
Lemma tasks_ok rs l ns i p proto b t : balance rs l ns [] -> ns !! i = Some p -> back_of proto p = Some b -> t ∈ tasks b -> task_ok t.
Proof.
  intros Hb Hp Hbk Ht. destruct (ledger_effect rs l ns (addr p) (Submit proto t) Hb) as [(r & s & Hr & [= _ _ ->])|(k & s & [=])]; [|exists r, s; split; [by apply asked_known|done]].
  eapply ledger_elem; [exact Hp|]. by eapply task_in_ledger.
Qed.

Lemma receive_good rs l ns i k : balance rs l ns [] -> good_step rs l ns (Receive i k).
Proof.
  intros Hb. apply quiet_good; [done|]. intros p Hp. pose proof (Forall_lookup_1 _ _ _ _ (ba_ok _ _ _ _ Hb) Hp) as Hok.
  split; [by apply (receive_local p k p)|]. intros p'. by apply receive_local.
Qed.

Lemma act_good rs l ns i k ok : balance rs l ns [] -> good_step rs l ns (Act i k ok).
Proof.
  intros Hb. unfold good_step. cbn [net_step net_races]. unfold with_proxy. destruct (ns !! i) as [p|] eqn:Hp; cbn [mbind option_bind]; [|done].
  destruct (handlers p !! k) as [[[[ch m]|] [|eff rest]]|] eqn:Ek; try done; pose proof (Forall_lookup_1 _ _ _ _ (ba_ok _ _ _ _ Hb) Hp) as Hok.
  1, 2: destruct (send_waiter_local p k ch m _ Hok Ek) as [<- Hlo]; destruct (send_waiter p k ch m _) as [p'| |]; cbn [obind]; [|done..];
    (split; [done|]); intros ns' [= <-]; (eapply local_balance; [exact Hb|exact Hp|by apply Hlo]).
  destruct (handler_rest _ _ (Forall_lookup_1 _ _ _ _ (po_handlers _ Hok) Ek)) as (Hact & _ & _).
  destruct (perform p k eff rest) as [p'| |] eqn:Ef; cbn [obind]; [|done|].
  - pose proof (perform_local p k eff rest p' Hok Ek Ef) as Hlo. pose proof (local_balance _ _ _ _ _ _ _ _ _ Hb Hp Hlo) as Hb'.
    rewrite <- (lo_addr _ _ _ _ _ Hlo) in Hb'. cut (forall o (Q : Prop), o <> @Panics (list proxy) /\ Q -> (o = Panics <-> false = true) /\ Q); [intros Hcut; apply Hcut|by intros ? ? [? ?]].
    eapply (forward_balance _ _ _ i p'); [exact Hact| |exact Hb']. rewrite list_lookup_insert_eq; [done|]. by eapply lookup_lt_Some.
  - exfalso. destruct eff as [proto t| |]; cbn [perform] in Ef; [|done..].
    destruct (back_of proto p) as [b|] eqn:Eb.
    + destruct (back_of_inv _ proto b Hok Eb) as [Ho _ _]. cbn [back_step fire] in Ef. rewrite Ho in Ef. repeat case_match; done.
    + destruct (ledger_effect rs l ns (addr p) (Submit proto t) Hb) as [(r & s & _ & [= _ -> _])|(k' & s & [=])];
        [|by destruct (String.eqb (r_proto r) "tcp")].
      apply (ledger_elem ns i p); [done|]. unfold ledger, travelling. rewrite !elem_of_app. left. right. left.
      apply list_elem_of_bind. eexists. split; [|by eapply list_elem_of_lookup_2]. left.
Qed.

Lemma client_good rs l ns i e : balance rs l ns [] -> good_step rs l ns (Client i e).
Proof.
  intros Hb. apply quiet_good; [done|]. intros p Hp. pose proof (Forall_lookup_1 _ _ _ _ (ba_ok _ _ _ _ Hb) Hp) as Hok. split.
  - destruct e; cbn [Disagg.client_step]; repeat case_match; done.
  - intros p' (d & Hs & [= <-])%obind_Next. by eapply client_local.
Qed.

Lemma take_good rs l ns i proto : balance rs l ns [] -> good_step rs l ns (Take i proto).
Proof.
  intros Hb. apply quiet_good; [done|]. intros p Hp. destruct (back_of proto p) as [b|] eqn:Eb; [|done].
  pose proof (Forall_lookup_1 _ _ _ _ (ba_ok _ _ _ _ Hb) Hp) as Hok. split.
  - cbn [back_step fire]. repeat case_match; done.
  - intros p' (b' & Hs & [= <-])%obind_Next. by eapply take_local.
Qed.

Lemma answer_good rs l ns i proto t resp : cfg_ok cfg -> balance rs l ns [] -> resp_ok t resp -> good_step rs l ns (Answer i proto t resp).
Proof.
  intros Hc Hb Hr. apply quiet_good; [done|]. intros p Hp. destruct (back_of proto p) as [b|] eqn:Eb; [|done].
  pose proof (Forall_lookup_1 _ _ _ _ (ba_ok _ _ _ _ Hb) Hp) as Hok. unfold finish. cbn [back_step fire].
  destruct (remove_first t (running (workers b))) as [rest|] eqn:Er; [|done].
  assert (Ht : task_ok t).
  { eapply (tasks_ok rs l ns i p proto b); [done..|]. unfold tasks. apply remove_first_Perm in Er. rewrite Er, !elem_of_app, elem_of_cons. tauto. }
  split.
  - pose proof (answer_no_panic t resp Ht) as Hnp. destruct (doOriginRequest t resp); [|done]. cbn [lift obind].
    destruct (answer_ok t resp Ht Hr) as [->|(msg & -> & _)]; [done|]. cbn [pool_step]. case_match; done.
  - intros p' Hf. eapply (finish_local p proto b t resp p'); try done. unfold finish. cbn [back_step fire]. by rewrite Er.
Qed.

Lemma step_good rs l ns e : cfg_ok cfg -> balance rs l ns [] -> nevent_ok e -> good_step rs l ns e.
Proof. intros Hc Hb He. destruct e; [by apply req_good|by apply resp_good|by apply receive_good|by apply act_good|by apply take_good|by apply answer_good|by apply client_good]. Qed.

Lemma run_good rs l ns evs ns' :
  cfg_ok cfg -> balance rs l ns [] -> Forall nevent_ok evs -> net_run cfg ns evs = Next ns' -> balance (rs ++ requests evs) (l && negb (existsb evicts evs)) ns' [].
Proof.
  intros Hc Hb He. revert rs l ns Hb. induction He as [|e evs He Hes IH]; intros rs l ns Hb; cbn [net_run].
  { intros [= <-]. cbn. by rewrite app_nil_r, andb_true_r. }
  intros (ns1 & Hs & Hr)%obind_Next. pose proof (proj2 (step_good rs l ns e Hc Hb He) ns1 Hs) as Hb1. pose proof (IH _ _ _ Hb1 Hr) as Hx.
  cbn [existsb]. rewrite negb_orb, andb_assoc. unfold requests in *. cbn [mbind list_bind] in *. by rewrite app_nil_r, <- app_assoc in Hx.
Qed.

Definition new_network (z : sizes) (addrs : list Z) : list proxy := new_proxy z <$> addrs.

Lemma balance_new z addrs : balance [] true (new_network z addrs) [].
Proof.
  assert (Hz : forall {B} (f : proxy -> list B), (forall a, f (new_proxy z a) = []) -> mbind f (new_network z addrs) = []).
  { intros B f Hf. unfold new_network. induction addrs as [|a addrs IH]; [done|]. cbn [fmap list_fmap mbind list_bind]. by rewrite Hf, IH. }
  constructor.
  - apply Forall_fmap, Forall_true. intros a. constructor; [apply agg_ok_new|apply agg_ok_new|apply headers_new|apply headers_new|by constructor..|].
    constructor; [apply rtc_refl|done|done|]. cbn. apply submseteq_nil_l.
  - exists []. rewrite Hz; [done|]. intros a. apply total_new.
  - exists []. rewrite !Hz; [done|done|]. intros a. apply total_new.
  - by rewrite !Hz.
Qed.

(** *** Requests and responses apart *)

Definition is_submit (x : Z * effect) : Prop := match x.2 with Submit _ _ => True | _ => False end.
Definition is_deliver (x : Z * effect) : Prop := match x.2 with Deliver _ _ => True | _ => False end.

#[global] Instance is_submit_dec x : Decision (is_submit x).
Proof. unfold is_submit. case_match; apply _. Defined.
#[global] Instance is_deliver_dec x : Decision (is_deliver x).
Proof. unfold is_deliver. case_match; apply _. Defined.

(** The requests that have not been sent: lost with a packet, or still in an aggregator. *)
Definition unsent (a : aggregator) : list (string * SubPacket) := mbind carried (failed a) ++ owes cfg a.

Lemma filter_requests l ks : Forall2 (effect_of request_link request_at) l ks -> filter is_submit l = l /\ filter is_deliver l = [].
Proof. induction 1 as [|x k l ks (r & _ & ->) _ [IH1 IH2]]; [done|]. rewrite !filter_cons, decide_True, decide_False by (done || intros []). by rewrite IH1, IH2. Qed.

Lemma filter_responses (l : list (string * SubPacket)) :
  filter is_submit (by_key key_route response_at <$> l) = [] /\ filter is_deliver (by_key key_route response_at <$> l) = by_key key_route response_at <$> l.
Proof. induction l as [|ks l [IH1 IH2]]; [done|]. rewrite fmap_cons, !filter_cons, decide_False, decide_True by (done || intros []). by rewrite IH1, IH2. Qed.

Lemma total_bind (f : proxy -> aggregator) ns :
  mbind (fun p => total cfg (f p)) ns ≡ₚ mbind (fun p => mbind carried (sent (f p))) ns ++ mbind (fun p => unsent (f p)) ns.
Proof.
  induction ns as [|p ns IH]; [done|]. cbn [mbind list_bind] in *. rewrite IH. unfold total, unsent. rewrite bind_app. solve_Permutation.
Qed.

(** The messages that packets have carried off. *)
Definition sent_off (f : proxy -> aggregator) (ns : list proxy) : list (string * SubPacket) := mbind (fun p => mbind carried (sent (f p))) ns.

Lemma ledger_split rs l ns :
  balance rs l ns [] ->
  (exists x, filter is_submit (mbind ledger ns) ≡ₚ x /\ Forall2 (effect_of request_link request_at) x (sent_off reqs ns)) /\
  filter is_deliver (mbind ledger ns) ≡ₚ by_key key_route response_at <$> sent_off resps ns.
Proof.
  intros [Hok _ _ Hb]. rewrite app_nil_r in Hb.
  assert (Ha : Forall2 (effect_of request_link request_at) (filter is_submit (mbind arrivals ns)) (sent_off reqs ns) /\
               filter is_deliver (mbind arrivals ns) = by_key key_route response_at <$> sent_off resps ns).
  { clear Hb. induction Hok as [|p ns Hp Hns [IH1 IH2]]; [done|]. unfold sent_off in *. cbn [mbind list_bind] in *.
    pose proof (requests_land _ (po_req_headers _ Hp)) as Hq. unfold arrivals in *. unfold packets at 1 3.
    rewrite bind_app, (responses_land _ (po_resp_headers _ Hp)), !filter_app, fmap_app, IH2. destruct (filter_requests _ _ Hq) as [-> ->].
    destruct (filter_responses (mbind carried (sent (resps p)))) as [-> ->]. split; [|done]. rewrite app_nil_r. by apply Forall2_app. }
  destruct Ha as [Ha Hd]. split; [exists (filter is_submit (mbind arrivals ns)); by rewrite Hb|by rewrite Hb, Hd].
Qed.

(** The books of a network. *)
Lemma books rs l ns :
  balance rs l ns [] ->
  exists sent_reqs lost lost',
    (exists x, filter is_submit (mbind ledger ns) ≡ₚ x /\ Forall2 (effect_of request_link request_at) x sent_reqs) /\
    sent_reqs ++ mbind (fun p => unsent (reqs p)) ns ++ lost ≡ₚ rs /\
    filter is_deliver (mbind ledger ns) ++ (by_key key_route response_at <$> (mbind (fun p => unsent (resps p)) ns ++ lost')) ≡ₚ
      by_key key_route response_at <$> mbind answers ns /\
    (l = true -> lost = [] /\ lost' = []).
Proof.
  intros Hb. destruct (ledger_split _ _ _ Hb) as [Hs Hd]. destruct Hb as [_ (lost & Hq & Hl) (lost' & Hp & Hl') _].
  exists (sent_off reqs ns), lost, lost'. rewrite Hd, <- fmap_app. rewrite total_bind in Hq, Hp. split_and!; [done| | |].
  - by rewrite app_assoc.
  - apply fmap_Permutation. by rewrite app_assoc.
  - intros Hx. by rewrite Hl, Hl'.
Qed.

Lemma run_balance z addrs evs ns :
  cfg_ok cfg -> Forall nevent_ok evs -> net_run cfg (new_network z addrs) evs = Next ns -> balance (requests evs) (negb (existsb evicts evs)) ns [].
Proof. intros Hc He Hr. exact (run_good [] true _ _ _ Hc (balance_new z addrs) He Hr). Qed.

(** *** Whose answer is delivered *)

Definition effect_id (x : Z * effect) : Z := match x.2 with Submit _ t => t_UserID t | Deliver id _ => id | TunnelHandler.Send _ _ => 0 end.

Definition sub_id (ks : string * SubPacket) : Z := UserID ks.2.

Lemma bind_submseteq {A B} (f g : A -> list B) l : Forall (fun x => f x ⊆+ g x) l -> mbind f l ⊆+ mbind g l.
Proof. induction 1; [done|]. cbn [mbind list_bind]. by apply submseteq_app. Qed.

Lemma submseteq_NoDup {A} (l k : list A) : l ⊆+ k -> NoDup k -> NoDup l.
Proof. intros [r ->]%submseteq_Permutation Hk. by apply NoDup_app in Hk as [? _]. Qed.

Lemma answer_id t resp : sub_id <$> mbind (msg_accepted cfg) (answer (t, resp)) ⊆+ [t_UserID t].
Proof.
  unfold answer. cbn [fst snd]. destruct (doOriginRequest t resp) as [[msg|]|] eqn:E; try (apply submseteq_nil_l).
  unfold doOriginRequest in E. repeat case_match; try done. injection E as <-.
  cbn [mbind list_bind]. rewrite app_nil_r. unfold msg_accepted, accepted. case_match; [done|apply submseteq_nil_l].
Qed.

Lemma responses_ids b : back_inv b -> sub_id <$> mbind (msg_accepted cfg) (responses b) ⊆+ t_UserID <$> finished (workers b).
Proof.
  intros [_ Ho Hr]. rewrite Hr, <- Ho. clear. induction (outcomes b) as [|[t resp] l IH]; [done|]. cbn [mbind list_bind].
  rewrite bind_app, fmap_app, !fmap_cons. change (t_UserID (t, resp).1 :: ?x) with ([t_UserID t] ++ x). apply submseteq_app; [apply answer_id|exact IH].
Qed.

Lemma finished_tasks b : finished (workers b) ⊆+ tasks b.
Proof. unfold tasks. apply submseteq_inserts_l, submseteq_inserts_l. done. Qed.

Lemma effect_id_tasks a proto b : effect_id <$> (pair a <$> task_effects proto b) = t_UserID <$> tasks b.
Proof. unfold task_effects. by rewrite <- !list_fmap_compose. Qed.

Lemma filter_tasks a proto b : filter is_submit (pair a <$> task_effects proto b) = pair a <$> task_effects proto b.
Proof. unfold task_effects. induction (tasks b) as [|t l IH]; [done|]. rewrite !fmap_cons, filter_cons, decide_True by done. by rewrite IH. Qed.

Lemma answers_ids p : proxy_ok p -> sub_id <$> answers p ⊆+ effect_id <$> filter is_submit (ledger p).
Proof.
  intros [_ _ _ _ Ht Hu _ _ _]. unfold answers, ledger. rewrite bind_app, !fmap_app, !filter_app, !fmap_app, !filter_tasks, !effect_id_tasks.
  apply submseteq_inserts_l. apply submseteq_app; [|apply submseteq_inserts_r];
    (etransitivity; [by apply responses_ids|]); apply fmap_submseteq, finished_tasks.
Qed.

Lemma filter_bind {A B} (P : B -> Prop) `{!forall x, Decision (P x)} (f : A -> list B) l : filter P (mbind f l) = mbind (fun x => filter P (f x)) l.
Proof. induction l as [|x l IH]; [done|]. cbn [mbind list_bind] in *. by rewrite filter_app, IH. Qed.

Lemma fmap_bind_list {A B C} (g : B -> C) (f : A -> list B) l : g <$> mbind f l = mbind (fun x => g <$> f x) l.
Proof. induction l as [|x l IH]; [done|]. cbn [mbind list_bind] in *. by rewrite fmap_app, IH. Qed.

(** Each delivery consumes one answer, each answer one task, each task one request. *)
Lemma delivered_ids rs l ns : balance rs l ns [] -> effect_id <$> filter is_deliver (mbind ledger ns) ⊆+ sub_id <$> rs.
Proof.
  intros Hb. destruct (books _ _ _ Hb) as (sr & lost & lost' & (x & Hs & Hx) & Hq & Hd & _).
  transitivity (sub_id <$> mbind answers ns).
  { apply (fmap_Permutation effect_id) in Hd. rewrite fmap_app, <- (list_fmap_compose _ effect_id (mbind answers ns)) in Hd.
    change (sub_id <$> mbind answers ns) with ((effect_id ∘ by_key key_route response_at) <$> mbind answers ns). rewrite <- Hd. by apply submseteq_inserts_r. }
  transitivity (effect_id <$> filter is_submit (mbind ledger ns)).
  { rewrite filter_bind, !fmap_bind_list. apply bind_submseteq. eapply Forall_impl; [apply Hb|]. apply answers_ids. }
  assert (He : effect_id <$> x = sub_id <$> sr) by (clear -Hx; induction Hx as [|? ? ? ? (r & _ & ->) _ IH]; [done|]; by rewrite !fmap_cons, IH).
  rewrite Hs, He, <- Hq, fmap_app. by apply submseteq_inserts_r.
Qed.

(** A delivery is the answer of the origin of some request, at the proxy where the request started. *)
Lemma delivery_source rs l ns a id d :
  balance rs l ns [] -> (a, Deliver id d) ∈ mbind ledger ns ->
  exists r data q proto b,
    asked r /\ (route_key r, mkSub id data) ∈ rs /\ a = be (r_path r !!! 0%nat) /\
    q ∈ ns /\ addr q = egress r /\ back_of proto q = Some b /\ (task_of r (mkSub id data), Some d) ∈ outcomes b.
Proof.
  intros Hb Hin. destruct (books _ _ _ Hb) as (sr & lost & lost' & (x & Hs & Hx) & Hq' & Hd & _).
  assert (H1 : (a, Deliver id d) ∈ by_key key_route response_at <$> mbind answers ns).
  { rewrite <- Hd. apply elem_of_app. left. by apply list_elem_of_filter. }
  apply list_elem_of_fmap in H1 as ([k' s'] & Heq & H1). apply list_elem_of_bind in H1 as (q & H1 & Hq).
  pose proof (proj1 (Forall_forall _ _) (ba_ok _ _ _ _ Hb) q Hq) as Hok.
  assert (H2 : exists proto b, back_of proto q = Some b /\ (k', s') ∈ mbind (msg_accepted cfg) (responses b)).
  { unfold answers in H1. rewrite bind_app, elem_of_app in H1. destruct H1 as [H1|H1]; [by exists "tcp", (tcp q)|by exists "udp", (udp q)]. }
  destruct H2 as (proto & b & Hbk & H2). pose proof (back_of_inv q proto b Hok Hbk) as [_ Hout Hresp].
  apply list_elem_of_bind in H2 as (msg & Hmsg & H2). rewrite Hresp in H2. apply list_elem_of_bind in H2 as ([t resp] & Hans & H2).
  apply list_elem_of_lookup in Hq as Hqi. destruct Hqi as [i Hi].
  assert (Ht : t ∈ tasks b). { unfold tasks. rewrite !elem_of_app. right. right. rewrite <- Hout. apply list_elem_of_fmap. by exists (t, resp). }
  assert (Hsub : (addr q, Submit proto t) ∈ x).
  { rewrite <- Hs. apply list_elem_of_filter. split; [done|]. eapply ledger_elem; [exact Hi|]. by eapply task_in_ledger. }
  destruct (Forall2_elem _ _ _ _ Hx Hsub) as ([k s] & Hks & r & [Ha Hkey] & Hreq). cbn in Hkey, Hreq. subst k. injection Hreq as Hegress _ ->.
  pose proof (proj1 (asked_known r Ha)) as Hroute.
  destruct resp as [[|y d']|]; [by apply not_elem_of_nil in Hans| |by apply not_elem_of_nil in Hans].
  destruct (answer_task r s (y :: d') Hroute ltac:(done)) as (msg' & Han & Hms & _ & Hbt & _). unfold fst, snd in Hans. rewrite Han in Hans.
  apply list_elem_of_singleton in Hans. subst msg'. unfold msg_accepted, accepted in Hmsg. case_match; [|by apply not_elem_of_nil in Hmsg].
  apply list_elem_of_singleton in Hmsg. injection Hmsg as -> ->. rewrite Hms in Heq. unfold by_key, response_at, response_effect, fst, snd in Heq.
  rewrite Hbt in Heq. cbn [UserID Data] in Heq. injection Heq as -> -> ->.
  exists r, (Data s), q, proto, b. destruct s as [uid data]. cbn [UserID Data] in *. split_and!; try done.
  - rewrite <- Hq'. apply elem_of_app. by left.
  - unfold ingress_back. cbn [r_path]. f_equal. destruct Hroute as (Hl & _). destruct (r_path r) as [|a0 [|a1 [|a2 [|a3 [|]]]]]; simpl in Hl; try lia; done.
Qed.

(** The deliveries of one proxy among those of all. *)
Lemma calls_ids p ns : p ∈ ns -> proxy_ok p -> (omap delivery (delivered p)).*1 ⊆+ effect_id <$> filter is_deliver (mbind ledger ns).
Proof.
  intros [i Hi]%list_elem_of_lookup Hp. destruct (bind_insert ledger ns i p p Hi) as (rest & -> & _). unfold ledger.
  rewrite !filter_app, !fmap_app, !filter_app, !fmap_app. apply submseteq_inserts_r, submseteq_inserts_l, submseteq_inserts_l, submseteq_inserts_l.
  induction (po_delivered _ Hp) as [|eff l He _ IH]; [done|]. destruct eff; try done. rewrite fmap_cons, filter_cons, decide_True by done.
  cbn [omap list_omap delivery]. rewrite !fmap_cons. by apply submseteq_skip.
Qed.

Lemma omap_delivery (l : list effect) x : x ∈ omap delivery l -> Deliver x.1 x.2 ∈ l.
Proof. intros (eff & Hin & He)%list_elem_of_omap. destruct eff; try done. by injection He as <-. Qed.

(** What the handlers of clients have received was delivered, to the one whose id it has. *)
Lemma received_delivered p h id d :
  proxy_ok p -> (h, (id, d)) ∈ Disagg.received (disagg p) -> h = id /\ Deliver id d ∈ delivered p.
Proof.
  intros [_ _ _ _ _ _ _ _ _ [Hr _ _ Ht]] Hin. split; [by apply (Disagg.inv_received _ (Disagg.inv_reachable _ Hr) _ _ d)|].
  apply (omap_delivery _ (id, d)). eapply elem_of_submseteq; [|exact Ht]. unfold Disagg.taken. rewrite !elem_of_app. right. right.
  apply list_elem_of_fmap. by exists (h, (id, d)).
Qed.

Lemma received_once p ns :
  p ∈ ns -> proxy_ok p -> NoDup (effect_id <$> filter is_deliver (mbind ledger ns)) -> NoDup (Disagg.received (disagg p)).*1.
Proof.
  intros Hin Hp Hnd. pose proof (po_disagg _ Hp) as [Hr _ _ Ht].
  assert (Heq : (Disagg.received (disagg p)).*1 = ((Disagg.received (disagg p)).*2).*1).
  { assert (Hall : Forall (fun x => x.1 = x.2.1) (Disagg.received (disagg p))).
    { apply Forall_forall. intros [h [id d]] Hx. by apply (Disagg.inv_received _ (Disagg.inv_reachable _ Hr) _ _ d). }
    induction Hall as [|x l Hx _ IH]; [done|]. by rewrite !fmap_cons, Hx, IH. }
  rewrite Heq. eapply submseteq_NoDup; [|exact Hnd]. etransitivity; [|by apply calls_ids]. apply fmap_submseteq. etransitivity; [|exact Ht].
  unfold Disagg.taken. by apply submseteq_inserts_l, submseteq_inserts_l.
Qed.
End Ledger.

(** ** Properties *)

Section Theorems.
Context `{IPv6Parser}.
Context (cfg : Config) (known : Z -> Prop).

(** A route over known proxies that some request of the run was on. *)
Definition requested (evs : list nevent) (r : route) : Prop :=
  request_ok known r /\ exists i msg, Req i (AddToBatch msg) ∈ evs /\ msg_on r msg.

Lemma requested_known evs r : requested evs r -> request_ok known r.
Proof. by intros [? _]. Qed.

Lemma requested_ok evs : Forall (nevent_ok (request_ok known)) evs -> Forall (nevent_ok (requested evs)) evs.
Proof.
  rewrite !Forall_forall. intros He e Hin. specialize (He e Hin). destruct e as [i e| | | | | |]; try done. destruct He as [Hok Hon]. split; [done|].
  destruct e as [msg| | | | |]; try done. destruct Hon as (r & Hr & Hm). exists r. split; [|done]. split; [done|]. by exists i, msg.
Qed.

Lemma run_requested z addrs evs ns :
  cfg_ok cfg -> Forall (nevent_ok (request_ok known)) evs -> net_run cfg (new_network z addrs) evs = Next ns ->
  balance cfg known (requested evs) (requests cfg evs) (negb (existsb evicts evs)) ns [].
Proof. intros Hc He Hr. apply (run_balance cfg known _ (requested_known evs) z addrs); [done| |done]. by apply requested_ok. Qed.

(** C2. The books of a network of proxies balance in every interleaving: whatever the request and
    response aggregators, back-sourcers, stream handlers, disaggregators and client handlers of any number of
    proxies do, and however often sends and forwards fail, a step panics exactly when ([net_races]) an eviction removes a
    route of an aggregator of which a batch is popped and not flushed yet, or a stream handler sends on the channel of a
    client that has cleaned up since the handler looked it up.  What packets carry to an egress (on their way, or lost on it)
    and the tasks that exist there (waiting, queued, with a worker or finished) are the accepted requests, each once, with its
    id and data, at the egress of its hops, apart from those still unsent, lost with a failed packet or discarded by an
    eviction; the port and protocol of a task are those of a request over the same hops (a batch has the port and protocol
    of its first message).  Likewise what is carried to an ingress and handed to [Deliver] there are the answers the origins
    gave, each once and at its own ingress.  Without
    evictions nothing is discarded.  Requests are on paths of three or four addresses with a port; data of requests and answers fits the 16-bit
    length fields. *)
Theorem network_accounts z addrs evs ns :
  cfg_ok cfg -> Forall (nevent_ok (request_ok known)) evs -> net_run cfg (new_network z addrs) evs = Next ns ->
  (forall e, nevent_ok (request_ok known) e -> net_step cfg ns e = Panics <-> net_races ns e = true) /\
  exists sent_reqs lost lost',
    (exists x, filter is_submit (mbind ledger ns) ≡ₚ x /\ Forall2 (effect_of (request_link (requested evs)) request_at) x sent_reqs) /\
    sent_reqs ++ mbind (fun p => unsent cfg (reqs p)) ns ++ lost ≡ₚ requests cfg evs /\
    filter is_deliver (mbind ledger ns) ++ (by_key key_route response_at <$> (mbind (fun p => unsent cfg (resps p)) ns ++ lost')) ≡ₚ
      by_key key_route response_at <$> mbind (answers cfg) ns /\
    (existsb evicts evs = false -> lost = [] /\ lost' = []).
Proof.
  intros Hc He Hr. split.
  - intros e Hok. pose proof (run_balance cfg known (request_ok known) ltac:(done) z addrs evs ns Hc He Hr) as Hb.
    by apply (step_good cfg known _ ltac:(done) _ _ ns e Hc Hb Hok).
  - destruct (books cfg known _ (requested_known evs) _ _ _ (run_requested z addrs evs ns Hc He Hr)) as (sr & lost & lost' & Hs & Hq & Hd & Hl).
    exists sr, lost, lost'. split_and!; try done. intros Hx. apply Hl. by rewrite Hx.
Qed.

(** C3. Every client gets its own answer, once: when the requests have different ids, no id is
    handed to [Deliver] twice anywhere in the network, and no client handler receives two answers under one id; what a client
    handler at a proxy receives is for its own id, and whatever it receives and whatever is handed to [Deliver] for an id
    is what an origin answered to the data of the request with that id, the request having started at that proxy and the
    origin having been asked by the egress of the request's hops.  The port and protocol under which it was asked are those of a request
    over the same hops, so the request's own when requests over the same hops agree on them.  In every interleaving; requests are on
    paths of three or four addresses, and data fits the 16-bit length fields. *)
Theorem network_answers_own z addrs evs ns p :
  cfg_ok cfg -> Forall (nevent_ok (request_ok known)) evs -> net_run cfg (new_network z addrs) evs = Next ns ->
  NoDup (sub_id <$> requests cfg evs) -> p ∈ ns ->
  NoDup (effect_id <$> filter is_deliver (mbind ledger ns)) /\ NoDup (Disagg.received (disagg p)).*1 /\
  (forall h id d, (h, (id, d)) ∈ Disagg.received (disagg p) -> h = id /\ Deliver id d ∈ delivered p) /\
  (forall id d, Deliver id d ∈ delivered p ->
   exists r data q proto b,
    requested evs r /\ (route_key r, mkSub id data) ∈ requests cfg evs /\ addr p = be (r_path r !!! 0%nat) /\
    q ∈ ns /\ addr q = egress r /\ back_of proto q = Some b /\ (task_of r (mkSub id data), Some d) ∈ outcomes b).
Proof.
  intros Hc He Hr Hnd Hp. pose proof (run_requested z addrs evs ns Hc He Hr) as Hb.
  pose proof (submseteq_NoDup _ _ (delivered_ids cfg known _ (requested_known evs) _ _ _ Hb) Hnd) as Hids.
  pose proof (proj1 (Forall_forall _ _) (ba_ok _ _ _ _ _ _ _ Hb) p Hp) as Hok. split_and!.
  - done.
  - by eapply received_once.
  - intros h id d. by eapply received_delivered.
  - intros id d Hd. eapply (delivery_source cfg known _ (requested_known evs)); [exact Hb|]. apply list_elem_of_bind. exists p. split; [|done].
    unfold ledger. apply elem_of_app. right. apply list_elem_of_fmap. exists (Deliver id d). split; [done|]. rewrite !elem_of_app. by right; right.
Qed.
End Theorems.

(** ** A concrete network: ingress, relay and egress of the sample route *)

#[local] Existing Instance no_ipv6.

Definition sample_addrs3 : list Z := be <$> take 3 sample_path.
Definition sample_known (a : Z) : Prop := a ∈ sample_addrs3.
Definition sample_sizes : sizes := mkSizes 2 0 0.
Definition hi : aggregatorMsg := route_msg sample_route 7 [104; 105; 10].
Definition hi_task : BackSourceTask := task_of sample_route (mkSub 7 [104; 105; 10]).
Definition first_sent (msg : aggregatorMsg) : sendInfo :=
  match handleMsg sample_config 0 new_worker msg with Ret (_, s :: _) => s | _ => mkSend [] "" [] end.
Definition first_answer : aggregatorMsg := default hi (head (answer (hi_task, Some [111; 107; 10]))).

Definition sample_net_events : list nevent :=
  [Client 0 (Disagg.CRegister 7 0); Req 0 (AddToBatch hi); Req 0 (Handle 1); Req 0 (FlushMsg 1); Req 0 (SendDone 1 (first_sent hi) true);
   Receive 1 0; Act 1 0 true; Receive 2 0; Act 2 0 true; Take 2 "tcp"; Answer 2 "tcp" hi_task (Some [111; 107; 10]);
   Resp 2 (Handle 0); Resp 2 (FlushMsg 0); Resp 2 (SendDone 0 (first_sent first_answer) true); Receive 1 0; Act 1 1 true; Receive 0 0;
   Act 0 0 true; Act 0 0 true; Client 0 (Disagg.CReceive 7 0); Client 0 (Disagg.CCleanup 7 0)].

Definition all_received (o : outcome (list proxy)) : list (list effect * list (Z * (Z * bytes))) :=
  match o with Next ns => (fun p => (delivered p, Disagg.received (disagg p))) <$> ns | _ => [] end.

Lemma sample_net_delivers :
  all_received (net_run sample_config (new_network sample_sizes sample_addrs3) sample_net_events) =
    [([Deliver 7 [111; 107; 10]], [(7, (7, [111; 107; 10]))]); ([], []); ([], [])].
Proof. vm_compute. reflexivity. Qed.

(** The client gives up between the lookup and the send: the proxy panics. *)
Lemma sample_net_race :
  net_run sample_config (new_network sample_sizes sample_addrs3) (take 18 sample_net_events ++ [Client 0 (Disagg.CCleanup 7 0); Act 0 0 true]) = Panics.
Proof. vm_compute. reflexivity. Qed.

Lemma sample_net_ok : Forall (nevent_ok (request_ok sample_known)) sample_net_events.
Proof.
  assert (Hmsg : msg_ok hi) by (apply route_msg_ok; [unfold fits; cbn; lia|vm_compute; reflexivity]).
  assert (Hroute : request_ok sample_known sample_route).
  { split; [split; [cbn; lia|]; split; [exact sample_addrs|done]|]. unfold sample_known. apply (bool_decide_unpack _). vm_compute. exact I. }
  unfold sample_net_events. repeat (apply Forall_cons_2; [|]); try done.
  - split; [done|]. by exists sample_route.
  - intros d [= <-]. apply (bool_decide_unpack _). vm_compute. exact I.
Qed.

Lemma network_accounts_witness :
  match net_run sample_config (new_network sample_sizes sample_addrs3) sample_net_events with
  | Next ns => forall e, nevent_ok (request_ok sample_known) e -> net_step sample_config ns e = Panics <-> net_races ns e = true
  | _ => False
  end.
Proof.
  pose proof sample_net_delivers as Hd.
  destruct (net_run sample_config (new_network sample_sizes sample_addrs3) sample_net_events) as [ns| |] eqn:E; [|discriminate Hd|discriminate Hd].
  apply (network_accounts sample_config sample_known sample_sizes sample_addrs3 sample_net_events ns).
  - unfold cfg_ok. cbn. lia.
  - exact sample_net_ok.
  - exact E.
Defined.

Lemma network_answers_own_witness :
  match net_run sample_config (new_network sample_sizes sample_addrs3) sample_net_events with
  | Next ns => exists p q proto b, p ∈ ns /\ (7, (7, [111; 107; 10])) ∈ Disagg.received (disagg p) /\ q ∈ ns /\ back_of proto q = Some b /\
      exists r data, (task_of r (mkSub 7 data), Some [111; 107; 10]) ∈ outcomes b
  | _ => False
  end.
Proof.
  pose proof sample_net_delivers as Hd.
  destruct (net_run sample_config (new_network sample_sizes sample_addrs3) sample_net_events) as [ns| |] eqn:E; [|discriminate Hd|discriminate Hd].
  cbn [all_received] in Hd. destruct ns as [|p ns]; [discriminate Hd|]. cbn [fmap list_fmap] in Hd. injection Hd as Hp Hrec _.
  destruct (network_answers_own sample_config sample_known sample_sizes sample_addrs3 sample_net_events (p :: ns) p) as (_ & _ & Hown & Hsrc).
  - unfold cfg_ok. cbn. lia.
  - exact sample_net_ok.
  - exact E.
  - apply (bool_decide_unpack _). vm_compute. exact I.
  - left.
  - assert (Hin : (7, (7, [111; 107; 10])) ∈ Disagg.received (disagg p)) by (rewrite Hrec; left).
    destruct (Hown _ _ _ Hin) as [_ Hdel]. destruct (Hsrc _ _ Hdel) as (r & data & q & proto & b & _ & _ & _ & Hq & _ & Hb & Ho).
    exists p, q, proto, b. split_and!; [left|exact Hin|exact Hq|exact Hb|]. exists r, data. exact Ho.
Defined.
End Network.
