(* ===== verification/NetworkDrain.v ===== *)
(** * A network of proxies can always finish

    Whatever has happened in a network of proxies, its goroutines can go on, without new requests and with sends that succeed,
    until every request is answered: the stages of [NetworkDrain] empty the request aggregators, then the
    packets on their way to an egress, the tasks, the response aggregators and the packets on their way
    back, making room in the channels as they go. *)

From Stdlib Require Import ZArith Lia Ascii String.
From stdpp Require Import base numbers list gmap strings list_tactics.
From S2P Require Import Prelude GoStrings GoChan F64 Packet Tunnel GoHeap Aggregator AggregatorPool Server BackSourcer BackPool AggregatorRoute Proxy ProxyPool Disaggregator Network.
Import WorkerPool TunnelPacket TunnelHandler Aggregator AggregatorPool AggregatorRoute BackSourcer BackPool Proxy ProxyPool Network.

Module NetworkDrain.

(** ** What does not change *)

(** The address of a proxy and the sizes of its components. *)
Definition shape (p : proxy) : Z * list nat * list Z :=
  (addr p, [sendCap (reqs p); length (nodes (reqs p)); sendCap (resps p); length (nodes (resps p)); size (workers (tcp p)); size (workers (udp p))],
   [cap (workers (tcp p)); cap (workers (udp p))]).

(** What was lost: packets whose forwarding or sending failed. *)
Definition losses (p : proxy) : list (Z * bytes) * list sendInfo * list sendInfo := (dropped p, failed (reqs p), failed (resps p)).

Lemma fmap_insert_same {A B} (f : A -> B) (l : list A) i x y : l !! i = Some x -> f y = f x -> f <$> <[i := y]> l = f <$> l.
Proof. intros Hx Hf. rewrite list_fmap_insert, Hf. apply list_insert_id. by rewrite list_lookup_fmap, Hx. Qed.

Section Frames.
Context `{IPv6Parser}.
Context (cfg : Config).

Lemma pool_step_sizes a e a' : pool_step cfg a e = Next a' -> sendCap a' = sendCap a /\ length (nodes a') = length (nodes a).
Proof.
  destruct e; cbn [pool_step]; intros Hs; repeat case_match; try done; try (apply obind_Next in Hs as ([g out] & _ & Hs));
    injection Hs as <-; cbn; by rewrite ?length_insert.
Qed.

Lemma pool_step_failed a e a' : benign e = true -> pool_step cfg a e = Next a' -> failed a' = failed a.
Proof.
  destruct e as [| |i e| | |i s ok]; cbn [pool_step]; intros Hb Hs; try done; repeat case_match; try done;
    try (apply obind_Next in Hs as ([g out] & _ & Hs)); by injection Hs as <-.
Qed.

Lemma back_step_sizes b e b' : back_step b e = Next b' -> size (workers b') = size (workers b) /\ cap (workers b') = cap (workers b).
Proof.
  destruct e; cbn [back_step lift fire]; intros Hs; repeat (case_match; try done); injection Hs as <-; try done;
    repeat match goal with H : Next _ = Next _ |- _ => injection H as <- end; done.
Qed.

(** A step that keeps a function of every proxy. *)
Section Keep.
Context {B : Type} (f : proxy -> B).

Lemma with_proxy_keeps ns i g ns' :
  (forall p p', ns !! i = Some p -> g p = Next p' -> f p' = f p) -> with_proxy ns i g = Next ns' -> f <$> ns' = f <$> ns.
Proof.
  intros Hg. unfold with_proxy. destruct (ns !! i) as [p|] eqn:Ep; [|done]. intros (p' & Hp & [= <-])%obind_Next.
  eapply fmap_insert_same; [exact Ep|]. by eapply Hg.
Qed.

Context (f_streams : forall p l, f (set_streams p l) = f p).

Lemma deliver_keeps ns node pkt ns' : deliver_packet ns node pkt = Next ns' -> f <$> ns' = f <$> ns.
Proof.
  unfold deliver_packet. destruct (list_find _ ns) as [[j p]|] eqn:Ef; [|done]. intros [= <-]. apply list_find_Some in Ef as (Hj & _).
  by eapply fmap_insert_same.
Qed.

Lemma landing_keeps e ns ns' : landing e ns = Next ns' -> f <$> ns' = f <$> ns.
Proof. destruct e as [| | | | |i s []]; cbn [landing]; try (by intros [= <-]). apply deliver_keeps. Qed.
End Keep.

Lemma set_back_shape proto p b b' : back_of proto p = Some b -> size (workers b') = size (workers b) -> cap (workers b') = cap (workers b) ->
  shape (set_back proto p b') = shape p.
Proof. unfold back_of, set_back, shape. intros Hb Hs Hc. repeat case_match; try done; injection Hb as <-; cbn; by rewrite Hs, Hc. Qed.

Lemma perform_shape p k eff rest p' : perform p k eff rest = Next p' -> shape p' = shape p.
Proof.
  destruct eff; cbn [perform]; [|by intros [= <-]|by intros [= <-]]. destruct (back_of _ p) as [b|] eqn:Eb; [|done].
  intros (b' & Hs & [= <-])%obind_Next. destruct (back_step_sizes _ _ _ Hs). exact (set_back_shape _ p b b' Eb ltac:(done) ltac:(done)).
Qed.

Lemma finish_shape p proto b t resp p' : back_of proto p = Some b -> finish cfg p proto b t resp = Next p' -> shape p' = shape p.
Proof.
  intros Hb (b' & Hs & Hx)%obind_Next. destruct (back_step_sizes _ _ _ Hs) as [H1 H2]. pose proof (set_back_shape _ _ _ _ Hb H1 H2) as Hsh.
  destruct (answer (t, resp)) as [|msg ?]; [by injection Hx as <-|]. apply obind_Next in Hx as (a & Ha & [= <-]). destruct (pool_step_sizes _ _ _ Ha) as [H3 H4].
  unfold shape in *. assert (Hr : resps (set_back proto p b') = resps p) by (unfold set_back; by case_match). injection Hsh as <- <- <- <- <- <- <- <- <-. cbn. by rewrite Hr, H3, H4.
Qed.

Lemma forward_keeps {B} (f : proxy -> B) eff ok i ns ns' :
  (forall p l, f (set_streams p l) = f p) -> (ok = true \/ forall p n b, f (drop_packet p n b) = f p) ->
  forward eff ok i ns = Next ns' -> f <$> ns' = f <$> ns.
Proof.
  intros Hs Hd. destruct eff; cbn [forward]; [by intros [= <-]| |by intros [= <-]]. destruct ok; [by apply deliver_keeps|].
  destruct Hd as [Hd|Hd]; [done|]. destruct (ns !! i) as [p|] eqn:Ep; [|done]. intros [= <-]. by eapply fmap_insert_same.
Qed.

(** The steps of the response aggregator as those of the request aggregator. *)
Lemma resp_step ns i e :
  match e with AddToBatch _ => False | _ => True end ->
  net_step cfg ns (Resp i e) = (let? ns' := with_proxy ns i (fun p => let? a := pool_step cfg (resps p) e in Next (set_resps p a)) in landing e ns').
Proof. by destruct e. Qed.

(** When a step keeps a function of every proxy: when its parts do. *)
Lemma step_keeps {B} (f : proxy -> B) ns e ns' :
  (forall p l l', f (set_handlers (set_streams p l) l') = f p) ->
  (forall p i e' a, e = Req i e' -> pool_step cfg (reqs p) e' = Next a -> f (set_reqs p a) = f p) ->
  (forall p i e' a, e = Resp i e' -> pool_step cfg (resps p) e' = Next a -> f (set_resps p a) = f p) ->
  (forall i k p n b, e = Act i k false -> f (drop_packet p n b) = f p) ->
  (forall p d, match e with Act _ _ _ | Client _ _ => True | _ => False end -> f (set_disagg p d) = f p) ->
  (forall i ok p k eff rest p', e = Act i k ok -> perform p k eff rest = Next p' -> f p' = f p) ->
  (forall p proto b b', back_of proto p = Some b -> back_step b TakeTask = Next b' -> f (set_back proto p b') = f p) ->
  (forall p proto b t resp p', back_of proto p = Some b -> finish cfg p proto b t resp = Next p' -> f p' = f p) ->
  net_step cfg ns e = Next ns' -> f <$> ns' = f <$> ns.
Proof.
  intros Hsa Hrq Hrs Hdr Hdi Hpe Hta Hfi. assert (Hst : forall p l, f (set_streams p l) = f p) by (intros p l; by rewrite <- (Hsa p l (handlers p))).
  destruct e as [i e|i e|i k|i k ok|i proto|i proto t resp|i e].
  - cbn [net_step]. intros (ns1 & H1 & H2)%obind_Next. rewrite (landing_keeps f Hst _ _ _ H2). revert H1. apply with_proxy_keeps.
    intros p p' _ (a & Ha & [= <-])%obind_Next. by eapply Hrq.
  - destruct (match e with AddToBatch _ => true | _ => false end) eqn:Ee; [by destruct e|]. rewrite resp_step by (by destruct e).
    intros (ns1 & H1 & H2)%obind_Next. rewrite (landing_keeps f Hst _ _ _ H2). revert H1. apply with_proxy_keeps.
    intros p p' _ (a & Ha & [= <-])%obind_Next. by eapply Hrs.
  - cbn [net_step]. apply with_proxy_keeps. intros p p' _. unfold receive_packet. repeat case_match; try done. intros [= <-]. apply Hsa.
  - cbn [net_step]. destruct (ns !! i ≫= _) as [[[[ch m]|] rest]|]; [| |done].
    + apply with_proxy_keeps. intros p p' _ (d & _ & [= <-])%obind_Next. rewrite <- (Hdi p d I). exact (Hsa (set_disagg p d) (streams p) _).
    + destruct rest as [|eff rest]; [done|]. intros (ns1 & H1 & H2)%obind_Next.
      rewrite (forward_keeps f eff ok i ns1 ns'); [|done|destruct ok; [by left|right; intros; by eapply Hdr]|done].
      revert H1. apply with_proxy_keeps. intros p p' _ Hp. by eapply Hpe.
  - cbn [net_step]. unfold with_back. apply with_proxy_keeps. intros p p' _. destruct (back_of proto p) as [b|] eqn:Eb; [|done].
    intros (b' & Hs & [= <-])%obind_Next. by eapply Hta.
  - cbn [net_step]. unfold with_back. apply with_proxy_keeps. intros p p' _. destruct (back_of proto p) as [b|] eqn:Eb; [|done]. by apply Hfi.
  - cbn [net_step]. apply with_proxy_keeps. intros p p' _ (d & _ & [= <-])%obind_Next. by apply Hdi.
Qed.

Lemma step_shape ns e ns' : net_step cfg ns e = Next ns' -> shape <$> ns' = shape <$> ns.
Proof.
  apply step_keeps; [done| | |done|done|intros ? ?; intros; by eapply perform_shape| |exact finish_shape].
  - intros p i e' a _ Ha. destruct (pool_step_sizes _ _ _ Ha) as [H3 H4]. unfold shape. cbn. by rewrite H3, H4.
  - intros p i e' a _ Ha. destruct (pool_step_sizes _ _ _ Ha) as [H3 H4]. unfold shape. cbn. by rewrite H3, H4.
  - intros p proto b b' Hb Hs. destruct (back_step_sizes _ _ _ Hs). by eapply set_back_shape.
Qed.

(** ** Friendly steps *)

Context (origin : BackSourceTask -> option bytes).

(** The goroutines go on: nothing new comes in, clients wait, sends succeed, and origins answer as they do. *)
Definition friendly (e : nevent) : Prop :=
  match e with
  | Req _ e | Resp _ e => benign e = true
  | Receive _ _ | Take _ _ => True
  | Act _ _ ok => ok = true
  | Answer _ _ t resp => resp = origin t
  | Client _ _ => False
  end.

Definition not_request (e : nevent) : Prop := match e with Req _ _ => False | _ => True end.

Lemma set_back_losses proto p b : losses (set_back proto p b) = losses p /\ reqs (set_back proto p b) = reqs p.
Proof. unfold set_back. by case_match. Qed.

Lemma perform_losses p k eff rest p' : perform p k eff rest = Next p' -> losses p' = losses p /\ reqs p' = reqs p.
Proof.
  destruct eff; cbn [perform]; [|by intros [= <-]|by intros [= <-]]. destruct (back_of _ p) as [b|] eqn:Eb; [|done].
  intros (b' & Hs & [= <-])%obind_Next. exact (set_back_losses _ p b').
Qed.

Lemma finish_losses p proto b t resp p' : finish cfg p proto b t resp = Next p' -> losses p' = losses p /\ reqs p' = reqs p.
Proof.
  intros (b' & Hs & Hx)%obind_Next. destruct (set_back_losses proto p b') as [H1 H2].
  destruct (answer (t, resp)) as [|msg ?]; [by injection Hx as <-|]. apply obind_Next in Hx as (a & Ha & [= <-]).
  assert (Hr : resps (set_back proto p b') = resps p) by (unfold set_back; by case_match). cbn [reqs set_resps]. split; [|done].
  unfold losses in *. cbn. injection H1 as -> -> _. cbn [pool_step] in Ha. case_match; [|done]. by injection Ha as <-.
Qed.

Lemma friendly_losses ns e ns' : friendly e -> net_step cfg ns e = Next ns' -> losses <$> ns' = losses <$> ns.
Proof.
  intros Hf. apply step_keeps; [done| | | |done| | |].
  - intros p i e' a -> Ha. unfold losses. cbn. by rewrite (pool_step_failed _ _ _ Hf Ha).
  - intros p i e' a -> Ha. unfold losses. cbn. by rewrite (pool_step_failed _ _ _ Hf Ha).
  - by intros i k p n b ->.
  - intros i ok p k eff rest p' _ Hp. apply (perform_losses _ _ _ _ _ Hp).
  - intros p proto b b' _ _. apply set_back_losses.
  - intros p proto b t resp p' _ Hp. apply (finish_losses _ _ _ _ _ _ Hp).
Qed.

Lemma not_request_reqs ns e ns' : not_request e -> net_step cfg ns e = Next ns' -> reqs <$> ns' = reqs <$> ns.
Proof.
  intros Hf. apply step_keeps; [done|by intros p i e' a ->|done|done|done| | |].
  - intros i ok p k eff rest p' _ Hp. apply (perform_losses _ _ _ _ _ Hp).
  - intros p proto b b' _ _. apply set_back_losses.
  - intros p proto b t resp p' _ Hp. apply (finish_losses _ _ _ _ _ _ Hp).
Qed.
End Frames.

(** ** How much is left to do *)

(** Remaining hops and messages, twice. *)
Definition weight (node : Z) (pkt : bytes) : nat := 2 * length (visits 3 node pkt) + 2 * length (flight node pkt).

(** Whether a packet carries requests; packets without messages count as responses. *)
Definition to_egress (node : Z) (pkt : bytes) : bool := existsb (fun x => match x.2 with Submit _ _ => true | _ => false end) (flight node pkt).

(** What is left of packets with requests, and of others. *)
Definition stream_left (req : bool) (node : Z) (pkt : bytes) : nat := if Bool.eqb (to_egress node pkt) req then weight node pkt else 0.
Definition action_left (req : bool) (eff : effect) : nat :=
  match eff with
  | TunnelHandler.Send next pkt => if Bool.eqb (to_egress next pkt) req then S (weight next pkt) else 0
  | Submit _ _ => if req then 1 else 0
  | Deliver _ _ => if req then 0 else 2
  end.

(** A handler in a delivery has the send left. *)
Definition handler_left (req : bool) (h : handler) : nat :=
  sum_list_with (action_left req) (todo h) + (if req then 0 else if pending h then 1 else 0).

Definition packets_left (req : bool) (p : proxy) : nat :=
  sum_list_with (stream_left req (addr p)) (streams p) + sum_list_with (handler_left req) (handlers p).

Definition tasks_left (p : proxy) : nat := work_left (workers (tcp p)) + work_left (workers (udp p)).

Lemma sum_with_app {A} (f : A -> nat) l1 l2 : sum_list_with f (l1 ++ l2) = sum_list_with f l1 + sum_list_with f l2.
Proof. induction l1 as [|x l1 IH]; cbn; [done|]. lia. Qed.

Lemma sum_with_delete {A} (f : A -> nat) l k x : l !! k = Some x -> sum_list_with f l = f x + sum_list_with f (delete k l).
Proof. intros Hk. revert k Hk. induction l as [|y l IH]; intros [|k] Hk; try done; cbn in *; [by injection Hk as ->|]. rewrite (IH k Hk). unfold delete. lia. Qed.

Lemma sum_with_insert {A} (f : A -> nat) l i x y : l !! i = Some x -> sum_list_with f (<[i := y]> l) + f x = sum_list_with f l + f y.
Proof.
  intros Hx. pose proof (lookup_lt_Some _ _ _ Hx) as Hlt. rewrite (sum_with_delete f l i x Hx).
  rewrite (sum_with_delete f (<[i := y]> l) i y) by (by apply list_lookup_insert_eq).
  replace (delete i (<[i := y]> l)) with (delete i l); [lia|]. rewrite !delete_take_drop, take_insert_ge, drop_insert_lt by lia. done.
Qed.

Lemma sum_with_pos {A} (f : A -> nat) l : 0 < sum_list_with f l -> exists i x, l !! i = Some x /\ 0 < f x.
Proof.
  induction l as [|y l IH]; cbn; [lia|]. intros Hs. destruct (decide (0 < f y)) as [Hy|Hy]; [by exists 0, y|].
  destruct IH as (i & x & Hi & Hx); [lia|]. by exists (S i), x.
Qed.

Lemma sum_with_fmap {A B} (g : A -> B) (f : B -> nat) l : sum_list_with f (g <$> l) = sum_list_with (fun x => f (g x)) l.
Proof. induction l as [|x l IH]; cbn; [done|]. by rewrite IH. Qed.

Lemma to_egress_entries (a : Z) effs :
  Forall no_send effs -> sum_list_with (action_left true) effs + sum_list_with (action_left false) effs <= 2 * length effs /\
    (existsb (fun x => match x.2 with Submit _ _ => true | _ => false end) (pair a <$> effs) = false -> sum_list_with (action_left true) effs = 0).
Proof.
  induction 1 as [|eff effs He _ [IH1 IH2]]; [done|]. cbn [sum_list_with fmap list_fmap existsb length snd].
  destruct eff; cbn [action_left orb] in *; try done; split; try lia; intros Hx; try discriminate Hx; rewrite IH2; done.
Qed.

(** Handling a packet leaves less to do, of the same kind. *)
Lemma handle_left known a pkt effs :
  packet_ok known a pkt -> HandleQUICPacket pkt = Ret effs ->
  sum_list_with (action_left true) effs + sum_list_with (action_left false) effs < weight a pkt /\
  (to_egress a pkt = false -> sum_list_with (action_left true) effs = 0).
Proof.
  intros [[x Hx] _] Hh. unfold weight, to_egress, flight. rewrite Hx. rewrite transit_S, Hh in Hx. cbn [go_bind] in Hx.
  assert (Hvis : visits 3 a pkt = a :: match effs with [TunnelHandler.Send next pkt'] => visits 2 next pkt' | _ => [] end) by (cbn [visits]; rewrite Hh; done).
  rewrite Hvis. destruct (handler_effects pkt effs Hh) as [(next & pkt' & ->)|Hn%tasks_no_send].
  - pose proof (visits_more _ _ _ _ Hx) as Hv. apply transit_more in Hx. destruct x as [node effs]. cbn [sum_list_with action_left].
    unfold to_egress, weight, flight. rewrite Hx, Hv. cbn [length]. destruct (existsb _ (pair node <$> effs)); cbn [Bool.eqb]; split; try lia; done.
  - assert (Hx' : x = (a, effs)) by (destruct effs as [|[] [|]]; cbn in Hx; try (by injection Hx as <-); by apply Forall_cons_1 in Hn as [[] _]). subst x.
    destruct (to_egress_entries a effs Hn) as [H1 H2]. split; [|exact H2]. rewrite length_fmap. cbn [length]. lia.
Qed.

(** ** Deliveries in progress *)

(** No send in progress is to a client that has cleaned up since it was looked up. *)
Definition alive (d : Disagg.state) : Prop := Forall (fun x => Disagg.chan_closed d x.1 = false) (Disagg.inflight d).

Lemma alive_lookup d id data : Disagg.reachable d -> alive d -> alive (Disagg.Deliver_lookup d id data).
Proof.
  intros Hr Ha. unfold Disagg.Deliver_lookup. destruct (Disagg.waiters d !! id) as [ch|] eqn:Ew; [|done].
  apply Forall_cons. split; [|exact Ha]. cbn. unfold Disagg.chan_closed. cbn.
  by destruct (Disagg.inv_waiters _ (Disagg.inv_reachable _ Hr) _ _ Ew) as (_ & c & -> & ->).
Qed.

Lemma alive_send d ch m d' : alive d -> Disagg.send_step d ch m = Next d' -> alive d'.
Proof.
  intros Ha Hs. destruct (Disagg.send_step_Next _ _ _ _ Hs) as (_ & Hc & Hi & _). unfold alive in *. rewrite Hi in Ha. apply Forall_cons in Ha as [Hch Ha].
  unfold Disagg.send_step, Disagg.Deliver_send in Hs. unfold Disagg.chan_closed in *. cbn in Hch. repeat case_match; try done. injection Hs as <-. simplify_eq. cbn in *.
  eapply Forall_impl; [exact Ha|]. intros [ch' m'] Hx. cbn in *. rewrite lookup_insert. by case_decide.
Qed.

(** A send to a client that waits finds room, when no id is delivered twice. *)
Lemma send_ready d ch m :
  Disagg.reachable d -> Disagg.crashed d = false -> alive d -> NoDup (Disagg.taken d).*1 -> (ch, m) ∈ Disagg.inflight d -> exists d', Disagg.send_step d ch m = Next d'.
Proof.
  intros Hr Hcr Ha Hnd Hin. destruct m as [id data]. pose proof (Disagg.inv_reachable _ Hr) as Hinv.
  destruct (Disagg.inv_inflight _ Hinv _ _ _ Hin) as [[c Hc] Hown]. pose proof (proj1 (Forall_forall _ _) Ha _ Hin) as Hop.
  unfold Disagg.chan_closed in Hop. cbn in Hop. rewrite Hc in Hop. destruct (Disagg.open_live _ _ _ Hr Hc Hop) as [id0 Hl].
  destruct (WorkerPool.remove_first_elem _ _ Hin) as [rest Hrest]. unfold Disagg.send_step, Disagg.Deliver_send. rewrite Hrest, Hc, Hop.
  destruct (Disagg.content c) as [[id' data']|] eqn:Ec; [exfalso|cbn; rewrite Hcr; eauto].
  assert (id' = id) as -> by (rewrite <- (Hown id0 Hl); symmetry; by apply (Disagg.inv_content _ Hinv _ _ _ _ Hc Ec)).
  apply WorkerPool.remove_first_Perm in Hrest. destruct (Disagg.contents_at d ch c Hc) as (r & Hcon & _). unfold Disagg.taken in Hnd.
  rewrite Hrest, Hcon, Ec in Hnd. rewrite !fmap_app, !fmap_cons in Hnd. cbn in Hnd. apply NoDup_cons in Hnd as [Hnd _]. apply Hnd.
  apply elem_of_app. right. left.
Qed.

Section Drain.
Context `{IPv6Parser}.
Context (cfg : Config) (z : sizes) (addrs : list Z) (origin : BackSourceTask -> option bytes).
Context (cfg_good : cfg_ok cfg) (origin_ok : forall t, resp_ok t (origin t)).

Definition in_network (a : Z) : Prop := a ∈ addrs.

Record good (rs : list (string * SubPacket)) (l : bool) (ns : list proxy) : Prop := {
  go_balance : balance cfg in_network (request_ok in_network) rs l ns [];
  go_shape : shape <$> ns = shape <$> new_network z addrs;
  go_alive : Forall alive (disagg <$> ns);
  go_ids : NoDup (sub_id <$> rs)
}.

Definition all_known : forall r, request_ok in_network r -> request_ok in_network r := fun r Hr => Hr.

Definition can (Q : nevent -> Prop) (ns ns' : list proxy) : Prop :=
  exists evs, Forall (fun e => friendly origin e /\ Q e) evs /\ net_run cfg ns evs = Next ns'.

Lemma net_run_app ns evs1 evs2 ns1 : net_run cfg ns evs1 = Next ns1 -> net_run cfg ns (evs1 ++ evs2) = net_run cfg ns1 evs2.
Proof.
  revert ns. induction evs1 as [|e evs1 IH]; intros ns; cbn [net_run app]; [by intros [= ->]|].
  intros (ns2 & Hs & Hr)%obind_Next. rewrite Hs. cbn [obind]. by apply IH.
Qed.

Lemma can_refl Q ns : can Q ns ns.
Proof. by exists []. Qed.

Lemma can_trans Q ns1 ns2 ns3 : can Q ns1 ns2 -> can Q ns2 ns3 -> can Q ns1 ns3.
Proof. intros (l1 & H1 & R1) (l2 & H2 & R2). exists (l1 ++ l2). split; [by apply Forall_app|]. by rewrite (net_run_app _ _ _ _ R1). Qed.

Lemma can_step (Q : nevent -> Prop) ns e ns' : friendly origin e -> Q e -> net_step cfg ns e = Next ns' -> can Q ns ns'.
Proof. intros Hf Hq Hs. exists [e]. split; [by apply Forall_singleton|]. cbn [net_run]. by rewrite Hs. Qed.

Lemma can_weaken (Q Q' : nevent -> Prop) ns ns' : (forall e, Q e -> Q' e) -> can Q ns ns' -> can Q' ns ns'.
Proof. intros HQ (l & Hl & Hr). exists l. split; [|done]. eapply Forall_impl; [exact Hl|]. intros e [? ?]. auto. Qed.

Lemma friendly_ok e : friendly origin e -> nevent_ok (request_ok in_network) e.
Proof. destruct e as [i e|i e| | | |i proto t resp|]; cbn; try done; [by destruct e|by destruct e|by intros ->]. Qed.

Lemma friendly_silent evs : Forall (friendly origin) evs -> requests cfg evs = [] /\ existsb evicts evs = false.
Proof.
  unfold requests. induction 1 as [|e evs He _ [IH1 IH2]]; [done|]. cbn [mbind list_bind existsb] in *. rewrite IH1, IH2.
  destruct e as [i e|i e| | | | |]; cbn in He |- *; try done; by destruct e as [| |? []| | |].
Qed.

Lemma can_keeps {B} (Q : nevent -> Prop) (f : proxy -> B) :
  (forall ns e ns', friendly origin e -> Q e -> net_step cfg ns e = Next ns' -> f <$> ns' = f <$> ns) ->
  forall ns ns', can Q ns ns' -> f <$> ns' = f <$> ns.
Proof.
  intros Hstep ns ns' (evs & Hf & Hr). revert ns Hr. induction Hf as [|e evs [He Hq] _ IH]; intros ns; cbn [net_run]; [by intros [= <-]|].
  intros (ns1 & Hs & Hr)%obind_Next. rewrite (IH ns1 Hr). by eapply Hstep.
Qed.

Lemma set_back_disagg proto p b : disagg (set_back proto p b) = disagg p.
Proof. unfold set_back. by destruct (String.eqb proto "tcp"). Qed.

(** While the clients wait, the sends in progress stay possible. *)
Lemma friendly_alive rs l ns e ns' :
  balance cfg in_network (request_ok in_network) rs l ns [] -> friendly origin e -> net_step cfg ns e = Next ns' ->
  Forall alive (disagg <$> ns) -> Forall alive (disagg <$> ns').
Proof.
  intros Hb Hf Hs Ha. destruct (match e with Act _ _ _ => true | _ => false end) eqn:Ee.
  2: { replace (disagg <$> ns') with (disagg <$> ns); [done|]. symmetry. revert Hs. apply step_keeps; [done..| | | |].
       - by destruct e.
       - by destruct e.
       - intros p proto b b' _ _. apply set_back_disagg.
       - intros p pr b tk rs' p' _ (b' & _ & Hx)%obind_Next.
         destruct (answer (tk, rs')); [injection Hx as <-|apply obind_Next in Hx as (ag & _ & [= <-])]; exact (set_back_disagg pr p b'). }
  destruct e as [| | |i k ok| | |]; try done. cbn [net_step] in Hs. unfold with_proxy in Hs. destruct (ns !! i) as [p|] eqn:Hp; [|done]. cbn [mbind option_bind] in Hs.
  pose proof (Forall_lookup_1 _ _ _ _ (ba_ok _ _ _ _ _ _ _ Hb) Hp) as Hok. pose proof (po_disagg _ _ _ _ Hok) as [Hr _ _ _].
  assert (Hap : alive (disagg p)) by (apply (Forall_lookup_1 _ _ i _ Ha); by rewrite list_lookup_fmap, Hp).
  destruct (handlers p !! k) as [[[[ch m]|] [|eff rest]]|]; try done.
  1, 2: apply obind_Next in Hs as (p' & (d & Hd & [= <-])%obind_Next & [= <-]); rewrite list_fmap_insert; apply Forall_insert; [done|]; by eapply alive_send.
  apply obind_Next in Hs as (ns1 & (p' & Hpe & [= <-])%obind_Next & Hfw). rewrite (forward_keeps disagg eff ok i _ ns' ltac:(done) ltac:(by right) Hfw).
  rewrite list_fmap_insert. apply Forall_insert; [done|]. destruct eff as [proto t|next pkt|id data]; cbn [perform] in Hpe.
  - destruct (back_of proto p); [|done]. apply obind_Next in Hpe as (b' & _ & [= <-]). change (alive (disagg (set_back proto p b'))). by rewrite set_back_disagg.
  - by injection Hpe as <-.
  - injection Hpe as <-. cbn. by apply alive_lookup.
Qed.

Lemma step_stays_good rs l ns e ns' : good rs l ns -> friendly origin e -> net_step cfg ns e = Next ns' -> good rs l ns'.
Proof.
  intros [Hb Hsh Ha Hi] Hf Hs. pose proof (proj2 (step_good cfg in_network _ all_known rs l ns e cfg_good Hb (friendly_ok e Hf)) ns' Hs) as Hx.
  destruct (friendly_silent [e]) as [Hq He]; [by apply Forall_singleton|]. rewrite Hq, app_nil_r in Hx. cbn [existsb] in He. rewrite orb_false_r in He.
  rewrite He, andb_true_r in Hx. constructor; [done|rewrite <- Hsh; by eapply step_shape|exact (friendly_alive rs l ns e ns' Hb Hf Hs Ha)|done].
Qed.

Lemma can_good Q rs l ns ns' : good rs l ns -> can Q ns ns' -> good rs l ns'.
Proof.
  intros Hg (evs & Hf & Hr). revert ns Hg Hr. induction Hf as [|e evs [He _] _ IH]; intros ns Hg; cbn [net_run]; [by intros [= <-]|].
  intros (ns1 & Hs & Hr)%obind_Next. apply (IH ns1); [by eapply step_stays_good|done].
Qed.

(** ** Stages *)

Definition left (req : bool) (ns : list proxy) : nat := sum_list_with (packets_left req) ns.
Definition tasks_of (ns : list proxy) : nat := sum_list_with tasks_left ns.

Definition rest (a : aggregator) : Prop := inputChan a = [] /\ owes cfg a = [].

Lemma sum_keeps {A} (f : A -> nat) l l' : f <$> l' = f <$> l -> sum_list_with f l' = sum_list_with f l.
Proof. intros Hf. pose proof (sum_with_fmap f (fun n => n) l) as H1. pose proof (sum_with_fmap f (fun n => n) l') as H2. rewrite Hf in H2. exact (eq_trans (eq_sym H2) H1). Qed.

Lemma good_addr rs l ns : good rs l ns -> addr <$> ns = addrs.
Proof.
  intros [_ Hsh _ _]. assert (Hx : (fst ∘ fst ∘ shape) <$> ns = (fst ∘ fst ∘ shape) <$> new_network z addrs) by (rewrite !list_fmap_compose; by rewrite Hsh).
  change (fst ∘ fst ∘ shape) with addr in Hx. rewrite Hx. unfold new_network. rewrite <- list_fmap_compose. apply list_fmap_id.
Qed.

Lemma good_length rs l ns ns' : good rs l ns -> good rs l ns' -> length ns' = length ns.
Proof. intros H1%good_addr H2%good_addr. apply (f_equal length) in H1, H2. rewrite length_fmap in *. lia. Qed.

Lemma deliver_enabled ns node pkt :
  addr <$> ns = addrs -> in_network node ->
  exists j p, ns !! j = Some p /\ addr p = node /\ deliver_packet ns node pkt = Next (<[j := set_streams p (streams p ++ [pkt])]> ns).
Proof.
  intros Ha Hn. unfold in_network in Hn. rewrite <- Ha in Hn. apply list_elem_of_fmap in Hn as (p0 & -> & Hp0).
  destruct (list_find_elem_of (fun p => addr p = addr p0) ns p0 Hp0 eq_refl) as [[j p] Hf]. unfold deliver_packet.
  rewrite Hf. apply list_find_Some in Hf as (Hj & Haddr & _). by exists j, p.
Qed.

Lemma deliver_left req ns j p pkt :
  ns !! j = Some p -> left req (<[j := set_streams p (streams p ++ [pkt])]> ns) = left req ns + stream_left req (addr p) pkt.
Proof.
  intros Hj. pose proof (sum_with_insert (packets_left req) ns j p (set_streams p (streams p ++ [pkt])) Hj) as Hs. unfold left.
  unfold packets_left in Hs at 2 4. cbn [streams handlers addr set_streams] in Hs. rewrite sum_with_app in Hs. cbn [sum_list_with] in Hs. lia.
Qed.

Lemma packet_known node pkt : packet_ok in_network node pkt -> in_network node.
Proof. intros [_ Hv]. cbn [visits] in Hv. by apply Forall_cons_1 in Hv as [? _]. Qed.

(** *** Aggregators *)

(** The request aggregator, or the response aggregator. *)
Definition agg_of (side : bool) (p : proxy) : aggregator := if side then reqs p else resps p.
Definition set_agg (side : bool) (p : proxy) (a : aggregator) : proxy := if side then set_reqs p a else set_resps p a.
Definition agg_event (side : bool) (i : nat) (e : pevent) : nevent := if side then Req i e else Resp i e.

Lemma agg_step side ns i e :
  benign e = true ->
  net_step cfg ns (agg_event side i e) = (let? ns' := with_proxy ns i (fun p => let? a := pool_step cfg (agg_of side p) e in Next (set_agg side p a)) in landing e ns').
Proof. destruct side; [done|]. intros Hb. apply resp_step. by destruct e. Qed.

(** A packet that the aggregator sends can be delivered; one of the response aggregator carries no request. *)
Lemma launched_ok side rs l ns i p e a s :
  good rs l ns -> ns !! i = Some p -> benign e = true -> pool_step cfg (agg_of side p) e = Next a -> s ∈ launched e ->
  packet_ok in_network (be (s_next s)) (s_p s) /\ (side = false -> to_egress (be (s_next s)) (s_p s) = false).
Proof.
  intros [Hb _ _ _] Hp Hbe Hs Hin. pose proof (Forall_lookup_1 _ _ _ _ (ba_ok _ _ _ _ _ _ _ Hb) Hp) as Hok.
  assert (He : pevent_ok e) by (by destruct e). assert (Hsent : s ∈ sent a) by (rewrite (pool_step_sent _ _ _ _ Hs); apply elem_of_app; by right).
  destruct side; cbn [agg_of] in Hs.
  - assert (Hon : pevent_on (request_ok in_network) e) by (by destruct e). split; [|done].
    pose proof (req_local cfg in_network _ all_known p e a cfg_good Hok He Hon Hs) as Hlo.
    eapply (headers_transit in_network (request_ok in_network) _ egress request_effect a);
      [apply request_lands|apply (request_link_known in_network _ all_known)|apply (po_req_headers _ _ _ _ (lo_ok _ _ _ _ _ _ _ _ Hlo))|done].
  - pose proof (resp_local cfg in_network _ p e a cfg_good Hok He ltac:(by destruct e) Hs) as Hlo.
    pose proof (po_resp_headers _ _ _ _ (lo_ok _ _ _ _ _ _ _ _ Hlo)) as Hh. cbn [resps set_resps] in Hh.
    split; [eapply (headers_transit in_network (response_ok in_network) _ ingress_back response_effect a); [apply response_lands|apply response_link_ok|done..]|]. intros _.
    destruct Hh as [_ _ Hh]. apply Forall_app in Hh as [Hh _]. rewrite Forall_forall in Hh.
    destruct (packet_lands in_network (response_ok in_network) _ ingress_back response_effect s (response_lands in_network) (response_link_ok in_network) (Hh s Hsent)) as (_ & Hl).
    unfold to_egress. fold (landed s). induction Hl as [|x ks l1 l2 (r & _ & ->) _ IH]; [done|]. exact IH.
Qed.

Definition frame (side : bool) (ns ns' : list proxy) : Prop := side = false -> left true ns' = left true ns /\ tasks_of ns' = tasks_of ns.

Lemma agg_event_lift side rs l ns i p e a :
  good rs l ns -> ns !! i = Some p -> benign e = true -> pool_step cfg (agg_of side p) e = Next a ->
  exists ns', net_step cfg ns (agg_event side i e) = Next ns' /\ agg_of side <$> ns' = <[i := a]> (agg_of side <$> ns) /\ frame side ns ns'.
Proof.
  intros Hg Hp Hbe Hs. rewrite agg_step by done. unfold with_proxy. rewrite Hp, Hs. cbn [obind]. set (ns0 := <[i := set_agg side p a]> ns).
  assert (H0 : agg_of side <$> ns0 = <[i := a]> (agg_of side <$> ns)) by (unfold ns0; rewrite list_fmap_insert; by destruct side).
  assert (Hl0 : forall req, left req ns0 = left req ns) by (intros req; apply sum_keeps; eapply fmap_insert_same; [exact Hp|by destruct side]).
  assert (Ht0 : tasks_of ns0 = tasks_of ns) by (apply sum_keeps; eapply fmap_insert_same; [exact Hp|by destruct side]).
  assert (Ha0 : addr <$> ns0 = addrs) by (rewrite <- (good_addr _ _ _ Hg); eapply fmap_insert_same; [exact Hp|by destruct side]).
  destruct (launched e) as [|s r] eqn:El.
  - exists ns0. split; [by destruct e as [| | | | |? ? []]|]. split; [done|]. intros _. by rewrite Hl0, Ht0.
  - destruct (launched_ok side rs l ns i p e a s Hg Hp Hbe Hs ltac:(rewrite El; left)) as [Hok Hto].
    assert (He : landing e ns0 = deliver_packet ns0 (be (s_next s)) (s_p s)) by (destruct e as [| | | | |? ? []]; try done; by injection El as -> _).
    rewrite He. destruct (deliver_enabled ns0 _ (s_p s) Ha0 (packet_known _ _ Hok)) as (j & q & Hj & Hq & Hd). rewrite Hd.
    eexists. split; [done|]. split; [rewrite <- H0; eapply fmap_insert_same; [exact Hj|by destruct side]|].
    intros Hside. rewrite deliver_left, Hl0 by done. split.
    + unfold stream_left. rewrite Hq, (Hto Hside). cbn. lia.
    + rewrite <- Ht0. apply sum_keeps. by eapply fmap_insert_same.
Qed.

Definition may (side : bool) : nevent -> Prop := if side then fun _ => True else not_request.

Lemma agg_lift side rs l ns i p evs a :
  good rs l ns -> ns !! i = Some p -> Forall (fun e => benign e = true) evs -> pool_run cfg (agg_of side p) evs = Next a ->
  exists ns', can (may side) ns ns' /\ agg_of side <$> ns' = <[i := a]> (agg_of side <$> ns) /\ frame side ns ns'.
Proof.
  intros Hg Hp Hb. revert ns p Hg Hp. induction Hb as [|e evs He _ IH]; intros ns p Hg Hp; cbn [pool_run].
  { intros [= <-]. exists ns. split; [apply can_refl|]. split; [|done]. by rewrite list_insert_id by (by rewrite list_lookup_fmap, Hp). }
  destruct (pool_step cfg (agg_of side p) e) as [a1| |] eqn:Es; [|done..]. intros Hr.
  destruct (agg_event_lift side rs l ns i p e a1 Hg Hp He Es) as (ns1 & Hs1 & Ha1 & Hf1).
  assert (Hc1 : can (may side) ns ns1) by (apply (can_step (may side) ns (agg_event side i e)); [by destruct side|by destruct side|exact Hs1]).
  assert (Hi : (agg_of side <$> ns1) !! i = Some a1) by (rewrite Ha1; apply list_lookup_insert_eq; rewrite length_fmap; by eapply lookup_lt_Some).
  rewrite list_lookup_fmap in Hi. destruct (ns1 !! i) as [p1|] eqn:Hp1; [|done]. injection Hi as Hi. rewrite <- Hi in Hr.
  destruct (IH ns1 p1 (can_good _ _ _ _ _ Hg Hc1) Hp1 Hr) as (ns' & Hc & Ha & Hf). exists ns'. split; [by eapply can_trans|].
  split; [by rewrite Ha, Ha1, list_insert_insert_eq|]. intros Hside. destruct (Hf Hside) as [-> ->]. by apply Hf1.
Qed.

Lemma shape_sizes rs l ns i p : good rs l ns -> ns !! i = Some p -> exists a, shape p = shape (new_proxy z a).
Proof.
  intros [_ Hsh _ _] Hp. assert (Hi : (shape <$> ns) !! i = Some (shape p)) by (by rewrite list_lookup_fmap, Hp).
  rewrite Hsh in Hi. unfold new_network in Hi. rewrite <- list_fmap_compose, list_lookup_fmap in Hi. destruct (addrs !! i) as [a|]; [|done]. apply (inj Some) in Hi. by exists a.
Qed.

Lemma or_eight_pos n : 0 < or_eight n.
Proof. unfold or_eight. destruct (Z.leb_spec n 0); lia. Qed.

(** The aggregators of the first [k] proxies can be emptied. *)
Lemma drain_aggs side rs l ns k :
  good rs l ns -> k <= length ns ->
  exists ns', can (may side) ns ns' /\ Forall rest (take k (agg_of side <$> ns')) /\ frame side ns ns'.
Proof.
  intros Hg. induction k as [|k IH]; intros Hk; [exists ns; split_and!; [apply can_refl|done|done]|].
  destruct IH as (ns1 & Hc1 & Hr1 & Hf1); [lia|]. pose proof (can_good _ _ _ _ _ Hg Hc1) as Hg1.
  pose proof (good_length _ _ _ _ Hg Hg1) as Hlen.
  destruct (lookup_lt_is_Some_2 ns1 k ltac:(lia)) as [p Hp]. destruct (shape_sizes _ _ _ _ _ Hg1 Hp) as [ad Hsz]. unfold shape in Hsz. injection Hsz as _ S1 S2 S3 S4 _ _ _ _.
  pose proof (Forall_lookup_1 _ _ _ _ (ba_ok _ _ _ _ _ _ _ (go_balance _ _ _ Hg1)) Hp) as [Ha Ha' _ _ _ _ _ _ _ _].
  destruct (drains cfg (agg_of side p) cfg_good) as (a & (evs & Hb & Hr) & Ho & _ & Hin).
  { by destruct side. }
  { destruct side; cbn [agg_of]; [rewrite S1|rewrite S3]; apply or_eight_pos. }
  { destruct side; cbn [agg_of]; [rewrite S2|rewrite S4]; cbn; rewrite length_replicate; apply or_eight_pos. }
  destruct (agg_lift side rs l ns1 k p evs a Hg1 Hp Hb Hr) as (ns2 & Hc2 & Ha2 & Hf2). exists ns2. split_and!; [by eapply can_trans| |].
  - rewrite Ha2, (take_S_r _ k a) by (apply list_lookup_insert_eq; rewrite length_fmap; lia). rewrite take_insert_ge by lia. apply Forall_app. split; [done|]. by apply Forall_singleton.
  - intros Hside. destruct (Hf2 Hside) as [-> ->]. by apply Hf1.
Qed.

(** *** Tasks *)

Lemma set_back_left req proto p b : packets_left req (set_back proto p b) = packets_left req p /\ resps (set_back proto p b) = resps p.
Proof. unfold set_back. by case_match. Qed.

(** A back-sourcer with work, and what finishing some of it does to the proxy. *)
Lemma busy_back rs l ns i p :
  good rs l ns -> ns !! i = Some p -> 0 < tasks_left p ->
  exists proto b, back_of proto p = Some b /\ 0 < size (workers b) /\ 0 < work_left (workers b) /\
    forall b', S (work_left (workers b')) = work_left (workers b) -> S (tasks_left (set_back proto p b')) = tasks_left p.
Proof.
  intros Hg Hp Hpos. destruct (shape_sizes _ _ _ _ _ Hg Hp) as [ad Hsz]. unfold shape in Hsz. injection Hsz as _ _ _ _ _ S5 S6 _ _.
  assert (Hsize : 0 < size (workers (NewBackSourcer (BackWorkerCount z)))) by (cbn; unfold backWorkerCount; destruct (Z.leb_spec (BackWorkerCount z) 0); lia).
  unfold tasks_left in *. destruct (decide (0 < work_left (workers (tcp p)))) as [Ht|Ht].
  - exists "tcp", (tcp p). split_and!; [done|by rewrite S5|done|]. intros b' Hb'. unfold set_back. change (String.eqb "tcp" "tcp") with true. cbn [tcp udp]. lia.
  - exists "udp", (udp p). split_and!; [done|by rewrite S6|lia|]. intros b' Hb'. unfold set_back. change (String.eqb "udp" "tcp") with false. cbn [tcp udp]. lia.
Qed.

Lemma task_step rs l ns :
  good rs l ns -> Forall rest (resps <$> ns) -> 0 < tasks_of ns ->
  exists ns', can not_request ns ns' /\ left true ns' = left true ns /\ tasks_of ns' < tasks_of ns.
Proof.
  intros Hg Hrest Hpos. destruct (sum_with_pos _ _ Hpos) as (i & p & Hp & Hpp). destruct (busy_back rs l ns i p Hg Hp Hpp) as (proto & b & Hb & Hsz & Hw & Hless).
  assert (Hdone : forall e p', friendly origin e -> not_request e -> net_step cfg ns e = Next (<[i := p']> ns) ->
    packets_left true p' = packets_left true p -> S (tasks_left p') = tasks_left p ->
    exists ns', can not_request ns ns' /\ left true ns' = left true ns /\ tasks_of ns' < tasks_of ns).
  { intros e p' Hf Hn Hs Hl Ht. exists (<[i := p']> ns). split; [by eapply can_step|]. split; [apply sum_keeps; by eapply fmap_insert_same|].
    pose proof (sum_with_insert tasks_left ns i p p' Hp). unfold tasks_of. lia. }
  destruct (fire_progress (workers b) Hsz Hw) as (o & q & Ho & Hf). pose proof (fire_work _ _ _ Hf Ho) as Hwork. destruct Ho as [->|[t ->]].
  - set (b' := mkBS q (outcomes b ++ []) (responses b ++ [])). eapply (Hdone (Take i proto) (set_back proto p b')); [done|done| |apply set_back_left|by apply Hless].
    cbn [net_step]. unfold with_back, with_proxy. rewrite Hp, Hb. cbn [back_step]. by rewrite Hf.
  - assert (Ht : task_ok in_network t).
    { eapply (tasks_ok cfg in_network _ all_known rs l ns i p proto b t (go_balance _ _ _ Hg) Hp Hb). cbn [fire] in Hf. destruct (remove_first t (running (workers b))) as [r|] eqn:Er; [|done].
      apply remove_first_Perm in Er. unfold tasks. rewrite Er, !elem_of_app, elem_of_cons. tauto. }
    pose proof (answer_no_panic in_network t (origin t) Ht) as Hnp. destruct (doOriginRequest t (origin t)) as [m|] eqn:Eo; [|done].
    set (b' := mkBS q (outcomes b ++ [(t, origin t)]) (responses b ++ option_list m)).
    assert (Hbs : back_step b (Finish t (origin t)) = Next b') by (cbn [back_step]; by rewrite Hf, Eo).
    assert (Hans : answer (t, origin t) = option_list m) by (unfold answer; cbn [fst snd]; rewrite Eo; by destruct m).
    assert (Hin : inputChan (resps p) = []).
    { rewrite Forall_fmap, Forall_forall in Hrest. apply (Hrest p). by eapply list_elem_of_lookup_2. }
    destruct m as [msg|]; cbn [option_list] in Hans.
    + set (a := mkAggregator [msg] (nodes (resps p)) (sendCap (resps p)) (sent (resps p)) (failed (resps p))).
      eapply (Hdone (Answer i proto t (origin t)) (set_resps (set_back proto p b') a)); [done|done| |apply (set_back_left true proto p b')|by apply (Hless b')].
      cbn [net_step]. unfold with_back, with_proxy. rewrite Hp, Hb. unfold finish. rewrite Hbs, Hans. cbn [obind pool_step]. by rewrite Hin.
    + eapply (Hdone (Answer i proto t (origin t)) (set_back proto p b')); [done|done| |apply (set_back_left true proto p b')|by apply (Hless b')].
      cbn [net_step]. unfold with_back, with_proxy. rewrite Hp, Hb. unfold finish. by rewrite Hbs, Hans.
Qed.

(** The tasks can be finished, with the response aggregators emptied before each. *)
Lemma drain_tasks rs l ns :
  good rs l ns -> exists ns', can not_request ns ns' /\ Forall rest (resps <$> ns') /\ tasks_of ns' = 0 /\ left true ns' = left true ns.
Proof.
  remember (tasks_of ns) as n eqn:Hn. revert ns Hn. induction (lt_wf n) as [n _ IH]. intros ns Hn Hg.
  destruct (drain_aggs false rs l ns (length ns) Hg ltac:(done)) as (ns1 & Hc1 & Hr1 & Hf1). destruct (Hf1 eq_refl) as [Hl1 Ht1].
  pose proof (can_good _ _ _ _ _ Hg Hc1) as Hg1.
  pose proof (good_length _ _ _ _ Hg Hg1) as Hlen.
  rewrite <- Hlen in Hr1. rewrite <- (length_fmap (agg_of false)) in Hr1. rewrite firstn_all in Hr1. change (agg_of false <$> ns1) with (resps <$> ns1) in Hr1.
  destruct (decide (0 < tasks_of ns1)) as [Hpos|Hpos]; [|exists ns1; split_and!; [done|done|lia|done]].
  destruct (task_step rs l ns1 Hg1 Hr1 Hpos) as (ns2 & Hc2 & Hl2 & Ht2).
  destruct (IH (tasks_of ns2) ltac:(lia) ns2 eq_refl (can_good _ _ _ _ _ Hg1 Hc2)) as (ns3 & Hc3 & Hr3 & Ht3 & Hl3).
  exists ns3. split_and!; [|done|done|congruence]. eapply can_trans; [exact Hc1|]. by eapply can_trans.
Qed.

(** *** Packets *)

Lemma receive_enabled rs l ns i p k pkt :
  good rs l ns -> ns !! i = Some p -> streams p !! k = Some pkt ->
  exists ns' effs, net_step cfg ns (Receive i k) = Next ns' /\ HandleQUICPacket pkt = Ret effs /\ packet_ok in_network (addr p) pkt /\
    (forall r, left r ns' + stream_left r (addr p) pkt = left r ns + sum_list_with (action_left r) effs) /\
    tasks_of ns' = tasks_of ns /\ resps <$> ns' = resps <$> ns.
Proof.
  intros Hg Hp Hk. pose proof (Forall_lookup_1 _ _ _ _ (ba_ok _ _ _ _ _ _ _ (go_balance _ _ _ Hg)) Hp) as Hok.
  pose proof (Forall_lookup_1 _ _ _ _ (po_streams _ _ _ _ Hok) Hk) as Hpk. destruct (handle_flight _ _ _ Hpk) as (effs & Hh & _ & _).
  set (p' := set_handlers (set_streams p (delete k (streams p))) (handlers p ++ [mkHandler None effs])). exists (<[i := p']> ns), effs. split_and!; try done.
  - cbn [net_step]. unfold with_proxy, receive_packet. by rewrite Hp, Hk, Hh.
  - intros r. pose proof (sum_with_insert (packets_left r) ns i p p' Hp) as Hs. unfold left. pose proof (sum_with_delete (stream_left r (addr p)) _ _ _ Hk) as Hd.
    unfold packets_left in Hs at 2 4. unfold p' in Hs at 2 3 4. cbn [streams handlers addr set_streams set_handlers] in Hs. rewrite sum_with_app in Hs. cbn [sum_list_with] in Hs.
    assert (Hh0 : handler_left r (mkHandler None effs) = sum_list_with (action_left r) effs) by (unfold handler_left; cbn [todo pending]; destruct r; lia).
    rewrite Hh0 in Hs. lia.
  - apply sum_keeps. by eapply fmap_insert_same.
  - by eapply fmap_insert_same.
Qed.

Lemma handler_step req p k h h' :
  handlers p !! k = Some h -> packets_left req (set_handler p k h') + handler_left req h = packets_left req p + handler_left req h'.
Proof.
  intros Hk. unfold packets_left. cbn [streams handlers addr set_handler set_handlers].
  pose proof (sum_with_insert (handler_left req) (handlers p) k h h' Hk). lia.
Qed.

(** With no tasks a submission finds room; the other actions only change what the proxy has to do. *)
Lemma perform_enabled rs l ns i p k eff rest :
  good rs l ns -> ns !! i = Some p -> handlers p !! k = Some (mkHandler None (eff :: rest)) -> (is_task eff = true -> tasks_of ns = 0) ->
  exists p', perform p k eff rest = Next p' /\ resps p' = resps p /\ addr p' = addr p /\
    (forall r, packets_left r p' + action_left r eff <= packets_left r p + (if is_task eff then 0 else if r then 0 else match eff with Deliver _ _ => 1 | _ => 0 end)) /\
    (is_task eff = false -> tasks_left p' = tasks_left p).
Proof.
  intros Hg Hp Hk Htask.
  assert (Hq : forall r o, packets_left r (set_handler p k (mkHandler o rest)) + action_left r eff = packets_left r p + (if r then 0 else if o then 1 else 0)).
  { intros r o. pose proof (handler_step r p k _ (mkHandler o rest) Hk) as Hx. unfold handler_left in Hx. cbn [todo pending sum_list_with] in Hx. destruct r; lia. }
  destruct eff as [proto t|next pkt|id d]; cbn [is_task] in *.
  - pose proof (act_good cfg in_network _ all_known rs l ns i k true (go_balance _ _ _ Hg)) as [Hrace _].
    assert (Hnp : net_step cfg ns (Act i k true) <> Panics) by (intros Hx%Hrace; cbn [net_races] in Hx; by rewrite Hp, Hk in Hx).
    clear Hrace. cbn [net_step] in Hnp. unfold with_proxy in Hnp.
    rewrite Hp in Hnp. cbn [mbind option_bind] in Hnp. rewrite Hk in Hnp. cbn [perform] in Hnp |- *.
    destruct (back_of proto p) as [b|] eqn:Eb; [|done].
    assert (Hroom : back_step b (SubmitTask t) <> Blocked).
    { destruct (shape_sizes _ _ _ _ _ Hg Hp) as [ad Hsz]. unfold shape in Hsz. injection Hsz as _ _ _ _ _ _ _ C1 C2.
      assert (Hzero : tasks_left p = 0).
      { specialize (Htask eq_refl). destruct (decide (0 < tasks_left p)) as [Hpos|]; [|lia].
        pose proof (sum_with_delete tasks_left ns i p Hp). unfold tasks_of in Htask. lia. }
      assert (Hb : queue (workers b) = [] /\ cap (workers b) = taskQueueSize).
      { unfold tasks_left, work_left in Hzero. unfold back_of in Eb. destruct (String.eqb proto "tcp"); [|destruct (String.eqb proto "udp"); [|done]]; injection Eb as <-;
          (split; [apply nil_length_inv; lia|]); [by rewrite C1|by rewrite C2]. }
      destruct Hb as [Hb1 Hb2]. cbn [back_step fire]. rewrite Hb1, Hb2. cbn. by case_match. }
    destruct (back_step b (SubmitTask t)) as [b'| |]; [|done|done]. cbn [obind]. rewrite set_handler_back. eexists. split; [done|].
    destruct (set_back_left true proto (set_handler p k (mkHandler None rest)) b') as [_ ->]. split; [done|]. split; [unfold set_back; by destruct (String.eqb proto "tcp")|].
    split; [|done]. intros r. rewrite (proj1 (set_back_left r proto _ b')). specialize (Hq r None). destruct r; lia.
  - eexists. split; [done|]. split_and!; [done|done| |done]. intros r. specialize (Hq r None). destruct r; lia.
  - eexists. split; [done|]. split_and!; [done|done| |done]. intros r.
    specialize (Hq r ((fun ch => (ch, (id, d))) <$> Disagg.waiters (disagg p) !! id)). unfold packets_left in *.
    cbn [streams handlers addr set_handler set_handlers set_disagg add_delivered] in *. destruct r; [lia|]. destruct (Disagg.waiters (disagg p) !! id); cbn [fmap option_fmap option_map] in *; lia.
Qed.

(** The send to the client of a delivery in progress. *)
Lemma send_enabled rs l ns i p k ch m rest :
  good rs l ns -> ns !! i = Some p -> handlers p !! k = Some (mkHandler (Some (ch, m)) rest) ->
  exists ns', net_step cfg ns (Act i k true) = Next ns' /\ resps <$> ns' = resps <$> ns /\ tasks_of ns' = tasks_of ns /\
    left true ns' = left true ns /\ S (left false ns') = left false ns.
Proof.
  intros Hg Hp Hk. pose proof Hg as [Hb _ Ha Hi]. pose proof (Forall_lookup_1 _ _ _ _ (ba_ok _ _ _ _ _ _ _ Hb) Hp) as Hok.
  pose proof (po_disagg _ _ _ _ Hok) as [Hr Hc Hin Ht]. assert (Hpin : p ∈ ns) by (by eapply list_elem_of_lookup_2).
  destruct (send_ready (disagg p) ch m Hr Hc) as [d Hd].
  { apply (Forall_lookup_1 _ _ i _ Ha). by rewrite list_lookup_fmap, Hp. }
  { eapply submseteq_NoDup; [|exact Hi]. etransitivity; [by apply fmap_submseteq, Ht|]. etransitivity; [by eapply calls_ids|].
    by eapply (delivered_ids cfg in_network _ all_known). }
  { rewrite <- Hin. apply list_elem_of_omap. eexists. split; [by eapply list_elem_of_lookup_2|done]. }
  set (p' := set_handler (set_disagg p d) k (mkHandler None rest)). exists (<[i := p']> ns).
  assert (Hl : forall r, packets_left r p' + (if r then 0 else 1) = packets_left r p).
  { intros r. pose proof (handler_step r p k _ (mkHandler None rest) Hk) as Hx. unfold handler_left in Hx. cbn [todo pending] in Hx.
    change (packets_left r p') with (packets_left r (set_handler p k (mkHandler None rest))). destruct r; lia. }
  split_and!.
  - cbn [net_step]. unfold with_proxy. rewrite Hp. cbn [mbind option_bind]. rewrite Hk. unfold send_waiter. by rewrite Hd.
  - by eapply fmap_insert_same.
  - apply sum_keeps. by eapply fmap_insert_same.
  - pose proof (sum_with_insert (packets_left true) ns i p p' Hp) as Hx. specialize (Hl true). cbn beta iota in Hl. unfold left. lia.
  - pose proof (sum_with_insert (packets_left false) ns i p p' Hp) as Hx. specialize (Hl false). cbn beta iota in Hl. unfold left. lia.
Qed.

Definition after_act (req : bool) (eff : effect) : nat :=
  match eff with TunnelHandler.Send next pkt => stream_left req next pkt | Deliver _ _ => if req then 0 else 1 | Submit _ _ => 0 end.

Lemma act_enabled rs l ns i p k eff rest :
  good rs l ns -> ns !! i = Some p -> handlers p !! k = Some (mkHandler None (eff :: rest)) -> (is_task eff = true -> tasks_of ns = 0) ->
  exists ns', net_step cfg ns (Act i k true) = Next ns' /\ resps <$> ns' = resps <$> ns /\
    (forall r, left r ns' + action_left r eff <= left r ns + after_act r eff) /\ (is_task eff = false -> tasks_of ns' = tasks_of ns).
Proof.
  intros Hg Hp Hk Htask. destruct (perform_enabled rs l ns i p k eff rest Hg Hp Hk Htask) as (p' & Hpe & Hre & Had & Hle & Hta).
  pose proof (Forall_lookup_1 _ _ _ _ (ba_ok _ _ _ _ _ _ _ (go_balance _ _ _ Hg)) Hp) as Hok.
  destruct (handler_rest _ _ _ (Forall_lookup_1 _ _ _ _ (po_handlers _ _ _ _ Hok) Hk)) as (Hact & _ & _).
  cbn [net_step]. unfold with_proxy. rewrite Hp. cbn [mbind option_bind]. rewrite Hk, Hpe. cbn [obind]. set (ns0 := <[i := p']> ns).
  assert (Hl0 : forall r, left r ns0 + packets_left r p = left r ns + packets_left r p').
  { intros r. pose proof (sum_with_insert (packets_left r) ns i p p' Hp) as Hs. unfold left, ns0. lia. }
  assert (Hr0 : resps <$> ns0 = resps <$> ns) by (by eapply fmap_insert_same).
  assert (Ht0 : is_task eff = false -> tasks_of ns0 = tasks_of ns) by (intros Hf; apply sum_keeps; eapply fmap_insert_same; [exact Hp|by apply Hta]).
  assert (Ha0 : addr <$> ns0 = addrs) by (rewrite <- (good_addr _ _ _ Hg); by eapply fmap_insert_same).
  destruct eff as [proto t|next pkt|id d]; cbn [forward after_act is_task] in *.
  - exists ns0. split_and!; [done|done| |done]. intros r. specialize (Hl0 r). specialize (Hle r). lia.
  - destruct (deliver_enabled ns0 next pkt Ha0 (packet_known _ _ Hact)) as (j & q & Hj & Hq & ->). eexists. split; [done|].
    split; [rewrite <- Hr0; by eapply fmap_insert_same|]. split.
    + intros r. rewrite deliver_left, Hq by done. specialize (Hl0 r). specialize (Hle r). destruct r; lia.
    + intros Hf. rewrite <- (Ht0 Hf). apply sum_keeps. by eapply fmap_insert_same.
  - exists ns0. split_and!; [done|done| |done]. intros r. specialize (Hl0 r). specialize (Hle r). lia.
Qed.

(** A handler that has something of one kind to do does something of that kind next. *)
Lemma handler_next req h :
  handler_ok in_network h -> 0 < handler_left req h -> (req = false -> handler_left true h = 0) ->
  (req = false /\ exists ch m rest, h = mkHandler (Some (ch, m)) rest) \/ exists eff rest, h = mkHandler None (eff :: rest) /\ 0 < action_left req eff /\ (is_task eff = true -> req = true).
Proof.
  intros [_ Hk] Hpos Hother. destruct h as [o tl]. unfold handler_left in *. cbn [todo pending] in *. destruct o as [[ch m]|].
  - left. destruct req; [exfalso|by eauto]. destruct Hk as [Hk|[? _]]; [|done]. assert (Hz : sum_list_with (action_left true) tl = 0); [|lia].
    clear Hpos Hother. induction Hk as [|eff tl He _ IH]; [done|]. cbn. rewrite IH. by destruct eff.
  - right. destruct tl as [|eff tl]; [cbn in Hpos; destruct req; lia|]. exists eff, tl. split; [done|].
    destruct Hk as [Hk|[_ [Hk|(next & pkt & [= -> ->])]]].
    + assert (Hz : sum_list_with (action_left true) (eff :: tl) = 0) by (clear Hpos Hother; induction Hk as [|e0 tl0 He _ IH]; [done|]; cbn; rewrite IH; by destruct e0).
      apply Forall_cons_1 in Hk as [He _]. destruct req; [lia|]. destruct eff; try done. cbn. split; [lia|done].
    + apply Forall_cons_1 in Hk as [He Hk]. destruct eff; try done. destruct req; [cbn; split; [lia|done]|]. specialize (Hother eq_refl). cbn in Hother. lia.
    + cbn [sum_list_with] in *. split; [destruct req; lia|done].
Qed.

Lemma after_act_less r eff : after_act r eff <= action_left r eff /\ (0 < action_left r eff -> after_act r eff < action_left r eff).
Proof. destruct eff as [|next pkt|]; cbn [after_act action_left]; [lia| |destruct r; lia]. unfold stream_left. destruct (Bool.eqb (to_egress next pkt) r); lia. Qed.

(** Something can be done about the packets of one kind. *)
Lemma packet_step req rs l ns :
  good rs l ns -> (req = true -> tasks_of ns = 0) -> (req = false -> left true ns = 0) -> 0 < left req ns ->
  exists ns', can not_request ns ns' /\ left req ns' < left req ns /\
    (req = false -> left true ns' = 0 /\ tasks_of ns' = tasks_of ns /\ resps <$> ns' = resps <$> ns).
Proof.
  intros Hg Htasks Hnone Hpos. destruct (sum_with_pos _ _ Hpos) as (i & p & Hp & Hpp). unfold packets_left in Hpp.
  destruct (decide (0 < sum_list_with (stream_left req (addr p)) (streams p))) as [Hst|Hst].
  - destruct (sum_with_pos _ _ Hst) as (k & pkt & Hk & Hpk). destruct (receive_enabled rs l ns i p k pkt Hg Hp Hk) as (ns' & effs & Hs & Hh & Hok & Hl & Ht & Hr).
    destruct (handle_left in_network (addr p) pkt effs Hok Hh) as [Hless Hto]. exists ns'. split; [by apply (can_step _ _ (Receive i k))|].
    unfold stream_left in *. pose proof (Hl true) as Hl1. pose proof (Hl false) as Hl2.
    destruct (to_egress (addr p) pkt), req; cbn [Bool.eqb] in *; [by split; [lia|]|lia|lia|]. specialize (Hto eq_refl). split; [lia|]. intros _.
    split_and!; [specialize (Hnone eq_refl); lia|done|done].
  - destruct (sum_with_pos (handler_left req) (handlers p)) as (k & h & Hk & Hpk); [lia|].
    pose proof (Forall_lookup_1 _ _ _ _ (ba_ok _ _ _ _ _ _ _ (go_balance _ _ _ Hg)) Hp) as Hok. pose proof (Forall_lookup_1 _ _ _ _ (po_handlers _ _ _ _ Hok) Hk) as Hh.
    destruct (handler_next req h Hh Hpk) as [[-> (ch & m & rest & ->)]|(eff & rest & -> & Heff & Htask)].
    { intros Hreq. specialize (Hnone Hreq). pose proof (sum_with_delete (packets_left true) ns i p Hp) as H1. pose proof (sum_with_delete (handler_left true) _ k h Hk) as H2.
      unfold left in Hnone. unfold packets_left in H1 at 2. lia. }
    + destruct (send_enabled rs l ns i p k ch m rest Hg Hp Hk) as (ns' & Hs & Hr & Ht & Hl1 & Hl2). exists ns'. split; [by apply (can_step _ _ (Act i k true))|].
      split; [lia|]. intros _. split_and!; [by rewrite Hl1, Hnone|done|done].
    + destruct (act_enabled rs l ns i p k eff rest Hg Hp Hk) as (ns' & Hs & Hr & Hl & Ht); [auto|]. exists ns'. split; [by apply (can_step _ _ (Act i k true))|].
      split; [specialize (Hl req); destruct (after_act_less req eff) as [_ Hx]; specialize (Hx Heff); lia|]. intros ->.
      split_and!; [specialize (Hl true); destruct (after_act_less true eff) as [Hx _]; specialize (Hnone eq_refl); lia|apply Ht; destruct (is_task eff); [by specialize (Htask eq_refl)|done]|done].
Qed.

(** The packets with requests can be emptied, with the tasks finished before each step. *)
Lemma drain_requests rs l ns :
  good rs l ns -> exists ns', can not_request ns ns' /\ Forall rest (resps <$> ns') /\ tasks_of ns' = 0 /\ left true ns' = 0.
Proof.
  remember (left true ns) as n eqn:Hn. revert ns Hn. induction (lt_wf n) as [n _ IH]. intros ns Hn Hg.
  destruct (drain_tasks rs l ns Hg) as (ns1 & Hc1 & Hr1 & Ht1 & Hl1). pose proof (can_good _ _ _ _ _ Hg Hc1) as Hg1.
  destruct (decide (0 < left true ns1)) as [Hpos|Hpos]; [|exists ns1; split_and!; [done|done|done|lia]].
  destruct (packet_step true rs l ns1 Hg1 ltac:(done) ltac:(done) Hpos) as (ns2 & Hc2 & Hl2 & _).
  destruct (IH (left true ns2) ltac:(lia) ns2 eq_refl (can_good _ _ _ _ _ Hg1 Hc2)) as (ns3 & Hc3 & Hx). exists ns3.
  split; [|done]. eapply can_trans; [exact Hc1|]. by eapply can_trans.
Qed.

Lemma drain_responses rs l ns :
  good rs l ns -> Forall rest (resps <$> ns) -> tasks_of ns = 0 -> left true ns = 0 ->
  exists ns', can not_request ns ns' /\ Forall rest (resps <$> ns') /\ tasks_of ns' = 0 /\ left true ns' = 0 /\ left false ns' = 0.
Proof.
  remember (left false ns) as n eqn:Hn. revert ns Hn. induction (lt_wf n) as [n _ IH]. intros ns Hn Hg Hr Ht Hl.
  destruct (decide (0 < left false ns)) as [Hpos|Hpos]; [|exists ns; split_and!; [apply can_refl|done|done|done|lia]].
  destruct (packet_step false rs l ns Hg ltac:(done) ltac:(done) Hpos) as (ns2 & Hc2 & Hl2 & Hx). destruct (Hx eq_refl) as (H1 & H2 & H3).
  destruct (IH (left false ns2) ltac:(lia) ns2 eq_refl (can_good _ _ _ _ _ Hg Hc2)) as (ns3 & Hc3 & Hy); [by rewrite H3|congruence|done|].
  exists ns3. split; [|done]. by eapply can_trans.
Qed.

(** ** The end *)

Record idle (p : proxy) : Prop := {
  id_reqs : owes cfg (reqs p) = [];
  id_resps : owes cfg (resps p) = [];
  id_streams : streams p = [];
  id_handlers : Forall (fun h => h = mkHandler None []) (handlers p);
  id_tcp : queue (workers (tcp p)) = [] /\ running (workers (tcp p)) = [];
  id_udp : queue (workers (udp p)) = [] /\ running (workers (udp p)) = []
}.

Lemma sum_with_zero {A} (f : A -> nat) l x : sum_list_with f l = 0 -> x ∈ l -> f x = 0.
Proof. intros Hs [k Hk]%list_elem_of_lookup. rewrite (sum_with_delete f l k x Hk) in Hs. lia. Qed.

Lemma nothing_left p : packets_left true p = 0 -> packets_left false p = 0 -> streams p = [] /\ Forall (fun h => h = mkHandler None []) (handlers p).
Proof.
  unfold packets_left. intros Ht Hf. split; [apply elem_of_nil_inv|apply Forall_forall]; intros x Hx.
  - pose proof (sum_with_zero (stream_left true (addr p)) (streams p) x ltac:(lia) Hx) as H1.
    pose proof (sum_with_zero (stream_left false (addr p)) (streams p) x ltac:(lia) Hx) as H2.
    unfold stream_left, weight in *. cbn [visits length] in *. destruct (to_egress (addr p) x); cbn [Bool.eqb] in *; lia.
  - pose proof (sum_with_zero (handler_left true) (handlers p) x ltac:(lia) Hx) as H1.
    pose proof (sum_with_zero (handler_left false) (handlers p) x ltac:(lia) Hx) as H2.
    destruct x as [[]  [|eff tl]]; unfold handler_left in *; cbn [todo pending sum_list_with] in *; [lia|lia|done|].
    destruct eff as [|next pkt|]; cbn [action_left] in *; try lia. destruct (to_egress next pkt); cbn [Bool.eqb] in *; lia.
Qed.

Lemma drained_tasks p : tasks_left p = 0 -> (queue (workers (tcp p)) = [] /\ running (workers (tcp p)) = []) /\ queue (workers (udp p)) = [] /\ running (workers (udp p)) = [].
Proof. unfold tasks_left, work_left. intros Hz. split_and!; apply nil_length_inv; lia. Qed.

(** From a good state the network can become idle. *)
Lemma completes rs l ns : good rs l ns -> exists ns', can (fun _ => True) ns ns' /\ Forall idle ns'.
Proof.
  intros Hg. destruct (drain_aggs true rs l ns (length ns) Hg ltac:(done)) as (ns1 & Hc1 & Hq1 & _). pose proof (can_good _ _ _ _ _ Hg Hc1) as Hg1.
  destruct (drain_requests rs l ns1 Hg1) as (ns2 & Hc2 & Hr2 & Ht2 & Hl2). pose proof (can_good _ _ _ _ _ Hg1 Hc2) as Hg2.
  destruct (drain_responses rs l ns2 Hg2 Hr2 Ht2 Hl2) as (ns3 & Hc3 & Hr3 & Ht3 & Hl3 & Hl3'). exists ns3.
  assert (Hc23 : can not_request ns1 ns3) by (by eapply can_trans). split; [eapply can_trans; [exact Hc1|]; by eapply can_weaken; [|exact Hc23]|].
  assert (Hq3 : reqs <$> ns3 = reqs <$> ns1) by (eapply (can_keeps not_request); [|exact Hc23]; intros ? ? ? _; apply not_request_reqs).
  rewrite <- (good_length _ _ _ _ Hg Hg1), <- (length_fmap (agg_of true)), firstn_all in Hq1. change (agg_of true <$> ns1) with (reqs <$> ns1) in Hq1.
  rewrite <- Hq3, Forall_fmap, Forall_forall in Hq1. rewrite Forall_fmap, Forall_forall in Hr3. apply Forall_forall. intros p Hp.
  destruct (nothing_left p) as [Hst Har]; [by eapply sum_with_zero..|]. destruct (drained_tasks p) as [Htc Hud]; [by eapply sum_with_zero|].
  constructor; [apply (Hq1 p Hp)|apply (Hr3 p Hp)|done|done|done|done].
Qed.

Lemma good_run evs ns :
  Forall (nevent_ok (request_ok in_network)) evs -> net_run cfg (new_network z addrs) evs = Next ns -> NoDup (sub_id <$> requests cfg evs) ->
  Forall (fun p => alive (disagg p)) ns -> good (requests cfg evs) (negb (existsb evicts evs)) ns.
Proof.
  intros He Hr Hi Ha. constructor; [by apply (run_balance cfg in_network _ all_known z addrs)| |by apply Forall_fmap|done].
  clear He Ha Hi. revert Hr. generalize (new_network z addrs). induction evs as [|e evs IH]; intros ns0; cbn [net_run]; [by intros [= <-]|].
  intros (ns1 & Hs & Hr)%obind_Next. rewrite (IH ns1 Hr). by eapply step_shape.
Qed.

(** Nothing has been lost. *)
Definition no_losses (p : proxy) : Prop := losses p = ([], [], []).

Lemma filter_delivered a l : Forall is_delivery l -> filter is_submit (pair a <$> l) = [] /\ filter is_deliver (pair a <$> l) = pair a <$> l.
Proof. induction 1 as [|eff l He _ [IH1 IH2]]; [done|]. destruct eff; try done. rewrite !fmap_cons, !filter_cons, IH1, IH2. by rewrite decide_False, decide_True by (done || intros []). Qed.

(** The books of an idle proxy. *)
Lemma idle_books asked p :
  proxy_ok cfg in_network asked p -> idle p -> no_losses p ->
  filter is_submit (ledger p) = pair (addr p) <$> (task_effects "tcp" (tcp p) ++ task_effects "udp" (udp p)) /\
  filter is_deliver (ledger p) = pair (addr p) <$> delivered p /\ unsent cfg (reqs p) = [] /\ unsent cfg (resps p) = [].
Proof.
  intros Hok [Hq Hr Hst Har _ _] Hl. unfold no_losses, losses in Hl. injection Hl as Hd Hf1 Hf2. unfold ledger, travelling, unsent. rewrite Hst, Hd, Hf1, Hf2, Hq, Hr.
  assert (Hz : mbind (fun h => mbind (entry (addr p)) (todo h)) (handlers p) = []) by (clear -Har; induction Har as [|h hs -> _ IH]; [done|]; exact IH).
  rewrite Hz. cbn [mbind list_bind app]. destruct (filter_delivered (addr p) _ (po_delivered _ _ _ _ Hok)) as [H1 H2].
  rewrite !fmap_app, !filter_app, H1, H2, !filter_tasks, app_nil_r. split; [done|]. split; [|done].
  assert (Hno : forall proto b, filter is_deliver (pair (addr p) <$> task_effects proto b) = []).
  { intros proto b. unfold task_effects. induction (tasks b) as [|t ts IH]; [done|]. rewrite !fmap_cons, filter_cons, decide_False by (intros []). exact IH. }
  by rewrite !Hno.
Qed.

Lemma idle_totals asked ns :
  Forall (proxy_ok cfg in_network asked) ns -> Forall idle ns -> Forall no_losses ns ->
  filter is_submit (mbind ledger ns) = mbind (fun p => pair (addr p) <$> (task_effects "tcp" (tcp p) ++ task_effects "udp" (udp p))) ns /\
  filter is_deliver (mbind ledger ns) = mbind (fun p => pair (addr p) <$> delivered p) ns /\
  mbind (fun p => unsent cfg (reqs p)) ns = [] /\ mbind (fun p => unsent cfg (resps p)) ns = [].
Proof.
  induction ns as [|p ns IH]; [done|]. intros [Hp Hps]%Forall_cons_1 [Hi His]%Forall_cons_1 [Hl Hls]%Forall_cons_1.
  destruct (IH Hps His Hls) as (H1 & H2 & H3 & H4). destruct (idle_books asked p Hp Hi Hl) as (G1 & G2 & G3 & G4).
  cbn [mbind list_bind] in *. by rewrite !filter_app, H1, H2, H3, H4, G1, G2, G3, G4.
Qed.

Lemma friendly_requested evs evs' r : Forall (friendly origin) evs' -> requested in_network (evs ++ evs') r -> requested in_network evs r.
Proof.
  intros Hf [Hr (i & msg & Hin & Hon)]. split; [done|]. exists i, msg. split; [|done]. apply elem_of_app in Hin as [?|Hin]; [done|].
  rewrite Forall_forall in Hf. by specialize (Hf _ Hin).
Qed.

End Drain.

(** ** The sample network with one request *)

#[local] Existing Instance no_ipv6.

Definition one_request : list nevent := [Req 0 (AddToBatch hi)].

(** An origin that answers "ok" to requests with proper ids. *)
Definition sample_origin (t : BackSourceTask) : option bytes :=
  if ((0 <=? t_UserID t) && (t_UserID t <? 2 ^ 32))%Z then Some [111; 107; 10]%Z else None.

Lemma sample_origin_ok t : resp_ok t (sample_origin t).
Proof.
  intros d Hd. unfold sample_origin in Hd. destruct (Z.leb_spec 0 (t_UserID t)) as [H1|]; [|done]. destruct (Z.ltb_spec (t_UserID t) (2 ^ 32)) as [H2|]; [|done].
  injection Hd as <-. split; [|vm_compute; reflexivity]. split; [by split|]. repeat constructor; unfold fits; lia.
Qed.

End NetworkDrain.
