(* ===== verification/ProxyStart.v ===== *)
(** * The start of a data proxy (data-proxy/main.go)

    From the configuration to the running components; the accept loops of the configured listeners are
    goroutines that look up their listener when they get to run. *)

From Stdlib Require Import ZArith Lia.
From stdpp Require Import base list gmap strings.
From S2P Require Import Prelude GoStrings GoChan Packet Tunnel Aggregator AggregatorPool ModuleConfig Listeners Streams Network.
Import Listeners.

Module ProxyStart.

Local Open Scope Z_scope.

(** ** Components *)

(** [InitWorkerPool]: the goroutines that serve connections from [connChan]; 1000 by default. *)
Definition InitWorkerPool (TcpWorkerCount : Z) : WorkerPool.pool nat :=
  WorkerPool.start (Z.to_nat (if TcpWorkerCount <=? 0 then 1000 else TcpWorkerCount)) maxPendingConns.

(** What [main] makes of a configuration for the node with address [a]. *)
Record components := mkComponents {
  c_proxy : Network.proxy;
  c_aggregator : Aggregator.Config;
  c_tunnels : TunnelListener.listener;
  c_connections : WorkerPool.pool nat;
  c_rate : ModuleConfig.RateLimit;
  c_testPaths : gmap Z string
}.

Definition sizes_of (c : ModuleConfig.ProxyConfig) : Network.sizes :=
  Network.mkSizes (ModuleConfig.AggWorkerNum c) (ModuleConfig.AggWorkerCount c) (ModuleConfig.BackWorkerCount c).

Definition make_components (c : ModuleConfig.ProxyConfig) (a : Z) : components :=
  mkComponents (Network.new_proxy (sizes_of c) a) (ModuleConfig.aggregator_config c) (TunnelListener.ListenAndServeQUIC (ModuleConfig.TunnelConcurrentLimit c))
    (InitWorkerPool (ModuleConfig.TcpWorkerCount c)) (ModuleConfig.RateLimit_ c) (ModuleConfig.testPathMap c).

(** ** Listeners *)

Definition proto_of (s : string) : option proto :=
  if String.eqb s "tcp" then Some TCP else if String.eqb s "udp" then Some UDP else None.

(** The listeners that are started; others are skipped. *)
Definition configured (c : ModuleConfig.ProxyConfig) : list (proto * Z) :=
  omap (fun l => pr ← proto_of (ModuleConfig.l_Proto l); Some (pr, ModuleConfig.l_Port l)) (ModuleConfig.Listeners c).

(** The loop of [main] with the goroutines it has started that have not run yet, and the sockets
    that are served. *)
Record start_state := mkStart { todo : list (proto * Z); tables : servers; waiting : list (proto * Z); serving : list nat }.

Definition start_of (l : list (proto * Z)) : start_state := mkStart l no_servers [] [].

Inductive start_event := NextListener | RunLoop (k : nat).

Section Start.
(** What the binding of a port returns. *)
Context (listen : Z -> proto -> option nat).

Definition start_step (s : start_state) (e : start_event) : outcome start_state :=
  match e with
  | NextListener =>
      match todo s with
      | [] => Blocked
      | (pr, port) :: rest =>      (* the error is ignored *)
          Next (mkStart rest (fst (StartServerWithMgr (ServerMap pr) port (listen port pr) (tables s))) (waiting s ++ [(pr, port)]) (serving s))
      end
  | RunLoop k =>
      match waiting s !! k with
      | None => Blocked
      | Some (pr, port) =>
          match StartServerRun (ServerMap pr) port (tables s) with
          | Panic => Panics
          | Ret sock => Next (mkStart (todo s) (tables s) (delete k (waiting s)) (serving s ++ option_list sock))
          end
      end
  end.

Fixpoint start_run (s : start_state) (es : list start_event) : outcome start_state :=
  match es with
  | [] => Next s
  | e :: es => let? s' := start_step s e in start_run s' es
  end.

(** ** Proofs *)

(** Different ports, all of which can be bound. *)
Definition binds_ok (l : list (proto * Z)) : Prop := NoDup l.*2 /\ Forall (fun x => is_Some (listen x.2 x.1)) l.

Record start_ok (l : list (proto * Z)) (s : start_state) : Prop := {
  so_split : exists past, l = past ++ todo s /\ waiting s ⊆+ past;
  so_tables : forall pr port, (pr, port) ∈ waiting s -> exists sock, listen port pr = Some sock /\ listenerMap (tables s) !! port = Some (mkListener pr sock)
}.

Lemma start_tables pr port sock s :
  fst (StartServerWithMgr (ServerMap pr) port (Some sock) s) = put_listener pr port sock s.
Proof. by destruct pr. Qed.

Lemma start_step_ok l s e : binds_ok l -> start_ok l s -> start_step s e <> Panics /\ forall s', start_step s e = Next s' -> start_ok l s'.
Proof.
  intros [Hnd Hb] [(past & Hl & Hw) Ht]. destruct e as [|k]; cbn [start_step].
  - destruct (todo s) as [|[pr port] rest] eqn:Et; [done|]. split; [done|]. intros s' [= <-].
    assert (Hin : (pr, port) ∈ l) by (rewrite Hl; apply elem_of_app; right; left).
    rewrite Forall_forall in Hb. destruct (Hb _ Hin) as [sock Hs]. cbn in Hs. rewrite Hs. constructor; cbn.
    + exists (past ++ [(pr, port)]). split; [by rewrite Hl, <- app_assoc|]. by apply submseteq_app.
    + intros pr' port' [Hw'|Hw']%elem_of_app.
      * destruct (Ht _ _ Hw') as (sock' & Hs' & Hm). exists sock'. split; [done|].
        rewrite start_tables. cbn. rewrite lookup_insert_ne; [done|]. intros <-.
        rewrite Hl, fmap_app, fmap_cons in Hnd. apply NoDup_app in Hnd as (_ & Hdis & _). apply (Hdis port); [|left].
        apply list_elem_of_fmap. exists (pr', port). split; [done|]. by eapply elem_of_submseteq.
      * apply list_elem_of_singleton in Hw' as [= -> ->]. exists sock. split; [done|]. rewrite start_tables. cbn. apply lookup_insert_eq.
  - destruct (waiting s !! k) as [[pr port]|] eqn:Ek; [|done]. assert (Hin : (pr, port) ∈ waiting s) by (by eapply list_elem_of_lookup_2).
    destruct (Ht _ _ Hin) as (sock & Hs & Hm).
    assert (Hrun : StartServerRun (ServerMap pr) port (tables s) = Ret (Some sock)) by (destruct pr; cbn; unfold tcp_StartServerRun, udp_StartServerRun; by rewrite Hm).
    rewrite Hrun. split; [done|]. intros s' [= <-]. constructor; cbn.
    + exists past. split; [done|]. etransitivity; [|exact Hw]. apply sublist_submseteq, sublist_delete.
    + intros pr' port' Hw'. apply Ht. eapply elem_of_submseteq; [exact Hw'|]. apply sublist_submseteq, sublist_delete.
Qed.

Lemma start_run_ok l s es s' : binds_ok l -> start_ok l s -> start_run s es = Next s' -> start_ok l s'.
Proof.
  intros Hb. revert s. induction es as [|e es IH]; intros s Hs; cbn [start_run]; [by intros [= <-]|].
  intros (s1 & H1 & Hr)%obind_Next. apply (IH s1); [|done]. by apply (start_step_ok l s e).
Qed.

(** ** Properties *)

(** C38. A proxy whose configured listeners have different ports, all of which can be bound, starts:
    in whatever order the accept loops get to run, none of them panics, and every one of them serves the socket that was
    bound for it. *)
Theorem proxy_starts c es s :
  binds_ok (configured c) -> start_run (start_of (configured c)) es = Next s ->
  (forall e, start_step s e <> Panics) /\
  forall k pr port, waiting s !! k = Some (pr, port) -> exists sock, listen port pr = Some sock /\ StartServerRun (ServerMap pr) port (tables s) = Ret (Some sock).
Proof.
  intros Hb Hr. assert (H0 : start_ok (configured c) (start_of (configured c))).
  { constructor; cbn; [by exists []|]. intros pr port Hin. by apply not_elem_of_nil in Hin. }
  pose proof (start_run_ok _ _ _ _ Hb H0 Hr) as Hs. split.
  - intros e. by apply (start_step_ok (configured c)).
  - intros k pr port Hk. destruct (so_tables _ _ Hs pr port) as (sock & Hl & Hm); [by eapply list_elem_of_lookup_2|]. exists sock. split; [done|].
    destruct pr; cbn; unfold tcp_StartServerRun, udp_StartServerRun; by rewrite Hm.
Qed.
End Start.

(** A TCP port that cannot be bound stops the whole proxy: the error is ignored, and the accept loop is
    started on a listener that does not exist. *)
Theorem startup_bind_failure_panics port : start_run (fun _ _ => None) (start_of [(TCP, port)]) [NextListener; RunLoop 0] = Panics.
Proof. done. Qed.

(** A port that is configured for both protocols: when the accept loop of the first gets to run after the
    second was bound, its listener has been replaced and the type assertion panics. *)
Theorem shared_port_panics port :
  start_run (fun _ pr => Some (if pr then 1 else 2)%nat) (start_of [(TCP, port); (UDP, port)]) [NextListener; NextListener; RunLoop 0] = Panics.
Proof. cbn. unfold tcp_StartServerRun. cbn. by rewrite lookup_insert_eq. Qed.

Definition sample_listeners : ModuleConfig.ProxyConfig :=
  ModuleConfig.mkProxyConfig "7083" "http://127.0.0.1:7081" [] 4 4 50 50 50
    [ModuleConfig.mkListener "tcp" 8081 10; ModuleConfig.mkListener "quic" 443 0; ModuleConfig.mkListener "udp" 8003 0]
    (ModuleConfig.mkRateLimit 1000 2000 5) (ModuleConfig.mkAgg 5120 50) ModuleConfig.no_node.

Lemma proxy_starts_witness :
  match start_run (fun port _ => Some (Z.to_nat port)) (start_of (configured sample_listeners)) [NextListener; NextListener; RunLoop 1; RunLoop 0] with
  | Next s => serving s = [Z.to_nat 8003; Z.to_nat 8081] /\ forall e, start_step (fun port _ => Some (Z.to_nat port)) s e <> Panics
  | _ => False
  end.
Proof.
  destruct (start_run (fun port _ => Some (Z.to_nat port)) (start_of (configured sample_listeners)) [NextListener; NextListener; RunLoop 1; RunLoop 0]) as [s| |] eqn:E;
    [|discriminate E|discriminate E].
  destruct (proxy_starts (fun port _ => Some (Z.to_nat port)) sample_listeners [NextListener; NextListener; RunLoop 1; RunLoop 0] s) as [Hn _].
  - split; [|repeat constructor; eauto]. apply (bool_decide_unpack _). reflexivity.
  - exact E.
  - split; [|exact Hn]. cbn in E. injection E as <-. reflexivity.
Defined.
End ProxyStart.
