(* ===== verification/ControlPlane.v ===== *)
(** * The control plane around the routers

    - probing (data-plane/probing/tcpprobe.go, data-plane/collector/links.go): the results that a
      node reports for its links;
    - reports (control-plane/api/node.go, edge.go, aggregator/node.go): how a report becomes a value
      in etcd;
    - watching (control-plane/main.go, sync/etcd_client/etcd_client.go): how the values in etcd become
      the graph and the statistics of every control plane;
    - requests (control-plane/api/routing.go, probing.go): routes and probe tasks. *)

From Stdlib Require Import ZArith Lia SpecFloat Ascii.
From stdpp Require Import base list gmap strings pretty sorting.
From S2P Require Import Prelude F64 GoStrings GoChan GoSort ModuleConfig Graph ShortestPath KShortest LiveNet OneWan Carousel CarouselRun Stats EdgeDomain Routing.
Import Graph ShortestPath KShortest LiveNet OneWan Carousel CarouselRun Stats EdgeDomain Routing.

Module ControlPlane.

Local Open Scope Z_scope.

(** ** Probing *)

Record ProbeTask := mkTask {
  pt_TargetType : string;
  pt_Provider : string;
  pt_IP : string;
  pt_Port : Z;
  pt_Region : string;
  pt_ID : string
}.

Record Result := mkResult { Target : ProbeTask; Attempts : Z; Failures : Z; LossRate : float64; AvgRTT : Z }.

(** How one dial ends, with the time it took. *)
Inductive attempt := Connected (rtt : Z) | TimedOut | Refused (rtt : Z).

Definition failures (l : list attempt) : Z :=
  Z.of_nat (length (omap (fun a => match a with TimedOut => Some tt | _ => None end) l)).

Definition rtts (l : list attempt) : list Z :=
  omap (fun a => match a with Connected r | Refused r => Some r | TimedOut => None end) l.

(** The attempts on one target: an error that is not a timeout counts as an answer. *)
Definition probe (target : ProbeTask) (l : list attempt) : Result :=
  let total := foldl Z.add 0 (rtts l) in
  let successes := Z.of_nat (length (rtts l)) in
  let avgRTT := if 0 <? successes then Z.quot total successes else 0 in
  let avgRTT := if avgRTT <=? 0 then 1 else avgRTT in
  mkResult target (Z.of_nat (length l)) (failures l) (fdiv (of_Z (failures l)) (of_Z (Z.of_nat (length l)))) avgRTT.

Definition updateLatestResults (m : gmap string Result) (results : list Result) : gmap string Result :=
  foldl (fun m r => <[pt_IP (Target r) := r]> m) m results.

(** [rece.LinkCongestion]. *)
Record ReportLink := mkRL { rl_TargetIP : string; rl_Target : ProbeTask; rl_PacketLoss : float64; rl_AverageLatency : float64 }.

(** ** Reports *)

(** [rece.VMReport], the fields that are read or set; a collection time of 0 is the zero time. *)
Record VMReport := mkReport {
  VMID : string;
  CollectTime : Z;
  ReportID : string;
  CPU : CPUInfo;
  MemTotal : Z;
  NetPublicIP : string;
  PortCount : Z;
  LinkReports : list ReportLink
}.

(** [agg.NodeTelemetry] as it is stored: the links by target. *)
Record Telemetry := mkTel {
  tel_PublicIP : string;
  tel_Provider : string;
  tel_Continent : string;
  tel_Country : string;
  tel_City : string;
  tel_CpuPressure : float64;
  tel_Cpu : CPUInfo;
  tel_Links : gmap string ReportLink
}.

(** The node's own configuration. *)
Abbreviation NodeConfig := ModuleConfig.NodeConfig.
Abbreviation nc_Public cfg := (ModuleConfig.Public (ModuleConfig.IP cfg)).

(** The measurements of one target. *)
Record linksCongestion := mkGroup { lc_PacketLosses : list float64; lc_AverageLatencies : list float64; lc_ProbeTask : ProbeTask }.

Definition add_measurement (m : gmap string linksCongestion) (v : ReportLink) : gmap string linksCongestion :=
  let t := default (mkGroup [] [] (rl_Target v)) (m !! rl_TargetIP v) in
  <[rl_TargetIP v := mkGroup (lc_PacketLosses t ++ [rl_PacketLoss v]) (lc_AverageLatencies t ++ [rl_AverageLatency v]) (lc_ProbeTask t)]> m.

(** A sum that is divided unless it is zero. *)
Definition mean (l : list float64) : float64 :=
  let sum := foldl fadd fzero l in
  if negb (feq sum fzero) && (0 <? length l)%nat then fdiv sum (of_Z (Z.of_nat (length l))) else sum.

Definition link_of_group (k : string) (vs : linksCongestion) : ReportLink :=
  mkRL k (lc_ProbeTask vs) (mean (lc_PacketLosses vs)) (mean (lc_AverageLatencies vs)).

(** [DoClusterWeightedAvg]: the value that is put under ["/routing-middle/<public address>"]. *)
Definition DoClusterWeightedAvg (cfg : NodeConfig) (report : VMReport) : Telemetry :=
  mkTel (nc_Public cfg) (ModuleConfig.Provider cfg) (ModuleConfig.Continent cfg) (ModuleConfig.Country cfg) (ModuleConfig.City cfg)
    (Usage (CPU report)) (CPU report)
    (map_imap (fun k vs => Some (link_of_group k vs)) (foldl add_measurement ∅ (LinkReports report))).

Definition quoted (s : string) : string := String (ascii_of_nat 34) (s +:+ String (ascii_of_nat 34) EmptyString).
Definition no_public_ip : string := "Public IP (public_ip) cannot be empty, use " +:+ quoted "no-public-ip" +:+ " if none".

(** The checks of [PostVMReceive]: one message for every field that is refused. *)
Definition validate (r : VMReport) : list string :=
  (if String.eqb (VMID r) "" then ["VMID cannot be empty"] else []) ++
  (if PhysicalCore (CPU r) <? 0 then ["CPU physical core count cannot be negative"] else []) ++
  (if LogicalCore (CPU r) <? 0 then ["CPU logical core count cannot be negative"] else []) ++
  (if String.eqb (NetPublicIP r) "" then [no_public_ip] else []) ++
  (if MemTotal r =? 0 then ["Total memory (total) cannot be 0"] else []).

(** The fields that are filled in when they are missing. *)
Definition complete (now : Z) (uuid : string) (r : VMReport) : VMReport :=
  mkReport (VMID r) (if CollectTime r =? 0 then now else CollectTime r) (if String.eqb (ReportID r) "" then uuid else ReportID r)
    (CPU r) (MemTotal r) (NetPublicIP r) (if PortCount r <? 0 then 0 else PortCount r) (LinkReports r).

(** A key with a value and a time to live, as it is put into etcd. *)
Record etcd_put := mkPut { put_key : string; put_val : string; put_ttl : Z }.

(** JSON texts of a type.  What is encoded is decoded again when it is [json_plain]: its strings are valid
    UTF-8 (the encoder replaces other bytes) and its integers are exact as float64. *)
Class Codec (T : Type) := {
  encode : T -> option string;
  decode : string -> option T;
  json_plain : T -> Prop;
  codec_ok t s : json_plain t -> encode t = Some s -> s <> "" /\ decode s = Some t
}.

(** A text that is decoded without a type and encoded again: the text of a plain value still stands for it. *)
Class Remarshal (T : Type) `{Codec T} := {
  remarshal : string -> option string;
  remarshal_ok t s : json_plain t -> encode t = Some s -> exists s', remarshal s = Some s' /\ s' <> "" /\ decode s' = Some t
}.

(** [PutKeyWithLease]: what reaches etcd when the lease and the put succeed, and whether it did. *)
Definition PutKeyWithLease (granted stored : bool) (key value : string) (ttlSeconds : Z) : list etcd_put * bool :=
  if negb granted then ([], false)
  else if negb stored then ([], false)
  else ([mkPut key value ttlSeconds], true).

Section Receive.
Context `{Codec Telemetry} `{Remarshal LastTelemetry}.

(** The end of [DoClusterWeightedAvg]: a value that has no JSON text is skipped. *)
Definition push_telemetry (granted stored : bool) (cfg : NodeConfig) (report : VMReport) : list etcd_put :=
  match encode (DoClusterWeightedAvg cfg report) with
  | None => []
  | Some jsonData => fst (PutKeyWithLease granted stored ("/routing-middle/" +:+ nc_Public cfg) jsonData 60)
  end.

(** [body]: the report, [None] when the request cannot be parsed.  The response (code, report id and
    time of collection) and what reaches etcd. *)
Definition PostVMReceive (granted stored : bool) (cfg : NodeConfig) (now : Z) (uuid : string) (body : option VMReport) :
    Z * option (string * Z) * list etcd_put :=
  match body with
  | None => (400, None, [])
  | Some r =>
      if (0 <? length (validate r))%nat then (400, None, [])
      else let r := complete now uuid r in
           (200, Some (ReportID r, CollectTime r), push_telemetry granted stored cfg r)
  end.

(** [data]: the field Data of the request as JSON, [None] when the request cannot be parsed.  The
    data is encoded again, read, and stored in the new encoding under the address of the control plane's own node. *)
Definition PostLastReceive (granted stored : bool) (cfg : NodeConfig) (data : option string) : Z * option nat * list etcd_put :=
  match data with
  | None => (400, None, [])
  | Some data =>
      match remarshal data with
      | None => (400, None, [])
      | Some reqDataBytes =>
          match (decode reqDataBytes : option LastTelemetry) with
          | None => (400, None, [])
          | Some lastStats =>
              (200, Some (size (LastsCongestion lastStats)),
               fst (PutKeyWithLease granted stored ("/routing-last/" +:+ nc_Public cfg) reqDataBytes 60))
          end
      end
  end.
End Receive.

(** ** Watching *)

(** The events of a watch: a deletion (an expired lease) carries the key and no value. *)
Inductive etcd_event := EPut (key val : string) (create : bool) | EDelete (key : string).

(** [WatchPrefix]: the arguments of the callback. *)
Definition WatchPrefix (e : etcd_event) : string * string * string :=
  match e with
  | EPut k v create => (if create then "CREATE" else "UPDATE", k, v)
  | EDelete k => ("DELETE", k, "")
  end.

Definition no_cpu : CPUInfo := mkCPU 0 0 fzero fzero fzero.
Definition zero_tel : Telemetry := mkTel "" "" "" "" "" fzero no_cpu ∅.
Definition zero_last : LastTelemetry := mkLT ∅ "" "" "" "".

Section Watch.
Context `{GoMath} `{RangeMap} `{Codec Telemetry} `{Codec LastTelemetry}.

(** The probe results of a node, as links of its report. *)
Definition BuildLinkCongestion (latest : gmap string Result) : list ReportLink :=
  (fun kv => mkRL (fst kv) (Target (snd kv)) (LossRate (snd kv)) (of_Z (Z.quot (AvgRTT (snd kv)) 1000000))) <$> range_map latest.

Definition graph_link (l : ReportLink) : LinkCongestion :=
  mkLink (pt_TargetType (rl_Target l)) (pt_IP (rl_Target l)) (pt_Port (rl_Target l)) (rl_PacketLoss l) (rl_AverageLatency l).

(** The telemetry as [AddNode] reads it: its loop visits the links in some order. *)
Definition node_of (t : Telemetry) : NodeTelemetry :=
  mkNode (tel_PublicIP t) (tel_Provider t) (tel_Continent t) (tel_Country t) (tel_City t) (tel_CpuPressure t) (tel_Cpu t)
    ((fun kv => graph_link (snd kv)) <$> range_map (tel_Links t)).

Definition HandleRoutingWatchEvent (r : GraphManager) (eventType key val : string) : GraphManager :=
  match (if String.eqb val "" then Some zero_tel else decode val) with
  | None => r
  | Some tel =>
      if String.eqb eventType "CREATE" || String.eqb eventType "UPDATE" then AddNode r (node_of tel)
      else if String.eqb eventType "DELETE" then RemoveNode r (tel_PublicIP tel)
      else r
  end.

(** The statistics, and whether a goroutine is started that rebuilds the table. *)
Definition HandleLastWatchEvent (g : GlobalStats) (eventType key val : string) : GlobalStats * bool :=
  match (if String.eqb val "" then Some zero_last else decode val) with
  | None => (g, false)
  | Some lastStats =>
      if String.eqb eventType "CREATE" || String.eqb eventType "UPDATE" then (AddOrUpdateNode g lastStats, true)
      else if String.eqb eventType "DELETE" then (DelNode g (lt_IP lastStats), true)
      else (g, false)
  end.

Definition routing_watch (r : GraphManager) (e : etcd_event) : GraphManager :=
  let '(eventType, key, val) := WatchPrefix e in HandleRoutingWatchEvent r eventType key val.

(** The statistics with the goroutines that rebuild the table: one has started, or it has read the reports
    and has not stored its table yet. *)
Record last_state := mkLast { l_stats : GlobalStats; l_rebuilds : list (option (gmap string LastTelemetry)) }.

Definition last_watch (s : last_state) (e : etcd_event) : last_state :=
  let '(eventType, key, val) := WatchPrefix e in
  let '(g, started) := HandleLastWatchEvent (l_stats s) eventType key val in
  mkLast g (l_rebuilds s ++ if started then [None] else []).

Inductive last_event := SeeEvent (e : etcd_event) | ReadNodes (k : nat) | StoreTable (k : nat).

(** The two sections of [rebuildAggregate], under the read lock and under the lock. *)
Definition last_step (s : last_state) (ev : last_event) : outcome last_state :=
  match ev with
  | SeeEvent e => Next (last_watch s e)
  | ReadNodes k =>
      match l_rebuilds s !! k with
      | Some None => Next (mkLast (l_stats s) (<[k := Some (nodeLast (l_stats s))]> (l_rebuilds s)))
      | _ => Blocked
      end
  | StoreTable k =>
      match l_rebuilds s !! k with
      | Some (Some nodeList) => Next (mkLast (mkStats (nodeLast (l_stats s)) (aggregate nodeList)) (delete k (l_rebuilds s)))
      | _ => Blocked
      end
  end.

Fixpoint last_run (s : last_state) (evs : list last_event) : outcome last_state :=
  match evs with
  | [] => Next s
  | ev :: evs => let? s' := last_step s ev in last_run s' evs
  end.

(** The loops of [main] over what etcd holds at the start; values that do not parse are skipped. *)
Definition load_nodes (nodeMap : gmap string string) : GraphManager :=
  foldl (fun r kv => match decode (snd kv) with Some tel => AddNode r (node_of tel) | None => r end)
    NewGraphManager (range_map nodeMap).

Definition load_last (lastMap : gmap string string) : GlobalStats :=
  rebuildAggregate
    (foldl (fun g kv => match decode (snd kv) with Some l => AddOrUpdateNode g l | None => g end)
       NewGlobalStats (range_map lastMap)).
End Watch.

(** ** Requests *)

Record SourceTarget := mkST { ServerPort : Z; st_Provider : string; st_IP : string; st_Port : Z; st_Region : string; st_ID : string }.

(** The loop of [LoadSourceTargetsFromExeDir]. *)
Definition LoadSourceTargets (targets : list SourceTarget) : gmap Z SourceTarget :=
  foldl (fun m v => <[ServerPort v := v]> m) ∅ targets.

(** The destination that a source target stands for. *)
Definition target_dest (v : SourceTarget) : string := st_IP v +:+ ":" +:+ pretty (st_Port v).

(** [body]: the two end points, [None] when the request cannot be parsed. *)
Definition GetMiddleRoute `{RangeMap} (targets : gmap Z SourceTarget) (g : GraphManager) (body : option (EndPoint * EndPoint)) (algorithm : string) :
    go (Z * option routing_info) :=
  match body with
  | None => Ret (400, None)
  | Some (source, dest) =>
      match targets !! ep_Port dest with
      | None => Ret (400, None)
      | Some v =>
          let algorithm := if (String.length algorithm <=? 0)%nat then "k_shortest" else algorithm in
          let! paths := MiddleRouting g (ep_IP source) (target_dest v) algorithm in
          Ret (200, Some paths)
      end
  end.

Section Requests.
Context `{GoMath} `{RangeMap} `{SortSlice nodeScore score_less score_number} `{Rand} `{Chance}.
Context `{Codec Telemetry}.
Context (GetIPInfo : string -> option (string * string * string)) (ParseFloat : string -> option float64).

(** The weights of a last-mile request. *)
Definition query_weights (algorithm cpuStr latStr : string) : float64 * float64 :=
  if String.eqb algorithm "joint_cpu_latency" then
    if negb (String.eqb cpuStr "") && negb (String.eqb latStr "") then
      match ParseFloat cpuStr, ParseFloat latStr with
      | Some cpuVal, Some latVal => if fle fzero cpuVal && fle fzero latVal then (cpuVal, latVal) else (lit 1 2, lit 1 2)
      | _, _ => (lit 1 2, lit 1 2)
      end
    else (lit 1 2, lit 1 2)
  else (lit 1 2, lit 1 2).

Definition GetLastRoute (cfg : NodeConfig) (g : GraphManager) (a : GlobalStats) (body : option EndPoint) (algorithm cpuStr latStr : string) :
    go (Z * option (list PathInfo)) :=
  match body with
  | None => Ret (400, None)
  | Some source =>
      let algorithm := if (String.length algorithm <=? 0)%nat then "lyapunov" else algorithm in
      let '(cpuWeight, latencyWeight) := query_weights algorithm cpuStr latStr in
      let! paths := LastRouting GetIPInfo (nc_Public cfg) g a source algorithm cpuWeight latencyWeight in
      Ret (200, Some paths)
  end.

Definition GetMiddleRouteMulti (g : GraphManager) (body : option (EndPoint * list EndPoint)) (algorithm : string) :
    go (Z * option (list PathInfo)) :=
  match body with
  | None => Ret (400, None)
  | Some (source, dests) =>
      let algorithm := if (String.length algorithm <=? 0)%nat then "onewan_multi" else algorithm in
      let! paths := MiddleRoutingMulti g (ep_IP source) (ep_IP <$> dests) algorithm in
      Ret (200, Some paths)
  end.

Definition source_task (v : SourceTarget) : ProbeTask :=
  mkTask "source" (st_Provider v) (st_IP v) (st_Port v) (st_Region v) (st_ID v).

(** [nodeMap]: what etcd holds, or an error; [order] the iteration over the source targets. *)
Definition GetProbeTasks (cfg : NodeConfig) (order : list SourceTarget) (nodeMap : option (gmap string string)) : Z * list ProbeTask :=
  match nodeMap with
  | None => (500, [])
  | Some nodeMap =>
      (200, omap (fun kv => match decode (snd kv) with
                            | None => None
                            | Some telemetry =>
                                if String.eqb (tel_PublicIP telemetry) (nc_Public cfg) then None
                                else Some (mkTask "node" (tel_Provider telemetry) (tel_PublicIP telemetry) 7083 (tel_Continent telemetry) "")
                            end) (range_map nodeMap)
            ++ (source_task <$> order))
  end.
End Requests.

(** ** Proofs: grouping *)

(** The measurements of the target [k], in the order of the report. *)
Definition of_target (k : string) (l : list ReportLink) : list ReportLink := filter (fun v => rl_TargetIP v = k) l.

Lemma groups_spec l k :
  foldl add_measurement ∅ l !! k =
    match of_target k l with
    | [] => None
    | v :: vs => Some (mkGroup (rl_PacketLoss <$> v :: vs) (rl_AverageLatency <$> v :: vs) (rl_Target v))
    end.
Proof.
  induction l as [|v l IH] using rev_ind; [done|]. rewrite foldl_app. cbn [foldl].
  set (m := foldl add_measurement ∅ l) in *. unfold add_measurement, of_target in *. rewrite filter_app.
  destruct (decide (rl_TargetIP v = k)) as [<-|Hne].
  - rewrite lookup_insert_eq, filter_cons_True, filter_nil by done. rewrite IH. by destruct (filter _ l) as [|w ws]; cbn; rewrite ?fmap_app.
  - rewrite lookup_insert_ne, filter_cons_False, filter_nil, app_nil_r by done. exact IH.
Qed.

Lemma filter_key {V} (l : list (string * V)) k v :
  NoDup l.*1 -> (k, v) ∈ l -> filter (fun kv : string * V => kv.1 = k) l = [(k, v)].
Proof.
  induction l as [|[k' v'] l IH]; intros Hnd Hin; [by apply not_elem_of_nil in Hin|]. cbn in Hnd. apply NoDup_cons in Hnd as [Hk Hnd].
  apply elem_of_cons in Hin as [[= <- <-]|Hin].
  - rewrite filter_cons_True by done. f_equal. apply elem_of_nil_inv. intros [k' v'] Hin. apply list_elem_of_filter in Hin as [Hkk Hin].
    cbn in Hkk. subst k'. apply Hk, list_elem_of_fmap. by exists (k, v').
  - rewrite filter_cons_False; [by apply IH|]. cbn. intros ->. apply Hk, list_elem_of_fmap. by exists (k, v).
Qed.

Lemma filter_fmap_key {V W} (f : string * V -> W) (key : W -> string) (l : list (string * V)) k :
  (forall kv, key (f kv) = kv.1) -> filter (fun w => key w = k) (f <$> l) = f <$> filter (fun kv : string * V => kv.1 = k) l.
Proof.
  intros Hf. induction l as [|kv l IH]; [done|]. rewrite fmap_cons, !filter_cons, Hf. destruct (decide (kv.1 = k)); [|done]. by rewrite fmap_cons, IH.
Qed.

(** The end point of the edge that a probed target stands for. *)
Definition target_out (t : ProbeTask) : string :=
  if String.eqb (pt_TargetType t) "source" then pt_IP t +:+ ":" +:+ pretty (pt_Port t) else pt_IP t.

Lemma before_colon a b s t :
  has_char ":" a = false -> has_char ":" b = false ->
  (s = "" \/ exists s', s = String ":" s') -> (t = "" \/ exists t', t = String ":" t') -> a +:+ s = b +:+ t -> a = b.
Proof.
  revert b. induction a as [|x a IH]; intros [|y b] Ha Hb Hs Ht Heq; [done| | |].
  - change (s = String y (b +:+ t)) in Heq. rewrite has_char_cons in Hb. destruct Hs as [->|[s' ->]]; [done|]. injection Heq as <- _. done.
  - change (String x (a +:+ s) = t) in Heq. rewrite has_char_cons in Ha. destruct Ht as [->|[t' ->]]; [done|]. injection Heq as -> _. done.
  - change (String x (a +:+ s) = String y (b +:+ t)) in Heq. injection Heq as -> Heq. rewrite has_char_cons in Ha, Hb. bool_prop.
    f_equal. by apply IH.
Qed.

Lemma target_out_inj t t' :
  has_char ":" (pt_IP t) = false -> has_char ":" (pt_IP t') = false -> target_out t = target_out t' -> pt_IP t = pt_IP t'.
Proof.
  intros Ht Ht' Heq. assert (Htail : forall t, exists s, target_out t = pt_IP t +:+ s /\ (s = "" \/ exists s', s = String ":" s')).
  { intros u. unfold target_out. destruct (String.eqb (pt_TargetType u) "source"); [by eauto|]. exists "". rewrite append_nil_r. auto. }
  destruct (Htail t) as (s & Hs & ?), (Htail t') as (s' & Hs' & ?). rewrite Hs, Hs' in Heq. by apply before_colon in Heq.
Qed.

Lemma append_cancel a s t : a +:+ s = a +:+ t -> s = t.
Proof. induction a as [|x a IH]; [done|]. intros Heq. apply IH. by injection Heq. Qed.

Section Properties.
Context `{GoMath} `{RangeMap} `{Codec Telemetry} `{Codec LastTelemetry}.

Lemma range_map_keys {V} (m : gmap string V) : NoDup (range_map m).*1.
Proof. rewrite range_map_perm. apply NoDup_fst_map_to_list. Qed.

Lemma elem_of_range_map {V} (m : gmap string V) k v : (k, v) ∈ range_map m <-> m !! k = Some v.
Proof. rewrite range_map_perm. apply elem_of_map_to_list. Qed.

(** The link that one probe result becomes in the telemetry of its node. *)
Definition result_link (k : string) (r : Result) : ReportLink :=
  mkRL k (Target r) (mean [LossRate r]) (mean [of_Z (Z.quot (AvgRTT r) 1000000)]).

Lemma telemetry_groups cfg report k :
  tel_Links (DoClusterWeightedAvg cfg report) !! k =
    match of_target k (LinkReports report) with
    | [] => None
    | v :: vs => Some (mkRL k (rl_Target v) (mean (rl_PacketLoss <$> v :: vs)) (mean (rl_AverageLatency <$> v :: vs)))
    end.
Proof. cbn [DoClusterWeightedAvg tel_Links]. rewrite map_lookup_imap, groups_spec. by destruct (of_target k (LinkReports report)). Qed.

Lemma telemetry_links cfg report latest :
  LinkReports report = BuildLinkCongestion latest ->
  tel_Links (DoClusterWeightedAvg cfg report) = map_imap (fun k r => Some (result_link k r)) latest.
Proof.
  intros Hl. apply map_eq. intros k. cbn [DoClusterWeightedAvg tel_Links]. rewrite !map_lookup_imap, groups_spec, Hl. unfold of_target, BuildLinkCongestion.
  rewrite (filter_fmap_key _ rl_TargetIP) by done.
  destruct (latest !! k) as [r|] eqn:Er; cbn [mbind option_bind].
  - by rewrite (filter_key _ k r (range_map_keys latest)) by (by apply elem_of_range_map).
  - destruct (filter _ (range_map latest)) as [|[k' r'] l] eqn:Ef; [done|].
    assert (Hin : (k', r') ∈ filter (fun kv : string * Result => kv.1 = k) (range_map latest)) by (rewrite Ef; left).
    apply list_elem_of_filter in Hin as [Hk Hin]. cbn in Hk. subst k'. apply elem_of_range_map in Hin. congruence.
Qed.

(** ** Proofs: from probes to edges *)

(** Probe results are filed under the address of their target. *)
Definition results_ok (latest : gmap string Result) : Prop :=
  map_Forall (fun ip r => pt_IP (Target r) = ip /\ has_char ":" ip = false) latest.

(** The load of the peer that the risk of a link counts. *)
Definition target_load (g : GraphManager) (t : ProbeTask) : float64 :=
  if String.eqb (pt_TargetType t) "source" then fzero else default fzero (CpuPressure <$> nodes g !! pt_IP t).

Definition target_known (g : GraphManager) (t : ProbeTask) : Prop :=
  pt_TargetType t = "source" \/ is_Some (nodes g !! pt_IP t).

Lemma graph_link_edge g node v :
  target_known g (rl_Target v) ->
  link_edge g node (graph_link v) =
    Some (PublicIP node, target_out (rl_Target v), EdgeRisk (target_load g (rl_Target v)) (rl_PacketLoss v) (rl_AverageLatency v), target_load g (rl_Target v)).
Proof.
  unfold target_known, link_edge, target_out, target_load. cbn [graph_link TargetType TargetIP TargetPort PacketLoss AverageLatency].
  destruct (String.eqb_spec (pt_TargetType (rl_Target v)) "source") as [->|Hn]; [done|]. intros [?|[n Hn']]; [done|]. by rewrite Hn'.
Qed.

Lemma link_key_out g node v key :
  link_key g node (graph_link v) = Some key -> key = edge_key (PublicIP node) (target_out (rl_Target v)).
Proof.
  unfold link_key, link_edge, target_out. cbn [graph_link TargetType TargetIP TargetPort PacketLoss AverageLatency].
  destruct (String.eqb_spec (pt_TargetType (rl_Target v)) "source"); [by intros [= <-]|]. destruct (nodes g !! _); [by intros [= <-]|done].
Qed.

Lemma routing_watch_put g key val create tel :
  json_plain tel -> encode tel = Some val -> routing_watch g (EPut key val create) = AddNode g (node_of tel).
Proof.
  intros Hpl He. destruct (codec_ok _ _ Hpl He) as [Hne Hd]. unfold routing_watch, HandleRoutingWatchEvent. cbn [WatchPrefix].
  destruct (String.eqb_spec val "") as [->|_]; [done|]. rewrite Hd. by destruct create.
Qed.

Lemma nodes_AddNode g node : nodes (AddNode g node) = <[PublicIP node := node]> (nodes g).
Proof. apply (nodes_add_links node). Qed.

(** Links that are filed under different addresses make different edges. *)
Lemma filed_apart g node tel k k' v w :
  map_Forall (fun k v => pt_IP (rl_Target v) = k /\ has_char ":" k = false) (tel_Links tel) ->
  tel_Links tel !! k = Some v -> tel_Links tel !! k' = Some w ->
  link_key g node (graph_link w) = Some (edge_key (PublicIP node) (target_out (rl_Target v))) -> k = k'.
Proof.
  intros Hok Hv Hw Hkey%link_key_out. unfold edge_key in Hkey. apply append_cancel, append_cancel in Hkey.
  destruct (Hok _ _ Hv) as [Hip Hc], (Hok _ _ Hw) as [Hip' Hc']. rewrite <- Hip, <- Hip'. apply target_out_inj; congruence.
Qed.

(** A link to a peer that is not known makes no edge and changes none. *)
Lemma telemetry_no_edge g tel k v :
  map_Forall (fun k v => pt_IP (rl_Target v) = k /\ has_char ":" k = false) (tel_Links tel) ->
  tel_Links tel !! k = Some v ->
  let g' := AddNode g (node_of tel) in
  ~ target_known g' (rl_Target v) -> edges g' !! edge_key (tel_PublicIP tel) (target_out (rl_Target v)) = edges g !! edge_key (tel_PublicIP tel) (target_out (rl_Target v)).
Proof.
  intros Hok Hv g' Hk. set (g0 := mkGraph (edges g) (<[PublicIP (node_of tel) := node_of tel]> (nodes g))).
  assert (Hn : nodes g' = nodes g0) by apply nodes_AddNode.
  unfold g', AddNode. fold g0. change (edges g) with (edges g0). apply add_links_other. intros u Hu Hkey. cbn [node_of LinksCongestion] in Hu.
  apply list_elem_of_fmap in Hu as ([k' w] & -> & Hin). apply elem_of_range_map in Hin. cbn [compose snd] in Hkey.
  pose proof (filed_apart g0 (node_of tel) tel k k' v w Hok Hv Hin Hkey) as <-. rewrite Hv in Hin. injection Hin as <-.
  apply Hk. unfold target_known. rewrite Hn. unfold link_key, link_edge in Hkey. cbn [graph_link TargetType TargetIP TargetPort] in Hkey.
  destruct (String.eqb_spec (pt_TargetType (rl_Target v)) "source"); [by left|]. destruct (nodes g0 !! pt_IP (rl_Target v)) eqn:E; [|done]. right. eauto.
Qed.

(** The edge of one filed link after the telemetry of its node has been added. *)
Lemma telemetry_edge g tel k v :
  map_Forall (fun k v => pt_IP (rl_Target v) = k /\ has_char ":" k = false) (tel_Links tel) ->
  tel_Links tel !! k = Some v ->
  let g' := AddNode g (node_of tel) in
  target_known g' (rl_Target v) ->
  exists e, edges g' !! edge_key (tel_PublicIP tel) (target_out (rl_Target v)) = Some e /\
            EdgeWeight e = EdgeRisk (target_load g' (rl_Target v)) (rl_PacketLoss v) (rl_AverageLatency v).
Proof.
  intros Hok Hv g' Hk. pose proof (range_map_keys (tel_Links tel)) as Hnd. apply elem_of_range_map in Hv as Hin.
  apply list_elem_of_split in Hin as (l1 & l2 & Hl).
  set (g0 := mkGraph (edges g) (<[PublicIP (node_of tel) := node_of tel]> (nodes g))).
  assert (Hn : nodes g' = nodes g0) by apply nodes_AddNode.
  assert (Hk0 : target_known g0 (rl_Target v)) by (unfold target_known in *; by rewrite <- Hn).
  assert (Hload : target_load g' (rl_Target v) = target_load g0 (rl_Target v)) by (unfold target_load; by rewrite Hn).
  unfold g'. change (tel_PublicIP tel) with (PublicIP (node_of tel)). rewrite (AddNode_edge g (node_of tel) ((graph_link ∘ snd) <$> l1) (graph_link v) ((graph_link ∘ snd) <$> l2)
    _ _ _ _ ltac:(cbn [node_of LinksCongestion]; rewrite Hl, fmap_app; done) (graph_link_edge g0 _ v Hk0)).
  - eexists. split; [done|]. fold g'. rewrite Hload. by destruct (edges g !! _).
  - intros v' Hv' Hkey. rewrite <- fmap_app in Hv'. apply list_elem_of_fmap in Hv' as ([k' w] & -> & Hin').
    cbn [compose snd] in Hkey.
    assert (Hw : tel_Links tel !! k' = Some w).
    { apply elem_of_range_map. rewrite Hl. apply elem_of_app in Hin' as [?|?]; apply elem_of_app; [by left|right; by right]. }
    pose proof (filed_apart g0 (node_of tel) tel k k' v w Hok Hv Hw Hkey) as <-.
    rewrite Hl, fmap_app, fmap_cons in Hnd. apply NoDup_app in Hnd as (_ & Hd1 & Hd2). apply NoDup_cons in Hd2 as [Hd2 _].
    apply elem_of_app in Hin' as [Hi|Hi].
    + apply (Hd1 k); [apply list_elem_of_fmap; by exists (k, w)|left].
    + apply Hd2, list_elem_of_fmap. by exists (k, w).
Qed.

(** ** Proofs: watching *)

(** The telemetry that a sequence of events puts. *)
Definition put_tel (e : etcd_event) : option Telemetry :=
  match e with EPut _ v _ => if String.eqb v "" then Some zero_tel else decode v | EDelete _ => None end.

Definition put_last (e : etcd_event) : option LastTelemetry :=
  match e with EPut _ v _ => if String.eqb v "" then Some zero_last else decode v | EDelete _ => None end.

(** Telemetry that makes sense: measured values, addresses that are not empty and hold no [>]. *)
Definition tel_ok (t : Telemetry) : Prop := op_ok (Report (node_of t)) /\ names_ok (Report (node_of t)).

Definition no_empty_node (g : GraphManager) : Prop := nodes g !! "" = None.

Lemma remove_nothing g : graph_names g -> no_empty_node g -> RemoveNode g "" = g.
Proof.
  intros Hn He. destruct g as [es ns]. unfold RemoveNode. cbn [edges nodes] in *. f_equal.
  - apply map_filter_id. intros k e Hke. by destruct (Hn _ _ Hke) as ([? _] & [? _] & _).
  - by apply delete_id.
Qed.

Lemma watch_step g e :
  graph_names g -> no_empty_node g -> routing_watch g e = match put_tel e with Some t => AddNode g (node_of t) | None => g end.
Proof.
  intros Hn He. destruct e as [k v create|k]; unfold routing_watch, HandleRoutingWatchEvent, put_tel; cbn [WatchPrefix].
  - destruct (if String.eqb v "" then Some zero_tel else decode v); [|done]. by destruct create.
  - by apply remove_nothing.
Qed.

Lemma AddNode_keeps g t :
  tel_ok t -> graph_ok g -> graph_names g -> no_empty_node g ->
  graph_ok (AddNode g (node_of t)) /\ graph_names (AddNode g (node_of t)) /\ no_empty_node (AddNode g (node_of t)).
Proof.
  intros [Ho Hna] Hg Hn He. split_and!; [by apply AddNode_ok|by apply (apply_op_names g (Report _))|].
  unfold no_empty_node. rewrite nodes_AddNode, lookup_insert_ne; [done|]. by destruct Hna as [[? _] _].
Qed.

Lemma watch_adds g events :
  graph_ok g -> graph_names g -> no_empty_node g -> Forall tel_ok (omap put_tel events) ->
  foldl routing_watch g events = foldl AddNode g (node_of <$> omap put_tel events) /\
  graph_ok (foldl routing_watch g events) /\ graph_names (foldl routing_watch g events) /\ no_empty_node (foldl routing_watch g events).
Proof.
  revert g. induction events as [|e events IH]; intros g Hg Hn He Hok; [done|]. cbn [foldl]. rewrite watch_step by done.
  cbn [omap list_omap] in *. destruct (put_tel e) as [t|]; [|by apply IH]. apply Forall_cons in Hok as [Ht Hok].
  destruct (AddNode_keeps g t Ht Hg Hn He) as (? & ? & ?). by apply IH.
Qed.

Lemma nodes_kept g l t : t ∈ l \/ is_Some (nodes g !! tel_PublicIP t) -> is_Some (nodes (foldl AddNode g (node_of <$> l)) !! tel_PublicIP t).
Proof.
  revert g. induction l as [|t' l IH]; intros g Hin; [by destruct Hin as [?%not_elem_of_nil|]|]. cbn [fmap list_fmap foldl]. apply IH.
  rewrite nodes_AddNode, elem_of_cons in *. cbn [node_of PublicIP]. rewrite lookup_insert_is_Some'. destruct Hin as [[->|?]|?]; auto.
Qed.

Lemma last_watch_nodes s e :
  nodeLast (l_stats s) !! "" = None ->
  nodeLast (l_stats (last_watch s e)) = match put_last e with Some t => nodeLast (AddOrUpdateNode (l_stats s) t) | None => nodeLast (l_stats s) end /\
  nodeLast (l_stats (last_watch s e)) !! "" = None.
Proof.
  intros He. destruct e as [k v create|k]; unfold last_watch, HandleLastWatchEvent, put_last; cbn [WatchPrefix].
  - assert (Hadd : forall t, nodeLast (AddOrUpdateNode (l_stats s) t) !! "" = None).
    { intros t. unfold AddOrUpdateNode. destruct (String.eqb_spec (lt_IP t) ""); [done|]. cbn [nodeLast]. by rewrite lookup_insert_ne. }
    destruct (if String.eqb v "" then Some zero_last else decode v); [|done]. destruct create; (split; [done|apply Hadd]).
  - cbn. by rewrite delete_id.
Qed.

Lemma last_kept l s t :
  nodeLast (l_stats s) !! "" = None -> t ∈ omap put_last l \/ is_Some (nodeLast (l_stats s) !! lt_IP t) -> lt_IP t <> "" ->
  is_Some (nodeLast (l_stats (foldl last_watch s l)) !! lt_IP t).
Proof.
  revert s. induction l as [|e l IH]; intros s Hg Hin Hne; [by destruct Hin as [?%not_elem_of_nil|]|]. cbn [foldl].
  destruct (last_watch_nodes s e Hg) as [Hs Hs']. apply IH; [done| |done]. cbn [omap list_omap] in Hin. rewrite Hs.
  destruct (put_last e) as [t'|]; [|done]. unfold AddOrUpdateNode. rewrite elem_of_cons in Hin.
  destruct (String.eqb_spec (lt_IP t') "") as [He|He]; cbn [nodeLast]; rewrite ?lookup_insert_is_Some';
    destruct Hin as [[->|?]|?]; auto; done.
Qed.

(** What the reports of one node come to while no other report of it is seen. *)
Definition no_report_of (ip : string) (ev : last_event) : Prop :=
  match ev with SeeEvent e => forall t, put_last e = Some t -> lt_IP t <> ip /\ has_char "-" (lt_IP t) = false | _ => True end.

Record report_held (ip : string) (node : LastTelemetry) (s : last_state) : Prop := {
  rh_ok : stats_ok (l_stats s);
  rh_empty : nodeLast (l_stats s) !! "" = None;
  rh_node : nodeLast (l_stats s) !! ip = Some node;
  rh_read : Forall (fun r => forall m, r = Some m -> stats_ok (mkStats m ∅) /\ m !! ip = Some node) (l_rebuilds s);
  rh_table : l_rebuilds s = [] -> forall city, edgeAgg (l_stats s) !! agg_key city ip = (v ← LastsCongestion node !! city; Some (summary v))
}.

Lemma last_step_held ip node s ev s' :
  has_char "-" ip = false -> report_held ip node s -> no_report_of ip ev -> last_step s ev = Next s' -> report_held ip node s'.
Proof.
  intros Hd [Hok He Hn Hr Ht] Hev. destruct ev as [e|k|k]; cbn [last_step].
  - intros [= <-]. destruct (last_watch_nodes s e He) as [Hl Hl']. cbn in Hev.
    assert (Hnodes : stats_ok (l_stats (last_watch s e)) /\ nodeLast (l_stats (last_watch s e)) !! ip = Some node).
    { unfold stats_ok. rewrite Hl. destruct (put_last e) as [t|]; [|done]. destruct (Hev t eq_refl) as [Hne Hdash]. unfold AddOrUpdateNode.
      destruct (String.eqb (lt_IP t) ""); [done|]. cbn [nodeLast]. rewrite lookup_insert_ne by done. split; [by apply map_Forall_insert_2|done]. }
    destruct Hnodes as [Hs1 Hs2]. unfold last_watch in *. destruct (WatchPrefix e) as [[ty key] val]. unfold HandleLastWatchEvent in *.
    constructor; [exact Hs1|exact Hl'|exact Hs2| |].
    + repeat case_match; simplify_eq; apply Forall_app; (split; [exact Hr|]); repeat constructor; done.
    + intros Hnil. repeat case_match; simplify_eq; cbn [l_stats l_rebuilds] in *; try (by apply app_eq_nil in Hnil as [_ ?]); rewrite app_nil_r in Hnil; by apply Ht.
  - destruct (l_rebuilds s !! k) as [[m|]|] eqn:Ek; [done| |done]. intros [= <-]. constructor; try done; cbn [l_stats l_rebuilds].
    + apply Forall_insert; [done|]. intros m [= <-]. done.
    + intros Hnil. apply (f_equal length) in Hnil. rewrite length_insert in Hnil. apply lookup_lt_Some in Ek. simpl in Hnil. lia.
  - destruct (l_rebuilds s !! k) as [[m|]|] eqn:Ek; [|done|done]. intros [= <-].
    destruct (Forall_lookup_1 _ _ _ _ Hr Ek m eq_refl) as [Hmok Hm]. constructor; try done; cbn [l_stats l_rebuilds edgeAgg].
    + by apply Forall_delete.
    + intros _ city. pose proof (rebuild_lookup (mkStats m ∅) city ip Hmok Hd) as Hx. cbn [rebuildAggregate edgeAgg nodeLast] in Hx. rewrite Hx, Hm. done.
Qed.

Lemma last_run_held ip node s evs s' :
  has_char "-" ip = false -> report_held ip node s -> Forall (no_report_of ip) evs -> last_run s evs = Next s' -> report_held ip node s'.
Proof.
  intros Hd Hs He. revert s Hs. induction He as [|ev evs He _ IH]; intros s Hs; cbn [last_run]; [by intros [= <-]|].
  intros (s1 & Hs1 & Hr)%obind_Next. apply (IH s1); [by eapply last_step_held|done].
Qed.

Lemma load_nodes_ok nodeMap :
  map_Forall (fun _ v => forall t, decode v = Some t -> tel_ok t) nodeMap ->
  graph_ok (load_nodes nodeMap) /\ graph_names (load_nodes nodeMap) /\ no_empty_node (load_nodes nodeMap).
Proof.
  intros Hok. unfold load_nodes.
  assert (Hl : Forall (fun kv : string * string => forall t, decode kv.2 = Some t -> tel_ok t) (range_map nodeMap)).
  { apply Forall_forall. intros [k v] Hin. apply elem_of_range_map in Hin. exact (Hok _ _ Hin). }
  assert (Hz : graph_ok NewGraphManager /\ graph_names NewGraphManager /\ no_empty_node NewGraphManager).
  { destruct (ops_ok [] (Forall_nil_2 _)). done. }
  revert Hz. generalize NewGraphManager as g. induction Hl as [|[k v] l Hv Hl IH]; intros g Hg; [done|]. cbn [foldl snd] in *.
  apply IH. destruct (decode v) as [t|]; [|done]. destruct Hg as (? & ? & ?). apply AddNode_keeps; auto.
Qed.

(** A round of probes keeps the results filed under the addresses of their targets. *)
Lemma update_results_ok m results :
  results_ok m -> Forall (fun r => has_char ":" (pt_IP (Target r)) = false) results -> results_ok (updateLatestResults m results).
Proof.
  intros Hm Hr. unfold updateLatestResults. revert m Hm. induction Hr as [|r results Hr Hrs IH]; intros m Hm; [done|]. cbn [foldl].
  by apply IH, map_Forall_insert_2.
Qed.

(** ** Properties *)

(** Two targets at one address: only the result of the one that was probed last is kept, whatever
    their ports. *)
Theorem same_ip_targets_collide t1 t2 l1 l2 m :
  pt_IP t1 = pt_IP t2 ->
  updateLatestResults m [probe t1 l1; probe t2 l2] = <[pt_IP t2 := probe t2 l2]> m.
Proof. intros Hip. unfold updateLatestResults. cbn [foldl probe Target]. by rewrite Hip, insert_insert_eq. Qed.

(** What a report is turned into: the telemetry of the reporting node has one link for every
    target address of the report, with the target of the first measurement of that address and the
    means of all its losses and latencies; no measurement is left out or counted twice. *)
Theorem DoClusterWeightedAvg_spec cfg report k :
  tel_Links (DoClusterWeightedAvg cfg report) !! k =
    match of_target k (LinkReports report) with
    | [] => None
    | v :: vs => Some (mkRL k (rl_Target v) (mean (rl_PacketLoss <$> v :: vs)) (mean (rl_AverageLatency <$> v :: vs)))
    end.
Proof. apply telemetry_groups. Qed.

(** C11. From a probe to the graph: a node probes its targets (each result is filed under the address of its target, which holds
    no colon), reports its results to its control plane and the report is accepted and stored (its strings are valid UTF-8); when the watch of any control plane
    sees the stored value, its graph has the edge from the address that the control plane is configured with to the target, weighted
    with the risk of the measured loss and latency and of the load of the peer, for an origin or a peer that is known; for a peer that is
    not known there is no new edge, and an edge that exists stays as it is. *)
Theorem probe_reaches_graph cfg now uuid report latest data put g create ip r :
  results_ok latest -> latest !! ip = Some r ->
  LinkReports report = BuildLinkCongestion latest -> json_plain (DoClusterWeightedAvg cfg (complete now uuid report)) ->
  PostVMReceive true true cfg now uuid (Some report) = (200, data, [put]) ->
  let g' := routing_watch g (EPut (put_key put) (put_val put) create) in
  let key := edge_key (nc_Public cfg) (target_out (Target r)) in
  (target_known g' (Target r) ->
   exists e, edges g' !! key = Some e /\
             EdgeWeight e = EdgeRisk (target_load g' (Target r)) (mean [LossRate r]) (mean [of_Z (Z.quot (AvgRTT r) 1000000)])) /\
  (~ target_known g' (Target r) -> edges g' !! key = edges g !! key).
Proof.
  intros Hok Hr Hl Hpl Hp g' key. unfold PostVMReceive in Hp. destruct (0 <? length (validate report))%nat; [done|].
  injection Hp as _ Hp. unfold push_telemetry in Hp.
  set (tel := DoClusterWeightedAvg cfg (complete now uuid report)) in Hp. destruct (encode tel) as [val|] eqn:He; [|done].
  injection Hp as <-.
  assert (Hg' : g' = AddNode g (node_of tel)) by exact (routing_watch_put g _ val create tel Hpl He).
  pose proof (telemetry_links cfg (complete now uuid report) latest Hl) as Ht. fold tel in Ht.
  assert (Hlk : tel_Links tel !! ip = Some (result_link ip r)) by (by rewrite Ht, map_lookup_imap, Hr).
  assert (Hall : map_Forall (fun k v => pt_IP (rl_Target v) = k /\ has_char ":" k = false) (tel_Links tel)).
  { rewrite Ht. intros k v Hv. rewrite map_lookup_imap in Hv. apply bind_Some in Hv as (r' & Hr' & [= <-]). exact (Hok _ _ Hr'). }
  rewrite Hg'. split; [exact (telemetry_edge g tel ip (result_link ip r) Hall Hlk)|exact (telemetry_no_edge g tel ip (result_link ip r) Hall Hlk)].
Qed.

(** A target that nothing reaches gets the best weight there is: when every one of the five
    attempts times out, the average round trip is reported as 0 ms, and the loss of 100% has the
    weight 0 in the risk of the edge, so the risk is 0. *)
Theorem timed_out_link_is_free t :
  Pow fzero latPower = fzero ->
  let r := probe t [TimedOut; TimedOut; TimedOut; TimedOut; TimedOut] in
  LossRate r = fone /\ EdgeRisk fzero (mean [LossRate r]) (mean [of_Z (Z.quot (AvgRTT r) 1000000)]) = fzero.
Proof.
  intros Hp r. split; [vm_compute; reflexivity|].
  change (mean [LossRate r]) with fone. change (mean [of_Z (Z.quot (AvgRTT r) 1000000)]) with fzero.
  unfold EdgeRisk. replace (lat_risk fzero) with fzero by exact (eq_sym Hp). vm_compute. reflexivity.
Qed.

(** Whatever sequence of events the watches see, deletions change nothing: etcd sends no value
    with them and the handlers look for the address of the node in the value.  The graph is the one
    that the puts alone make, and every node that ever reported stays in it, and in the statistics,
    after its lease has expired. *)
Theorem expired_nodes_stay events levents :
  Forall tel_ok (omap put_tel events) ->
  foldl routing_watch NewGraphManager events = foldl AddNode NewGraphManager (node_of <$> omap put_tel events) /\
  (forall t, t ∈ omap put_tel events -> is_Some (nodes (foldl routing_watch NewGraphManager events) !! tel_PublicIP t)) /\
  (forall t, t ∈ omap put_last levents -> lt_IP t <> "" -> is_Some (nodeLast (l_stats (foldl last_watch (mkLast NewGlobalStats []) levents)) !! lt_IP t)).
Proof.
  intros Hok. destruct (ops_ok [] (Forall_nil_2 _)) as [Hg0 Hn0].
  destruct (watch_adds NewGraphManager events Hg0 Hn0 eq_refl Hok) as [Heq _]. split_and!; [done| |].
  - intros t Ht. rewrite Heq. apply nodes_kept. by left.
  - intros t Ht Hne. apply last_kept; auto.
Qed.

(** C8. A control plane answers route requests at any time: from etcd and watch events that hold telemetry with measured values and
    proper addresses, a request that cannot be parsed or names an unknown port is answered with 400, a request for an
    algorithm other than [k_shortest] (the default) and [live_style] panics, and every other request is answered with 200 and at most three
    (two) different simple paths over the current graph, in order of non-decreasing cost (round trip), none only when an end
    point is on no link or is cut off (or every candidate has more than ten hops). *)
Theorem control_plane_answers nodeMap events targets body algorithm :
  map_Forall (fun _ v => forall t, decode v = Some t -> tel_ok t) nodeMap ->
  Forall tel_ok (omap put_tel events) ->
  let g := foldl routing_watch (load_nodes nodeMap) events in
  match body with
  | None => GetMiddleRoute targets g body algorithm = Ret (400, None)
  | Some (source, dest) =>
      match targets !! ep_Port dest with
      | None => GetMiddleRoute targets g body algorithm = Ret (400, None)
      | Some v =>
          let algorithm' := if String.eqb algorithm "" then "k_shortest" else algorithm in
          exists answer, middle_answer g (ep_IP source) (target_dest v) algorithm' answer /\
            GetMiddleRoute targets g body algorithm = go_bind answer (fun paths => Ret (200, Some paths))
      end
  end.
Proof.
  intros Hm He g. destruct (load_nodes_ok nodeMap Hm) as (Hg0 & Hn0 & Hz0).
  destruct (watch_adds _ events Hg0 Hn0 Hz0 He) as (_ & Hg & Hn & _). fold g in Hg, Hn.
  destruct body as [[source dest]|]; [|done]. cbn [GetMiddleRoute]. destruct (targets !! ep_Port dest) as [v|]; [|done]. cbv zeta.
  replace (String.length algorithm <=? 0)%nat with (String.eqb algorithm "") by (by destruct algorithm).
  eexists. split; [by apply MiddleRouting_ok|done].
Qed.
End Properties.

(** ** Instances *)

#[global] Instance ProbeTask_eq_dec : EqDecision ProbeTask.
Proof. solve_decision. Defined.
#[global] Instance ReportLink_eq_dec : EqDecision ReportLink.
Proof. solve_decision. Defined.
#[global] Instance CPUInfo_eq_dec : EqDecision CPUInfo.
Proof. solve_decision. Defined.
#[global] Instance Telemetry_eq_dec : EqDecision Telemetry.
Proof. solve_decision. Defined.
#[global] Instance LastCongestion_eq_dec : EqDecision LastCongestion.
Proof. solve_decision. Defined.
#[global] Instance LastTelemetry_eq_dec : EqDecision LastTelemetry.
Proof. solve_decision. Defined.

(** A codec for the examples: the text ["{}"] for one value. *)
Definition one_codec {T} `{EqDecision T} (v : T) : Codec T.
Proof.
  refine {| encode t := if decide (t = v) then Some "{}" else None; decode s := if String.eqb s "{}" then Some v else None; json_plain _ := True |}.
  intros t s _ Ht. destruct (decide (t = v)) as [->|]; [|done]. injection Ht as <-. done.
Defined.

#[global] Instance one_remarshal {T} `{EqDecision T} (v : T) : @Remarshal T (one_codec v).
Proof. refine {| remarshal s := Some s |}. intros t s Hp He. exists s. split; [done|]. by apply (@codec_ok _ (one_codec v)). Defined.

Definition sample_cfg : NodeConfig := ModuleConfig.mkNode "gcp" "EU" "DE" "Berlin" (ModuleConfig.mkNodeIP "192.168.0.1" "10.0.0.1").
Definition sample_task : ProbeTask := mkTask "source" "aws" "10.0.0.9" 8080 "EU" "s1".
Definition sample_latest : gmap string Result :=
  updateLatestResults ∅ [probe sample_task [Connected 74000000; TimedOut; Refused 76000000; Connected 75000000; Connected 75000000]].
Definition sample_vm : VMReport :=
  mkReport "vm1" 0 "" (mkCPU 2 2 (of_Z 20) (of_Z 1) fzero) 1024 "10.0.0.1" (-1) (@BuildLinkCongestion key_order sample_latest).
Definition sample_tel : Telemetry := Eval vm_compute in DoClusterWeightedAvg sample_cfg sample_vm.
Definition tel_codec : Codec Telemetry := one_codec sample_tel.
Definition last_codec : Codec LastTelemetry := one_codec (mkLT ∅ "10.0.0.1" "EU" "DE" "Berlin").

Lemma sample_tel_ok : @tel_ok key_order sample_tel.
Proof.
  unfold tel_ok. assert (Hn : @node_of key_order sample_tel =
    mkNode "10.0.0.1" "gcp" "EU" "DE" "Berlin" (of_Z 20) (mkCPU 2 2 (of_Z 20) (of_Z 1) fzero) [mkLink "source" "10.0.0.9" 8080 (lit 1 5) (of_Z 75)])
    by (vm_compute; reflexivity).
  rewrite Hn. clear Hn. split; (split; [by vm_compute|]); (apply Forall_cons_2; [by vm_compute|apply Forall_nil_2]).
Qed.

Lemma sample_put_ok t : @decode _ tel_codec "{}" = Some t -> @tel_ok key_order t.
Proof. cbn. intros [= <-]. exact sample_tel_ok. Qed.

Lemma probe_reaches_graph_witness :
  let g' := @routing_watch toy_math key_order tel_codec NewGraphManager (EPut "/routing-middle/10.0.0.1" "{}" true) in
  exists e, edges g' !! "10.0.0.1->10.0.0.9:8080" = Some e /\ EdgeWeight e = lit 1 4.
Proof.
  intros g'.
  destruct (@probe_reaches_graph toy_math key_order tel_codec sample_cfg 7 "id" sample_vm sample_latest (Some ("id", 7))
    (mkPut "/routing-middle/10.0.0.1" "{}" 60) NewGraphManager true "10.0.0.9"
    (probe sample_task [Connected 74000000; TimedOut; Refused 76000000; Connected 75000000; Connected 75000000])) as [Hknown _].
  - intros k r Hr. unfold sample_latest, updateLatestResults in Hr. cbn [foldl] in Hr. apply lookup_insert_Some in Hr as [[<- <-]|[_ Hr]]; [done|].
    by apply lookup_empty_Some in Hr.
  - reflexivity.
  - reflexivity.
  - exact I.
  - vm_compute. reflexivity.
  - destruct Hknown as (e & He & Hw); [by left|]. exists e. split; [exact He|]. rewrite Hw. vm_compute. reflexivity.
Defined.

Lemma timed_out_link_is_free_witness :
  @EdgeRisk toy_math fzero fone fzero = fzero.
Proof.
  destruct (@timed_out_link_is_free toy_math sample_task eq_refl) as [_ Hr]. exact Hr.
Defined.

Lemma expired_nodes_stay_witness :
  is_Some (nodes (foldl (@routing_watch toy_math key_order tel_codec) NewGraphManager
    [EPut "/routing-middle/10.0.0.1" "{}" true; EDelete "/routing-middle/10.0.0.1"]) !! "10.0.0.1").
Proof.
  destruct (@expired_nodes_stay toy_math key_order tel_codec last_codec
    [EPut "/routing-middle/10.0.0.1" "{}" true; EDelete "/routing-middle/10.0.0.1"] []) as (_ & Hs & _).
  - constructor; [exact sample_tel_ok|constructor].
  - apply (Hs sample_tel). by left.
Defined.

Lemma control_plane_answers_witness :
  @GetMiddleRoute key_order (LoadSourceTargets [mkST 9000 "aws" "10.0.0.9" 8080 "EU" "s1"])
    (foldl (@routing_watch toy_math key_order tel_codec) (@load_nodes toy_math key_order tel_codec ∅) [EPut "/routing-middle/10.0.0.1" "{}" true])
    (Some (mkEnd "10.0.0.1" 0 "" "" "" "", mkEnd "" 9000 "" "" "" "")) "" <> Panic.
Proof.
  pose proof (@control_plane_answers toy_math key_order tel_codec ∅ [EPut "/routing-middle/10.0.0.1" "{}" true]
    (LoadSourceTargets [mkST 9000 "aws" "10.0.0.9" 8080 "EU" "s1"])
    (Some (mkEnd "10.0.0.1" 0 "" "" "" "", mkEnd "" 9000 "" "" "" "")) ""
    (map_Forall_empty _) (Forall_cons_2 _ _ _ sample_tel_ok (Forall_nil_2 _))) as (answer & Ha & Hb).
  intros Hp. rewrite Hp in Hb. destruct answer as [a|]; [discriminate Hb|]. by destruct Ha.
Defined.

End ControlPlane.
