(* ===== verification/ControlStart.v ===== *)
(** * The start of a control plane (control-plane/main.go, sync/, util/safe-map.go)

    - [EtcdCluster]: how the members of the embedded etcd cluster are named (etcd_server.go, main.go);
    - [Replica]: the state of a control plane as a replica of etcd: the load at the start and the watch
      that follows it (main.go, etcd_client.go);
    - [ControlStart]: the decisions of [main];
    - [SafeMap]: the map of util/safe-map.go. *)

From Stdlib Require Import ZArith Lia SpecFloat Ascii String.
From stdpp Require Import base list gmap strings pretty.
From S2P Require Import Prelude F64 GoStrings Graph Stats Routing Packet Tunnel Aggregator ModuleConfig ControlPlane.
Import Graph Stats Routing ControlPlane.

Module EtcdCluster.

(** [strings.ReplaceAll(s, ".", "-")] *)
Fixpoint dots_to_dashes (s : string) : string :=
  match s with
  | EmptyString => ""
  | String c s => String (if Ascii.eqb c "." then "-"%char else c) (dots_to_dashes s)
  end.

(** The name of a member, in [main] and in [StartEmbeddedEtcd]. *)
Definition nodeName (ip : string) : string := "etcd-" +:+ dots_to_dashes ip.

(** The fields of [embed.Config] that are set. *)
Record etcd_config := mkEtcd {
  Dir : string; Name : string;
  ListenClientUrls : string; ListenPeerUrls : string; AdvertiseClientUrls : string; AdvertisePeerUrls : string;
  InitialCluster : string; ClusterState : string
}.

Definition cluster_entry (ip : string) : string := nodeName ip +:+ "=http://" +:+ ip +:+ ":2380".

Definition StartEmbeddedEtcd (serverList : list string) (serverIP dataDir name : string) : etcd_config :=
  mkEtcd dataDir name "http://0.0.0.0:2379" "http://0.0.0.0:2380" ("http://" +:+ serverIP +:+ ":2379") ("http://" +:+ serverIP +:+ ":2380")
    (Join (cluster_entry <$> serverList) ",") "new".

(** The configuration of a client; durations in nanoseconds.  The connection is made before the client is
    returned, without transport security. *)
Record client_config := mkClient {
  Endpoints : list string; DialTimeout : Z; AutoSyncInterval : Z; DialKeepAliveTime : Z; DialKeepAliveTimeout : Z; WithBlock : bool; Insecure : bool
}.

Definition NewEtcdClient (endpoints : list string) (dialTimeout : Z) : client_config :=
  mkClient endpoints dialTimeout (10 * 1000000000) (5 * 1000000000) (3 * 1000000000) true true.

(** ** Proofs *)

Lemma dots_to_dashes_inj s t : has_char "-" s = false -> has_char "-" t = false -> dots_to_dashes s = dots_to_dashes t -> s = t.
Proof.
  revert t. induction s as [|c s IH]; intros [|d t] Hs Ht He; try done. cbn in *. apply orb_false_iff in Hs as [Hc Hs]. apply orb_false_iff in Ht as [Hd Ht].
  injection He as Hcd He. rewrite (IH t Hs Ht He). f_equal.
  destruct (Ascii.eqb_spec c "."), (Ascii.eqb_spec d "."); subst; try done; by apply Ascii.eqb_neq in Hc || by apply Ascii.eqb_neq in Hd.
Qed.

Lemma nodeName_inj s t : has_char "-" s = false -> has_char "-" t = false -> nodeName s = nodeName t -> s = t.
Proof. intros Hs Ht He. apply dots_to_dashes_inj; [done|done|]. unfold nodeName in He. by apply append_cancel in He. Qed.

Lemma has_char_dots c s : c <> "-"%char -> has_char c s = false -> has_char c (dots_to_dashes s) = false.
Proof.
  intros Hc. induction s as [|d s IH]; [done|]. cbn. rewrite !orb_false_iff. intros [Hd Hs]. split; [|by apply IH].
  destruct (Ascii.eqb_spec d "."); [by apply Ascii.eqb_neq|done].
Qed.


End EtcdCluster.

Module Replica.

(** ** Etcd as the history of its events *)

Definition key_of (e : etcd_event) : string := match e with EPut k _ _ => k | EDelete k => k end.

Definition apply_event (m : gmap string string) (e : etcd_event) : gmap string string :=
  match e with EPut k v _ => <[k := v]> m | EDelete k => delete k m end.

Definition contents (hist : list etcd_event) : gmap string string := foldl apply_event ∅ hist.

(** [PutKey], [DeleteKey]: the events they cause; an error of etcd is only logged. *)
Definition PutKey (ok : bool) (hist : list etcd_event) (key value : string) : list etcd_event :=
  if ok then [EPut key value (bool_decide (contents hist !! key = None))] else [].

Definition DeleteKey (ok : bool) (hist : list etcd_event) (key : string) : list etcd_event :=
  if ok then (if bool_decide (is_Some (contents hist !! key)) then [EDelete key] else []) else [].

(** [GetPrefixAll]: [None] is an error; no key at all is the nil map. *)
Definition GetPrefixAll (ok : bool) (prefix : string) (hist : list etcd_event) : option (gmap string string) :=
  if ok then Some (filter (fun kv => String.prefix prefix kv.1 = true) (contents hist)) else None.

(** [GetKey]: the pairs that are logged. *)
Definition GetKey (ok : bool) (key : string) (hist : list etcd_event) : list (string * string) :=
  if ok then match contents hist !! key with Some v => [(key, v)] | None => [] end else [].

Lemma contents_snoc hist e : contents (hist ++ [e]) = apply_event (contents hist) e.
Proof. unfold contents. by rewrite foldl_app. Qed.

(** A key that was put is read back with its value, other keys are as before; a key that was deleted is
    gone, and only a key that exists causes an event of its deletion. *)
Theorem key_round_trip hist key value other :
  GetKey true key (hist ++ PutKey true hist key value) = [(key, value)] /\
  (other <> key -> GetKey true other (hist ++ PutKey true hist key value) = GetKey true other hist) /\
  GetKey true key (hist ++ DeleteKey true hist key) = [] /\
  (DeleteKey true hist key = [] <-> GetKey true key hist = []).
Proof.
  unfold GetKey, PutKey, DeleteKey. rewrite contents_snoc. cbn [apply_event]. rewrite lookup_insert_eq. split_and!; [done| | |].
  - intros Hne. by rewrite lookup_insert_ne.
  - destruct (contents hist !! key) as [v|] eqn:E.
    + rewrite bool_decide_eq_true_2 by eauto. rewrite contents_snoc. cbn [apply_event]. by rewrite lookup_delete_eq.
    + rewrite bool_decide_eq_false_2 by (by intros []). by rewrite app_nil_r, E.
  - destruct (contents hist !! key) as [v|]; [rewrite bool_decide_eq_true_2 by eauto|rewrite bool_decide_eq_false_2 by (by intros [])]; done.
Qed.

Section Replica.
Context `{GoMath} `{RangeMap} `{Codec Telemetry} `{Codec LastTelemetry}.

Definition middle_prefix : string := "/routing-middle/".

Definition watched (prefix : string) (hist : list etcd_event) : list etcd_event := filter (fun e => String.prefix prefix (key_of e) = true) hist.

(** The graph of a control plane: [main] reads the contents after [n1] events of the history, and its
    watch is registered after [n2]. *)
Definition replica (ok : bool) (hist : list etcd_event) (n1 n2 : nat) : GraphManager :=
  foldl routing_watch (load_nodes (default ∅ (GetPrefixAll ok middle_prefix (take n1 hist)))) (watched middle_prefix (drop n2 hist)).

(** ** Proofs *)

Lemma contents_from m hist k v :
  foldl apply_event m hist !! k = Some v ->
  (m !! k = Some v /\ Forall (fun e => key_of e <> k) hist) \/ exists c, EPut k v c ∈ hist.
Proof.
  revert m. induction hist as [|e hist IH]; intros m Hv; [by left|]. cbn [foldl] in Hv.
  destruct (IH _ Hv) as [[Hm Hf]|[c Hc]]; [|right; exists c; by right]. destruct e as [k' v' c|k']; cbn [apply_event] in Hm.
  - apply lookup_insert_Some in Hm as [[-> ->]|[Hne Hm]]; [right; exists c; left|left; split; [done|by constructor]].
  - apply lookup_delete_Some in Hm as [Hne Hm]. left. split; [done|by constructor].
Qed.

Lemma contents_put hist k v : contents hist !! k = Some v -> exists c, EPut k v c ∈ hist.
Proof. intros Hv. destruct (contents_from _ _ _ _ Hv) as [[Hm _]|Hc]; [by rewrite lookup_empty in Hm|done]. Qed.

Lemma load_has nodeMap k v t :
  nodeMap !! k = Some v -> decode v = Some t -> is_Some (nodes (load_nodes nodeMap) !! tel_PublicIP t).
Proof.
  intros Hk Hd. unfold load_nodes.
  assert (Hin : (k, v) ∈ range_map nodeMap \/ is_Some (nodes NewGraphManager !! tel_PublicIP t)) by (left; by apply elem_of_range_map).
  revert Hin. generalize NewGraphManager. induction (range_map nodeMap) as [|[k' v'] l IH]; intros g Hin; [by destruct Hin as [?%not_elem_of_nil|]|].
  cbn [foldl snd]. apply IH. rewrite elem_of_cons in Hin. destruct Hin as [[[= <- <-]|Hin]|Hin]; [|by left|].
  - right. rewrite Hd, nodes_AddNode. apply lookup_insert_is_Some'. by left.
  - right. destruct (decode v'); [|done]. rewrite nodes_AddNode. apply lookup_insert_is_Some'. by right.
Qed.

(** Every value that was ever put under the prefix is telemetry that makes sense. *)
Definition puts_ok (hist : list etcd_event) : Prop :=
  forall k v c, EPut k v c ∈ hist -> v <> "" /\ forall t, decode v = Some t -> tel_ok t.

Lemma watched_ok hist : puts_ok hist -> Forall tel_ok (omap put_tel (watched middle_prefix hist)).
Proof.
  intros Hok. apply Forall_forall. intros t (e & He & Hp)%list_elem_of_omap. apply list_elem_of_filter in He as [_ He].
  destruct e as [k v c|k]; [|done]. destruct (Hok k v c He) as [Hv Hd]. cbn in Hp. rewrite (proj2 (String.eqb_neq _ _) Hv) in Hp. by apply Hd.
Qed.

(** C20. A control plane whose load of etcd succeeds holds every node that is in etcd, when no value that was put is empty and the telemetry among them has measured values, provided nothing was put between its load and
    its watch: for any history of etcd, any moment [n1] of the load and [n2] of the registration of the watch, a node whose
    telemetry is what etcd now holds under some key is in the graph unless an event of that key fell between the two. *)
Theorem replica_complete hist n1 n2 k v t :
  (n1 <= n2)%nat -> puts_ok hist -> contents hist !! k = Some v -> String.prefix middle_prefix k = true -> decode v = Some t ->
  Forall (fun e => key_of e <> k) (drop n1 (take n2 hist)) ->
  is_Some (nodes (replica true hist n1 n2) !! tel_PublicIP t).
Proof.
  intros Hn Hok Hv Hp Hd Hgap. assert (Hsub : forall n e, e ∈ take n hist \/ e ∈ drop n hist -> e ∈ hist).
  { intros n e He. rewrite <- (take_drop n hist). by apply elem_of_app. }
  set (nodeMap := default ∅ (GetPrefixAll true middle_prefix (take n1 hist))).
  assert (Hmap : forall k' v', nodeMap !! k' = Some v' <-> contents (take n1 hist) !! k' = Some v' /\ String.prefix middle_prefix k' = true)
    by (intros k' v'; apply map_lookup_filter_Some).
  destruct (load_nodes_ok nodeMap) as (Hg & Hna & Hz).
  { intros k' v' [Hk' _]%Hmap. apply contents_put in Hk' as [c Hc]. apply (Hok k' v' c), (Hsub n1). by left. }
  destruct (watch_adds (load_nodes nodeMap) (watched middle_prefix (drop n2 hist)) Hg Hna Hz) as [Heq _].
  { apply watched_ok. intros k' v' c He. apply (Hok k' v' c), (Hsub n2). by right. }
  unfold replica. fold nodeMap. rewrite Heq. apply nodes_kept.
  assert (Hsplit : hist = take n1 hist ++ drop n1 (take n2 hist) ++ drop n2 hist).
  { rewrite app_assoc. replace (take n1 hist) with (take n1 (take n2 hist)) by (rewrite take_take; f_equal; lia). by rewrite take_drop, take_drop. }
  unfold contents in Hv. rewrite Hsplit, !foldl_app in Hv. destruct (contents_from _ _ _ _ Hv) as [[Hm _]|[c Hc]].
  - right. destruct (contents_from _ _ _ _ Hm) as [[Hm1 _]|[c Hc]]; [eapply load_has; [by apply Hmap|done]|].
    rewrite Forall_forall in Hgap. by destruct (Hgap _ Hc).
  - left. apply list_elem_of_omap. exists (EPut k v c). split; [by apply list_elem_of_filter|]. cbn.
    destruct (Hok k v c) as [Hne _]; [apply (Hsub n2); by right|]. by rewrite (proj2 (String.eqb_neq _ _) Hne).
Qed.

(** What is put between the load and the registration of the watch is not seen until it is put again. *)
Theorem watch_gap_loses k v create : replica true [EPut k v create] 0 1 = NewGraphManager.
Proof.
  unfold replica, GetPrefixAll, watched. cbn [take drop default contents foldl]. rewrite map_filter_empty. unfold load_nodes, id.
  assert (Hr : range_map (∅ : gmap string string) = []) by (apply Permutation_nil_r; rewrite range_map_perm; by rewrite map_to_list_empty).
  by rewrite Hr.
Qed.
End Replica.

Definition sample_history : list etcd_event := [EPut "/routing-middle/10.0.0.1" "{}" true; EDelete "/routing-last/10.0.0.1"].

Lemma replica_complete_witness :
  is_Some (nodes (@replica toy_math key_order tel_codec true sample_history 0 0) !! tel_PublicIP sample_tel).
Proof.
  apply (@replica_complete toy_math key_order tel_codec sample_history 0 0 "/routing-middle/10.0.0.1" "{}" sample_tel).
  - lia.
  - intros k v c Hin. unfold sample_history in Hin. rewrite !elem_of_cons, elem_of_nil in Hin. destruct Hin as [[= -> -> ->]|[[=]|[]]].
    split; [done|]. apply sample_put_ok.
  - vm_compute. reflexivity.
  - vm_compute. reflexivity.
  - vm_compute. reflexivity.
  - constructor.
Defined.
End Replica.

Module ControlStart.
Import ModuleConfig EtcdCluster Replica.

(** ** The decisions of [main] *)

(** What [main] does to the world, in order. *)
Inductive action :=
| RemoveAll (dir : string)
| StartEtcd (cfg : etcd_config) (ok : bool)
| Connect (client : client_config) (ok : bool)
| Watch (prefix : string)
| Serve (port : string) (targets : gmap Z SourceTarget)
| CloseClient
| CloseEtcd (server : bool).      (* [false]: [Close] on a nil server *)

(** What the calls return. *)
Record world := mkWorld {
  config : ControlConfig + config_error;
  etcd_starts : bool;
  client_connects : bool;
  executable : bool;               (* whether [os.Executable] succeeds *)
  targets_file : option string     (* probe-targets.json *)
}.

Section Main.
Context (parse_targets : string -> option (list SourceTarget)).

Definition LoadSourceTargetsFromExeDir (w : world) : option (gmap Z SourceTarget) :=
  if negb (executable w) then None
  else data ← targets_file w; targets ← parse_targets data; Some (LoadSourceTargets targets).

Definition endpoints (c : ControlConfig) : list string := (fun v => v +:+ ":2379") <$> ServerList c.

(** The calls that were deferred, run when [main] returns. *)
Definition deferred_etcd (c : ControlConfig) (ok : bool) : list action := if String.eqb (ServerIP c) "" then [] else [CloseEtcd ok].

(** [main] until it serves; the server returns when it fails to listen. *)
Definition control_main (w : world) : list action :=
  match config w with
  | inr _ => []
  | inl c =>
      let etcd := if String.eqb (ServerIP c) "" then []
                  else [RemoveAll (DataDir c); StartEtcd (StartEmbeddedEtcd (ServerList c) (ServerIP c) (DataDir c) (nodeName (ServerIP c))) (etcd_starts w)] in
      match ServerList c with
      | [] => etcd ++ deferred_etcd c (etcd_starts w)
      | _ =>
          if negb (client_connects w) then etcd ++ [Connect (NewEtcdClient (endpoints c) (5 * 1000000000)) false] ++ deferred_etcd c (etcd_starts w)
          else match LoadSourceTargetsFromExeDir w with
               | None => etcd ++ [Connect (NewEtcdClient (endpoints c) (5 * 1000000000)) true; CloseClient] ++ deferred_etcd c (etcd_starts w)
               | Some targets => etcd ++ [Connect (NewEtcdClient (endpoints c) (5 * 1000000000)) true; Watch "/routing-middle/"; Watch "/routing-last/"; Serve ":7081" targets; CloseClient] ++ deferred_etcd c (etcd_starts w)
               end
      end
  end.

(** What a control plane does when it starts: it serves exactly when its configuration is read, names
    at least one server, etcd can be reached and the targets can be loaded, and then with these targets; a member of the cluster erases its own etcd data directory before it starts its server, every
    time, and only then; and when the server did not start, leaving [main] calls [Close] on nil. *)
Theorem control_start w :
  (forall port targets, Serve port targets ∈ control_main w <->
     exists c, port = ":7081" /\ config w = inl c /\ ServerList c <> [] /\ client_connects w = true /\ LoadSourceTargetsFromExeDir w = Some targets) /\
  (forall dir, RemoveAll dir ∈ control_main w <->
     exists c rest, config w = inl c /\ ServerIP c <> "" /\ dir = DataDir c /\
       control_main w = RemoveAll dir :: StartEtcd (StartEmbeddedEtcd (ServerList c) (ServerIP c) dir (nodeName (ServerIP c))) (etcd_starts w) :: rest) /\
  (CloseEtcd false ∈ control_main w <-> exists c, config w = inl c /\ ServerIP c <> "" /\ etcd_starts w = false).
Proof.
  unfold control_main. destruct (config w) as [c|err].
  2: { split_and!; [intros port targets|intros dir|]; rewrite elem_of_nil; (split; [done|]); intros Hx; repeat destruct Hx as [? Hx]; discriminate. }
  destruct (String.eqb_spec (ServerIP c) "") as [He|He]; unfold deferred_etcd; rewrite ?(proj2 (String.eqb_eq _ _) He), ?(proj2 (String.eqb_neq _ _) He);
    destruct (ServerList c) as [|ip l] eqn:El, (client_connects w) eqn:Ec, (LoadSourceTargetsFromExeDir w) as [tg|] eqn:Et; cbn [negb app];
    (split_and!; [intros port targets|intros dir|]); rewrite ?elem_of_cons, ?elem_of_nil; split; intros Hx; try (naive_solver congruence);
    exists c; eexists; (split; [done|]); (split; [done|]); rewrite El; (split; [naive_solver|]); by destruct Hx as [[= ->]|Hx]; [|naive_solver].
Qed.
End Main.
End ControlStart.

Module SafeMap.

(** The values are pointers to objects: [m] holds ids of the [heap]. *)
Record safeMap (V : Type) := mkSafe { m : gmap string nat; heap : gmap nat V }.
Arguments mkSafe {V} m heap.
Arguments m {V} s : rename.
Arguments heap {V} s : rename.

Section Map.
Context {V : Type} `{RangeMap}.

Definition NewSafeMap : safeMap V := mkSafe ∅ ∅.

Definition Get (s : safeMap V) (key : string) : option nat := m s !! key.
Definition Set_ (s : safeMap V) (key : string) (value : nat) : safeMap V := mkSafe (<[key := value]> (m s)) (heap s).
Definition Delete (s : safeMap V) (key : string) : safeMap V := mkSafe (delete key (m s)) (heap s).
Definition Len (s : safeMap V) : nat := size (m s).

(** [Range]: the entries that [fn] is called with, in some order, until it returns false. *)
Fixpoint visit (fn : string -> nat -> bool) (l : list (string * nat)) : list (string * nat) :=
  match l with
  | [] => []
  | (k, v) :: l => (k, v) :: if fn k v then visit fn l else []
  end.

Definition Range (s : safeMap V) (fn : string -> nat -> bool) : list (string * nat) := visit fn (range_map (m s)).

(** [GetAll] copies the map, not the objects. *)
Definition GetAll (s : safeMap V) : gmap string nat := foldl (fun r kv => <[kv.1 := kv.2]> r) ∅ (range_map (m s)).

(** [Update]: [fn] changes the object and may fail; [None] when there is no such key. *)
Definition Update (s : safeMap V) (key : string) (fn : V -> V * bool) : option (safeMap V * bool) :=
  match m s !! key with
  | None => None
  | Some p => match heap s !! p with
              | Some v => let '(v', ok) := fn v in Some (mkSafe (m s) (<[p := v']> (heap s)), ok)
              | None => Some (s, false)
              end
  end.

(** What a holder of a copied map sees. *)
Definition read (s : safeMap V) (copy : gmap string nat) (key : string) : option V := copy !! key ≫= (heap s !!.).

Lemma GetAll_copy s : GetAll s = m s.
Proof.
  unfold GetAll. apply map_eq. intros k. rewrite <- (list_to_map_to_list (m s)) at 2.
  assert (Hf : forall l (r : gmap string nat), NoDup l.*1 -> foldl (fun r (kv : string * nat) => <[kv.1 := kv.2]> r) r l !! k =
    match (list_to_map l : gmap string nat) !! k with Some v => Some v | None => r !! k end).
  { induction l as [|[k' v'] l IH]; intros r Hnd; [done|]. rewrite fmap_cons in Hnd. apply NoDup_cons in Hnd as [Hn Hnd]. cbn [foldl list_to_map]. rewrite IH by done. cbn.
    destruct (decide (k' = k)) as [<-|Hne].
    - rewrite !lookup_insert_eq. by rewrite (not_elem_of_list_to_map_1 l k').
    - by rewrite !lookup_insert_ne. }
  assert (Hnd : NoDup (range_map (m s)).*1) by (rewrite range_map_perm; apply NoDup_fst_map_to_list).
  rewrite Hf by done. rewrite (list_to_map_proper (range_map (m s)) (map_to_list (m s))); [|done|by rewrite range_map_perm].
  by destruct ((list_to_map (map_to_list (m s)) : gmap string nat) !! k).
Qed.

(** A snapshot of the map is not one of its objects: what [Set] and [Delete] do to the map later does not show in it,
    but what [Update] does to an object does. *)
Theorem snapshot_shares s key p v fn v' ok s' :
  m s !! key = Some p -> heap s !! p = Some v -> fn v = (v', ok) -> Update s key fn = Some (s', ok) ->
  let copy := GetAll s in
  copy = m s /\ (forall q, read (Set_ s key q) copy key = Some v) /\ read (Delete s key) copy key = Some v /\ read s' copy key = Some v'.
Proof.
  intros Hp Hv Hfn Hu copy. unfold Update in Hu. rewrite Hp, Hv, Hfn in Hu. injection Hu as <-. unfold copy. rewrite GetAll_copy.
  unfold read, Set_, Delete. cbn [heap]. rewrite Hp. cbn. split_and!; [done|done|done|]. apply lookup_insert_eq.
Qed.
End Map.
End SafeMap.
