(* ===== verification/Telemetry.v ===== *)
(** * Measurements of a node (data-plane)

    - [Telemetry] (edge-domain/telemetry.go, report.go): the access log of the proxy is read every five
      seconds and turned into round-trip statistics per city, which are sent to the control plane;
    - [Sampler] (collector/cpu.go): the CPU usage of the proxy from [/proc];
    - [IPInfo] (util/ip-lib.go, continent.go): where an address is, with overrides. *)

From Stdlib Require Import ZArith Lia SpecFloat Ascii.
From stdpp Require Import base list gmap strings pretty sorting.
From S2P Require Import Prelude ModuleConfig F64 GoStrings GoChan Graph ShortestPath Stats ControlPlane.
Import Graph Stats ControlPlane.

(** ** Strings *)

Fixpoint str_drop (n : nat) (s : string) : string :=
  match n, s with
  | S n, String _ s => str_drop n s
  | _, _ => s
  end.

Fixpoint str_take (n : nat) (s : string) : string :=
  match n, s with
  | S n, String c s => String c (str_take n s)
  | _, _ => ""
  end.

(** The first index of a character. *)
Fixpoint IndexByte (c : ascii) (s : string) : option nat :=
  match s with
  | EmptyString => None
  | String x s => if Ascii.eqb c x then Some O else S <$> IndexByte c s
  end.

(** The last index of a character. *)
Fixpoint LastIndexByte (c : ascii) (s : string) : option nat :=
  match s with
  | EmptyString => None
  | String x s => match LastIndexByte c s with
                  | Some i => Some (S i)
                  | None => if Ascii.eqb c x then Some O else None
                  end
  end.

Fixpoint take_while (f : ascii -> bool) (s : string) : string :=
  match s with
  | EmptyString => ""
  | String c s => if f c then String c (take_while f s) else ""
  end.

Definition newline : ascii := ascii_of_nat 10.

Module Telemetry.

Local Open Scope Z_scope.

(** ** Reading the log *)

(** [Record]; its continent is never set. *)
Record LogRecord := mkRec { Ts : Z; ClientIP : string; ConnRT : Z; r_Country : string; r_Province : string; r_City : string }.

Definition readSize : nat := 32 * 1024.

(** The part of the file that is scanned: the last 32 KB from the first line break in their first
    1024 bytes; without a line break there, the first 1024 bytes are passed over. *)
Definition read_tail (content : string) : string :=
  let startPos := if (readSize <? String.length content)%nat then (String.length content - readSize)%nat else O in
  let tail := str_drop startPos content in
  if (0 <? startPos)%nat then
    match IndexByte newline (str_take 1024 tail) with
    | Some idx => str_drop (idx + 1) tail
    | None => str_drop 1024 tail
    end
  else tail.

(** [bufio.ScanLines]: the text between line breaks, without a carriage return at its end; nothing
    after the last line break is no line. *)
Definition drop_cr (s : string) : string :=
  match LastIndexByte (ascii_of_nat 13) s with
  | Some i => if (S i =? String.length s)%nat then str_take i s else s
  | None => s
  end.

Definition scan_lines (s : string) : list string :=
  let fields := Split s (String newline "") in
  drop_cr <$> match last fields with
              | Some f => if String.eqb f "" then removelast fields else fields
              | None => fields
              end.

(** [extract]: the first place where [pattern] is followed by characters of the class. *)
Fixpoint extract (line pattern : string) (class : ascii -> bool) : string :=
  match line with
  | EmptyString => ""
  | String _ line' =>
      let m := if String.prefix pattern line then take_while class (str_drop (String.length pattern) line) else "" in
      if String.eqb m "" then extract line' pattern class else m
  end.

Definition not_space (c : ascii) : bool :=
  let n := nat_of_ascii c in negb ((n =? 9)%nat || (n =? 10)%nat || (n =? 12)%nat || (n =? 13)%nat || (n =? 32)%nat).

Definition digit_or_dot (c : ascii) : bool :=
  let n := nat_of_ascii c in ((48 <=? n)%nat && (n <=? 57)%nat) || Ascii.eqb c ".".

(** [int(math.Round(x))]: half away from zero. *)
Definition round_int (x : float64) : Z :=
  match x with
  | S754_finite s m e => cond_Zopp s (if 0 <=? e then Zpos m * 2 ^ e else (Zpos m + 2 ^ (- e - 1)) / 2 ^ (- e))
  | _ => 0
  end.

Section Log.
(** [time.Parse] (an instant in nanoseconds), [strconv.ParseFloat] (its value; the error is ignored)
    and the location of an address (country, province, city). *)
Context (ParseTime : string -> option Z) (ParseFloat : string -> float64) (GetIPInfo : string -> option (string * string * string)).

Definition parse_line (line : string) : option LogRecord :=
  let tsStr := extract line "time=" not_space in
  let ip := extract line "client_ip=" not_space in
  let rtStr := extract line "conn_rt_ms=" digit_or_dot in
  if String.eqb tsStr "" || String.eqb ip "" || String.eqb rtStr "" then None
  else match ParseTime tsStr with
       | None => None
       | Some ts =>
           let rt := round_int (ParseFloat rtStr) in
           match GetIPInfo ip with
           | None => None
           | Some (country, province, city) => Some (mkRec ts ip rt country province city)
           end
       end.

(** [content]: the file, [None] when it cannot be opened. *)
Definition readLatestLogs (records : list LogRecord) (content : option string) : list LogRecord :=
  match content with
  | None => records
  | Some content => records ++ omap parse_line (scan_lines (read_tail content))
  end.
End Log.

(** ** Statistics *)

Definition window : Z := 10 * 1000000000.

Definition recent (now : Z) (r : LogRecord) : bool := now - Ts r <=? window.

(** The records that are counted and kept: those within the window, or all when there are none. *)
Definition keep_valid (now : Z) (records : list LogRecord) : list LogRecord :=
  let valid := filter (fun r => recent now r = true) records in
  if (length valid =? 0)%nat && (0 <? length records)%nat then records else valid.

(** One record in the tables [agg] and [rts]. *)
Definition add_record (st : gmap string LastCongestion * gmap string (list Z)) (r : LogRecord) :
    gmap string LastCongestion * gmap string (list Z) :=
  let '(agg, rts) := st in
  let key := r_City r in
  let s := default zeroLC (agg !! key) in
  (<[key := mkLC (Count s + 1) (fadd (SumRT s) (of_Z (ConnRT r))) (AvgRT s) (P95RT s)]> agg,
   <[key := default [] (rts !! key) ++ [ConnRT r]]> rts).

(** [sort.Ints] *)
Definition sort_Ints (l : list Z) : list Z := merge_sort Z.le l.

(** The averages of one city. *)
Definition finish_city (s : LastCongestion) (rtList : list Z) : go LastCongestion :=
  let avg := fdiv (SumRT s) (of_Z (Count s)) in
  let avg := if fle avg fzero then fone else avg in
  if (length rtList =? 0)%nat then Ret (mkLC (Count s) (SumRT s) avg (P95RT s))
  else
    let rtList := sort_Ints rtList in
    let len := Z.of_nat (length rtList) in
    let p95Idx := to_int (fmul (of_Z len) (lit 95 100)) in
    let p95Idx := if len <=? p95Idx then len - 1 else p95Idx in
    if (0 <=? p95Idx) then
      match rtList !! Z.to_nat p95Idx with
      | None => Panic
      | Some p95 => Ret (mkLC (Count s) (SumRT s) avg (if p95 <=? 0 then 1 else p95))
      end
    else Panic.

Section Calculate.
Context `{RangeMap}.

Definition finish_all (agg : gmap string LastCongestion) (rts : gmap string (list Z)) : go (gmap string LastCongestion) :=
  foldl (fun acc kv => let! m := acc in
                       let! s := finish_city (snd kv) (default [] (rts !! fst kv)) in
                       Ret (<[fst kv := s]> m)) (Ret agg) (range_map agg).

Definition calculateLastCongestion (now : Z) (records : list LogRecord) : list LogRecord * go (gmap string LastCongestion) :=
  let valid := keep_valid now records in
  let '(agg, rts) := foldl add_record (∅, ∅) valid in
  (valid, finish_all agg rts).

(** One round of the two tickers: the log is read, then the statistics are computed. *)
Definition report_round parseT parseF info (records : list LogRecord) (content : option string) (now : Z) :=
  calculateLastCongestion now (readLatestLogs parseT parseF info records content).
End Calculate.

(** [SendLastTelemetry]: the body that is sent for a table that is not empty. *)
Definition SendLastTelemetry (cfg : NodeConfig) (delayStats : gmap string LastCongestion) : LastTelemetry :=
  mkLT delayStats (nc_Public cfg) (ModuleConfig.Continent cfg) (ModuleConfig.Country cfg) (ModuleConfig.City cfg).

(** ** Proofs *)

(** The round trips of one city, in the order of the records. *)
Definition city_rts (city : string) (records : list LogRecord) : list Z := ConnRT <$> filter (fun r => r_City r = city) records.

Definition sum_rts (l : list Z) : float64 := foldl (fun acc rt => fadd acc (of_Z rt)) fzero l.

Lemma tables_spec records city :
  let '(agg, rts) := foldl add_record (∅, ∅) records in
  let l := city_rts city records in
  rts !! city = (if decide (l = []) then None else Some l) /\
  agg !! city = (if decide (l = []) then None else Some (mkLC (Z.of_nat (length l)) (sum_rts l) fzero 0)).
Proof.
  induction records as [|r records IH] using rev_ind; [done|]. rewrite foldl_app. cbn [foldl].
  destruct (foldl add_record (∅, ∅) records) as [agg rts]. unfold add_record, city_rts in *. cbv zeta in *. destruct IH as [IHr IHa].
  rewrite filter_app. destruct (decide (r_City r = city)) as [<-|Hne].
  - rewrite filter_cons_True, filter_nil, fmap_app by done. cbn [fmap list_fmap]. set (l := ConnRT <$> filter _ records) in *.
    rewrite !lookup_insert_eq, IHr, IHa, !(decide_False (P := l ++ [ConnRT r] = [])) by (by destruct l).
    case_decide as Hl; [rewrite Hl; done|]. cbn [default Count SumRT AvgRT P95RT from_option id]. split; [done|].
    unfold sum_rts. by rewrite foldl_snoc, length_app, Nat2Z.inj_add.
  - rewrite filter_cons_False, filter_nil, app_nil_r, !lookup_insert_ne by done. done.
Qed.

Lemma sort_Ints_length l : length (sort_Ints l) = length l.
Proof. apply Permutation_length, merge_sort_Permutation. Qed.

Lemma p95_idx_nonneg n : 0 <= n -> 0 <= to_int (fmul (of_Z n) (lit 95 100)).
Proof.
  intros Hn. change (lit 95 100) with (S754_finite false 8556839292003942 (-53)).
  pose proof (of_Z_sign n Hn) as Hs. destruct (of_Z n) as [s|s| |s m e]; cbn in Hs; subst; try done.
  apply to_int_nonneg, nonneg_sign. unfold fmul. cbn [SFmul xorb]. apply round_aux_sign. lia.
Qed.

(** The position of the 95th percentile in a list of [n] values. *)
Definition p95_idx (n : nat) : nat := Nat.min (Z.to_nat (to_int (fmul (of_Z (Z.of_nat n)) (lit 95 100)))) (n - 1).

(** The entry of a city with the round trips [l]. *)
Definition city_stats (l : list Z) : LastCongestion :=
  let avg := fdiv (sum_rts l) (of_Z (Z.of_nat (length l))) in
  mkLC (Z.of_nat (length l)) (sum_rts l) (if fle avg fzero then fone else avg) (Z.max 1 (nth (p95_idx (length l)) (sort_Ints l) 0)).

Lemma finish_city_spec l :
  l <> [] -> finish_city (mkLC (Z.of_nat (length l)) (sum_rts l) fzero 0) l = Ret (city_stats l).
Proof.
  intros Hl. unfold finish_city, city_stats. cbn [Count SumRT P95RT]. rewrite sort_Ints_length.
  assert (Hn : (0 < length l)%nat) by (destruct l; [done|simpl; lia]).
  rewrite (proj2 (Nat.eqb_neq (length l) 0)) by lia. pose proof (p95_idx_nonneg (Z.of_nat (length l)) ltac:(lia)) as Hi.
  unfold p95_idx. set (i := to_int _) in *.
  assert (Hidx : exists j, (if Z.of_nat (length l) <=? i then Z.of_nat (length l) - 1 else i) = Z.of_nat j /\
    Nat.min (Z.to_nat i) (length l - 1) = j /\ (j < length l)%nat).
  { destruct (Z.leb_spec (Z.of_nat (length l)) i); [exists (length l - 1)%nat|exists (Z.to_nat i)]; lia. }
  destruct Hidx as (j & -> & -> & Hj). rewrite (proj2 (Z.leb_le 0 (Z.of_nat j))), Nat2Z.id by lia.
  destruct (lookup_lt_is_Some_2 (sort_Ints l) j ltac:(by rewrite sort_Ints_length)) as [x Hx].
  rewrite Hx, (nth_lookup_Some _ _ _ _ Hx). do 2 f_equal. destruct (Z.leb_spec x 0); lia.
Qed.

Section Proofs.
Context `{RangeMap}.

Lemma finish_fold (rts : gmap string (list Z)) (f : string -> LastCongestion) (l : list (string * LastCongestion)) (m : gmap string LastCongestion) :
  Forall (fun kv => finish_city kv.2 (default [] (rts !! kv.1)) = Ret (f kv.1)) l ->
  exists m', foldl (fun acc kv => let! m := acc in let! s := finish_city (snd kv) (default [] (rts !! fst kv)) in Ret (<[fst kv := s]> m)) (Ret m) l = Ret m' /\
    forall k, m' !! k = if decide (k ∈ l.*1) then Some (f k) else m !! k.
Proof.
  intros Hl. revert m. induction Hl as [|[k0 s0] l Hs Hl IH]; intros m; [by exists m|]. cbn [foldl go_bind fst snd] in *. rewrite Hs. cbn [go_bind].
  destruct (IH (<[k0:=f k0]> m)) as (m' & Hm & Hk). exists m'. split; [done|]. intros k. rewrite Hk. cbn.
  destruct (decide (k = k0)) as [->|Hne].
  - rewrite lookup_insert_eq, (decide_True (P := k0 ∈ k0 :: l.*1)) by left. by case_decide.
  - rewrite lookup_insert_ne by done. repeat case_decide; [done|set_solver|set_solver|done].
Qed.

Lemma finish_all_spec agg rts (f : string -> LastCongestion) :
  (forall k s, agg !! k = Some s -> finish_city s (default [] (rts !! k)) = Ret (f k)) ->
  finish_all agg rts = Ret (map_imap (fun k _ => Some (f k)) agg).
Proof.
  intros Hf. unfold finish_all. destruct (finish_fold rts f (range_map agg) agg) as (m & -> & Hm).
  { apply Forall_forall. intros [k s] Hin. apply elem_of_range_map in Hin. by apply Hf. }
  f_equal. apply map_eq. intros k. rewrite Hm, map_lookup_imap. destruct (agg !! k) as [s|] eqn:E.
  - rewrite decide_True; [done|]. apply list_elem_of_fmap. exists (k, s). split; [done|]. by apply elem_of_range_map.
  - rewrite decide_False; [done|]. intros ([k' s] & -> & Hin)%list_elem_of_fmap. apply elem_of_range_map in Hin. simpl in E. congruence.
Qed.

(** The table of the kept records. *)
Lemma calculate_table now records :
  exists m, calculateLastCongestion now records = (keep_valid now records, Ret m) /\
    forall city, m !! city = let l := city_rts city (keep_valid now records) in if decide (l = []) then None else Some (city_stats l).
Proof.
  unfold calculateLastCongestion. set (valid := keep_valid now records).
  pose proof (fun city => tables_spec valid city) as Ht. destruct (foldl add_record (∅, ∅) valid) as [agg rts]. cbv zeta in Ht.
  rewrite (finish_all_spec agg rts (fun city => city_stats (city_rts city valid))).
  - eexists. split; [done|]. intros city. rewrite map_lookup_imap, (proj2 (Ht city)). by case_decide.
  - intros k s Hs. destruct (Ht k) as [Hr Ha]. rewrite Hs in Ha. rewrite Hr. case_decide as Hl; [done|]. injection Ha as ->. by apply finish_city_spec.
Qed.

Lemma keep_valid_old now records : Forall (fun r => recent now r = false) records -> keep_valid now records = records.
Proof.
  intros Hold. unfold keep_valid. replace (filter (fun r => recent now r = true) records) with (@nil LogRecord); [by destruct records|].
  symmetry. apply elem_of_nil_inv. intros r [Hr Hin]%list_elem_of_filter. rewrite Forall_forall in Hold. by rewrite Hold in Hr.
Qed.

Section Rounds.
Context (ParseTime : string -> option Z) (ParseFloat : string -> float64) (GetIPInfo : string -> option (string * string * string)).

(** Rounds at the given times over the contents that the log has then. *)
Definition run_rounds (records : list LogRecord) (rounds : list (option string * Z)) : list LogRecord :=
  foldl (fun records r => fst (report_round ParseTime ParseFloat GetIPInfo records (fst r) (snd r))) records rounds.

(** ** Properties *)

(** The statistics of a node never fail and are those of its records: of the records of the last
    ten seconds (of all records when there are none), every city has its own entry with the number of
    its records, the sum and the mean of their round trips, and the 95th percentile, the element of
    the sorted round trips at the rounded-down position [0.95 n], never past the last; both averages
    are at least 1 where they would not be positive. *)
Theorem calculateLastCongestion_spec now records :
  exists m, calculateLastCongestion now records = (keep_valid now records, Ret m) /\
    forall city, m !! city = let l := city_rts city (keep_valid now records) in if decide (l = []) then None else Some (city_stats l).
Proof. apply calculate_table. Qed.

(** A proxy without traffic: as long as every line of the log is older than the window, each
    round appends the same tail of the log once more and keeps everything, so after [n] rounds every
    line is held, and counted, [n] times; the memory grows without bound. *)
Theorem idle_records_grow content times :
  let tail := omap (parse_line ParseTime ParseFloat GetIPInfo) (scan_lines (read_tail content)) in
  Forall (fun now => Forall (fun r => recent now r = false) tail) times ->
  run_rounds [] ((fun now => (Some content, now)) <$> times) = mjoin (replicate (length times) tail).
Proof.
  intros tail Hold. induction times as [|now times IH] using rev_ind; [done|]. apply Forall_app in Hold as [Hold Hlast].
  apply Forall_cons in Hlast as [Hlast _]. unfold run_rounds in *. rewrite fmap_app, foldl_app, IH by done. cbn [fmap list_fmap foldl fst snd].
  unfold report_round. cbn [readLatestLogs]. fold tail.
  rewrite length_app, replicate_add, join_app. cbn [length replicate mjoin list_join]. rewrite app_nil_r.
  destruct (calculate_table now (mjoin (replicate (length times) tail) ++ tail)) as (m & -> & _). cbn [fst]. apply keep_valid_old.
  apply Forall_app. split; [|done]. apply Forall_join, Forall_replicate, Hlast.
Qed.
End Rounds.

(** C28. From the access log to the routers: the statistics that a node computes from its records and
    sends (their strings are valid UTF-8, the address of the node is not empty and has no dash) are stored by its control plane and seen by the
    watch of any control plane, which starts a goroutine that rebuilds the table.  When no rebuild is then between reading the
    reports and storing its table, in every interleaving of the rebuilds with events of other nodes, once all rebuilds are done
    the table has, for every city, the entry of that node: the number of requests and the mean round trip of
    the node's records of that city, and no entry for a city without records.  (A rebuild that has read the reports before
    can overwrite it: [stale_rebuild_wins].) *)
Theorem access_log_reaches_table `{Remarshal LastTelemetry} cfg ccfg now records valid m data n put s create evs s' city :
  calculateLastCongestion now records = (valid, Ret m) ->
  json_plain (SendLastTelemetry cfg m) -> encode (SendLastTelemetry cfg m) = Some data ->
  PostLastReceive true true ccfg (Some data) = (200, Some n, [put]) ->
  stats_ok (l_stats s) -> nodeLast (l_stats s) !! "" = None -> Forall (fun r => r = None) (l_rebuilds s) ->
  nc_Public cfg <> "" -> has_char "-" (nc_Public cfg) = false ->
  Forall (no_report_of (nc_Public cfg)) evs ->
  last_run (last_watch s (EPut (put_key put) (put_val put) create)) evs = Next s' -> l_rebuilds s' = [] ->
  edgeAgg (l_stats s') !! agg_key city (nc_Public cfg) =
    let l := city_rts city valid in if decide (l = []) then None else Some (summary (city_stats l)).
Proof.
  intros Hc Hpl He Hp Hok Hemp Hreb Hne Hd Hev Hrun Hdone. destruct (calculate_table now records) as (m' & Hc' & Hm). rewrite Hc in Hc'. injection Hc' as -> <-.
  destruct (remarshal_ok _ _ Hpl He) as (text & Hre & Htext & Hdec). unfold PostLastReceive in Hp. rewrite Hre, Hdec in Hp. injection Hp as _ <-. cbn [put_key put_val] in Hrun.
  assert (Hwatch : last_watch s (EPut ("/routing-last/" +:+ nc_Public ccfg) text create) = mkLast (AddOrUpdateNode (l_stats s) (SendLastTelemetry cfg m)) (l_rebuilds s ++ [None])).
  { unfold last_watch, HandleLastWatchEvent. cbn [WatchPrefix]. destruct (String.eqb_spec text "") as [->|_]; [done|]. rewrite Hdec. by destruct create. }
  rewrite Hwatch in Hrun. assert (Hadd : nodeLast (AddOrUpdateNode (l_stats s) (SendLastTelemetry cfg m)) = <[nc_Public cfg := SendLastTelemetry cfg m]> (nodeLast (l_stats s))).
  { unfold AddOrUpdateNode. cbn [SendLastTelemetry lt_IP]. by destruct (String.eqb_spec (nc_Public cfg) ""). }
  destruct (last_run_held (nc_Public cfg) (SendLastTelemetry cfg m) (mkLast (AddOrUpdateNode (l_stats s) (SendLastTelemetry cfg m)) (l_rebuilds s ++ [None])) evs s' Hd) as [_ _ _ _ Ht]; [|exact Hev|exact Hrun|].
  { constructor; cbn [l_stats l_rebuilds]; [unfold stats_ok; rewrite Hadd; by apply map_Forall_insert_2|by rewrite Hadd, lookup_insert_ne|by rewrite Hadd, lookup_insert_eq| |].
    - apply Forall_app. split; [|by repeat constructor]. eapply Forall_impl; [exact Hreb|]. by intros r ->.
    - intros Hnil. by apply app_eq_nil in Hnil as [_ ?]. }
  rewrite (Ht Hdone city). cbn [SendLastTelemetry LastsCongestion]. rewrite Hm. cbv zeta. by case_decide.
Qed.

(** A rebuild that has read the reports before an event can store its table after the rebuild of the event: when all are
    done, the table is that of the old reports, until the next event. *)
Theorem stale_rebuild_wins `{Codec LastTelemetry} s e t old :
  l_rebuilds s = [Some old] -> put_last e = Some t ->
  exists s', last_run s [SeeEvent e; ReadNodes 1; StoreTable 1; StoreTable 0] = Next s' /\ l_rebuilds s' = [] /\ edgeAgg (l_stats s') = aggregate old.
Proof.
  intros Hr Ht. destruct e as [k v create|k]; [|done]. cbn [put_last] in Ht.
  assert (Hwatch : last_watch s (EPut k v create) = mkLast (AddOrUpdateNode (l_stats s) t) [Some old; None]).
  { unfold last_watch, HandleLastWatchEvent. cbn [WatchPrefix]. rewrite Ht, Hr. by destruct create. }
  cbn [last_run last_step obind]. rewrite Hwatch. eexists. split; [reflexivity|]. done.
Qed.
End Proofs.

(** ** Instances *)

Definition sample_line : string := "time=t1 level=INFO client_ip=203.0.113.7 conn_rt_ms=12.5".
Definition sample_time (s : string) : option Z := if String.eqb s "t1" then Some 0 else None.
Definition sample_float (s : string) : float64 := lit 25 2.
Definition sample_info (ip : string) : option (string * string * string) := Some ("FR", "IDF", "Paris").

Example sample_parsed :
  parse_line sample_time sample_float sample_info sample_line = Some (mkRec 0 "203.0.113.7" 13 "FR" "IDF" "Paris").
Proof. vm_compute. reflexivity. Qed.

Lemma idle_records_grow_witness :
  length (@run_rounds key_order sample_time sample_float sample_info [] ((fun now => (Some (sample_line +:+ String newline sample_line), now)) <$> [20000000000; 25000000000; 30000000000])) = 6%nat.
Proof.
  rewrite (@idle_records_grow key_order sample_time sample_float sample_info (sample_line +:+ String newline sample_line) [20000000000; 25000000000; 30000000000]).
  - vm_compute. reflexivity.
  - apply (bool_decide_unpack _). vm_compute. exact I.
Defined.

Definition paris_record (rt : Z) : LogRecord := mkRec 5 "203.0.113.7" rt "FR" "IDF" "Paris".
Definition paris_table : gmap string LastCongestion := {["Paris" := city_stats [10; 30]]}.
Definition paris_codec : Codec LastTelemetry := one_codec (SendLastTelemetry sample_cfg paris_table).

#[local] Instance paris_remarshal : @Remarshal LastTelemetry paris_codec := one_remarshal _.

Lemma access_log_reaches_table_witness :
  exists s', @last_run key_order paris_codec (@last_watch paris_codec (mkLast NewGlobalStats []) (EPut "/routing-last/10.0.0.1" "{}" true)) [ReadNodes 0; StoreTable 0] = Next s' /\
    edgeAgg (l_stats s') !! "Paris-10.0.0.1" = Some (mkLC 2 (of_Z 40) (of_Z 20) 0).
Proof.
  eexists. split; [reflexivity|].
  etransitivity; [apply (@access_log_reaches_table key_order paris_codec paris_remarshal sample_cfg sample_cfg 7 [paris_record 10; paris_record 30]
    [paris_record 10; paris_record 30] paris_table "{}" 1 (mkPut "/routing-last/10.0.0.1" "{}" 60) (mkLast NewGlobalStats []) true [ReadNodes 0; StoreTable 0] _ "Paris")|].
  all: try reflexivity.
  - apply map_Forall_empty.
  - constructor.
  - discriminate.
  - by repeat constructor.
Defined.

Lemma stale_rebuild_wins_witness :
  exists s', @last_run key_order paris_codec (mkLast NewGlobalStats [Some ∅]) [SeeEvent (EPut "/routing-last/10.0.0.1" "{}" true); ReadNodes 1; StoreTable 1; StoreTable 0] = Next s' /\
    edgeAgg (l_stats s') !! "Paris-10.0.0.1" = None.
Proof.
  destruct (@stale_rebuild_wins key_order paris_codec (mkLast NewGlobalStats [Some ∅]) (EPut "/routing-last/10.0.0.1" "{}" true)
    (SendLastTelemetry sample_cfg paris_table) ∅ eq_refl eq_refl) as (s' & Hr & _ & Ht).
  exists s'. split; [exact Hr|]. rewrite Ht. vm_compute. reflexivity.
Defined.
End Telemetry.

Module Sampler.

Local Open Scope Z_scope.

(** ** Reading [/proc] *)

Definition is_space (c : ascii) : bool :=
  let n := nat_of_ascii c in ((9 <=? n)%nat && (n <=? 13)%nat) || (n =? 32)%nat.

Fixpoint fields_go (cur s : string) : list string :=
  match s with
  | EmptyString => if String.eqb cur "" then [] else [cur]
  | String c s' =>
      if is_space c then (if String.eqb cur "" then fields_go "" s' else cur :: fields_go "" s')
      else fields_go (cur +:+ String c "") s'
  end.

(** [strings.Fields] *)
Definition Fields (s : string) : list string := fields_go "" s.

(** [strconv.ParseUint(s, 10, 64)] *)
Definition ParseUint64 (s : string) : option Z :=
  match s with
  | EmptyString => None
  | _ => v ← dec_digits 0 s; if v <? 2 ^ 64 then Some v else None
  end.

(** [data]: the file, [None] when it cannot be read; the process times, or an error.  Slicing past
    the end of the text panics. *)
Definition readProcStat (data : option string) : go (option (Z * Z)) :=
  match data with
  | None => Ret None
  | Some s =>
      match LastIndexByte ")" s with
      | None => Ret None
      | Some closeParen =>
          if (String.length s <? closeParen + 2)%nat then Panic
          else let fields := Fields (str_drop (closeParen + 2) s) in
               if (length fields <? 13)%nat then Ret None
               else Ret (f11 ← fields !! 11%nat; utime ← ParseUint64 f11; f12 ← fields !! 12%nat; stime ← ParseUint64 f12; Some (utime, stime))
      end
  end.

Definition to_lower (c : ascii) : ascii :=
  let n := nat_of_ascii c in if (65 <=? n)%nat && (n <=? 90)%nat then ascii_of_nat (n + 32) else c.

Fixpoint lower (s : string) : string :=
  match s with EmptyString => "" | String c s => String (to_lower c) (lower s) end.

(** [strings.EqualFold] for a name in ASCII letters none of which has another fold. *)
Definition EqualFold (s t : string) : bool := String.eqb (lower s) (lower t).

Definition processName : string := "data-proxy".

(** The processes with their names, [None] for a name or a list that cannot be read. *)
Definition findProcessPIDs (procs : option (list (Z * option string))) (name : string) : list Z :=
  match procs with
  | None => []
  | Some procs => omap (fun p => match snd p with
                                 | Some pname => if EqualFold pname name then Some (fst p) else None
                                 | None => None
                                 end) procs
  end.

(** ** CPU usage *)

(** A sample of a process: user and system ticks and the time of the sample in nanoseconds. *)
Record proc_sample := mkPS { utime : Z; stime : Z; ts : Z }.

Record state := mkState {
  procLast : gmap Z proc_sample;
  procPIDs : list Z;
  prevUsage : float64;
  currUsage : float64;
  maxDelta : float64;
  firstSample : bool
}.

Definition init : state := mkState ∅ [] fzero fzero fzero true.

Definition u64 (z : Z) : Z := z mod 2 ^ 64.

(** [Duration.Seconds] *)
Definition Seconds (d : Z) : float64 :=
  fadd (of_Z (Z.quot d 1000000000)) (fdiv (of_Z (Z.rem d 1000000000)) (of_Z 1000000000)).

(** What one process adds to the total. *)
Definition cpu_of (prev : option proc_sample) (utime_ stime_ now : Z) (total : float64) : float64 :=
  match prev with
  | Some p =>
      if 0 <? ts p / 1000000000 then
        let deltaTicks := u64 (u64 (utime_ + stime_) - u64 (utime p + stime p)) in
        let deltaSec := Seconds (now - ts p) in
        if flt fzero deltaSec then
          fadd total (fmul (fdiv (fdiv (of_Z deltaTicks) deltaSec) (of_Z 100)) (of_Z 100))
        else total
      else total
  | None => total
  end.

(** The loop over the cached processes: the ones alive, the samples and the total. *)
Definition visit (stat : Z -> option (Z * Z)) (now : Z) (acc : list Z * gmap Z proc_sample * float64) (pid : Z) :
    list Z * gmap Z proc_sample * float64 :=
  let '(alive, last, total) := acc in
  match stat pid with
  | None => (alive, delete pid last, total)
  | Some (utime_, stime_) =>
      (alive ++ [pid], <[pid := mkPS utime_ stime_ now]> last, cpu_of (last !! pid) utime_ stime_ now total)
  end.

(** [found]: what [findProcessPIDs] finds when it is called. *)
Definition getProcessCPU (found : list Z) (stat : Z -> option (Z * Z)) (now : Z) (st : state) : state * option float64 :=
  let pids := match procPIDs st with [] => found | l => l end in
  match pids with
  | [] => (mkState (procLast st) pids (prevUsage st) (currUsage st) (maxDelta st) (firstSample st), None)
  | _ =>
      let '(alive, last, total) := foldl (visit stat now) ([], procLast st, fzero) pids in
      (mkState last alive (prevUsage st) (currUsage st) (maxDelta st) (firstSample st), Some total)
  end.

(** [sample], after [getProcessCPU]. *)
Definition record_usage (st : state) (percent : option float64) : state :=
  match percent with
  | None => st
  | Some percent =>
      let delta := if negb (firstSample st) then
                     let d := SFabs (fsub percent (prevUsage st)) in
                     if flt (maxDelta st) d then d else maxDelta st
                   else maxDelta st in
      mkState (procLast st) (procPIDs st) percent percent delta false
  end.

Definition sample (found : list Z) (stat : Z -> option (Z * Z)) (now : Z) (st : state) : state :=
  let '(st, percent) := getProcessCPU found stat now st in record_usage st percent.

(** [collectCPU]: the report (with the numbers of cores) and the reset of the window. *)
Definition collectCPU (physicalCores logicalCores : Z) (st : state) : state * CPUInfo :=
  let usage := if fle (currUsage st) fone then fone else currUsage st in
  (mkState (procLast st) (procPIDs st) (prevUsage st) (currUsage st) fzero true,
   mkCPU physicalCores logicalCores usage fzero (maxDelta st)).

(** ** Proofs: the text of a process *)

Definition word (s : string) : Prop := s <> "" /\ Forall (fun c => is_space c = false) (String.list_ascii_of_string s).

Lemma fields_word cur w t :
  Forall (fun c => is_space c = false) (String.list_ascii_of_string w) -> fields_go cur (w +:+ t) = fields_go (cur +:+ w) t.
Proof.
  revert cur. induction w as [|c w IH]; intros cur Hw; [by rewrite append_nil_r|]. cbn [String.list_ascii_of_string] in Hw. apply Forall_cons in Hw as [Hc Hw].
  change (String c w +:+ t) with (String c (w +:+ t)). cbn [fields_go]. by rewrite Hc, IH, append_assoc.
Qed.

Lemma fields_end w t : word w -> fields_go "" (w +:+ String " " t) = w :: fields_go "" t.
Proof.
  intros [Hne Hw]. rewrite fields_word by done. change ("" +:+ w) with w. cbn [fields_go is_space]. change (is_space " ") with true. cbn [fields_go].
  by destruct (String.eqb_spec w "").
Qed.

Lemma Fields_Join l : Forall word l -> Fields (Join l " " +:+ String newline "") = l.
Proof.
  unfold Fields. induction 1 as [|w l Hw Hl IH]; [done|]. destruct l as [|w' l].
  - cbn [Join]. destruct Hw as [Hne Hw]. rewrite fields_word by done. change ("" +:+ w) with w. cbn. by destruct (String.eqb_spec w "").
  - change (Join (w :: w' :: l) " ") with (w +:+ " " +:+ Join (w' :: l) " "). rewrite !append_assoc. change (" " +:+ ?x) with (String " " x).
    rewrite fields_end by done. by rewrite IH.
Qed.

Lemma LastIndexByte_None c s : has_char c s = false -> LastIndexByte c s = None.
Proof. induction s as [|x s IH]; [done|]. rewrite has_char_cons. intros [Hx Hs]%orb_false_iff. cbn. by rewrite IH, Hx. Qed.

Lemma LastIndexByte_last c pre rest : has_char c rest = false -> LastIndexByte c (pre +:+ String c rest) = Some (String.length pre).
Proof.
  intros Hr. induction pre as [|x pre IH].
  - change ("" +:+ String c rest) with (String c rest). cbn [LastIndexByte]. rewrite LastIndexByte_None by done. by rewrite Ascii.eqb_refl.
  - change (String x pre +:+ String c rest) with (String x (pre +:+ String c rest)). cbn [LastIndexByte]. by rewrite IH.
Qed.

Lemma str_drop_app pre s : str_drop (String.length pre) (pre +:+ s) = s.
Proof. by induction pre. Qed.

Lemma str_drop_add n k s : str_drop (n + k) s = str_drop k (str_drop n s).
Proof. revert s. induction n as [|n IH]; intros s; [done|]. destruct s; [by destruct k|]. apply IH. Qed.

Lemma length_append s t : String.length (s +:+ t) = (String.length s + String.length t)%nat.
Proof. induction s as [|c s IH]; [done|]. exact (f_equal S IH). Qed.

Lemma ParseUint64_pretty z : fits 64 z -> ParseUint64 (pretty z) = Some z.
Proof.
  intros Hz. unfold fits in Hz. pose proof (dec_digits_pretty z ltac:(lia)) as Hd. unfold ParseUint64.
  destruct (pretty z) eqn:E; [|rewrite Hd; cbn [mbind option_bind]; by rewrite (proj2 (Z.ltb_lt z (2 ^ 64))) by lia].
  exfalso. simpl in Hd. assert (z = 0) as -> by congruence. discriminate E.
Qed.

Lemma Join_no_char c l : c <> " "%char -> Forall (fun w => has_char c w = false) l -> has_char c (Join l " ") = false.
Proof.
  intros Hc. induction 1 as [|w l Hw Hl IH]; [done|]. destruct l as [|w' l]; [done|].
  change (Join (w :: w' :: l) " ") with (w +:+ " " +:+ Join (w' :: l) " "). rewrite !has_char_app, Hw, IH, has_char_cons.
  by rewrite (proj2 (Ascii.eqb_neq c " ") Hc).
Qed.

(** The text of [/proc/<pid>/stat]: the id and the command, then the other fields. *)
Definition stat_text (head : string) (fields : list string) : string := head +:+ String ")" (String " " (Join fields " " +:+ String newline "")).

(** ** Proofs: a window of samples *)

(** What [getProcessCPU] returns in a sequence of samples. *)
Fixpoint readings (st : state) (inputs : list (list Z * (Z -> option (Z * Z)) * Z)) : list (option float64) :=
  match inputs with
  | [] => []
  | (found, stat, now) :: rest => let '(st', percent) := getProcessCPU found stat now st in percent :: readings st' rest
  end.

Definition run_samples (st : state) (inputs : list (list Z * (Z -> option (Z * Z)) * Z)) : state :=
  foldl (fun st i => sample i.1.1 i.1.2 i.2 st) st inputs.

(** The state of the samplers of two runs agree on the processes. *)
Definition same_procs (st st' : state) : Prop := procLast st = procLast st' /\ procPIDs st = procPIDs st'.

Lemma getProcessCPU_procs found stat now st st' :
  same_procs st st' ->
  snd (getProcessCPU found stat now st) = snd (getProcessCPU found stat now st') /\
  same_procs (fst (getProcessCPU found stat now st)) (fst (getProcessCPU found stat now st')).
Proof.
  intros [Hl Hp]. unfold getProcessCPU. rewrite Hl, Hp. destruct (match procPIDs st' with [] => found | l => l end) as [|pid pids]; [done|].
  by destruct (foldl _ _ _) as [[alive last] total].
Qed.

Lemma readings_procs st st' inputs : same_procs st st' -> readings st inputs = readings st' inputs.
Proof.
  revert st st'. induction inputs as [|[[found stat] now] inputs IH]; intros st st' Hs; [done|]. cbn [readings].
  destruct (getProcessCPU_procs found stat now st st' Hs) as [Hr Hs'].
  destruct (getProcessCPU found stat now st), (getProcessCPU found stat now st'). cbn in *. subst. f_equal. by apply IH.
Qed.

(** The part of the state that [record_usage] works on. *)
Definition gauge : Type := (float64 * float64 * float64 * bool)%type.
Definition gauge_of (st : state) : gauge := (prevUsage st, currUsage st, maxDelta st, firstSample st).

Lemma record_usage_gauge st st' p : gauge_of st = gauge_of st' -> gauge_of (record_usage st p) = gauge_of (record_usage st' p).
Proof. unfold gauge_of. destruct st, st'. cbn. intros [= -> -> -> ->]. by destruct p. Qed.

Lemma run_gauge st inputs : gauge_of (run_samples st inputs) = gauge_of (foldl record_usage st (readings st inputs)).
Proof.
  enough (Hgen : forall st', gauge_of st = gauge_of st' -> gauge_of (run_samples st inputs) = gauge_of (foldl record_usage st' (readings st inputs))) by auto.
  unfold run_samples. revert st. induction inputs as [|[[found stat] now] inputs IH]; intros st st' Hg; [done|]. cbn [foldl readings fst snd].
  unfold sample. assert (Hkeep : gauge_of (fst (getProcessCPU found stat now st)) = gauge_of st).
  { unfold getProcessCPU. destruct (match procPIDs st with [] => found | l => l end); [done|]. by destruct (foldl _ _ _) as [[? ?] ?]. }
  destruct (getProcessCPU found stat now st) as [st1 percent]. cbn [fst foldl] in *.
  rewrite (readings_procs st1 (record_usage st1 percent)) by (by destruct percent). apply IH, record_usage_gauge. congruence.
Qed.

(** The differences between neighbours and the largest of them. *)
Definition deltas (l : list float64) : list float64 := zip_with (fun a b => SFabs (fsub b a)) l (tail l).
Definition max_of (l : list float64) : float64 := foldl (fun m d => if flt m d then d else m) fzero l.

Lemma deltas_snoc l a b : deltas (l ++ [a; b]) = deltas (l ++ [a]) ++ [SFabs (fsub b a)].
Proof.
  induction l as [|x l IH]; [done|]. destruct l as [|y l]; [done|]. unfold deltas in *. cbn [app tail zip_with] in *. by rewrite IH.
Qed.

Lemma window_gauge st ps :
  firstSample st = true -> maxDelta st = fzero ->
  let l := omap id ps in
  gauge_of (foldl record_usage st ps) =
    match last l with
    | None => gauge_of st
    | Some p => (p, p, max_of (deltas l), false)
    end.
Proof.
  intros Hf Hd. induction ps as [|p ps IH] using rev_ind; [done|]. cbv zeta in *. rewrite foldl_app, omap_app. cbn [foldl omap list_omap].
  destruct p as [p|]; [|by rewrite app_nil_r]. change (id (Some p)) with (Some p). cbn match. rewrite last_snoc.
  set (st1 := foldl record_usage st ps) in *. destruct (omap id ps) as [|x l _] eqn:El using rev_ind.
  - cbn in IH. unfold gauge_of in *. injection IH as H1 H2 H3 H4. cbn. rewrite H4, Hf, H3, Hd. done.
  - rewrite last_snoc in IH. unfold gauge_of in *. injection IH as H1 H2 H3 H4. cbn [record_usage prevUsage currUsage maxDelta firstSample].
    rewrite H4, H1, H3. cbn [negb]. rewrite <- app_assoc. cbn [app]. rewrite deltas_snoc. unfold max_of at 3. rewrite foldl_snoc. fold (max_of (deltas (l ++ [x]))). done.
Qed.

(** ** Properties *)

(** The text of a process is read back: whatever the command is called, even with blanks and
    closing parentheses in its name, the user and system times are the 14th and 15th field. *)
Theorem readProcStat_roundtrip head fields u s :
  Forall (fun w => word w /\ has_char ")" w = false) fields -> (13 <= length fields)%nat ->
  fields !! 11%nat = Some (pretty u) -> fields !! 12%nat = Some (pretty s) -> fits 64 u -> fits 64 s ->
  readProcStat (Some (stat_text head fields)) = Ret (Some (u, s)).
Proof.
  intros Hf Hlen H11 H12 Hu Hs. unfold readProcStat, stat_text.
  assert (Hnp : has_char ")" (String " " (Join fields " " +:+ String newline "")) = false).
  { rewrite has_char_cons, has_char_app, Join_no_char; [done|done|]. eapply Forall_impl; [exact Hf|]. by intros ? [_ ?]. }
  rewrite LastIndexByte_last by done. rewrite length_append. cbn [String.length].
  rewrite (proj2 (Nat.ltb_ge _ _)) by lia. rewrite str_drop_add, str_drop_app. cbn [str_drop].
  rewrite Fields_Join by (eapply Forall_impl; [exact Hf|by intros ? [? _]]). rewrite (proj2 (Nat.ltb_ge _ _)) by lia.
  rewrite H11, H12. cbn [mbind option_bind]. by rewrite !ParseUint64_pretty.
Qed.

(** C39. Between two reports: the usage that is reported is the last reading of the CPU since the
    previous report (the one before when every reading failed, and never below 1), and the load
    change is the largest difference between neighbouring readings of that window, failed readings
    left out. *)
Theorem collectCPU_window physical logical st inputs :
  let st1 := fst (collectCPU physical logical st) in
  let l := omap id (readings st inputs) in
  let usage := default (currUsage st) (last l) in
  snd (collectCPU physical logical (run_samples st1 inputs)) =
    mkCPU physical logical (if fle usage fone then fone else usage) fzero (max_of (deltas l)).
Proof.
  intros st1 l usage. pose proof (run_gauge st1 inputs) as Hr. rewrite (readings_procs st1 st) in Hr by done.
  pose proof (window_gauge st1 (readings st inputs) eq_refl eq_refl) as Hw. cbv zeta in Hw. fold l in Hw. rewrite <- Hr in Hw.
  unfold collectCPU, usage. cbn [snd]. destruct (last l) as [p|] eqn:El; cbn [default from_option id].
  - unfold gauge_of in Hw. injection Hw as _ -> -> _. done.
  - apply last_None in El. rewrite El. unfold gauge_of in Hw. injection Hw as _ -> -> _. done.
Qed.

(** ** Instances *)

Definition sample_fields : list string := ["S"; "1"; "1"; "1"; "0"; "-1"; "4194560"; "0"; "0"; "0"; "0"; "250"; "125"; "0"].

Lemma readProcStat_roundtrip_witness :
  readProcStat (Some (stat_text "42 (data-proxy ) v2" sample_fields)) = Ret (Some (250, 125)).
Proof.
  apply (readProcStat_roundtrip "42 (data-proxy ) v2" sample_fields 250 125); try done; [|simpl; lia].
  apply (bool_decide_unpack _). vm_compute. exact I.
Defined.
End Sampler.

Module IPInfo.

(** [ipOverride] *)
Record ipOverride := mkOv { ov_Country : string; ov_Continent : string; ov_Province : string; ov_City : string }.

Record IPInfoResult := mkInfo { IP : string; Country : string; Continent : string; Province : string; City : string }.

(** The loop of [LoadCountryContinent] over the entries (name and continent) by country code. *)
Definition LoadCountryContinent (raw : gmap string (string * string)) : gmap string string := snd <$> raw.

Definition GetContinentByCountry (countryToContinent : gmap string string) (country : string) : string :=
  default "Unknown" (countryToContinent !! country).

Section Info.
Context `{RangeMap}.

(** [findIPOverride]: the entry of the address itself, or the first entry, in the order of the
    iteration, whose key is a prefix of it. *)
Definition findIPOverride (ipOverrides : gmap string ipOverride) (ip : string) : option ipOverride :=
  match ipOverrides !! ip with
  | Some ov => Some ov
  | None => snd <$> head (filter (fun kv => String.prefix (fst kv) ip = true) (range_map ipOverrides))
  end.

Definition override (field by_ : string) : string := if String.eqb by_ "" then field else by_.

(** [Get_all]: country, region and city of an address in the database; [None] for [ipDb] when the
    database could not be opened. *)
Definition GetIPInfo (ipDb : option (string -> option (string * string * string))) (continents : gmap string string)
    (ipOverrides : gmap string ipOverride) (ip : string) : option IPInfoResult :=
  match ipDb with
  | None => None
  | Some Get_all =>
      match Get_all ip with
      | None => None
      | Some (country, region, city) =>
          let result := mkInfo ip country (GetContinentByCountry continents country) region city in
          match findIPOverride ipOverrides ip with
          | None => Some result
          | Some ov => Some (mkInfo ip (override (Country result) (ov_Country ov)) (override (Continent result) (ov_Continent ov))
                               (override (Province result) (ov_Province ov)) (override (City result) (ov_City ov)))
          end
      end
  end.

(** ** Properties *)

(** An override is found exactly when some key is a prefix of the address, and it is the entry of
    such a key: that of the address itself when there is one. *)
Theorem findIPOverride_spec ipOverrides ip :
  match findIPOverride ipOverrides ip with
  | None => forall k ov, ipOverrides !! k = Some ov -> String.prefix k ip = false
  | Some ov => ipOverrides !! ip = Some ov \/
               (ipOverrides !! ip = None /\ exists k, ipOverrides !! k = Some ov /\ String.prefix k ip = true)
  end.
Proof.
  unfold findIPOverride. destruct (ipOverrides !! ip) as [ov|] eqn:E; [by left|].
  destruct (filter (fun kv => String.prefix (fst kv) ip = true) (range_map ipOverrides)) as [|[k ov] l] eqn:Ef; cbn.
  - intros k ov Hk. destruct (String.prefix k ip) eqn:Hp; [|done]. apply elem_of_range_map in Hk.
    assert (Hin : (k, ov) ∈ filter (fun kv => String.prefix (fst kv) ip = true) (range_map ipOverrides)) by (by apply list_elem_of_filter).
    rewrite Ef in Hin. by apply not_elem_of_nil in Hin.
  - right. split; [done|]. exists k. assert (Hin : (k, ov) ∈ filter (fun kv => String.prefix (fst kv) ip = true) (range_map ipOverrides)) by (rewrite Ef; left).
    apply list_elem_of_filter in Hin as [Hp Hin]. split; [by apply elem_of_range_map|done].
Qed.
End Info.

(** The iteration in the opposite order. *)
Definition reverse_order : RangeMap.
Proof. refine {| range_map V m := reverse (map_to_list m) |}. intros V m. apply reverse_Permutation. Defined.

Definition two_overrides : gmap string ipOverride :=
  {["47.86" := mkOv "" "" "" "Tokyo"; "47.86.234" := mkOv "" "" "" "Osaka"]}.

(** Not the longest prefix: which of two overlapping overrides applies to an address depends on the
    iteration order of the map. *)
Theorem override_order_matters :
  @findIPOverride key_order two_overrides "47.86.234.131" <> @findIPOverride reverse_order two_overrides "47.86.234.131".
Proof. vm_compute. congruence. Qed.
End IPInfo.
