(* ===== verification/Probing.v ===== *)
(** * Probe rounds (data-plane/probing/tcpprobe.go, get-task.go)

    Every few seconds a node fetches its probe tasks from the control plane and probes them with a
    few goroutines that read the tasks from an unbuffered channel; the results of the round are filed
    when all goroutines have returned. *)

From Stdlib Require Import ZArith Lia SpecFloat Ascii.
From stdpp Require Import base list gmap strings list_tactics.
From S2P Require Import Prelude F64 GoStrings GoChan Graph ControlPlane.
Import Graph ControlPlane WorkerPool.

Module Probing.

(** ** Configuration and tasks *)

(** [Config]; durations in nanoseconds. *)
Record Config := mkConfig { Concurrency : Z; Timeout : Z; Interval : Z; Attempts_ : Z; BufferSize : Z }.

Definition or_default (v d : Z) : Z := if (v <=? 0)%Z then d else v.

(** The defaults of [StartProbePeriodically]. *)
Definition with_defaults (cfg : Config) : Config :=
  mkConfig (or_default (Concurrency cfg) 4) (or_default (Timeout cfg) 2000000000) (or_default (Interval cfg) 5000000000) (or_default (Attempts_ cfg) 5) (BufferSize cfg).

(** How the request for the tasks ends: an error of the transport or of the body, or a response with
    its code and tasks. *)
Inductive task_response := RequestFailed | BadBody | Response (code : Z) (data : list ProbeTask).

(** [GetProbeTasks] *)
Definition fetch_tasks (r : task_response) : option (list ProbeTask) :=
  match r with
  | RequestFailed | BadBody => None
  | Response code data => if negb (code =? 200)%Z then None else Some data
  end.

(** ** A round *)

(** [doProbeLossRTT]: the tasks that the producer still has to send, the goroutines and their results. *)
Record round := mkRound { todo : list ProbeTask; probers : pool ProbeTask; roundResults : list Result }.

Definition start_round (cfg : Config) (targets : list ProbeTask) : round :=
  mkRound targets (start (Z.to_nat (Concurrency cfg)) 0) [].

(** The producer sends the next task or closes the channel; a goroutine ends the attempts on a task. *)
Inductive round_op := Produce | Finish (t : ProbeTask) (attempts : list attempt).

Definition round_step (cfg : Config) (r : round) (o : round_op) : outcome round :=
  match o with
  | Produce =>
      match todo r with
      | t :: rest => match fire (probers r) (Send t) with
                     | Next p => Next (mkRound rest p (roundResults r))
                     | Blocked => Blocked
                     | Panics => Panics
                     end
      | [] => if closed (probers r) then Blocked       (* the producer has returned *)
              else match fire (probers r) CloseChan with
                   | Next p => Next (mkRound [] p (roundResults r))
                   | Blocked => Blocked
                   | Panics => Panics
                   end
      end
  | Finish t l =>
      if (Z.of_nat (length l) =? Attempts_ cfg)%Z then
        match fire (probers r) (Done t) with
        | Next p => Next (mkRound (todo r) p (roundResults r ++ [probe t l]))
        | Blocked => Blocked
        | Panics => Panics
        end
      else Blocked
  end.

Fixpoint round_run (cfg : Config) (r : round) (os : list round_op) : outcome round :=
  match os with
  | [] => Next r
  | o :: os => match round_step cfg r o with Next r' => round_run cfg r' os | Blocked => Blocked | Panics => Panics end
  end.

(** [wg.Wait] returns. *)
Definition round_over (r : round) : Prop := drained (probers r).

(** One tick of [StartProbePeriodically]: [results] are those of the round over the fetched tasks. *)
Definition probe_tick (latest : gmap string Result) (resp : task_response) (results : list ProbeTask -> list Result) : gmap string Result :=
  match fetch_tasks resp with
  | None => latest
  | Some targets => updateLatestResults latest (results targets)
  end.

(** ** Proofs *)

(** The invariant of a round over [targets]. *)
Record round_ok (cfg : Config) (targets : list ProbeTask) (r : round) : Prop := {
  ro_tasks : todo r ++ running (probers r) ++ finished (probers r) ≡ₚ targets;
  ro_cap : cap (probers r) = 0%Z;
  ro_queue : queue (probers r) = [];
  ro_size : size (probers r) = Z.to_nat (Concurrency cfg);
  ro_running : (length (running (probers r)) <= size (probers r))%nat;
  ro_closed : closed (probers r) = true -> todo r = [];
  ro_results : Target <$> roundResults r = finished (probers r);
  ro_probed : Forall (fun res => exists l, Z.of_nat (length l) = Attempts_ cfg /\ res = probe (Target res) l) (roundResults r)
}.

Lemma round_step_ok cfg targets r o r' : round_ok cfg targets r -> round_step cfg r o = Next r' -> round_ok cfg targets r'.
Proof.
  intros [Ht Hc Hq Hs Hr Hcl Hres Hp] Hstep. destruct o as [|t l]; cbn [round_step] in Hstep.
  - destruct (todo r) as [|t rest] eqn:Et.
    + destruct (closed (probers r)) eqn:Ec; [done|]. cbn [fire] in Hstep. rewrite Ec in Hstep. injection Hstep as <-. constructor; cbn; done.
    + cbn [fire] in Hstep. destruct (closed (probers r)); [done|]. rewrite Hq, Hc in Hstep. change (Z.of_nat (length []) <? 0)%Z with false in Hstep. change (0 =? 0)%Z with true in Hstep. cbn [andb] in Hstep.
      destruct (Nat.ltb_spec (length (running (probers r))) (size (probers r))); [|done]. injection Hstep as <-.
      constructor; cbn; try done; [|rewrite length_app; simpl; lia]. rewrite <- Ht. solve_Permutation.
  - destruct (Z.eqb_spec (Z.of_nat (length l)) (Attempts_ cfg)) as [Hl|]; [|done]. cbn [fire] in Hstep.
    destruct (remove_first t (running (probers r))) as [rest|] eqn:Er; [|done]. injection Hstep as <-. apply remove_first_Perm in Er.
    pose proof (Permutation_length Er) as Hlen. simpl in Hlen. constructor; cbn; try done.
    + rewrite <- Ht, Er. solve_Permutation.
    + lia.
    + by rewrite fmap_app, Hres.
    + apply Forall_app. split; [done|]. constructor; [|constructor]. by exists l.
Qed.

Lemma round_run_ok cfg targets r os r' : round_ok cfg targets r -> round_run cfg r os = Next r' -> round_ok cfg targets r'.
Proof.
  revert r. induction os as [|o os IH]; intros r Hok; cbn [round_run]; [by intros [= <-]|].
  destruct (round_step cfg r o) as [r1| |] eqn:E; [|done..]. apply IH. by eapply round_step_ok.
Qed.

Lemma start_round_ok cfg targets : round_ok cfg targets (start_round cfg targets).
Proof. constructor; cbn; try done; [by rewrite app_nil_r|lia]. Qed.

(** Steps that are left. *)
Definition round_left (r : round) : nat :=
  2 * length (todo r) + length (running (probers r)) + if closed (probers r) then 0 else 1.

Lemma round_step_left cfg targets r o r' : round_ok cfg targets r -> round_step cfg r o = Next r' -> S (round_left r') = round_left r.
Proof.
  intros [_ Hc Hq _ _ _ _ _] Hstep. unfold round_left. destruct o as [|t l]; cbn [round_step] in Hstep.
  - destruct (todo r) as [|t rest].
    + destruct (closed (probers r)) eqn:Ec; [done|]. cbn [fire] in Hstep. rewrite Ec in Hstep. injection Hstep as <-. cbn. lia.
    + cbn [fire] in Hstep. destruct (closed (probers r)); [done|]. rewrite Hq, Hc in Hstep. change (Z.of_nat (length []) <? 0)%Z with false in Hstep. change (0 =? 0)%Z with true in Hstep. cbn [andb] in Hstep.
      destruct (_ <? _)%nat; [|done]. injection Hstep as <-. cbn. rewrite length_app. simpl. lia.
  - destruct (_ =? _)%Z; [|done]. cbn [fire] in Hstep.
    destruct (remove_first t (running (probers r))) as [rest|] eqn:Er; [|done]. injection Hstep as <-.
    apply remove_first_Perm, Permutation_length in Er. cbn. simpl in Er. lia.
Qed.

Lemma round_run_left cfg targets r os r' :
  round_ok cfg targets r -> round_run cfg r os = Next r' -> (length os + round_left r' = round_left r)%nat.
Proof.
  revert r. induction os as [|o os IH]; intros r Hok; cbn [round_run]; [by intros [= <-]|].
  destruct (round_step cfg r o) as [r1| |] eqn:E; [|done..]. intros Hr.
  pose proof (round_step_left _ _ _ _ _ Hok E). pose proof (IH r1 (round_step_ok _ _ _ _ _ Hok E) Hr). simpl. lia.
Qed.

(** A round that is not over can go on. *)
Lemma round_progress cfg targets r :
  (0 < Concurrency cfg)%Z -> (0 <= Attempts_ cfg)%Z -> round_ok cfg targets r -> ~ round_over r -> exists o r', round_step cfg r o = Next r'.
Proof.
  intros Hcc Hat [Ht Hc Hq Hs Hr Hcl Hres Hp] Hover. destruct (running (probers r)) as [|t rest] eqn:Er.
  - exists Produce. cbn [round_step]. destruct (todo r) as [|t rest] eqn:Et.
    + destruct (closed (probers r)) eqn:Ec; [exfalso; apply Hover; by split_and!|]. cbn [fire]. rewrite Ec. eauto.
    + cbn [fire]. destruct (closed (probers r)) eqn:Ec; [by specialize (Hcl eq_refl)|]. rewrite Hq, Hc, Er. change (Z.of_nat (length []) <? 0)%Z with false. change (0 =? 0)%Z with true. cbn [andb length].
      rewrite (proj2 (Nat.ltb_lt 0 (size (probers r)))) by lia. eauto.
  - exists (Finish t (replicate (Z.to_nat (Attempts_ cfg)) TimedOut)). cbn [round_step]. rewrite length_replicate, Z2Nat.id, Z.eqb_refl by lia.
    cbn [fire]. rewrite Er. cbn [remove_first]. rewrite decide_True by done. eauto.
Qed.

Lemma update_other latest results ip : ip ∉ (pt_IP ∘ Target) <$> results -> updateLatestResults latest results !! ip = latest !! ip.
Proof.
  unfold updateLatestResults. revert latest. induction results as [|r results IH]; intros latest Hn; [done|]. cbn [foldl].
  rewrite fmap_cons, not_elem_of_cons in Hn. destruct Hn as [Hne Hn]. rewrite IH by done. by apply lookup_insert_ne.
Qed.

Lemma update_one latest results r :
  NoDup ((pt_IP ∘ Target) <$> results) -> r ∈ results -> updateLatestResults latest results !! pt_IP (Target r) = Some r.
Proof.
  unfold updateLatestResults. revert latest. induction results as [|r0 results IH]; intros latest Hnd Hin; [by apply not_elem_of_nil in Hin|].
  rewrite fmap_cons in Hnd. apply NoDup_cons in Hnd as [Hn Hnd]. cbn [foldl]. apply elem_of_cons in Hin as [->|Hin]; [|by apply IH].
  change (updateLatestResults (<[pt_IP (Target r0) := r0]> latest) results !! pt_IP (Target r0) = Some r0). rewrite update_other by done.
  apply lookup_insert_eq.
Qed.

(** ** Properties *)

(** C29. A probe round always ends and probes every target once: with the configuration that
    [StartProbePeriodically] makes, whatever the goroutines do in whatever order, nothing panics, a
    round that is not over can go on, no run is longer than twice the number of targets plus one, and
    when the round is over its results are, in some order, one result of the configured number of
    attempts for each target. *)
Theorem probe_round cfg0 targets os r :
  let cfg := with_defaults cfg0 in
  round_run cfg (start_round cfg targets) os = Next r ->
  (length os <= 2 * length targets + 1)%nat /\
  (forall o, round_step cfg r o <> Panics) /\
  (~ round_over r -> exists o r', round_step cfg r o = Next r') /\
  (round_over r -> Target <$> roundResults r ≡ₚ targets /\
     Forall (fun res => exists l, Z.of_nat (length l) = Attempts_ cfg /\ res = probe (Target res) l) (roundResults r)).
Proof.
  intros cfg Hr. pose proof (round_run_ok _ _ _ _ _ (start_round_ok cfg targets) Hr) as Hok.
  pose proof (round_run_left _ _ _ _ _ (start_round_ok cfg targets) Hr) as Hl.
  assert (Hpos : (0 < Concurrency cfg /\ 0 < Attempts_ cfg)%Z).
  { unfold cfg, with_defaults, or_default. cbn. destruct (Z.leb_spec (Concurrency cfg0) 0), (Z.leb_spec (Attempts_ cfg0) 0); lia. }
  split_and!.
  - unfold round_left at 2 in Hl. cbn in Hl. lia.
  - intros o Hp. destruct o as [|t l]; cbn [round_step] in Hp; [|cbn [fire] in Hp; by repeat case_match].
    destruct (todo r) as [|t rest] eqn:Et; [by destruct (closed (probers r)) eqn:Ec; [|cbn [fire] in Hp; rewrite Ec in Hp]|].
    cbn [fire] in Hp. destruct (closed (probers r)) eqn:Ec; [by rewrite (ro_closed _ _ _ Hok Ec) in Et|]. by repeat case_match.
  - intros Hn. eapply round_progress; [lia|lia|exact Hok|exact Hn].
  - intros (Hc & Hq & Hrun). destruct Hok as [Ht _ _ _ _ Hcl Hres Hpr]. split; [|exact Hpr].
    rewrite Hres, <- Ht, Hrun, (Hcl Hc). done.
Qed.

(** What a tick does to the table of results: targets at different addresses each get their new
    result; nothing else changes.  In particular the result of a target that is no longer probed stays
    in the table, and in every later report. *)
Theorem probe_tick_table latest targets results :
  Target <$> results ≡ₚ targets -> NoDup (pt_IP <$> targets) ->
  let latest' := probe_tick latest (Response 200 targets) (fun _ => results) in
  (forall r, r ∈ results -> latest' !! pt_IP (Target r) = Some r) /\
  (forall ip, ip ∉ pt_IP <$> targets -> latest' !! ip = latest !! ip).
Proof.
  intros Ht Hnd latest'. assert (Hip : (pt_IP ∘ Target) <$> results ≡ₚ pt_IP <$> targets) by (by rewrite list_fmap_compose, Ht).
  unfold latest', probe_tick. cbn [fetch_tasks Z.eqb Pos.eqb negb]. split.
  - intros r Hin. apply update_one; [by rewrite Hip|done].
  - intros ip Hn. apply update_other. by rewrite Hip.
Qed.

(** ** Instances *)

Definition task_a : ProbeTask := mkTask "node" "gcp" "10.0.0.2" 7083 "EU" "".
Definition task_b : ProbeTask := mkTask "source" "aws" "10.0.0.9" 8080 "EU" "s1".
Definition five (rtt : Z) : list attempt := replicate 5 (Connected rtt).
Definition no_config : Config := mkConfig 0 0 0 0 0.
Definition sample_round : list round_op := [Produce; Produce; Finish task_b (five 7); Produce; Finish task_a (five 9)].

Lemma probe_round_witness :
  match round_run (with_defaults no_config) (start_round (with_defaults no_config) [task_a; task_b]) sample_round with
  | Next r => Target <$> roundResults r ≡ₚ [task_a; task_b]
  | _ => False
  end.
Proof.
  destruct (round_run (with_defaults no_config) (start_round (with_defaults no_config) [task_a; task_b]) sample_round) as [r| |] eqn:E;
    [|vm_compute in E; discriminate E|vm_compute in E; discriminate E].
  destruct (probe_round no_config [task_a; task_b] sample_round r E) as (_ & _ & _ & Hover). apply Hover.
  vm_compute in E. injection E as <-. done.
Defined.

Lemma probe_tick_table_witness :
  probe_tick ∅ (Response 200 [task_a; task_b]) (fun _ => [probe task_b (five 7); probe task_a (five 9)]) !! "10.0.0.2" = Some (probe task_a (five 9)).
Proof.
  destruct (probe_tick_table ∅ [task_a; task_b] [probe task_b (five 7); probe task_a (five 9)]) as [H1 _].
  - apply perm_swap.
  - apply (bool_decide_unpack _). vm_compute. exact I.
  - apply (H1 (probe task_a (five 9))). right. left.
Defined.
End Probing.
