(* ===== verification/DataPlane.v ===== *)
(** * The data plane: collectors, reports, the address service (src/data-plane)

    - [Collectors]: collector.go with memory.go, disk.go, network.go, os.go, process.go and the types
      of report-info.go; [Reporter]: report.go, up to the answer of the control plane;
    - [SamplerLife]: the life cycle of the CPU sampler (cpu.go);
    - [IPService]: ip-lib.go, continent.go and the handler of main.go, with the client of it in the
      control plane (get-ip-info.go);
    - [LastReporter]: the ticks of LastTelemetryReporter (telemetry.go) and report.go of edge-domain;
    - [PlaneStart]: main.go. *)

From Stdlib Require Import ZArith Lia SpecFloat Ascii.
From stdpp Require Import base list gmap strings pretty sorting.
From S2P Require Import Prelude F64 GoStrings GoSort Graph Stats ControlPlane Telemetry Routing GoChan ModuleConfig Probing.
Import Graph Stats ControlPlane.

Module Collectors.

Local Open Scope Z_scope.

(** ** The report *)

Record MemoryInfo := mkMemory { mem_Total : Z; mem_Used : Z; mem_Free : Z; mem_Usage : float64 }.
Record DiskInfo := mkDisk { disk_Total : Z; disk_Used : Z; disk_Free : Z; disk_Usage : float64; disk_Path : string }.
Record NetworkInfo := mkNetwork { net_PublicIP : string; net_PrivateIP : string; net_PortCount : Z; TrafficIn : Z; TrafficOut : Z }.
Record OSInfo := mkOSInfo { OSName : string; KernelVer : string; Hostname : string; BootTime : Z }.
Record ProcessDetail := mkDetail { PID : Z; ProcName : string; Usage : float64 }.
Record ProcessInfo := mkProcesses { ActiveCount : Z; TopCPU : list ProcessDetail; TopMem : list ProcessDetail }.

(** [report_info.VMReport] *)
Record FullReport := mkFull {
  f_VMID : string;
  f_CollectTime : Z;
  f_ReportID : string;
  f_CPU : CPUInfo;
  f_Memory : MemoryInfo;
  f_Disk : DiskInfo;
  f_Network : NetworkInfo;
  f_OS : OSInfo;
  f_Process : ProcessInfo;
  f_LinksCongestion : list ReportLink
}.

(** ** Collectors

    The arguments are what gopsutil returns; [None] is an error. *)

Definition collectMemory (v : option (Z * Z * Z * float64)) : option MemoryInfo :=
  '(total, used, free, percent) ← v; Some (mkMemory total used free percent).

(** The usage of [/]. *)
Definition collectDisk (usage : string -> option (Z * Z * Z * float64)) : option DiskInfo :=
  let path := "/" in
  '(total, used, free, percent) ← usage path; Some (mkDisk total used free percent path).

(** [int64(info.BootTime)] wraps around. *)
Definition collectOS (info : option (string * string * string * Z)) : option OSInfo :=
  '(os, kernel, hostname, boot) ← info; Some (mkOSInfo os kernel hostname (if wrap 64 boot <? 2 ^ 63 then wrap 64 boot else wrap 64 boot - 2 ^ 64)).

(** The addresses of the configuration, the number of connections, and the bytes of all interfaces. *)
Definition collectNetwork (publicIP privateIP : string) (connections : option nat) (io : option (list (Z * Z))) : option NetworkInfo :=
  ports ← connections; stats ← io;
  Some (mkNetwork publicIP privateIP (Z.of_nat ports)
          (foldl (fun n s => u64 (n + fst s)) 0 stats) (foldl (fun n s => u64 (n + snd s)) 0 stats)).

(** A process: pid, name, CPU and memory percentage; an error of one of them leaves it empty or 0. *)
Record proc := mkProc { p_Pid : Z; p_Name : string; p_CPU : float64; p_Mem : float64 }.

Definition usage_more (x y : ProcessDetail) : bool := flt (Usage y) (Usage x).
Definition usage_number (x : ProcessDetail) : Prop := is_nan (Usage x) = false.

Section Processes.
Context `{SortSlice ProcessDetail usage_more usage_number}.

Definition details (f : proc -> float64) (l : list proc) : list ProcessDetail :=
  omap (fun p => if String.eqb (p_Name p) "" || feq (f p) fzero then None else Some (mkDetail (p_Pid p) (p_Name p) (f p))) l.

Definition top3 (l : list ProcessDetail) : list ProcessDetail := take 3 (sort_slice l).

Definition collectProcess (processes : option (list proc)) : option ProcessInfo :=
  l ← processes; Some (mkProcesses (Z.of_nat (length l)) (top3 (details p_CPU l)) (top3 (details p_Mem l))).

(** [Collect]: the collectors in their order; the first error ends it. *)
Definition Collect (now : Z) (cpuInfo : option CPUInfo) (memory : option MemoryInfo) (disk : option DiskInfo) (network : option NetworkInfo)
    (os : option OSInfo) (process : option ProcessInfo) (linksCong : list ReportLink) : option FullReport :=
  cpu ← cpuInfo; mem ← memory; dsk ← disk; net ← network; osi ← os; pr ← process;
  Some (mkFull ("vm-" +:+ net_PublicIP net +:+ "-001") now "" cpu mem dsk net osi pr linksCong).

(** ** Properties *)

Lemma StronglySorted_app_rel {A} (R : A -> A -> Prop) l1 l2 x y : StronglySorted R (l1 ++ l2) -> x ∈ l1 -> y ∈ l2 -> R x y.
Proof.
  induction l1 as [|z l1 IH]; intros Hs Hx Hy; [by apply not_elem_of_nil in Hx|]. apply StronglySorted_inv in Hs as [Hs Hz].
  apply elem_of_cons in Hx as [->|Hx]; [|by apply IH]. rewrite Forall_forall in Hz. apply Hz, elem_of_app. by right.
Qed.

(** The top processes of a report: at most three, all of them processes with a name and a usage,
    and unless a usage is not a number no other such process uses more than one of them. *)
Theorem top_processes processes info :
  collectProcess (Some processes) = Some info ->
  length (TopCPU info) = Nat.min 3 (length (details p_CPU processes)) /\
  (exists rest, TopCPU info ++ rest ≡ₚ details p_CPU processes /\
     (Forall usage_number (details p_CPU processes) -> forall x y, x ∈ TopCPU info -> y ∈ rest -> flt (Usage x) (Usage y) = false)).
Proof.
  intros [= <-]. cbn [TopCPU]. unfold top3. split; [by rewrite length_take, sort_slice_perm|].
  exists (drop 3 (sort_slice (details p_CPU processes))). split; [by rewrite take_drop, sort_slice_perm|]. intros Hn x y Hx Hy.
  pose proof (sort_slice_sorted _ Hn) as Hs. rewrite <- (take_drop 3 (sort_slice (details p_CPU processes))) in Hs.
  exact (StronglySorted_app_rel _ _ _ x y Hs Hx Hy).
Qed.
End Processes.

(** A [sort.Slice] for the examples. *)
Definition usage_sort : SortSlice ProcessDetail usage_more usage_number.
Proof.
  refine {| sort_slice := exchange_sort usage_more; sort_slice_perm := exchange_sort_perm usage_more |}.
  apply exchange_sort_sorted; [intros x y; apply flt_asym|]. intros x y z Hy Hx Hz. unfold le_of, usage_more in *. by apply (fge_trans (Usage z) (Usage y)).
Defined.

Definition sample_procs : list proc :=
  [mkProc 1 "init" fzero fone; mkProc 7 "data-proxy" (of_Z 80) fone; mkProc 8 "etcd" (of_Z 10) fone; mkProc 9 "" (of_Z 99) fone; mkProc 10 "sshd" fone fone; mkProc 11 "data-plane" (of_Z 20) fone].

Lemma top_processes_witness :
  exists info, @collectProcess usage_sort (Some sample_procs) = Some info /\ PID <$> TopCPU info = [7; 11; 8] /\
    exists rest, TopCPU info ++ rest ≡ₚ details p_CPU sample_procs.
Proof.
  destruct (@collectProcess usage_sort (Some sample_procs)) as [info|] eqn:E; [|vm_compute in E; discriminate E].
  destruct (@top_processes usage_sort sample_procs info E) as (_ & rest & Hr & _). exists info. split; [reflexivity|]. split; [|by exists rest].
  vm_compute in E. injection E as <-. reflexivity.
Defined.
End Collectors.

Module Reporter.
Import Collectors.

Local Open Scope Z_scope.

(** The report as the control plane decodes it: the JSON names of its fields are those of the data plane. *)
Definition as_received (r : FullReport) : VMReport :=
  mkReport (f_VMID r) (f_CollectTime r) (f_ReportID r) (f_CPU r) (mem_Total (f_Memory r)) (net_PublicIP (f_Network r)) (net_PortCount (f_Network r))
    (f_LinksCongestion r).

(** [Report] before the request: a report gets an id. *)
Definition with_id (uuid : string) (r : FullReport) : FullReport :=
  mkFull (f_VMID r) (f_CollectTime r) (if String.eqb (f_ReportID r) "" then uuid else f_ReportID r) (f_CPU r) (f_Memory r) (f_Disk r) (f_Network r)
    (f_OS r) (f_Process r) (f_LinksCongestion r).

(** How a request ends: no answer, a body that is not JSON, or a code. *)
Inductive http_end := NoAnswer | BadAnswer | Answered (code : Z).

Inductive report_end := CollectionFailed | ReportingFailed | Reported (id : string).

(** [reportOnce] with [Report]: [marshal] is the JSON text of the report, [post] the request with it. *)
Definition reportOnce {Text} (collected : option FullReport) (uuid : string) (marshal : FullReport -> option Text) (post : Text -> http_end) : report_end :=
  match collected with
  | None => CollectionFailed
  | Some r =>
      let r := with_id uuid r in
      match marshal r with
      | None => ReportingFailed
      | Some jsonData =>
          match post jsonData with
          | Answered code => if negb (code =? 200) then ReportingFailed else Reported (f_ReportID r)
          | _ => ReportingFailed
          end
      end
  end.

(** [encoding/json] for reports, between the two programs: the text of a report with strings in valid UTF-8 is decoded as the
    report. *)
Class ReportJson (Text : Type) := {
  marshal : FullReport -> option Text;
  bind_vm : Text -> option VMReport;
  report_plain : FullReport -> Prop;
  bind_marshal r text : report_plain r -> marshal r = Some text -> bind_vm text = Some (as_received r)
}.

Section Cycle.
Context `{Codec ControlPlane.Telemetry} `{ReportJson Text}.

(** The control plane at the other end; [reached]: whether the request gets there. *)
Definition vm_receive (reached granted stored : bool) (cfg : NodeConfig) (now : Z) (uuid : string) (text : Text) : http_end * list etcd_put :=
  if reached then let '(code, _, puts) := PostVMReceive granted stored cfg now uuid (bind_vm text) in (Answered code, puts)
  else (NoAnswer, []).

Lemma collected_valid now cpu mem disk net os process links uuid r :
  0 <= PhysicalCore cpu -> 0 <= LogicalCore cpu -> Collect now (Some cpu) (Some mem) disk (Some net) os process links = Some r ->
  validate (as_received (with_id uuid r)) = (if String.eqb (net_PublicIP net) "" then [no_public_ip] else []) ++
                             (if mem_Total mem =? 0 then ["Total memory (total) cannot be 0"] else []).
Proof.
  intros Hp Hl Hc. unfold Collect in Hc. cbn [mbind option_bind] in Hc. destruct disk as [dsk|]; [|done]. cbn [mbind option_bind] in Hc.
  destruct os as [osi|]; [|done]. destruct process as [pr|]; [|done]. injection Hc as <-. unfold validate. cbn.
  rewrite (proj2 (Z.ltb_ge (PhysicalCore cpu) 0)), (proj2 (Z.ltb_ge (LogicalCore cpu) 0)) by lia. done.
Qed.

(** C30. A report cycle of a node with a public address and memory, when every collector succeeds: a report that cannot be serialised is not
    sent.  When it can (its strings are valid UTF-8) and the request gets through, the control plane accepts the report, the cycle ends well
    under the id that the report was given, and one value reaches etcd, if it can be serialised and the lease and the put succeed,
    under the address that the control plane is configured with, for a minute: telemetry with the place of the control plane's own configuration, the
    collected CPU values, and for every target of the collected links the means of its losses and latencies (the collected address is
    only checked). *)
Theorem report_cycle granted stored cfg now now' uuid uuid' cpu mem dsk net osi pr links r :
  0 <= PhysicalCore cpu -> 0 <= LogicalCore cpu -> net_PublicIP net <> "" -> mem_Total mem <> 0 -> uuid <> "" ->
  Collect now (Some cpu) (Some mem) (Some dsk) (Some net) (Some osi) (Some pr) links = Some r -> report_plain (with_id uuid r) ->
  let cycle := reportOnce (Some r) uuid marshal (fun text => fst (vm_receive true granted stored cfg now' uuid' text)) in
  match marshal (with_id uuid r) with
  | None => cycle = ReportingFailed
  | Some text =>
      cycle = Reported uuid /\
      exists tel, snd (vm_receive true granted stored cfg now' uuid' text) =
          match encode tel with
          | Some val => if granted && stored then [mkPut ("/routing-middle/" +:+ nc_Public cfg) val 60] else []
          | None => []
          end /\
        tel_PublicIP tel = nc_Public cfg /\ tel_Provider tel = ModuleConfig.Provider cfg /\ tel_Continent tel = ModuleConfig.Continent cfg /\
        tel_Country tel = ModuleConfig.Country cfg /\ tel_City tel = ModuleConfig.City cfg /\ tel_Cpu tel = cpu /\ tel_CpuPressure tel = Graph.Usage cpu /\
        forall k, tel_Links tel !! k =
          match of_target k links with
          | [] => None
          | v :: vs => Some (mkRL k (rl_Target v) (mean (rl_PacketLoss <$> v :: vs)) (mean (rl_AverageLatency <$> v :: vs)))
          end
  end.
Proof.
  intros Hp Hl Hip Hm Hu Hc Hpl cycle. pose proof (collected_valid now cpu mem (Some dsk) net (Some osi) (Some pr) links uuid r Hp Hl Hc) as Hv.
  rewrite (proj2 (String.eqb_neq _ _) Hip), (proj2 (Z.eqb_neq _ _) Hm) in Hv. cbn [app] in Hv. unfold cycle, reportOnce.
  destruct (marshal (with_id uuid r)) as [text|] eqn:Em; [|done]. pose proof (bind_marshal _ _ Hpl Em) as Hb.
  unfold vm_receive, PostVMReceive. rewrite Hb, Hv. cbn [length Nat.ltb Nat.leb fst snd Z.eqb Pos.eqb negb].
  unfold Collect in Hc. cbn [mbind option_bind] in Hc. injection Hc as <-. split; [done|].
  match goal with |- context [push_telemetry _ _ _ ?x] => exists (DoClusterWeightedAvg cfg x) end.
  split; [unfold push_telemetry, PutKeyWithLease; destruct (encode _); [by destruct granted, stored|done]|]. split_and!; try done.
  intros k. by rewrite telemetry_groups.
Qed.

(** A node whose public address is not configured is refused for ever. *)
Theorem unconfigured_node_refused granted stored cfg now now' uuid uuid' cpu mem disk net os process links r text :
  0 <= PhysicalCore cpu -> 0 <= LogicalCore cpu -> net_PublicIP net = "" ->
  Collect now (Some cpu) (Some mem) disk (Some net) os process links = Some r -> report_plain (with_id uuid r) -> marshal (with_id uuid r) = Some text ->
  reportOnce (Some r) uuid marshal (fun text => fst (vm_receive true granted stored cfg now' uuid' text)) = ReportingFailed /\
  snd (vm_receive true granted stored cfg now' uuid' text) = [].
Proof.
  intros Hp Hl Hip Hc Hpl Em. pose proof (collected_valid now cpu mem disk net os process links uuid r Hp Hl Hc) as Hv. rewrite Hip in Hv. cbn [String.eqb app] in Hv.
  unfold reportOnce, vm_receive, PostVMReceive. rewrite Em, (bind_marshal _ _ Hpl Em), Hv. done.
Qed.
End Cycle.

Definition sample_cpu : CPUInfo := mkCPU 2 4 (of_Z 20) fone fzero.
Definition sample_memory : MemoryInfo := mkMemory 8000 3000 5000 (of_Z 37).
Definition sample_disk : DiskInfo := mkDisk 100 40 60 (of_Z 40) "/".
Definition sample_network : NetworkInfo := mkNetwork "34.1.1.1" "10.0.0.1" 12 1000 2000.
Definition sample_host : OSInfo := mkOSInfo "linux" "6.1" "node" 1700000000.
Definition sample_processes : ProcessInfo := mkProcesses 0 [] [].

(** Texts as the reports they stand for. *)
Definition plain_reports : ReportJson VMReport.
Proof. refine {| marshal r := Some (as_received r); bind_vm := Some; report_plain _ := True |}. by intros r text _ [= <-]. Defined.

#[local] Existing Instances tel_codec plain_reports.

Lemma report_cycle_witness :
  match Collect 5 (Some sample_cpu) (Some sample_memory) (Some sample_disk) (Some sample_network) (Some sample_host) (Some sample_processes) [] with
  | Some r => reportOnce (Some r) "id" marshal (fun text => fst (vm_receive true true true sample_cfg 6 "other" text)) = Reported "id"
  | None => False
  end.
Proof.
  destruct (Collect 5 (Some sample_cpu) (Some sample_memory) (Some sample_disk) (Some sample_network) (Some sample_host) (Some sample_processes) [])
    as [r|] eqn:E; [|vm_compute in E; discriminate E].
  exact (proj1 (report_cycle true true sample_cfg 5 6 "id" "other" sample_cpu sample_memory sample_disk sample_network sample_host sample_processes [] r
    ltac:(cbn; lia) ltac:(cbn; lia) ltac:(discriminate) ltac:(cbn; lia) ltac:(discriminate) E I)).
Defined.
End Reporter.

(** ** The life of the CPU sampler *)

Module SamplerLife.

(** Where the goroutine of [runSampler] is: about to evaluate [stopCh] for its [select], waiting in the
    [select] (on the channel, or on nil, which never receives), in [sample], or back. *)
Inductive place := NotStarted | Loop | Select (on_channel : bool) | Sampling | Returned.

(** [startOnce] has run; [stopCh] is not nil; the channel that it was has been closed. *)
Record life := mkLife { once : bool; stopCh : bool; closed : bool; at_ : place }.

Definition initial : life := mkLife false false false NotStarted.

Inductive life_event :=
| StartCPUSampler | StopCPUSampler
| EnterSelect | TickerFires | StopReceived | SampleEnds.

(** [None]: the event cannot happen now. *)
Definition life_step (s : life) (e : life_event) : option life :=
  match e with
  | StartCPUSampler => if once s then Some s else Some (mkLife true true (closed s) Loop)
  | StopCPUSampler => if stopCh s then Some (mkLife (once s) false true (at_ s)) else Some s
  | EnterSelect => match at_ s with Loop => Some (mkLife (once s) (stopCh s) (closed s) (Select (stopCh s))) | _ => None end
  | TickerFires => match at_ s with Select _ => Some (mkLife (once s) (stopCh s) (closed s) Sampling) | _ => None end
  | StopReceived => match at_ s with
                    | Select true => if closed s then Some (mkLife (once s) (stopCh s) (closed s) Returned) else None
                    | _ => None
                    end
  | SampleEnds => match at_ s with Sampling => Some (mkLife (once s) (stopCh s) (closed s) Loop) | _ => None end
  end.

Fixpoint life_run (s : life) (es : list life_event) : option life :=
  match es with
  | [] => Some s
  | e :: es => match life_step s e with Some s' => life_run s' es | None => None end
  end.

(** The stop was missed: the channel is gone and the goroutine does not wait on it. *)
Definition missed (s : life) : Prop := once s = true /\ stopCh s = false /\ match at_ s with Loop | Select false | Sampling => True | _ => False end.

Lemma missed_step s e s' : missed s -> life_step s e = Some s' -> missed s'.
Proof.
  intros (Ho & Hs & Ha). destruct s as [on st cl [| |[]| |]]; cbn in *; subst; try done; destruct e; cbn; intros [= <-]; done.
Qed.

Lemma missed_run s es s' : missed s -> life_run s es = Some s' -> missed s'.
Proof.
  revert s. induction es as [|e es IH]; intros s Hm; cbn [life_run]; [by intros [= <-]|].
  destruct (life_step s e) as [s1|] eqn:E; [|done]. apply IH. by eapply missed_step.
Qed.

(** What [StopCPUSampler] does: a goroutine that is waiting in its [select] can return; but one
    that is taking a sample, or that takes one more because the ticker fires as well, finds [stopCh] nil
    the next time and samples for ever; and whether or not it returned, it is never started again. *)
Theorem stop_sampler s stopped :
  once s = true -> stopCh s = true -> life_step s StopCPUSampler = Some stopped ->
  (at_ s = Select true -> exists s', life_step stopped StopReceived = Some s' /\ at_ s' = Returned) /\
  (at_ s = Sampling \/ at_ s = Loop -> forall es s', life_run stopped es = Some s' -> at_ s' <> Returned) /\
  (forall s', life_step stopped TickerFires = Some s' -> forall es s'', life_run s' es = Some s'' -> at_ s'' <> Returned) /\
  life_step stopped StartCPUSampler = Some stopped.
Proof.
  intros Ho Hc. cbn [life_step]. rewrite Hc. intros [= <-]. cbn [at_ stopCh once closed].
  assert (Hm : forall x es s', missed x -> life_run x es = Some s' -> at_ s' <> Returned).
  { intros x es s' Hx Hr He. destruct (missed_run x es s' Hx Hr) as (_ & _ & Ha). by rewrite He in Ha. }
  split_and!.
  - intros ->. eexists. done.
  - intros Ha es s'. apply Hm. by destruct Ha as [Ha|Ha]; rewrite Ha.
  - intros s'. destruct (at_ s); try done. intros [= <-] es s''. by apply Hm.
  - by rewrite Ho.
Qed.

Lemma stop_sampler_witness :
  match life_run initial [StartCPUSampler; EnterSelect; TickerFires] with
  | Some s => match life_step s StopCPUSampler with
              | Some stopped => forall es s', life_run stopped es = Some s' -> at_ s' <> Returned
              | None => False
              end
  | None => False
  end.
Proof.
  cbn [life_run life_step initial once stopCh closed at_].
  destruct (stop_sampler (mkLife true true false Sampling) (mkLife true false true Sampling)) as (_ & Hn & _); [reflexivity|reflexivity|reflexivity|].
  apply Hn. left. reflexivity.
Defined.
End SamplerLife.

(** ** The address service *)

Module IPService.
Import IPInfo.

Local Open Scope Z_scope.

(** A file of the executable's directory. *)
Inductive file := Missing | Unreadable | Content (contents : string).

(** [encoding/json] for the messages of the service: what is encoded is decoded again, and an object
    without the fields of the result is decoded as the empty result. *)
Class InfoJson := {
  text : Type;
  info_body : IPInfoResult -> text;
  error_body : string -> text;
  decode_info : text -> option IPInfoResult;
  decode_info_body i : decode_info (info_body i) = Some i;
  decode_error_body m : decode_info (error_body m) = Some (mkInfo "" "" "" "" "")
}.

(** The package variables [ipDb], [countryToContinent] and [ipOverrides]. *)
Record tables := mkTables {
  ipDb : option (string -> option (string * string * string));
  countryToContinent : gmap string string;
  ipOverrides : gmap string ipOverride
}.

Definition no_tables : tables := mkTables None ∅ ∅.

Section Service.
Context `{RangeMap} `{InfoJson}.
Context (parse_overrides : string -> option (gmap string ipOverride)) (parse_countries : string -> option (gmap string (string * string))).

Definition loadIPOverrides (t : tables) (f : file) : tables :=
  match f with
  | Missing | Unreadable => t
  | Content contents => match parse_overrides contents with
                    | None => t
                    | Some raw => mkTables (ipDb t) (countryToContinent t) raw
                    end
  end.

(** [InitIPInfo]: its error is always nil. *)
Definition InitIPInfo (t : tables) (db : option (string -> option (string * string * string))) (f : file) : tables * bool :=
  (loadIPOverrides (mkTables db (countryToContinent t) (ipOverrides t)) f, true).

(** [LoadCountryContinent]: the second component is whether it returns nil. *)
Definition load_countries (t : tables) (f : file) : tables * bool :=
  match f with
  | Missing | Unreadable => (t, false)
  | Content contents => match parse_countries contents with
                    | None => (t, false)
                    | Some raw => (mkTables (ipDb t) (LoadCountryContinent raw) (ipOverrides t), true)
                    end
  end.

(** What [main] does with the address tables: errors are logged. *)
Definition start_tables (db : option (string -> option (string * string * string))) (overrides countries : file) : tables :=
  fst (load_countries (fst (InitIPInfo no_tables db overrides)) countries).

(** [getIPInfoHandler]: status and body. *)
Definition getIPInfoHandler (t : tables) (ip : string) : Z * text :=
  if String.eqb ip "" then (400, error_body "ip parameter is required")
  else match IPInfo.GetIPInfo (ipDb t) (countryToContinent t) (ipOverrides t) ip with
       | None => (500, error_body "lookup failed")
       | Some info => (200, info_body info)
       end.

(** [GetIPInfo] of the control plane; [reached]: whether the request gets an answer.  The status of
    the answer is not looked at. *)
Definition client_GetIPInfo (reached : bool) (t : tables) (ip : string) : option IPInfoResult :=
  if String.eqb ip "" then None
  else if negb reached then None
  else decode_info (snd (getIPInfoHandler t ip)).

(** As [LastRouting] uses it. *)
Definition location (reached : bool) (t : tables) (ip : string) : option (string * string * string) :=
  (fun i => (Country i, City i, Continent i)) <$> client_GetIPInfo reached t ip.

(** Where the control plane takes a client to be: at the place the data plane's tables give for its
    address; and when that lookup fails, because there is no database or the address is not in it, nowhere in
    particular (all names empty) rather than an error, so that the last mile is still computed. *)
Theorem client_location db overrides countries ip :
  ip <> "" ->
  let t := start_tables db overrides countries in
  location true t ip =
    match IPInfo.GetIPInfo db (countryToContinent t) (ipOverrides t) ip with
    | Some i => Some (Country i, City i, Continent i)
    | None => Some ("", "", "")
    end.
Proof.
  intros Hip t. assert (Hdb : ipDb t = db).
  { unfold t, start_tables, InitIPInfo, load_countries, loadIPOverrides. cbn [fst]. repeat case_match; done. }
  unfold location, client_GetIPInfo, getIPInfoHandler. rewrite Hdb, (proj2 (String.eqb_neq _ _) Hip). cbn [negb].
  destruct (IPInfo.GetIPInfo db _ _ ip) as [i|]; cbn [snd]; [by rewrite decode_info_body|by rewrite decode_error_body].
Qed.
End Service.

(** Results and errors as themselves. *)
Definition toy_json : InfoJson.
Proof. refine {| text := option IPInfoResult; info_body := Some; error_body _ := Some (mkInfo "" "" "" "" ""); decode_info s := s |}; done. Defined.

Lemma client_location_witness :
  let lookup := @location key_order toy_json true (start_tables (fun _ => None) (fun _ => None) None Missing Missing) "1.1.1.1" in
  lookup = Some ("", "", "").
Proof. exact (@client_location key_order toy_json (fun _ => None) (fun _ => None) None Missing Missing "1.1.1.1" ltac:(discriminate)). Defined.
End IPService.


(** ** Reports of the last mile *)

Module LastReporter.
Import Telemetry.Telemetry Reporter.

Local Open Scope Z_scope.

(** How a tick ends. *)
Inductive last_end := NothingToReport | NotSerialised | SendFailed | LastReported.

(** [SendLastTelemetry] with the request: the status is only logged, the code in the body decides. *)
Definition send_last `{Codec LastTelemetry} (cfg : NodeConfig) (delayStats : gmap string LastCongestion) (post : string -> http_end) : last_end :=
  match encode (SendLastTelemetry cfg delayStats) with
  | None => NotSerialised
  | Some jsonData =>
      match post jsonData with
      | Answered code => if negb (code =? 200) then SendFailed else LastReported
      | _ => SendFailed
      end
  end.

Section Tick.
Context `{RangeMap} `{Remarshal LastTelemetry}.

(** A tick of [LastTelemetryReporter]: the records that are kept, and how it ends. *)
Definition last_tick (cfg : NodeConfig) (now : Z) (records : list LogRecord) (post : string -> http_end) : list LogRecord * go last_end :=
  let '(valid, m) := calculateLastCongestion now records in
  (valid, let! lastsCongestion := m in
          if (0 <? size lastsCongestion)%nat then Ret (send_last cfg lastsCongestion post) else Ret NothingToReport).

(** The control plane at the other end. *)
Definition last_receive (reached granted stored : bool) (ccfg : NodeConfig) (data : string) : http_end * list etcd_put :=
  if reached then let '(code, _, puts) := PostLastReceive granted stored ccfg (Some data) in (Answered code, puts) else (NoAnswer, []).

Lemma table_empty now records m :
  calculateLastCongestion now records = (keep_valid now records, Ret m) ->
  size m = 0%nat <-> keep_valid now records = [].
Proof.
  intros Hc. destruct (calculate_table now records) as (m' & Hc' & Hm). rewrite Hc in Hc'. injection Hc' as <-. rewrite map_size_empty_iff. split.
  - intros ->. destruct (keep_valid now records) as [|r l]; [done|]. specialize (Hm (r_City r)). rewrite lookup_empty in Hm.
    unfold city_rts in Hm. rewrite filter_cons_True in Hm by done. cbn in Hm. case_decide; [discriminate|done].
  - intros Hv. apply map_empty. intros city. rewrite Hm, Hv. done.
Qed.

(** A tick never panics.  It makes a request exactly when records are kept, and then it ends well whenever
    the statistics (with strings in valid UTF-8) can be serialised and the control plane is reached, even when the control plane fails to
    store them in etcd. *)
Theorem last_cycle cfg ccfg now records granted stored :
  (forall m, json_plain (SendLastTelemetry cfg m)) ->
  exists e, last_tick cfg now records (fun data => fst (last_receive true granted stored ccfg data)) = (keep_valid now records, Ret e) /\
    (e = NothingToReport <-> keep_valid now records = []) /\
    (e = LastReported \/ e = NotSerialised \/ e = NothingToReport).
Proof.
  intros Hpl. destruct (calculate_table now records) as (m & Hc & _). pose proof (table_empty _ _ _ Hc) as He. unfold last_tick. rewrite Hc. cbv beta iota delta [go_bind].
  destruct (0 <? size m)%nat eqn:Hs; [apply Nat.ltb_lt in Hs|apply Nat.ltb_ge in Hs]; (eexists; split; [reflexivity|]).
  - assert (Hne : keep_valid now records <> []) by (rewrite <- He; lia). unfold send_last.
    destruct (encode (SendLastTelemetry cfg m)) as [data|] eqn:Ee; [|by naive_solver].
    destruct (remarshal_ok _ _ (Hpl m) Ee) as (text & Hre & _ & Hdec). unfold last_receive, PostLastReceive. rewrite Hre, Hdec. cbn. naive_solver.
  - assert (Hv : keep_valid now records = []) by (apply He; lia). naive_solver.
Qed.
End Tick.
End LastReporter.

(** ** Start *)

Module PlaneStart.
Import ModuleConfig IPInfo IPService.

Local Open Scope Z_scope.

(** The goroutines and servers that [main] starts. *)
Inductive plane_action :=
| StartLastReporter (accessLog : string)
| StartSampler
| StartVMReporter
| StartProbes (controlHost : string) (cfg : Probing.Config)
| ServeIPInfo (port : string).

Definition second : Z := 1000000000.

(** Concurrency, timeout, interval and attempts; the buffer size is left at 0. *)
Definition plane_probes : Probing.Config := Probing.mkConfig 4 (2 * second) (5 * second) 5 0.

Section Main.
Context (parse_overrides : string -> option (gmap string ipOverride)) (parse_countries : string -> option (gmap string (string * string))).

(** [main]: the address tables it serves from, and what it starts; without a configuration nothing. *)
Definition plane_main (config : PlaneConfig + config_error) (db : option (string -> option (string * string * string))) (overrides countries : file) :
    option tables * list plane_action :=
  match config with
  | inr _ => (None, [])
  | inl c =>
      (Some (start_tables parse_overrides parse_countries db overrides countries),
       [StartLastReporter (AccessLog c); StartSampler; StartVMReporter; StartProbes (dc_ControlHost c) (Probing.with_defaults plane_probes);
        ServeIPInfo ":7082"])
  end.
End Main.
End PlaneStart.
