(* ===== verification/Api.v ===== *)
(** * The HTTP interfaces and the requests of the other programs

    The routers of the three programs with the handlers behind their routes, and the requests that the
    programs send to each other:
    - [ControlApi]: control-plane/main.go and the [Init...Router] functions of api/;
    - [PlaneApi], [ProxyApi]: the routers of data-plane/main.go and data-proxy/main.go with server-manager.go;
    - [Requests]: the URLs of server/routing.go, get-task.go, the two report.go and get-ip-info.go, and the
      route that a proxy fetches from the control plane. *)

From Stdlib Require Import ZArith Lia SpecFloat Ascii.
From stdpp Require Import base list gmap strings pretty sorting.
From S2P Require Import Prelude F64 GoStrings GoUrl Gin GoSort Graph ShortestPath KShortest LiveNet OneWan Carousel Stats EdgeDomain Routing Server Listeners ModuleConfig ControlPlane Telemetry DataPlane ControlStart.
Import Gin Http GoUrl.

(** A request as a handler sees it: the query and the body. *)
Record request (Body : Type) := mkRequest { query : string; body : Body }.
Arguments mkRequest {Body} query body.
Arguments query {Body} r.
Arguments body {Body} r.

(** [c.Query] *)
Definition c_Query {Body} (c : request Body) (key : string) : string := Query (query c) key.

(** Registers the last route of a router, or one before it. *)
Ltac routed := first [eapply serves_Handle; [eassumption|reflexivity|reflexivity|]; intros ? ? | eapply serves_last; [eassumption|reflexivity|reflexivity]].

Module ControlApi.
Import Graph Stats EdgeDomain LiveNet Routing ControlPlane.

Local Open Scope Z_scope.

Section Control.
Context `{GoMath} `{RangeMap} `{SS : SortSlice nodeScore score_less score_number} `{OneWan.Rand} `{Carousel.Chance} `{Codec Telemetry} `{Remarshal LastTelemetry}.
Context (GetIPInfo : string -> option (string * string * string)) (ParseFloat : string -> option float64).

(** The bodies of requests, and how they are bound to the types of the handlers ([None] is an error). *)
Context {Body : Type} (bind_ends : Body -> option (EndPoint * EndPoint)) (bind_multi : Body -> option (EndPoint * list EndPoint))
  (bind_report : Body -> option VMReport) (bind_last : Body -> option string).

(** What the handlers work on: the configuration, the targets and their order, the graph, the statistics,
    and what the clock, the id generator and etcd return. *)
Record control := mkControl {
  c_cfg : NodeConfig; c_targets : gmap Z SourceTarget; c_order : list SourceTarget; c_graph : GraphManager; c_stats : GlobalStats;
  c_now : Z; c_uuid : string; c_nodeMap : option (gmap string string); c_granted : bool; c_stored : bool
}.

(** The answers, with what is put into etcd. *)
Inductive answer :=
| Success
| Tasks (r : Z * list ProbeTask)
| Stored (r : Z * option (string * Z) * list etcd_put)
| StoredLast (r : Z * option nat * list etcd_put)
| Middle (r : go (Z * option routing_info))
| Paths (r : go (Z * option (list PathInfo))).

Definition control_handler : Type := control -> request Body -> answer.

Definition health : control_handler := fun _ _ => Success.
Definition h_GetProbeTasks : control_handler := fun s _ => Tasks (GetProbeTasks (c_cfg s) (c_order s) (c_nodeMap s)).
Definition h_PostVMReceive : control_handler := fun s c =>
  Stored (PostVMReceive (c_granted s) (c_stored s) (c_cfg s) (c_now s) (c_uuid s) (bind_report (body c))).
Definition h_PostLastReceive : control_handler := fun s c => StoredLast (PostLastReceive (c_granted s) (c_stored s) (c_cfg s) (bind_last (body c))).
Definition h_GetMiddleRoute : control_handler := fun s c =>
  Middle (GetMiddleRoute (c_targets s) (c_graph s) (bind_ends (body c)) (c_Query c "algorithm")).
Definition h_GetMiddleRouteMulti : control_handler := fun s c => Paths (GetMiddleRouteMulti (c_graph s) (bind_multi (body c)) (c_Query c "algorithm")).
Definition h_GetLastRoute : control_handler := fun s c =>
  Paths (GetLastRoute GetIPInfo ParseFloat (c_cfg s) (c_graph s) (c_stats s) (fst <$> bind_ends (body c)) (c_Query c "algorithm")
           (c_Query c "cpu_weight") (c_Query c "latency_weight")).

Context `{Gin control_handler}.

(** [InitNodeProbeRouter] *)
Definition InitNodeProbeRouter (router : engine) : go engine :=
  let apiV1 := joinPaths "/" "/api/v1" in
  let probeGroup := joinPaths apiV1 "/probe" in
  Handle router GET (joinPaths probeGroup "/tasks") h_GetProbeTasks.

(** [InitVmReceiveAPIRouter] *)
Definition InitVmReceiveAPIRouter (router : engine) : go engine :=
  let apiV1 := joinPaths "/" "/api/v1" in
  let vmGroup := joinPaths apiV1 "/vm" in
  Handle router POST (joinPaths vmGroup "/receive") h_PostVMReceive.

(** [InitLastReceiveAPIRouter] *)
Definition InitLastReceiveAPIRouter (router : engine) : go engine :=
  let apiV1 := joinPaths "/" "/api/v1" in
  Handle router POST (joinPaths apiV1 "/last/receive") h_PostLastReceive.

(** [InitUserRoutingRouter] *)
Definition InitUserRoutingRouter (router : engine) : go engine :=
  let apiV1 := joinPaths "/" "/api/v1" in
  let routingGroup := joinPaths apiV1 "/routing" in
  let! router := Handle router POST (joinPaths routingGroup "/middle") h_GetMiddleRoute in
  let! router := Handle router POST (joinPaths routingGroup "/middle/multi") h_GetMiddleRouteMulti in
  Handle router POST (joinPaths routingGroup "/last") h_GetLastRoute.

(** The router of [main]. *)
Definition control_router : go engine :=
  let! router := Handle New GET (joinPaths "/" "/health") health in
  let! router := InitNodeProbeRouter router in
  let! router := InitVmReceiveAPIRouter router in
  let! router := InitLastReceiveAPIRouter router in
  InitUserRoutingRouter router.

(** The interface of the control plane. *)
Definition control_routes : list (route (H := control_handler)) :=
  [(POST, "/api/v1/routing/last", h_GetLastRoute); (POST, "/api/v1/routing/middle/multi", h_GetMiddleRouteMulti);
   (POST, "/api/v1/routing/middle", h_GetMiddleRoute); (POST, "/api/v1/last/receive", h_PostLastReceive);
   (POST, "/api/v1/vm/receive", h_PostVMReceive); (GET, "/api/v1/probe/tasks", h_GetProbeTasks); (GET, "/health", health)].

(** Every registration succeeds, and the routes are those of the interface. *)
Lemma control_router_ok : exists e, control_router = Ret e /\ serves e control_routes.
Proof.
  unfold control_router, InitNodeProbeRouter, InitVmReceiveAPIRouter, InitLastReceiveAPIRouter, InitUserRoutingRouter.
  rewrite !joinPaths_root by reflexivity.
  rewrite !(joinPaths_static "/api/v1") by reflexivity. rewrite !joinPaths_static by reflexivity.
  pose proof serves_New as Hnew. do 4 routed. cbv beta zeta. repeat routed.
Qed.

(** A request to the control plane: [None] when it is not one for a route. *)
Definition control_serve (e : engine) (s : control) (m : method) (url : string) (b : Body) : option answer :=
  '(_, path, q) ← ParseURL url; h ← dispatch e m path; Some (h s (mkRequest q b)).
End Control.
End ControlApi.

(** ** The data plane *)

Module PlaneApi.
Import IPService.

Section Plane.
Context `{RangeMap} `{InfoJson}.

(** The health check and the address service. *)
Definition plane_handler : Type := tables -> request unit -> option (Z * text).

Definition plane_health : plane_handler := fun _ _ => None.
Definition h_getIPInfo : plane_handler := fun t c => Some (getIPInfoHandler t (c_Query c "ip")).

Context `{Gin plane_handler}.

(** The router of [main]. *)
Definition plane_router : go engine :=
  let! router := Handle New GET (joinPaths "/" "/health") plane_health in
  let ipGroup := joinPaths "/" "/ip" in
  Handle router GET (joinPaths ipGroup "/info") h_getIPInfo.

Definition plane_routes : list (route (H := plane_handler)) := [(GET, "/ip/info", h_getIPInfo); (GET, "/health", plane_health)].

Lemma plane_router_ok : exists e, plane_router = Ret e /\ serves e plane_routes.
Proof.
  unfold plane_router. rewrite !joinPaths_root by reflexivity. rewrite !joinPaths_static by reflexivity. pose proof serves_New as Hnew. repeat routed.
Qed.

(** The answer of the address service to a URL. *)
Definition plane_serve (e : engine) (t : tables) (url : string) : option (Z * text) :=
  '(_, path, q) ← ParseURL url; h ← dispatch e GET path; h t (mkRequest q ()).

(** [GetIPInfo] of the control plane with the URL that it asks for; [reached]: whether there is an answer.
    An answer that is not JSON is an error. *)
Definition ipinfo_url (ipLib ip : string) : string := ipLib +:+ "/ip/info?ip=" +:+ QueryEscape ip.

Definition http_GetIPInfo (reached : bool) (e : engine) (t : tables) (ipLib ip : string) : option Telemetry.IPInfo.IPInfoResult :=
  if String.eqb ip "" then None
  else if negb reached then None
  else '(_, b) ← plane_serve e t (ipinfo_url ipLib ip); decode_info b.

(** The client of the address service gets what the handler computes for exactly the address it asks
    for, whatever bytes the address has. *)
Lemma http_GetIPInfo_ok reached e t auth ip :
  plane_router = Ret e -> auth <> "" -> all_chars host_char auth = true ->
  http_GetIPInfo reached e t ("http://" +:+ auth) ip = client_GetIPInfo reached t ip.
Proof.
  intros He Hne Ha. destruct plane_router_ok as (e' & He' & Hs). rewrite He in He'. injection He' as <-.
  unfold http_GetIPInfo, client_GetIPInfo. destruct (String.eqb_spec ip "") as [|Hip]; [done|]. destruct reached; [|done]. cbn [negb].
  unfold plane_serve, ipinfo_url. rewrite append_assoc.
  change ("/ip/info?ip=" +:+ QueryEscape ip) with (String "/" "ip/info" +:+ String "?" ("ip=" +:+ QueryEscape ip)).
  rewrite ParseURL_built; [|done|done|reflexivity| |reflexivity|reflexivity|].
  - cbn [mbind option_bind]. rewrite Hs. change (find_route plane_routes GET "/ip/info") with (Some h_getIPInfo). cbn [mbind option_bind]. unfold h_getIPInfo, c_Query. cbn [query].
    change ("ip=" +:+ QueryEscape ip) with (Encode [("ip", ip)]). rewrite Query_Encode; [|done|by repeat constructor; apply plain_key_check].
    cbn [List.find fst String.eqb Ascii.eqb Bool.eqb fmap option_fmap option_map snd from_option]. unfold id. by destruct (getIPInfoHandler t ip).
  - rewrite all_chars_app, escaped_url_char. done.
  - rewrite has_char_app, QueryEscape_plain by done. done.
Qed.
End Plane.
End PlaneApi.

(** ** The proxy *)

Module ProxyApi.
Import Server Listeners.

Local Open Scope Z_scope.

(** The answers: the ports, or the new tables with the status; a stop can panic. *)
Inductive proxy_answer := Healthy | Ports (l : list Z) | Changed (r : go (servers * Z)).

(** Requests that run alone: the tables, what listening and closing return. *)
Definition proxy_handler : Type := servers -> option nat -> bool -> request unit -> proxy_answer.

Definition proxy_health : proxy_handler := fun _ _ _ _ => Healthy.
Definition tcp_start : proxy_handler := fun s listen _ c =>
  match start_check (c_Query c "port") (c_Query c "protocol") s with
  | inl code => Changed (Ret (s, code))
  | inr (port, pr) => Changed (Ret (start_bind port pr listen s))
  end.
Definition tcp_list : proxy_handler := fun s _ _ _ => Ports (list_ports s).
Definition tcp_stop : proxy_handler := fun s _ closeErr c => Changed (http_stop (c_Query c "port") (c_Query c "protocol") closeErr s).

Section Proxy.
Context `{Gin proxy_handler}.

(** [ServerManager] *)
Definition ServerManager (r : engine) : go engine :=
  let! r := Handle r POST (joinPaths "/" "/tcp/start") tcp_start in
  let! r := Handle r GET (joinPaths "/" "/tcp/list") tcp_list in
  Handle r DELETE (joinPaths "/" "/tcp/stop") tcp_stop.

Definition proxy_router : go engine :=
  let! router := Handle New GET (joinPaths "/" "/health") proxy_health in
  ServerManager router.

Definition proxy_routes : list (route (H := proxy_handler)) :=
  [(DELETE, "/tcp/stop", tcp_stop); (GET, "/tcp/list", tcp_list); (POST, "/tcp/start", tcp_start); (GET, "/health", proxy_health)].

Lemma proxy_router_ok : exists e, proxy_router = Ret e /\ serves e proxy_routes.
Proof. unfold proxy_router, ServerManager. rewrite !joinPaths_root by reflexivity. pose proof serves_New as Hnew. repeat routed. Qed.

Definition proxy_serve (e : engine) (s : servers) (listen : option nat) (closeErr : bool) (m : method) (url : string) : option proxy_answer :=
  '(_, path, q) ← ParseURL url; h ← dispatch e m path; Some (h s listen closeErr (mkRequest q ())).

(** A management request: start or stop the server of a port. *)
Definition port_params (port : Z) (pr : proto) : list (string * string) := [("port", Itoa port); ("protocol", match pr with TCP => "tcp" | UDP => "udp" end)].

(** The ports that can be written as a Go integer are read back from the URL: a start request is refused
    when the port is taken and else binds it, a stop request stops it, and the list is the ports of the table. *)
Theorem management_requests e auth s listen closeErr port pr :
  proxy_router = Ret e -> auth <> "" -> all_chars host_char auth = true -> 0 <= port < 2 ^ 63 ->
  proxy_serve e s listen closeErr POST (user_url auth "/tcp/start" (port_params port pr)) =
    Some (Changed (Ret (if default false (portMap s !! port) then (s, StatusConflict) else start_bind port pr listen s))) /\
  proxy_serve e s listen closeErr DELETE (user_url auth "/tcp/stop" (port_params port pr)) =
    Some (Changed (let! (s1, ok) := StopServer (ServerMap pr) port closeErr s in Ret (s1, if ok : bool then StatusOK else StatusInternalServerError))) /\
  proxy_serve e s listen closeErr GET ("http://" +:+ auth +:+ "/tcp/list") = Some (Ports (list_ports s)).
Proof.
  intros He Hne Ha Hp. destruct proxy_router_ok as (e' & He' & Hs). rewrite He in He'. injection He' as <-.
  assert (Hq : parse_query (Query (Encode (port_params port pr)) "port") (Query (Encode (port_params port pr)) "protocol") = Some (port, pr)).
  { rewrite !Query_Encode; [|done|repeat constructor; by apply plain_key_check|done|repeat constructor; by apply plain_key_check].
    unfold port_params. cbn [List.find fst String.eqb Ascii.eqb Bool.eqb fmap option_fmap option_map snd from_option]. unfold id, parse_query.
    pose proof (Atoi_Itoa port Hp) as Hat. destruct (String.eqb_spec (Itoa port) "") as [E|_]; [by rewrite E in Hat|]. rewrite Hat. by destruct pr. }
  split_and!; unfold proxy_serve.
  - rewrite ParseURL_user; [|done|done|done|repeat constructor|done|done|done]. cbn [mbind option_bind]. rewrite Hs.
    change (find_route proxy_routes POST "/tcp/start") with (Some tcp_start). cbn [mbind option_bind]. unfold tcp_start, c_Query, start_check. cbn [query]. rewrite Hq.
    by destruct (default false (portMap s !! port)).
  - rewrite ParseURL_user; [|done|done|done|repeat constructor|done|done|done]. cbn [mbind option_bind]. rewrite Hs.
    change (find_route proxy_routes DELETE "/tcp/stop") with (Some tcp_stop). cbn [mbind option_bind]. unfold tcp_stop, c_Query, http_stop. cbn [query]. by rewrite Hq.
  - rewrite ParseURL_plain by done. cbn [mbind option_bind]. rewrite Hs. done.
Qed.
End Proxy.
End ProxyApi.

(** ** Requests between the programs *)

Module Requests.
Import Graph Stats EdgeDomain LiveNet Routing ControlPlane ControlApi.

Local Open Scope Z_scope.

Definition middleRoutingURL : string := "/api/v1/routing/middle".
Definition TaskURL : string := "/api/v1/probe/tasks".
Definition ReportURL : string := "/api/v1/vm/receive".
Definition lastReceiveURL : string := "/api/v1/last/receive".

(** [fmt.Sprintf("%s?ip=%s", host+path, ip)]: the address is not escaped. *)
Definition with_ip (host path ip : string) : string := (host +:+ path) +:+ "?ip=" +:+ ip.

Definition routing_url (controlHost public : string) : string := with_ip controlHost middleRoutingURL public.
Definition report_url (controlHost public : string) : string := with_ip controlHost ReportURL public.
Definition last_url (controlHost public : string) : string := with_ip controlHost lastReceiveURL public.
Definition task_url (controlHost : string) : string := controlHost +:+ TaskURL.

(** [encoding/json] for the route request of a proxy and its answer.  Strings that are not UTF-8 are
    changed by the encoder ([coerce]), ASCII strings are not; numbers that JSON does not have cannot be encoded. *)
Class RouteJson (Body : Type) := {
  coerce : string -> string;
  coerce_ascii s : all_chars (fun c => (nat_of_ascii c <? 128)%nat) s = true -> coerce s = s;
  ends_body : string -> Z -> Body;
  bind_ends : Body -> option (EndPoint * EndPoint);
  bind_ends_body ip port : bind_ends (ends_body ip port) = Some (mkEnd (coerce ip) 0 "" "" "" "", mkEnd "" port "" "" "" "");
  answer_body : Z -> option (list PathInfo) -> option Body;
  decode_response : Body -> option Server.RoutingResponse;
  decode_answer_body code paths b : answer_body code paths = Some b ->
    decode_response b = Some (Server.mkResponse code ((fun p => Server.mkPath (coerce <$> Hops p) (Rtt p) (RawRTT p)) <$> default [] paths))
}.

Section Requests.
Context `{GoMath} `{RangeMap} `{SS : SortSlice nodeScore score_less score_number} `{OneWan.Rand} `{Carousel.Chance} `{Codec Telemetry} `{Remarshal LastTelemetry}.
Context (GetIPInfo : string -> option (string * string * string)) (ParseFloat : string -> option float64).
Context {Body : Type} `{RouteJson Body} (bind_multi : Body -> option (EndPoint * list EndPoint))
  (bind_report : Body -> option VMReport) (bind_last : Body -> option string).
Context `{Gin (control_handler (Body := Body))}.

Notation router := (control_router GetIPInfo ParseFloat bind_ends bind_multi bind_report bind_last).

(** The paths of an answer that is given. *)
Definition answer_paths (i : routing_info) : list PathInfo := match i with Routing.Routing paths => paths | Routing.NoAnswer => [] end.

(** The request in [GetRoutingFromControlPlane]: a response that is not the JSON of a route (an unknown
    path, the empty answer after a panic) is an error. *)
Definition fetch_route (reached : bool) (e : engine) (s : control) (controlHost public : string) (port : Z) : option Server.RoutingResponse :=
  if negb reached then None
  else match control_serve e s POST (routing_url controlHost public) (ends_body public port) with
       | Some (Middle (Ret (code, data))) => b ← answer_body code (answer_paths <$> data); decode_response b
       | _ => None
       end.

Context (e : engine) (He : router = Ret e) (auth public : string) (Hauth : auth <> "") (Hchars : all_chars host_char auth = true) (Hpublic : all_chars host_char public = true).

Lemma with_ip_parsed rest :
  all_chars url_char rest = true -> has_char "?" rest = false -> has_char "#" rest = false ->
  ParseURL (with_ip ("http://" +:+ auth) (String "/" rest) public) = Some (auth, String "/" rest, "ip=" +:+ public).
Proof.
  intros Hr Hq1 Hq2. unfold with_ip. rewrite !append_assoc. change ("?ip=" +:+ public) with (String "?" ("ip=" +:+ public)).
  apply ParseURL_built; try done.
  - by rewrite all_chars_app, (host_url_char _ Hpublic).
  - rewrite has_char_app, (all_chars_has host_char "#" public) by done. done.
Qed.

Lemma served s m url path q b h :
  ParseURL url = Some (auth, path, q) -> find_route (control_routes GetIPInfo ParseFloat bind_ends bind_multi bind_report bind_last) m path = Some h ->
  control_serve e s m url b = Some (h s (mkRequest q b)).
Proof.
  intros Hu Hf. destruct (control_router_ok GetIPInfo ParseFloat bind_ends bind_multi bind_report bind_last) as (e' & He' & Hs). rewrite He in He'. injection He' as <-.
  unfold control_serve. rewrite Hu. cbn [mbind option_bind]. by rewrite Hs, Hf.
Qed.

(** An address has no other parameters in it. *)
Lemma query_ip key : key <> "ip" -> Query ("ip=" +:+ public) key = "".
Proof.
  intros Hk. unfold Query, ParseQuery. rewrite Split_none by (rewrite has_char_app, (all_chars_has host_char "&" public) by done; done). cbn [omap list_omap].
  unfold parse_piece. change ("ip=" +:+ public) with ("ip" +:+ String "=" public). rewrite Cut_app by done.
  replace (String.eqb ("ip" +:+ String "=" public) "") with false by done.
  replace (has_char ";" ("ip" +:+ String "=" public)) with false by (rewrite (has_char_app _ "ip"), (has_char_cons _ _ public), (all_chars_has host_char ";" public) by done; done).
  change (QueryUnescape "ip") with (Some "ip"). destruct (QueryUnescape _) as [v|]; [|done]. cbn [List.find fst].
  by rewrite (proj2 (String.eqb_neq _ _) (not_eq_sym Hk)).
Qed.

(** Every request of another program reaches its handler, with the default algorithm. *)
Lemma requests_served s b :
  control_serve e s GET (task_url ("http://" +:+ auth)) b = Some (Tasks (GetProbeTasks (c_cfg s) (c_order s) (c_nodeMap s))) /\
  control_serve e s POST (report_url ("http://" +:+ auth) public) b =
    Some (Stored (PostVMReceive (c_granted s) (c_stored s) (c_cfg s) (c_now s) (c_uuid s) (bind_report b))) /\
  control_serve e s POST (last_url ("http://" +:+ auth) public) b = Some (StoredLast (PostLastReceive (c_granted s) (c_stored s) (c_cfg s) (bind_last b))) /\
  control_serve e s POST (routing_url ("http://" +:+ auth) public) b = Some (Middle (GetMiddleRoute (c_targets s) (c_graph s) (bind_ends b) "")).
Proof.
  split_and!.
  - erewrite served; [|unfold task_url; rewrite append_assoc; by apply ParseURL_plain|reflexivity]. done.
  - erewrite served; [|by apply with_ip_parsed|reflexivity]. done.
  - erewrite served; [|by apply with_ip_parsed|reflexivity]. done.
  - erewrite served; [|by apply with_ip_parsed|reflexivity]. unfold h_GetMiddleRoute, c_Query. cbn [query body]. by rewrite query_ip.
Qed.

Lemma public_coerced : coerce public = public.
Proof. apply coerce_ascii. revert Hpublic. apply all_chars_impl. apply all_ascii. vm_compute. reflexivity. Qed.


(** The documented example requests, sent to the control plane: the one between nodes asks for an algorithm
    that the code does not have and makes the handler panic; the one for the last mile gives the place of the
    client but no address, and is answered without a path. *)
Theorem documented_requests_fail s b ip source dest v :
  bind_ends b = Some (source, dest) -> c_targets s !! ep_Port dest = Some v -> ep_IP source = "" -> GetIPInfo "" = None ->
  control_serve e s POST (user_url auth "/api/v1/routing/middle" [("ip", ip); ("algorithm", "shortest")]) b = Some (Middle Panic) /\
  control_serve e s POST (user_url auth "/api/v1/routing/last"
    [("ip", ip); ("algorithm", "joint_cpu_latency"); ("cpu_weight", "0.5"); ("latency_weight", "0.5")]) b = Some (Paths (Ret (200, Some []))).
Proof.
  intros Hb Ht Hip Hno.
  split; (erewrite served; [|apply ParseURL_user; [done|done|done|repeat constructor|done|done|done]|reflexivity]).
  - unfold h_GetMiddleRoute, c_Query. cbn [query body]. rewrite Hb, Query_Encode; [|done|repeat constructor; by apply plain_key_check].
    cbn [GetMiddleRoute]. rewrite Ht. reflexivity.
  - unfold h_GetLastRoute, c_Query. cbn [query body]. rewrite Hb. cbn [fmap option_fmap option_map fst GetLastRoute].
    destruct (query_weights _ _ _ _) as [cw lw]. unfold LastRouting. rewrite Hip, Hno. reflexivity.
Qed.
(** C10. Every request that one program sends to another is answered by the handler meant for it: the probe
    tasks, the reports of a node and of its last mile and the route requests of a proxy by those of the control
    plane, under the URLs that the clients build, the route requests without an algorithm; and the address
    service of the data plane answers the control plane for exactly the address that it asks for, whatever bytes
    the address has.  The base URLs are http:// and a plain host, and the public address that the clients put into their paths is plain too. *)
Theorem requests_reach_handlers `{IPService.InfoJson} `{Gin PlaneApi.plane_handler} :
  exists p, PlaneApi.plane_router = Ret p /\
    (forall s b,
      control_serve e s GET (task_url ("http://" +:+ auth)) b = Some (Tasks (GetProbeTasks (c_cfg s) (c_order s) (c_nodeMap s))) /\
      control_serve e s POST (report_url ("http://" +:+ auth) public) b =
        Some (Stored (PostVMReceive (c_granted s) (c_stored s) (c_cfg s) (c_now s) (c_uuid s) (bind_report b))) /\
      control_serve e s POST (last_url ("http://" +:+ auth) public) b = Some (StoredLast (PostLastReceive (c_granted s) (c_stored s) (c_cfg s) (bind_last b))) /\
      control_serve e s POST (routing_url ("http://" +:+ auth) public) b = Some (Middle (GetMiddleRoute (c_targets s) (c_graph s) (bind_ends b) ""))) /\
    (forall reached t ip, PlaneApi.http_GetIPInfo reached p t ("http://" +:+ auth) ip = IPService.client_GetIPInfo reached t ip).
Proof.
  destruct PlaneApi.plane_router_ok as (p & Hp & _). exists p. split_and!; [done|exact requests_served|]. intros reached t ip. by apply PlaneApi.http_GetIPInfo_ok.
Qed.
End Requests.

(** ** Instances *)

(** Bodies as the values they encode. *)
Definition plain_json : RouteJson (string * Z + Z * list PathInfo).
Proof.
  refine {| coerce s := s; ends_body ip port := inl (ip, port);
            bind_ends b := match b with inl (ip, port) => Some (mkEnd ip 0 "" "" "" "", mkEnd "" port "" "" "" "") | inr _ => None end;
            answer_body code paths := Some (inr (code, default [] paths));
            decode_response b := match b with
                                 | inr (code, paths) => Some (Server.mkResponse code ((fun p => Server.mkPath (id <$> Hops p) (Rtt p) (RawRTT p)) <$> paths))
                                 | inl _ => None
                                 end |}; [done|done|].
  intros code paths b [= <-]. done.
Defined.

#[local] Existing Instances toy_math key_order slice_sort OneWan.seq_rand Carousel.no_chance tel_codec last_codec plain_json IPService.toy_json.
#[local] Instance last_remarshal : @Remarshal LastTelemetry last_codec := one_remarshal _.
#[local] Instance control_gin : Gin (control_handler (Body := string * Z + Z * list PathInfo)) := list_gin _.
#[local] Instance plane_gin : Gin PlaneApi.plane_handler := list_gin _.

Definition nobody (_ : string) : option (string * string * string) := None.

Definition sample_engine : engine (H := control_handler (Body := string * Z + Z * list PathInfo)) :=
  control_routes nobody (fun _ => None) bind_ends (fun _ => None) (fun _ => None) (fun _ => None).

Definition sample_control : control :=
  mkControl sample_cfg (LoadSourceTargets [mkST 9000 "aws" "10.0.0.9" 8080 "EU" "s1"]) []
    (foldl routing_watch (load_nodes ∅) [EPut "/routing-middle/10.0.0.1" "{}" true]) NewGlobalStats 0 "" None true true.

Lemma sample_watch_ok : Forall tel_ok (omap put_tel [EPut "/routing-middle/10.0.0.1" "{}" true]).
Proof. exact (Forall_cons_2 _ _ _ sample_tel_ok (Forall_nil_2 _)). Qed.


Lemma requests_reach_handlers_witness :
  control_serve sample_engine sample_control GET "http://10.0.0.2:7081/api/v1/probe/tasks" (inl ("", 0)) = Some (Tasks (500, [])).
Proof.
  destruct (requests_reach_handlers nobody (fun _ => None) (fun _ => None) (fun _ => None) (fun _ => None) sample_engine eq_refl "10.0.0.2:7081" "10.0.0.1"
    ltac:(discriminate) eq_refl eq_refl) as (p & _ & Hs & _).
  exact (proj1 (Hs sample_control (inl ("", 0)))).
Defined.

(** The body of the documented requests, for a control plane that knows the port. *)
Lemma documented_requests_fail_witness :
  control_serve sample_engine sample_control POST "http://10.0.0.2:7081/api/v1/routing/middle?ip=10.1.1.1&algorithm=shortest" (inl ("", 9000)) = Some (Middle Panic).
Proof.
  exact (proj1 (documented_requests_fail nobody (fun _ => None) (fun _ => None) (fun _ => None) (fun _ => None) sample_engine eq_refl "10.0.0.2:7081"
    ltac:(discriminate) eq_refl sample_control (inl ("", 9000)) "10.1.1.1" (mkEnd "" 0 "" "" "" "") (mkEnd "" 9000 "" "" "" "")
    (mkST 9000 "aws" "10.0.0.9" 8080 "EU" "s1") eq_refl ltac:(vm_compute; reflexivity) eq_refl eq_refl)).
Defined.
End Requests.
